(* ===== verification/_CoqProject ===== *)
-Q . S2P
Prelude.v
Jni.v
ZapHeader.v
ZapBufferFlush.v
ZapFileFlush.v
ZapBuffer.v
ZapNative.v
Comm.v
HawkGuard.v
HawkPrivate.v
HawkSignals.v
HawkDumper.v
HawkUnwinder.v
HawkDaemon.v
HawkNative.v
Caps.v
UwBase.v
UwDwarfMemory.v
UwMemory.v
UwMaps.v
UwSymbols.v
UwDwarfOp.v
UwDwarfCfa.v
UwDwarfEval.v
UwDwarfSection.v
UwDwarfLog.v
UwDwarfFormat.v
UwCfaTable.v
UwCfaSection.v
UwCfaStep.v
UwEhFrameHdr.v
UwCfaHdr.v
UwRegs.v
UwRegsLocal.v
UwArmExidx.v
UwArmLog.v
UwElfInterface.v
UwElfArm.v
UwElf.v
UwBacktrace.v
UwStackWalk.v
HawkReport.v
UwUnwinder.v
UwOffline.v
UwTools.v
