(* ===== verification/Prelude.v ===== *)
(** * Dolin: a verification development of its native libraries

    Dolin is an application-performance toolkit for Android.  Its native code has
    four libraries, and this development models all of them, in Rocq functions on
    explicit state, together with the vendored libunwindstack, its driver and its tools.

    ** The program

    - library_zap keeps the log of an application in a mapped file, so that a crash
      loses nothing: a header ([BufferHeader]) in front of the pending bytes
      ([Buffer]), chunks copied out of it ([BufferFlush]) and a background thread that
      appends the chunks to the log file ([FileFlush]).  zap.cpp is what Java calls.
    - library_hawkeye catches native crashes.  In the crashing process a signal
      handler ([HawkeyeCore]) sends a message over a socket to a daemon in another
      process ([HawkeyeDaemon]), which attaches to the threads of the crashed one,
      writes a report (DumperUtils, [Unwinder], the helpers of hawkeye_private.cpp)
      into a mapped buffer ([MmapGuard]), flushes it and answers.
    - library_comm dispatches a method name to a device-information getter.
    - library_caps is a JVMTI agent that describes stack traces.
    - libunwindstack (under library_hawkeye's external/) finds the map of a pc ([Maps]), reads
      the ELF file behind it ([MapInfo], [Elf], [ElfInterface]), names its function
      ([Symbols]) and steps to the caller: over a signal frame ([Regs]), by DWARF call frame
      information ([DwarfSection], [DwarfCfa], [DwarfOp]) or by ARM exception tables
      ([ArmExidx]).  All of them read through [Memory].  [Unwinder] drives this for a whole
      stack; the daemon does not use it (it has a driver of its own), the tools do, which also
      print the unwind information of a file and save a process for unwinding it elsewhere.

    ** Files and what they model

    Prelude: faults and the [outcome] monad, machine widths, blocks of memory, C
    strings, tactics and hints.

    - Jni: the registration of native methods the libraries share, and the native methods the
      Java classes declare.
    - ZapHeader: zap_buffer_header.{h,cpp}, module [BufferHeader].
    - ZapBufferFlush: zap_buffer_flush.{h,cpp}, module [BufferFlush].
    - ZapFileFlush: zap_file_flush.{h,cpp}, module [FileFlush]: the thread, its mutex,
      its condition variable and [join] as the step relation [step].
    - ZapBuffer: zap_buffer.{h,cpp}, module [Buffer]; zlib is the class [ZLib].
    - ZapNative: zap.cpp, module [ZapNative].
    - Comm: comm.cpp, device_info_util.cpp and string_util.cpp.
    - HawkGuard: guard/file_guard.cpp and guard/mmap_guard.cpp.
    - HawkPrivate: hawkeye_private.cpp.
    - HawkSignals: hawkeye_signal_utils.cpp and hawkeye_core.cpp.
    - HawkDumper: hawkeye_dumper_utils.cpp.
    - HawkUnwinder: hawkeye_unwinder.cpp; its calls into libunwindstack are the class
      [Unwindstack].
    - HawkDaemon: hawkeye_daemon.cpp.
    - HawkNative: hawkeye.cpp, the native methods of the crash handler over HawkSignals,
      HawkDaemon and HawkGuard.
    - Caps: terminator.cpp, zege.cpp, clz_prepare.cpp and zege_drive.cpp; the JVMTI
      environment is the class [Jvmti].
    - UwBase: android-base/stringprintf.cpp and android-base/unique_fd.h.
    - UwDwarfMemory: DwarfMemory.{h,cpp} and DwarfEncoding.h.
    - UwMemory: Memory.{h,cpp}: buffers, ranges, mapped files, dumps and the memory of
      the own and of another process.
    - UwMaps: Maps.{h,cpp} and the data of MapInfo.h.
    - UwSymbols: Symbols.{h,cpp}.
    - UwDwarfOp: DwarfOp.{h,cpp} and RegsInfo.h.
    - UwDwarfCfa: DwarfCfa.{h,cpp}, DwarfLocation.h and DwarfStructs.h.
    - UwDwarfEval: the part of DwarfSection.cpp that applies the rules of a row to the
      registers.
    - UwDwarfSection: the rest of DwarfSection.cpp, DwarfEhFrame.h; UwDwarfFormat has the
      format of CIEs and FDEs and the theorems about reading them; UwDwarfLog: the dumps of
      DwarfCfa.cpp, DwarfOp.cpp and DwarfSection.cpp, and Log.cpp.
    - UwCfaTable, UwCfaSection and UwCfaStep: the tables of DWARF as the specification of these
      three, with the encodings of call frame instructions, and the theorems for one program, for
      a section and for stepping.
    - UwEhFrameHdr: DwarfEhFrameWithHdr.{h,cpp}; UwCfaHdr: stepping with a search table.
    - UwArmExidx: ArmExidx.{h,cpp}, executing and printing; UwArmLog relates the two.
    - UwRegs: Regs.cpp, Regs{Arm,Arm64,X86,X86_64}.cpp and the layouts of Machine*.h,
      User*.h and Ucontext*.h; UwRegsLocal: RegsGetLocal.h and AsmGetRegs*.S, which store the
      registers of the own thread, as lists of instructions.
    - UwElfInterface: ElfInterface.{h,cpp}; UwElfArm: ElfInterfaceArm.{h,cpp}.
    - UwElf: Elf.{h,cpp} and MapInfo.{h,cpp}.
    - UwBacktrace: the class [Unwindstack] built from UwMaps, UwElf and UwRegs, which is what the
      calls of hawkeye_unwinder.cpp reach; UwStackWalk: the stack walk as a specification of the
      two, and the theorem that composes the components.
    - HawkReport: HawkDaemon on UwBacktrace, the contents of the crash file.
    - UwUnwinder: Unwinder.{h,cpp} over the class [Stepping], with an instance built from the
      same models.
    - UwOffline: tools/unwind_for_offline.cpp, over a store of files.
    - UwTools: tools/unwind.cpp, unwind_reg_info.cpp, unwind_info.cpp and unwind_symbols.cpp.

    ** How code becomes definitions

    A class is a record of its members and a function per method that takes and
    returns it.  A function that C++ may leave undefined returns [outcome]: [Ok] with
    the result, or [Fault] with the kind of undefined behaviour or abort.  A pointer
    into a block is an offset, every load and store is bounds-checked
    ([mem_read], [mem_write]), a null pointer is [None].  Integers are [Z] with the
    wrap-around of their type written out ([szw] for [size_t], [u32], [u64], [swrap]);
    the width of [size_t] is the class [Arch] with instances [LP64] and [ILP32], the
    width of libunwindstack's AddressType the class [AddressType].  What the system
    answers (files, sockets, ptrace, properties, clocks, malloc) is an argument of the
    functions that ask.  Uninitialised memory is an arbitrary argument as well.

    ** What the theorems show

    - zap: the mapped header is read back as written (C35) and what a crash leaves in
      the mapping determines the pending log (C10); compressed appending stays inside the
      block (C36); a session is an append-only stream (C1); the writer thread neither
      loses nor duplicates a chunk in any interleaving (C2), and ends when it is stopped
      awake (C37).  Against these stands a lost wake-up (C38).
    - hawkeye: the report buffer is an append-only text (C3), also behind the handles Java
      holds (C23), and what native calls leave behind is counted (C24); the crash message
      survives the socket (C7); a report detaches from every thread (C8); the handler follows
      its protocol (C9); unwinding ends (C40).  C39 shows a line that is too long.
    - hawkeye on libunwindstack: the backtraces of the report are the stack walks that the maps, the
      libraries, their DWARF tables and their symbols define, from the bytes of the process to the
      lines, for one thread after the other (C5); the crash file that the daemon leaves has them
      behind its headers (C4).
    - libunwindstack, from a pc to its unwind information: the maps file and its lines (C34,
      C33), the exception index (C26), the cache of files (C27), the names of functions (C29); a
      backtrace leaves all this as it was found (C25).
    - libunwindstack, from a frame to its caller: stepping with an .eh_frame section, from its bytes
      to the registers, computes what the DWARF table defines (C6); the rules of a row, expressions
      included, are a simultaneous assignment (C28); coverage and termination of the call frame
      interpreter (C14, C15); stack safety, bounded evaluation and range of DWARF expressions (C11 to C13); safety
      and termination of the ARM tables (C16, C17); signal frames and the registers of a
      thread (C30, C31); exact reads of another process (C32).
    - the driver and the tools: the driver ends within its limit of frames (C18); a saved
      process is read back (C19); the dumps follow the interpreters, of call frame
      instructions (C20) and of ARM unwind instructions (C21), and are defined without
      registers and memory (C22).

    Theorems without a number record further behaviour of single operations, several
    of them defects.

    ** Bounds and fuel

    [DwarfOp.Eval] stops after a thousand operations as the code does; [run] is the
    unbounded semantics it is compared with.  [ArmExidx.Eval] has one step of fuel per
    instruction byte and one more, enough by C16.  [DwarfCfa.GetLocationInfo] takes
    its fuel as an argument: C15 says how much is enough, and [block_length_hangs] is
    the input for which none is.  The LEB128 loop needs at most one step per byte of a
    64-bit value and faults on longer ones.  [read_loop] of ReadFile has one step per
    byte of the buffer, enough by [read_file_spec].  The loops of UwMemory and UwMaps have one
    step per byte they read, [bsearch] one per element.  Socket loops run over the list of
    events.  The binary searches of UwEhFrameHdr and UwElfArm have 65 rounds, enough for 2^64
    entries.  The loops over sections, symbol tables and strings of UwDwarfSection, UwSymbols
    and UwElfInterface take their fuel as an argument; the theorems say how much is enough, and
    [zero_entry_size_scans_forever] is an input for which none is.  The dumps of UwDwarfLog need
    one round per byte ([log_info_terminates]), or, for a block length that wraps around, more
    than any ([dump_hangs]); the driver one round per frame (C18) unless maps are skipped
    ([skipped_maps_loop]).

    ** Not modelled

    jvmti.h and log_main.h, which only declare; the headers JitDebug.h and DexFiles.h that
    Unwinder.h includes are not in the repository (their answers are members of [Stepping]);
    tests and the Java side but for the native methods it declares.  [Buffer]'s recursive mutex
    is held by each operation throughout, so that operations are atomic; so are the locks of
    [Elf] and [MapInfo]. *)

From Stdlib Require Export ZArith Lia.
From Stdlib Require Ascii.
From stdpp Require Export base list option relations gmap strings sorting.

#[global] Open Scope Z_scope.

(** ** Faults: the ways a C++ operation can leave defined behaviour *)

Inductive fault : Type :=
| OutOfBounds        (** an access outside the object it was derived from *)
| NullDeref          (** a null pointer was dereferenced *)
| BadPtrDiff         (** subtraction of pointers into different objects *)
| UseAfterFree       (** an object was used after it was deleted *)
| BadAlloc           (** a size that cannot be represented was requested *)
| CheckFailed        (** a CHECK() of libunwindstack failed: the process aborts *)
| BadShift           (** a shift by the width of its operand or more *)
| SignedOverflow     (** a signed operation left the range of its type *)
| Unterminated       (** a C string without its terminator was read *)
| Aborted            (** the program called abort() *)
| BadCast            (** an object was used as one of another class *)
| OutOfFuel.         (** the fuel of a modelled loop is used up: no behaviour of the code *)

#[global] Instance fault_eq_dec : EqDecision fault.
Proof. solve_decision. Defined.

Inductive outcome (A : Type) : Type :=
| Ok (a : A)
| Fault (f : fault).
Arguments Ok {A} a.
Arguments Fault {A} f.

#[global] Instance outcome_ret : MRet outcome := fun A a => Ok a.
#[global] Instance outcome_bind : MBind outcome := fun A B f m =>
  match m with Ok a => f a | Fault e => Fault e end.
#[global] Instance outcome_fmap : FMap outcome := fun A B f m =>
  match m with Ok a => Ok (f a) | Fault e => Fault e end.

Definition is_Ok {A} (o : outcome A) : Prop := exists a, o = Ok a.

Definition of_option {A} (f : fault) (o : option A) : outcome A :=
  match o with Some a => Ok a | None => Fault f end.

Lemma bind_Ok_inv {A B} (m : outcome A) (f : A -> outcome B) b :
  m ≫= f = Ok b -> exists a, m = Ok a /\ f a = Ok b.
Proof. destruct m; cbn; [eauto | discriminate]. Qed.

Lemma bind_Ok {A B} (a : A) (f : A -> outcome B) : Ok a ≫= f = f a.
Proof. reflexivity. Qed.

(** [ok_inv] peels the binds of a hypothesis [_ = Ok _]. *)
Ltac ok_inv :=
  repeat match goal with
  | H : (_ ≫= _) = Ok _ |- _ =>
      let a := fresh "a" in let Ha := fresh "Ha" in
      apply bind_Ok_inv in H as (a & Ha & H)
  | H : Ok _ = Ok _ |- _ => injection H; clear H; intros; subst
  | H : Fault _ = Ok _ |- _ => discriminate H
  | H : mret _ = Ok _ |- _ => cbv [mret outcome_ret] in H
  end.

(** ** Machine integers

    An unsigned [w]-bit integer is a [Z] in [0, 2^w); [uwrap w] is the
    reduction the C++ arithmetic performs, [swrap w] the two's complement
    reading of the same bits ([static_cast] to the signed type). *)

Definition uwrap (w z : Z) : Z := z mod 2 ^ w.
Definition swrap (w z : Z) : Z := (z + 2 ^ (w - 1)) mod 2 ^ w - 2 ^ (w - 1).

Abbreviation u8 := (uwrap 8).
Abbreviation u16 := (uwrap 16).
Abbreviation u32 := (uwrap 32).
Abbreviation u64 := (uwrap 64).

Definition in_u (w z : Z) : Prop := 0 <= z < 2 ^ w.

Lemma uwrap_range w z : 0 <= w -> in_u w (uwrap w z).
Proof. intros. apply Z.mod_pos_bound. lia. Qed.

Lemma uwrap_small w z : in_u w z -> uwrap w z = z.
Proof. apply Z.mod_small. Qed.

Lemma uwrap_idemp w z : 0 <= w -> uwrap w (uwrap w z) = uwrap w z.
Proof. intros. apply uwrap_small, uwrap_range; lia. Qed.

Lemma swrap_range w z : 0 < w -> - 2 ^ (w - 1) <= swrap w z < 2 ^ (w - 1).
Proof.
  intros Hw. unfold swrap.
  pose proof (Z.mod_pos_bound (z + 2 ^ (w - 1)) (2 ^ w) ltac:(lia)).
  replace (2 ^ w) with (2 * 2 ^ (w - 1)) in *; [lia|].
  rewrite <- Z.pow_succ_r by lia. f_equal; lia.
Qed.

Lemma swrap_small w z : 0 < w -> - 2 ^ (w - 1) <= z < 2 ^ (w - 1) -> swrap w z = z.
Proof.
  intros Hw Hz. unfold swrap. rewrite Z.mod_small; [lia|].
  replace (2 ^ w) with (2 * 2 ^ (w - 1)); [lia|].
  rewrite <- Z.pow_succ_r by lia. f_equal; lia.
Qed.

Lemma uwrap_swrap w z : 0 < w -> uwrap w (swrap w z) = uwrap w z.
Proof.
  intros Hw. unfold uwrap, swrap.
  rewrite Zminus_mod_idemp_l. f_equal. lia.
Qed.

Lemma swrap_uwrap w z : 0 < w -> swrap w (uwrap w z) = swrap w z.
Proof. intros. unfold swrap, uwrap. by rewrite Zplus_mod_idemp_l. Qed.

(** ** The width of [size_t]

    Dolin is built for 32-bit and 64-bit Android ABIs; [sizeof(size_t)] is a
    parameter of the models that depend on it. *)

Class Arch : Type := {
  sizeof_size_t : nat;
  sizeof_size_t_cases : sizeof_size_t = 4%nat \/ sizeof_size_t = 8%nat
}.

Definition LP64 : Arch := {| sizeof_size_t := 8; sizeof_size_t_cases := or_intror eq_refl |}.
Definition ILP32 : Arch := {| sizeof_size_t := 4; sizeof_size_t_cases := or_introl eq_refl |}.

Section SizeT.
Context {A : Arch}.

Definition szc : Z := Z.of_nat sizeof_size_t.
Definition size_bits : Z := 8 * szc.
Definition szw (z : Z) : Z := uwrap size_bits z.
Definition in_size (z : Z) : Prop := in_u size_bits z.

Lemma szc_cases : szc = 4 \/ szc = 8.
Proof. unfold szc. destruct sizeof_size_t_cases as [-> | ->]; lia. Qed.

Lemma size_bits_pos : 0 < size_bits.
Proof. unfold size_bits. destruct szc_cases as [-> | ->]; lia. Qed.

Lemma size_bits_ge : 2 ^ 32 <= 2 ^ size_bits.
Proof. unfold size_bits. destruct szc_cases as [-> | ->]; cbn; lia. Qed.

Lemma szw_small z : in_size z -> szw z = z.
Proof. apply uwrap_small. Qed.

Lemma szw_range z : in_size (szw z).
Proof. apply uwrap_range. pose proof size_bits_pos; lia. Qed.
End SizeT.

(** ** Bytes and little-endian integers *)

Definition is_byte (b : Z) : Prop := 0 <= b < 256.
Abbreviation bytes_ok := (Forall is_byte).

Fixpoint le_bytes (n : nat) (z : Z) : list Z :=
  match n with
  | O => []
  | S n => z mod 256 :: le_bytes n (z / 256)
  end.

Fixpoint le_val (l : list Z) : Z :=
  match l with
  | [] => 0
  | b :: l => b + 256 * le_val l
  end.

Lemma length_le_bytes n z : length (le_bytes n z) = n.
Proof. revert z; induction n; intros; cbn; auto. Qed.

Lemma le_bytes_ok n z : bytes_ok (le_bytes n z).
Proof.
  revert z; induction n; intros; cbn; constructor; auto.
  apply Z.mod_pos_bound; lia.
Qed.

Lemma le_val_bytes n z : le_val (le_bytes n z) = z mod 2 ^ (8 * Z.of_nat n).
Proof.
  revert z; induction n as [|n IH]; intros z; cbn [le_bytes le_val].
  - by rewrite Z.mod_1_r.
  - rewrite IH. replace (8 * Z.of_nat (S n)) with (8 + 8 * Z.of_nat n) by lia.
    rewrite Z.pow_add_r by lia. change (2 ^ 8) with 256.
    rewrite (Z.rem_mul_r z 256) by lia. reflexivity.
Qed.

Lemma le_val_bound l : bytes_ok l -> 0 <= le_val l < 2 ^ (8 * Z.of_nat (length l)).
Proof.
  induction 1 as [|b l Hb _ IH]; cbn [le_val length]; [lia|].
  replace (8 * Z.of_nat (S (length l))) with (8 + 8 * Z.of_nat (length l)) by lia.
  rewrite Z.pow_add_r by lia. change (2 ^ 8) with 256. unfold is_byte in Hb. lia.
Qed.

Lemma le_bytes_val l : bytes_ok l -> le_bytes (length l) (le_val l) = l.
Proof.
  induction 1 as [|b l Hb _ IH]; cbn [le_val length le_bytes]; [done|].
  unfold is_byte in Hb. f_equal.
  - rewrite (Z.mul_comm 256), Z.mod_add, Z.mod_small; lia.
  - rewrite (Z.mul_comm 256), Z.div_add, Z.div_small; [|lia|lia]. exact IH.
Qed.

Lemma le_val_app a b : le_val (a ++ b) = le_val a + 2 ^ (8 * Z.of_nat (length a)) * le_val b.
Proof.
  induction a as [|x a IH]; cbn [le_val app length]; [lia|]. rewrite IH.
  replace (8 * Z.of_nat (S (length a))) with (8 + 8 * Z.of_nat (length a)) by lia.
  rewrite Z.pow_add_r by lia. change (2 ^ 8) with 256. lia.
Qed.

Lemma le_val_size {A : Arch} z : in_size z -> le_val (le_bytes sizeof_size_t z) = z.
Proof. intros Hz. rewrite le_val_bytes. by apply Z.mod_small. Qed.

(** ** Blocks of memory

    A block (an array, a mapping) is the list of its bytes; [mem_read] and
    [mem_write] are the [memcpy]s out of and into it, which fault outside it. *)

Definition blen (m : list Z) : Z := Z.of_nat (length m).

Definition slice (off len : Z) (m : list Z) : list Z :=
  take (Z.to_nat len) (drop (Z.to_nat off) m).

Definition splice (off : Z) (bs m : list Z) : list Z :=
  take (Z.to_nat off) m ++ bs ++ drop (Z.to_nat off + length bs) m.

Definition in_block (m : list Z) (off len : Z) : bool :=
  (0 <=? off) && (0 <=? len) && (off + len <=? blen m).

Definition mem_read (m : list Z) (off len : Z) : outcome (list Z) :=
  if in_block m off len then Ok (slice off len m) else Fault OutOfBounds.

Definition mem_write (m : list Z) (off : Z) (bs : list Z) : outcome (list Z) :=
  if in_block m off (blen bs) then Ok (splice off bs m) else Fault OutOfBounds.

Definition zeros (n : Z) : list Z := replicate (Z.to_nat n) 0.

Lemma blen_nonneg m : 0 <= blen m.
Proof. unfold blen; lia. Qed.

Lemma blen_app a b : blen (a ++ b) = blen a + blen b.
Proof. unfold blen. rewrite length_app. lia. Qed.

Lemma blen_cons x a : blen (x :: a) = 1 + blen a.
Proof. unfold blen. cbn [length]. lia. Qed.

Lemma blen_nil : blen [] = 0.
Proof. reflexivity. Qed.

Lemma blen_le_bytes n z : blen (le_bytes n z) = Z.of_nat n.
Proof. unfold blen. by rewrite length_le_bytes. Qed.

Lemma blen_zeros n : 0 <= n -> blen (zeros n) = n.
Proof. intros. unfold blen, zeros. rewrite length_replicate. lia. Qed.

Lemma take_blen m : take (Z.to_nat (blen m)) m = m.
Proof. unfold blen. by rewrite Nat2Z.id, take_ge. Qed.

Lemma zeros_app a b : 0 <= a -> 0 <= b -> zeros (a + b) = zeros a ++ zeros b.
Proof. intros. unfold zeros. by rewrite Z2Nat.inj_add, replicate_add. Qed.

Lemma zeros_S n : 0 < n -> zeros n = 0 :: zeros (n - 1).
Proof.
  intros Hn. unfold zeros. replace (Z.to_nat n) with (S (Z.to_nat (n - 1))) by lia. done.
Qed.

Lemma in_block_true m off len :
  in_block m off len = true <-> 0 <= off /\ 0 <= len /\ off + len <= blen m.
Proof. unfold in_block. rewrite !andb_true_iff, !Z.leb_le. tauto. Qed.

Lemma in_block_false m off len :
  in_block m off len = false <-> off < 0 \/ len < 0 \/ blen m < off + len.
Proof. unfold in_block. rewrite !andb_false_iff, !Z.leb_gt. tauto. Qed.

Lemma blen_slice off len m :
  0 <= off -> 0 <= len -> off + len <= blen m -> blen (slice off len m) = len.
Proof.
  unfold blen, slice. intros. rewrite length_take, length_drop. lia.
Qed.

Lemma blen_splice off bs m :
  0 <= off -> off + blen bs <= blen m -> blen (splice off bs m) = blen m.
Proof.
  unfold blen, splice. intros. rewrite !length_app, length_take, length_drop. lia.
Qed.

(** The two workhorses: a read or write of the middle of a concatenation. *)
Lemma mem_read_app a b c off len :
  off = blen a -> len = blen b -> mem_read (a ++ b ++ c) off len = Ok b.
Proof.
  intros -> ->. unfold mem_read.
  rewrite (proj2 (in_block_true _ _ _)).
  2: { rewrite !blen_app. pose proof (blen_nonneg a); pose proof (blen_nonneg b);
       pose proof (blen_nonneg c). lia. }
  f_equal. unfold slice, blen. rewrite !Nat2Z.id.
  by rewrite drop_app_length, take_app_length.
Qed.

Lemma mem_write_app a b b' c off :
  off = blen a -> length b' = length b ->
  mem_write (a ++ b ++ c) off b' = Ok (a ++ b' ++ c).
Proof.
  intros -> Hb. unfold mem_write.
  rewrite (proj2 (in_block_true _ _ _)).
  2: { rewrite !blen_app. unfold blen. lia. }
  f_equal. unfold splice, blen. rewrite !Nat2Z.id, take_app_length.
  rewrite Hb, (app_assoc a b c), <- length_app, drop_app_length. done.
Qed.

Lemma mem_read_at a b c m off len :
  m = a ++ b ++ c -> off = blen a -> len = blen b -> mem_read m off len = Ok b.
Proof. intros ->. apply mem_read_app. Qed.

Lemma mem_write_at a b b' c m off :
  m = a ++ b ++ c -> off = blen a -> blen b' = blen b ->
  mem_write m off b' = Ok (a ++ b' ++ c).
Proof. intros -> ? ?. apply mem_write_app; [done|]. unfold blen in *. lia. Qed.

Lemma mem_read_Ok_inv m off len bs :
  mem_read m off len = Ok bs ->
  0 <= off /\ 0 <= len /\ off + len <= blen m /\ bs = slice off len m.
Proof.
  unfold mem_read. destruct (in_block m off len) eqn:E; [|discriminate].
  apply in_block_true in E. intros [= <-]. tauto.
Qed.

Lemma mem_write_Ok_inv m off bs m' :
  mem_write m off bs = Ok m' ->
  0 <= off /\ off + blen bs <= blen m /\ m' = splice off bs m.
Proof.
  unfold mem_write. destruct (in_block m off (blen bs)) eqn:E; [|discriminate].
  apply in_block_true in E. intros [= <-]. tauto.
Qed.

Lemma mem_write_Ok m off bs :
  0 <= off -> off + blen bs <= blen m -> mem_write m off bs = Ok (splice off bs m).
Proof.
  intros. unfold mem_write. rewrite (proj2 (in_block_true _ _ _)); [done|].
  pose proof (blen_nonneg bs). lia.
Qed.

Lemma mem_read_Ok m off len :
  0 <= off -> 0 <= len -> off + len <= blen m -> mem_read m off len = Ok (slice off len m).
Proof. intros. unfold mem_read. by rewrite (proj2 (in_block_true _ _ _)). Qed.

Lemma slice_splice_same off bs m :
  0 <= off -> off + blen bs <= blen m -> slice off (blen bs) (splice off bs m) = bs.
Proof.
  intros H1 H2. unfold slice, splice.
  assert (Z.to_nat off = length (take (Z.to_nat off) m)) as Hl
    by (rewrite length_take; unfold blen in *; lia).
  rewrite drop_app_length' by done. unfold blen. by rewrite Nat2Z.id, take_app_length.
Qed.

Lemma split_at (m : list Z) (n : Z) :
  0 <= n <= blen m -> exists a b, m = a ++ b /\ blen a = n.
Proof.
  intros Hn. exists (take (Z.to_nat n) m), (drop (Z.to_nat n) m).
  rewrite take_drop. split; [done|]. unfold blen in *. rewrite length_take. lia.
Qed.

Lemma split_mid (m : list Z) (off len : Z) :
  0 <= off -> 0 <= len -> off + len <= blen m ->
  exists a b c, m = a ++ b ++ c /\ blen a = off /\ blen b = len.
Proof.
  intros H1 H2 H3. destruct (split_at m off) as (a & r & -> & Ha); [lia|].
  rewrite blen_app in H3. destruct (split_at r len) as (b & c & -> & Hb); [lia|]. eauto 10.
Qed.

(** ** C strings

    [cstr m] is the string at the start of block [m], [None] when the block has
    no terminator. *)

Fixpoint cstr (m : list Z) : option (list Z) :=
  match m with
  | [] => None
  | b :: m => if b =? 0 then Some [] else cons b <$> cstr m
  end.

Definition strlen (m : list Z) : outcome Z :=
  match cstr m with Some s => Ok (blen s) | None => Fault Unterminated end.

Definition no_nul (s : list Z) : Prop := Forall (fun b => b <> 0) s.

Lemma cstr_app s r : no_nul s -> cstr (s ++ 0 :: r) = Some s.
Proof.
  induction 1 as [|b s Hb _ IH]; cbn; [done|].
  destruct (Z.eqb_spec b 0); [done|]. cbn in IH. by rewrite IH.
Qed.

Lemma cstr_no_nul m s : cstr m = Some s -> no_nul s.
Proof.
  revert s. induction m as [|b m IH]; intros s; cbn; [done|].
  destruct (Z.eqb_spec b 0); [by intros [= <-]; constructor|].
  destruct (cstr m); [|done]. intros [= <-]. constructor; [done|]. by apply IH.
Qed.

Lemma cstr_None s : no_nul s -> cstr s = None.
Proof.
  induction 1 as [|b s Hb _ IH]; cbn; [done|].
  destruct (Z.eqb_spec b 0); [done|]. by rewrite IH.
Qed.

Lemma strlen_app s r : no_nul s -> strlen (s ++ 0 :: r) = Ok (blen s).
Proof. intros. unfold strlen. by rewrite cstr_app. Qed.

(** The bytes of a string literal (without its terminator). *)
Fixpoint str (s : string) : list Z :=
  match s with
  | EmptyString => []
  | String c s => Z.of_N (Ascii.N_of_ascii c) :: str s
  end.

(** A literal without a NUL character. *)
Definition nul_free (s : string) : bool := forallb (fun b => negb (b =? 0)) (str s).

Lemma nul_free_no_nul s : nul_free s = true -> no_nul (str s).
Proof.
  unfold nul_free, no_nul. induction (str s) as [|b l IH]; cbn; [constructor|].
  rewrite andb_true_iff, negb_true_iff, Z.eqb_neq. intros [? ?]. constructor; auto.
Qed.

(** ** Lists *)

Lemma forallb_lookup {A} (P : A -> bool) (l : list A) (i : nat) (x : A) :
  forallb P l = true -> l !! i = Some x -> P x = true.
Proof.
  revert i. induction l as [|y l IH]; intros i H Hi; [done|]. cbn [forallb] in H.
  apply andb_true_iff in H as [Hy Hl]. destruct i; cbn in Hi; [by injection Hi as <-|eauto].
Qed.

(** ** Rewriting and hint databases of the development *)

Create HintDb dolin.
#[export] Hint Resolve blen_nonneg le_bytes_ok szw_range : dolin.

Create Rewrite HintDb blen_db.
#[export] Hint Rewrite blen_app blen_cons blen_nil blen_le_bytes : blen_db.

(** [blen_lia] normalises block lengths and calls [lia]. *)
Ltac blen_lia := autorewrite with blen_db in *; lia.

(** ** Binary search *)

(** The loop [while (first < last)] over a vector: [cmp] tells whether to go on on the left
    ([Lt]), on the right ([Gt]) or to stop ([Eq]).  The interval shrinks in every round, so
    fuel for its length is enough. *)
Fixpoint bsearch {A} (cmp : A -> comparison) (l : list A) (fuel first last : nat) : option A :=
  match fuel with
  | O => None
  | S fuel =>
      if (first <? last)%nat then
        let index := ((first + last) / 2)%nat in
        match l !! index with
        | None => None
        | Some cur =>
            match cmp cur with
            | Eq => Some cur
            | Lt => bsearch cmp l fuel first index
            | Gt => bsearch cmp l fuel (S index) last
            end
        end
      else None
  end.

Section Bsearch.
Context {A : Type}.
Variables (cmp : A -> comparison) (l : list A).

(** The elements on the left of a [Gt] are [Gt], those on the right of an [Lt] are [Lt]. *)
Definition ordered_by : Prop :=
  forall i j x y, (i < j)%nat -> l !! i = Some x -> l !! j = Some y ->
    (cmp x = Lt -> cmp y = Lt) /\ (cmp y = Gt -> cmp x = Gt).

Lemma bsearch_sound fuel first last x :
  bsearch cmp l fuel first last = Some x -> x ∈ l /\ cmp x = Eq.
Proof.
  revert first last. induction fuel as [|fuel IH]; intros first last; cbn [bsearch]; [done|].
  destruct (first <? last)%nat; [|done]. destruct (l !! _) as [cur|] eqn:E; [|done].
  destruct (cmp cur) eqn:Ec; eauto. intros [= <-]. split; [|done].
  by eapply list_elem_of_lookup_2.
Qed.

Lemma bsearch_complete fuel first last i x :
  ordered_by -> (last <= length l)%nat -> (last - first < fuel)%nat ->
  l !! i = Some x -> cmp x = Eq -> (first <= i < last)%nat ->
  is_Some (bsearch cmp l fuel first last).
Proof.
  intros Ho Hl0 Hf0 Hi Hx. revert first last Hl0 Hf0.
  induction fuel as [|fuel IH]; intros first last Hl Hf Hr; [lia|].
  cbn [bsearch]. destruct (Nat.ltb_spec first last); [|lia].
  pose proof (Nat.div_mod_eq (first + last) 2). pose proof (Nat.mod_upper_bound (first + last) 2).
  set (m := ((first + last) / 2)%nat) in *.
  destruct (lookup_lt_is_Some_2 l m) as [cur Hc]; [lia|]. rewrite Hc.
  destruct (cmp cur) eqn:Ec; [done| |].
  - apply IH; [lia|lia|]. split; [lia|]. destruct (Nat.lt_ge_cases i m); [done|].
    destruct (decide (i = m)) as [-> |]; [congruence|].
    destruct (Ho m i cur x) as [HL _]; try done; [lia|]. by rewrite (HL Ec) in Hx.
  - apply IH; [lia|lia|]. split; [|lia]. destruct (Nat.lt_ge_cases m i); [lia|].
    destruct (decide (i = m)) as [-> |]; [congruence|].
    destruct (Ho i m x cur) as [_ HG]; try done; [lia|]. by rewrite (HG Ec) in Hx.
Qed.

Lemma bsearch_spec x :
  ordered_by -> (forall y z, y ∈ l -> z ∈ l -> cmp y = Eq -> cmp z = Eq -> y = z) ->
  bsearch cmp l (S (length l)) 0 (length l) = Some x <-> x ∈ l /\ cmp x = Eq.
Proof.
  intros Ho Hu. split; [apply bsearch_sound|]. intros [Hin Hx].
  apply list_elem_of_lookup_1 in Hin as Hi. destruct Hi as [i Hi].
  destruct (bsearch_complete (S (length l)) 0 (length l) i x) as [y Hy]; try done; [lia| |].
  { split; [lia|]. by eapply lookup_lt_Some. }
  rewrite Hy. f_equal. apply bsearch_sound in Hy as [? ?]. by apply Hu.
Qed.
End Bsearch.

Lemma sorted_lookup {A} (R : relation A) (l : list A) i j x y :
  StronglySorted R l -> (i < j)%nat -> l !! i = Some x -> l !! j = Some y -> R x y.
Proof.
  intros Hs. revert i j. induction Hs as [|a l Hs IH Ha]; intros i j Hij Hi Hj; [done|].
  destruct j as [|j]; [lia|]. destruct i as [|i]; cbn in *.
  - injection Hi as <-. rewrite Forall_lookup in Ha. by apply (Ha j).
  - apply (IH i j); [lia|done|done].
Qed.
