(* ===== verification/Jni.v ===== *)
(** * The Java Native Interface, as far as the libraries use it

    The native methods a Java class declares, the descriptors under which [RegisterNatives] looks for
    them, and the [JNI_OnLoad] the libraries share: zap.cpp, comm.cpp, zege.cpp and hawkeye.cpp each
    register one table of methods with one class.  The class path is a parameter of [on_load]; the
    classes of the repository are the definitions below, by the lines of their Java or Kotlin source. *)

From S2P Require Import Prelude.

Module Jni.
Definition JNI_OK : Z := 0.
Definition JNI_ERR : Z := -1.
Definition JNI_VERSION_1_6 : Z := 65542.

(** The types of the native methods of the repository. *)
Inductive jtype : Type := JVoid | JBoolean | JInt | JLong | JString.

Definition type_code (t : jtype) : string :=
  match t with
  | JVoid => "V"
  | JBoolean => "Z"
  | JInt => "I"
  | JLong => "J"
  | JString => "Ljava/lang/String;"
  end%string.

Record native_method : Type := mkNativeMethod { method_name : string; parameters : list jtype; result_type : jtype }.

Definition descriptor (m : native_method) : string :=
  String.append "(" (String.append (foldr (fun t => String.append (type_code t)) EmptyString (parameters m))
    (String.append ")" (type_code (result_type m)))).

(** The classes a library is loaded with: the native methods they declare. *)
Definition class_path : Type := gmap string (list native_method).

(** [RegisterNatives]: every entry has to name a native method of the class; a null class is an error of
    the caller. *)
Definition RegisterNatives (clz : option (list native_method)) (methods : list (string * string)) : outcome Z :=
  match clz with
  | None => Fault NullDeref
  | Some ds =>
      Ok (if forallb (fun m => existsb (fun d => bool_decide (m = (method_name d, descriptor d))) ds) methods
          then JNI_OK else JNI_ERR)
  end.

(** [JNI_OnLoad] of a library that registers [methods] with the class [name]; [env] is what [GetEnv]
    returns. *)
Definition on_load (env : Z) (classes : class_path) (name : string) (methods : list (string * string)) : outcome Z :=
  if negb (env =? JNI_OK) then Ok JNI_ERR
  else
    r ← RegisterNatives (classes !! name) methods;
    Ok (if r <? 0 then JNI_ERR else JNI_VERSION_1_6).

(** ** The classes of the repository *)

Definition ZapRecord : list native_method :=
  [mkNativeMethod "initNative" [JString; JString; JInt; JInt; JBoolean] JLong;
   mkNativeMethod "writeNative" [JLong; JString] JVoid;
   mkNativeMethod "asyncFlushNative" [JLong] JVoid;
   mkNativeMethod "expLogFileNative" [JLong; JString; JInt] JVoid;
   mkNativeMethod "releaseNative" [JLong] JVoid;
   mkNativeMethod "isLogFileOverSizeNative" [JLong] JBoolean].

Definition NativeBridge : list native_method := [mkNativeMethod "nativeInvoke" [JString] JString].

Definition BoostCrashHandler : list native_method :=
  [mkNativeMethod "initCxxCrashMonitor" [JString] JBoolean;
   mkNativeMethod "zygoteCxxCrashDaemon" [JString; JString] JBoolean;
   mkNativeMethod "releaseCxxCrashDaemon" [] JBoolean;
   mkNativeMethod "testCxxCrash" [] JVoid;
   mkNativeMethod "initTempBuffer" [JString; JInt] JLong;
   mkNativeMethod "record2Buffer" [JLong; JString] JVoid;
   mkNativeMethod "flushLog2File" [JLong; JString] JVoid;
   mkNativeMethod "releaseBuffer" [JLong] JVoid].

Definition Zege : list native_method := [mkNativeMethod "initNative" [] JLong].

(** The classes by the packages they are declared in. *)
Definition repository : class_path :=
  {[ "com/dolin/zap/impl/ZapRecord"%string := ZapRecord;
     "com/dolin/comm/impl/NativeBridge"%string := NativeBridge;
     "com/dolin/hawkeye/handler/BoostCrashHandler"%string := BoostCrashHandler;
     "com/suyghur/dolin/Zege"%string := Zege ]}.

(** Registering exactly the methods a class declares succeeds. *)
Lemma on_load_declared classes name ds :
  classes !! name = Some ds -> on_load JNI_OK classes name ((fun d => (method_name d, descriptor d)) <$> ds) = Ok JNI_VERSION_1_6.
Proof.
  intros Hc. unfold on_load, RegisterNatives. rewrite Hc. cbn [negb Z.eqb JNI_OK].
  assert (forallb (fun m => existsb (fun d => bool_decide (m = (method_name d, descriptor d))) ds)
            ((fun d => (method_name d, descriptor d)) <$> ds) = true) as ->; [|done].
  apply List.forallb_forall. intros m Hm. apply list_elem_of_In, list_elem_of_fmap in Hm as (d & -> & Hd).
  apply List.existsb_exists. exists d. split; [by apply list_elem_of_In|by apply bool_decide_eq_true].
Qed.
End Jni.
