(* ===== verification/ZapHeader.v ===== *)
(** * Zap: the header of the mapped log buffer

    Models [dolin_zap::BufferHeader]
    (library_zap/src/main/cpp/zap_buffer_header.{h,cpp}).  The block [m] is
    the memory [data_ptr] points to and [data_size] the size the header was
    constructed with.  Every read and write goes through [mem_read] and
    [mem_write], so an access outside the mapping is a [Fault]. *)

From S2P Require Import Prelude.

(** [kMagicHeader = '\x11'] *)
Definition kMagicHeader : Z := 17.

(** [struct Header]; [log_path] is the array the [char *] points to, [None] for
    a null pointer. *)
Record Header : Type := mkHeader {
  magic : Z;
  log_len : Z;
  log_path_len : Z;
  log_path : option (list Z);
  hdr_compress : bool;
  limit_size : Z
}.

(** [new Header()] value-initialises the structure. *)
Definition null_header : Header := mkHeader 0 0 0 None false 0.

Module BufferHeader.
Section WithArch.
Context {A : Arch}.

(** The members of the class: the block [data_ptr] points to, and its size. *)
Record t : Type := mk { data_ptr : list Z; data_size : Z }.

Definition CalculateHeaderLen (path_len : Z) : Z :=
  szw (1 + szc + szc + path_len + szc + 1).

Definition IsAvailable (h : t) : outcome bool :=
  b ← mem_read (data_ptr h) 0 1;
  Ok (le_val b =? kMagicHeader).

(** A [size_t] loaded with [memcpy]. *)
Definition read_size (h : t) (off : Z) : outcome Z :=
  b ← mem_read (data_ptr h) off szc;
  Ok (le_val b).

Definition write_at (h : t) (off : Z) (bs : list Z) : outcome t :=
  m ← mem_write (data_ptr h) off bs;
  Ok (mk m (data_size h)).

Definition InitHeader (h : t) (hd : Header) : outcome t :=
  if szw (1 + szc + szc + log_path_len hd) >? data_size h then Ok h
  else
    h ← write_at h 0 [magic hd];
    h ← write_at h 1 (le_bytes sizeof_size_t (log_len hd));
    h ← write_at h (1 + szc) (le_bytes sizeof_size_t (log_path_len hd));
    p ← of_option NullDeref (log_path hd);
    src ← mem_read p 0 (log_path_len hd);
    h ← write_at h (1 + szc + szc) src;
    h ← write_at h (1 + szc + szc + log_path_len hd)
                   (le_bytes sizeof_size_t (limit_size hd));
    write_at h (1 + szc + szc + log_path_len hd + szc + szc)
               [if hdr_compress hd then 1 else 0].

Definition GetLogPathLen (h : t) : outcome Z :=
  av ← IsAvailable h;
  if (av : bool) then
    len ← read_size h (1 + szc);
    if (0 <? len) && (len <? szw (data_size h - CalculateHeaderLen 0))
    then Ok len else Ok 0
  else Ok 0.

Definition GetHeaderLen (h : t) : outcome Z :=
  av ← IsAvailable h;
  if (av : bool) then
    n ← GetLogPathLen h;
    Ok (CalculateHeaderLen n)
  else Ok 0.

Definition GetLogLen (h : t) : outcome Z :=
  av ← IsAvailable h;
  if (av : bool) then
    len ← read_size h 1;
    hl ← GetHeaderLen h;
    if (0 <? len) && (len <? szw (data_size h - hl)) then Ok len else Ok 0
  else Ok 0.

(** The three pointers, as offsets from [data_ptr]. *)
Definition GetOriginPtr (h : t) : Z := 0.

Definition GetDataPtr (h : t) : outcome Z := GetHeaderLen h.

Definition GetWritePtr (h : t) : outcome Z :=
  hl ← GetHeaderLen h;
  ll ← GetLogLen h;
  Ok (hl + ll).

Definition SetLogLen (h : t) (len : Z) : outcome t :=
  av ← IsAvailable h;
  if (av : bool) then write_at h 1 (le_bytes sizeof_size_t len) else Ok h.

(** [new char[n + 1]] filled with zeros, then [memcpy] of [n] bytes of the
    block at [off]. *)
Definition copy_string (h : t) (off n : Z) : outcome (list Z) :=
  src ← mem_read (data_ptr h) off n;
  mem_write (zeros (szw (n + 1))) 0 src.

Definition GetLogPath (h : t) : outcome (option (list Z)) :=
  av ← IsAvailable h;
  if (av : bool) then
    n ← GetLogPathLen h;
    if 0 <? n then Some <$> copy_string h (1 + szc + szc) n else Ok None
  else Ok None.

Definition GetLimitSize (h : t) : outcome Z :=
  av ← IsAvailable h;
  if (av : bool) then
    n ← GetLogPathLen h;
    read_size h (1 + szc + szc + n)
  else Ok 0.

Definition IsCompress (h : t) : outcome bool :=
  av ← IsAvailable h;
  if (av : bool) then
    n ← GetLogPathLen h;
    b ← mem_read (data_ptr h) (1 + szc + szc + n + szc) 1;
    Ok (le_val b =? 1)
  else Ok false.

Definition GetHeader (h : t) : outcome Header :=
  av ← IsAvailable h;
  if (av : bool) then
    ll ← read_size h 1;
    pl ← read_size h (1 + szc);
    path ← copy_string h (1 + szc + szc) pl;
    lim ← read_size h (1 + szc + szc + pl);
    c ← mem_read (data_ptr h) (1 + szc + szc + pl + szc) 1;
    Ok (mkHeader kMagicHeader ll pl (Some path) (le_val c =? 1) lim)
  else Ok null_header.

(** ** The layout of a formatted buffer

    What [InitHeader] lays out and the getters read back: magic, log length,
    path length, path, size limit, compression flag, then the log data. *)

Definition header_len (path : list Z) : Z := 2 + 3 * szc + blen path.

Definition layout (path : list Z) (ll lim cb : Z) (data : list Z) : list Z :=
  [kMagicHeader] ++ le_bytes sizeof_size_t ll ++ le_bytes sizeof_size_t (blen path)
    ++ path ++ le_bytes sizeof_size_t lim ++ [cb] ++ data.

Record formatted (h : t) (path : list Z) (ll lim cb : Z) (data : list Z) : Prop := {
  f_mem : data_ptr h = layout path ll lim cb data;
  f_size : data_size h = blen (data_ptr h);
  f_fits : in_size (data_size h);
  f_path : 0 < blen path;
  f_data : 0 < blen data;
  f_ll : in_size ll;
  f_lim : in_size lim
}.

Lemma szc_blen z : blen (le_bytes sizeof_size_t z) = szc.
Proof. apply blen_le_bytes. Qed.

Lemma blen_layout path ll lim cb data :
  blen (layout path ll lim cb data) = header_len path + blen data.
Proof. unfold layout, header_len. rewrite !blen_app, !szc_blen. cbn. blen_lia. Qed.

(** Each field of the layout as the middle of a concatenation. *)
Lemma layout_ll path ll lim cb data :
  layout path ll lim cb data = [kMagicHeader] ++ le_bytes sizeof_size_t ll ++
    (le_bytes sizeof_size_t (blen path) ++ path ++ le_bytes sizeof_size_t lim ++ [cb] ++ data).
Proof. reflexivity. Qed.

Lemma layout_plen path ll lim cb data :
  layout path ll lim cb data = ([kMagicHeader] ++ le_bytes sizeof_size_t ll) ++
    le_bytes sizeof_size_t (blen path) ++ (path ++ le_bytes sizeof_size_t lim ++ [cb] ++ data).
Proof. unfold layout. by rewrite <- !app_assoc. Qed.

Lemma layout_path path ll lim cb data :
  layout path ll lim cb data =
    ([kMagicHeader] ++ le_bytes sizeof_size_t ll ++ le_bytes sizeof_size_t (blen path)) ++
    path ++ (le_bytes sizeof_size_t lim ++ [cb] ++ data).
Proof. unfold layout. by rewrite <- !app_assoc. Qed.

Lemma layout_lim path ll lim cb data :
  layout path ll lim cb data =
    ([kMagicHeader] ++ le_bytes sizeof_size_t ll ++ le_bytes sizeof_size_t (blen path) ++ path) ++
    le_bytes sizeof_size_t lim ++ ([cb] ++ data).
Proof. unfold layout. by rewrite <- !app_assoc. Qed.

Lemma layout_cb path ll lim cb data :
  layout path ll lim cb data =
    ([kMagicHeader] ++ le_bytes sizeof_size_t ll ++ le_bytes sizeof_size_t (blen path) ++ path
      ++ le_bytes sizeof_size_t lim) ++ [cb] ++ data.
Proof. unfold layout. by rewrite <- !app_assoc. Qed.

Lemma layout_data path ll lim cb data :
  layout path ll lim cb data =
    ([kMagicHeader] ++ le_bytes sizeof_size_t ll ++ le_bytes sizeof_size_t (blen path) ++ path
      ++ le_bytes sizeof_size_t lim ++ [cb]) ++ data ++ [].
Proof. unfold layout. by rewrite <- !app_assoc, app_nil_r. Qed.

(** Closes the length side conditions of the field lemmas. *)
Ltac field_side := rewrite ?blen_app, ?szc_blen, ?blen_cons, ?blen_nil; unfold header_len; lia.

Section Getters.
Context {h path ll lim cb data} (F : formatted h path ll lim cb data).

Lemma fmt_bounds : blen path + 3 * szc + 2 + blen data < 2 ^ size_bits.
Proof.
  destruct F as [Hm Hs [_ Hf] _ _ _ _]. rewrite Hs, Hm, blen_layout in Hf.
  unfold header_len in Hf. lia.
Qed.

Lemma fmt_data_size : data_size h = header_len path + blen data.
Proof. rewrite (f_size _ _ _ _ _ _ F), (f_mem _ _ _ _ _ _ F). apply blen_layout. Qed.

Lemma fmt_CalculateHeaderLen : CalculateHeaderLen (blen path) = header_len path.
Proof.
  unfold CalculateHeaderLen, header_len. rewrite szw_small; [lia|].
  pose proof fmt_bounds; pose proof (f_data _ _ _ _ _ _ F); pose proof (blen_nonneg path).
  unfold in_size, in_u. destruct szc_cases as [E | E]; rewrite E in *; lia.
Qed.

Lemma fmt_IsAvailable : IsAvailable h = Ok true.
Proof.
  unfold IsAvailable. rewrite (f_mem _ _ _ _ _ _ F).
  by erewrite (mem_read_at [] [kMagicHeader]) by reflexivity.
Qed.

Lemma fmt_GetLogPathLen : GetLogPathLen h = Ok (blen path).
Proof.
  unfold GetLogPathLen, read_size. rewrite fmt_IsAvailable. cbn.
  rewrite (f_mem _ _ _ _ _ _ F).
  erewrite mem_read_at; [|apply layout_plen|field_side|field_side]. cbn.
  pose proof (blen_nonneg path). pose proof fmt_bounds. pose proof fmt_data_size as Hd.
  unfold header_len in Hd. pose proof (f_path _ _ _ _ _ _ F). pose proof (f_data _ _ _ _ _ _ F).
  assert (0 <= szc <= 8) by (destruct szc_cases; lia).
  rewrite le_val_size by (unfold in_size, in_u; lia).
  unfold CalculateHeaderLen. rewrite (szw_small (1 + _ + _ + 0 + _ + 1))
    by (unfold in_size, in_u; lia).
  rewrite szw_small by (unfold in_size, in_u; lia).
  destruct (Z.ltb_spec 0 (blen path)); [|lia].
  destruct (Z.ltb_spec (blen path) (data_size h - (1 + szc + szc + 0 + szc + 1))); [done|lia].
Qed.

Lemma fmt_GetHeaderLen : GetHeaderLen h = Ok (header_len path).
Proof.
  unfold GetHeaderLen. rewrite fmt_IsAvailable, bind_Ok, fmt_GetLogPathLen, bind_Ok.
  by rewrite fmt_CalculateHeaderLen.
Qed.

Lemma fmt_GetLogLen :
  GetLogLen h = Ok (if (0 <? ll) && (ll <? blen data) then ll else 0).
Proof.
  unfold GetLogLen, read_size.
  rewrite fmt_IsAvailable, bind_Ok, fmt_GetHeaderLen, (f_mem _ _ _ _ _ _ F).
  erewrite mem_read_at; [|apply layout_ll|done|field_side]. cbn -[Z.ltb].
  rewrite le_val_size by apply (f_ll _ _ _ _ _ _ F). rewrite fmt_data_size.
  replace (header_len path + blen data - header_len path) with (blen data) by lia.
  rewrite szw_small; [by destruct (_ && _)|].
  pose proof fmt_bounds. pose proof (blen_nonneg path). pose proof (blen_nonneg data).
  unfold in_size, in_u. destruct szc_cases; lia.
Qed.

Lemma fmt_GetLogPath : GetLogPath h = Ok (Some (path ++ [0])).
Proof.
  unfold GetLogPath, copy_string. rewrite fmt_IsAvailable, bind_Ok, fmt_GetLogPathLen, bind_Ok.
  pose proof (f_path _ _ _ _ _ _ F). destruct (Z.ltb_spec 0 (blen path)); [|lia].
  rewrite (f_mem _ _ _ _ _ _ F).
  erewrite mem_read_at; [|apply layout_path|field_side|done]. cbn -[zeros].
  pose proof fmt_bounds. pose proof (blen_nonneg data).
  rewrite szw_small by (unfold in_size, in_u; destruct szc_cases; lia).
  assert (zeros (blen path + 1) = [] ++ zeros (blen path) ++ [0]) as ->.
  { unfold zeros, blen. rewrite Z2Nat.inj_add, replicate_add by lia. done. }
  rewrite mem_write_app; [done|done|].
  unfold zeros, blen. rewrite length_replicate. lia.
Qed.

Lemma fmt_GetLimitSize : GetLimitSize h = Ok lim.
Proof.
  unfold GetLimitSize, read_size. rewrite fmt_IsAvailable, bind_Ok, fmt_GetLogPathLen, bind_Ok.
  rewrite (f_mem _ _ _ _ _ _ F).
  erewrite mem_read_at; [|apply layout_lim|field_side|field_side]. cbn.
  by rewrite le_val_size by apply (f_lim _ _ _ _ _ _ F).
Qed.

Lemma fmt_IsCompress : IsCompress h = Ok (cb =? 1).
Proof.
  unfold IsCompress. rewrite fmt_IsAvailable, bind_Ok, fmt_GetLogPathLen, bind_Ok.
  rewrite (f_mem _ _ _ _ _ _ F).
  erewrite mem_read_at; [|apply layout_cb|field_side|done]. cbn.
  by rewrite Z.add_0_r.
Qed.

Lemma fmt_copy_path : copy_string h (1 + szc + szc) (blen path) = Ok (path ++ [0]).
Proof.
  pose proof fmt_GetLogPath as H. unfold GetLogPath in H.
  rewrite fmt_IsAvailable, bind_Ok, fmt_GetLogPathLen, bind_Ok in H.
  pose proof (f_path _ _ _ _ _ _ F). destruct (Z.ltb_spec 0 (blen path)); [|lia].
  destruct (copy_string _ _ _); cbn in H; congruence.
Qed.

Lemma fmt_GetHeader :
  GetHeader h = Ok (mkHeader kMagicHeader ll (blen path) (Some (path ++ [0])) (cb =? 1) lim).
Proof.
  unfold GetHeader, read_size. rewrite fmt_IsAvailable, bind_Ok.
  pose proof (f_mem _ _ _ _ _ _ F) as Hm. rewrite Hm.
  erewrite (mem_read_at _ _ _ _ 1); [|apply layout_ll|done|field_side]. rewrite !bind_Ok.
  rewrite le_val_size by apply (f_ll _ _ _ _ _ _ F).
  erewrite (mem_read_at _ _ _ _ (1 + szc)); [|apply layout_plen|field_side|field_side]. rewrite !bind_Ok.
  rewrite le_val_size.
  2: { pose proof fmt_bounds. pose proof (blen_nonneg path). pose proof (blen_nonneg data).
       unfold in_size, in_u. destruct szc_cases; lia. }
  rewrite fmt_copy_path, bind_Ok.
  erewrite (mem_read_at _ _ _ _ (1 + szc + szc + _)); [|apply layout_lim|field_side|field_side]. rewrite !bind_Ok.
  rewrite le_val_size by apply (f_lim _ _ _ _ _ _ F).
  erewrite mem_read_at; [|apply layout_cb|field_side|done]. cbn. by rewrite Z.add_0_r.
Qed.

Lemma fmt_SetLogLen n :
  in_size n ->
  exists h', SetLogLen h n = Ok h' /\ formatted h' path n lim cb data.
Proof.
  intros Hn. unfold SetLogLen, write_at. rewrite fmt_IsAvailable, bind_Ok.
  rewrite (f_mem _ _ _ _ _ _ F).
  erewrite mem_write_at; [|apply layout_ll|done|by rewrite !szc_blen]. cbn.
  eexists; split; [done|]. destruct F as [Hm Hs Hf Hp Hd Hl Hi].
  constructor; cbn; try done. rewrite Hs, Hm, blen_layout.
  symmetry. apply (blen_layout path n lim cb data).
Qed.
End Getters.

(** ** Formatting a block *)

(** The six stores of [InitHeader], on a block cut along the layout. *)
Lemma InitHeader_writes a0 a1 a2 a3 a4 cb d1 x d2 n path tl ll lim (c : bool) :
  blen a0 = 1 -> blen a1 = szc -> blen a2 = szc -> blen a3 = blen path -> blen a4 = szc ->
  blen d1 = szc - 1 ->
  szw (1 + szc + szc + blen path) <= n ->
  InitHeader (mk (a0 ++ a1 ++ a2 ++ a3 ++ a4 ++ [cb] ++ d1 ++ [x] ++ d2) n)
    (mkHeader kMagicHeader ll (blen path) (Some (path ++ tl)) c lim) =
  Ok (mk (layout path ll lim cb (d1 ++ [if c then 1 else 0] ++ d2)) n).
Proof.
  intros H0 H1 H2 H3 H4 Hd1 Hn. unfold InitHeader, write_at. cbn [log_path_len].
  rewrite Z.gtb_ltb, (proj2 (Z.ltb_ge _ _)) by done. cbn [data_ptr data_size magic log_len log_path
    limit_size hdr_compress of_option].
  erewrite (mem_write_at [] a0); [|reflexivity|reflexivity|done].
  rewrite !bind_Ok. cbn [data_ptr data_size].
  erewrite (mem_write_at [kMagicHeader] a1); [|reflexivity|field_side|field_side].
  rewrite !bind_Ok. cbn [data_ptr data_size].
  erewrite (mem_write_at ([kMagicHeader] ++ le_bytes sizeof_size_t ll) a2);
    [|by rewrite <- app_assoc|field_side|field_side].
  rewrite !bind_Ok. cbn [data_ptr data_size].
  erewrite (mem_read_at [] path tl); [|reflexivity|reflexivity|done].
  rewrite bind_Ok, <- app_assoc.
  erewrite (mem_write_at ([kMagicHeader] ++ le_bytes sizeof_size_t ll ++
    le_bytes sizeof_size_t (blen path)) a3); [|by rewrite <- !app_assoc|field_side|done].
  rewrite !bind_Ok, <- !app_assoc. cbn [data_ptr data_size].
  erewrite (mem_write_at ([kMagicHeader] ++ le_bytes sizeof_size_t ll ++
    le_bytes sizeof_size_t (blen path) ++ path) a4); [|by rewrite <- !app_assoc|field_side|field_side].
  rewrite !bind_Ok, <- !app_assoc. cbn [data_ptr data_size].
  erewrite (mem_write_at ([kMagicHeader] ++ le_bytes sizeof_size_t ll ++
    le_bytes sizeof_size_t (blen path) ++ path ++ le_bytes sizeof_size_t lim ++ [cb] ++ d1) [x]);
    [|by rewrite <- !app_assoc|field_side|done].
  rewrite bind_Ok. unfold layout. by rewrite <- !app_assoc.
Qed.

Lemma write_at_Ok_inv h off bs h' :
  write_at h off bs = Ok h' ->
  0 <= off /\ off + blen bs <= blen (data_ptr h) /\
  blen (data_ptr h') = blen (data_ptr h) /\ data_size h' = data_size h.
Proof.
  unfold write_at. intros H. ok_inv. apply mem_write_Ok_inv in Ha as (H1 & H2 & ->).
  cbn. by rewrite blen_splice.
Qed.

(** A successful [InitHeader] that passed the guard had room for the byte it
    stores last. *)
Lemma InitHeader_Ok_room h hd h' :
  InitHeader h hd = Ok h' ->
  data_size h < szw (1 + szc + szc + log_path_len hd) \/
  2 + 4 * szc + log_path_len hd <= blen (data_ptr h).
Proof.
  unfold InitHeader. destruct (_ >? _) eqn:G.
  { intros _. left. rewrite Z.gtb_ltb in G. by apply Z.ltb_lt in G. }
  intros H. right. ok_inv.
  repeat match goal with
  | H : write_at _ _ _ = Ok _ |- _ => apply write_at_Ok_inv in H as (? & ? & ? & ?)
  end.
  blen_lia.
Qed.

(** A zeroed block of at least [2 + 4 * sizeof(size_t) + path] bytes, cut along
    the layout. *)
Lemma zeros_cut n plen :
  0 <= plen -> 2 + 4 * szc + plen <= n ->
  zeros n = zeros 1 ++ zeros szc ++ zeros szc ++ zeros plen ++ zeros szc ++ [0] ++
            zeros (szc - 1) ++ [0] ++ zeros (n - (2 + 4 * szc + plen)).
Proof.
  intros Hp Hn. change [0] with (zeros 1).
  assert (4 <= szc) by (destruct szc_cases; lia).
  rewrite <- !zeros_app by lia. f_equal. lia.
Qed.

(** The log data right after [InitHeader]: the compression flag is stored
    [sizeof(size_t)] bytes too far, inside the data area. *)
Definition fresh_data (n : Z) (path : list Z) (c : bool) : list Z :=
  zeros (szc - 1) ++ [if c then 1 else 0] ++ zeros (n - (2 + 4 * szc + blen path)).

Lemma blen_fresh_data n path c :
  2 + 4 * szc + blen path <= n -> blen (fresh_data n path c) = n - header_len path.
Proof.
  intros Hn. unfold fresh_data, header_len. assert (4 <= szc) by (destruct szc_cases; lia).
  rewrite !blen_app, !blen_zeros by lia. cbn. blen_lia.
Qed.

Lemma InitHeader_zeros n path tl ll lim c :
  in_size n -> in_size ll -> in_size lim -> 0 < blen path ->
  2 + 4 * szc + blen path <= n ->
  exists h',
    InitHeader (mk (zeros n) n)
      (mkHeader kMagicHeader ll (blen path) (Some (path ++ tl)) c lim) = Ok h' /\
    data_size h' = n /\
    formatted h' path ll lim 0 (fresh_data n path c).
Proof.
  intros Hn Hll Hlim Hp Hroom.
  assert (4 <= szc) as Hszc by (destruct szc_cases; lia).
  rewrite (zeros_cut n (blen path)) by lia.
  rewrite InitHeader_writes; rewrite ?blen_zeros; try lia.
  2: { rewrite szw_small; [lia|]. unfold in_size, in_u in *. lia. }
  exists (mk (layout path ll lim 0 (fresh_data n path c)) n). split; [done|]. split; [done|].
  constructor; cbn [data_ptr data_size]; try done.
  - rewrite blen_layout, blen_fresh_data by done. lia.
  - rewrite blen_fresh_data by done. unfold header_len. lia.
Qed.

(** ** Properties *)

(** C35. Formatting a zeroed mapping and reading it back: on a block with room for
    the header, [InitHeader] succeeds and every getter returns what was stored
    (the path NUL-terminated), except the compression flag, which reads as
    [false] whatever was asked for. *)
Theorem header_roundtrip n path tl ll lim c :
  in_size n -> in_size ll -> in_size lim -> 0 < blen path ->
  2 + 4 * szc + blen path <= n ->
  exists h,
    InitHeader (mk (zeros n) n)
      (mkHeader kMagicHeader ll (blen path) (Some (path ++ tl)) c lim) = Ok h /\
    GetHeader h = Ok (mkHeader kMagicHeader ll (blen path) (Some (path ++ [0])) false lim) /\
    GetLogPath h = Ok (Some (path ++ [0])) /\
    GetLimitSize h = Ok lim /\
    GetDataPtr h = Ok (2 + 3 * szc + blen path) /\
    GetLogLen h = Ok (if (0 <? ll) && (ll <? n - (2 + 3 * szc + blen path)) then ll else 0) /\
    IsCompress h = Ok false.
Proof.
  intros Hn Hll Hlim Hp Hroom.
  destruct (InitHeader_zeros n path tl ll lim c) as (h & HI & _ & F); try done.
  exists h. rewrite (fmt_GetHeader F), (fmt_GetLogPath F), (fmt_GetLimitSize F),
    (fmt_GetLogLen F), (fmt_IsCompress F), blen_fresh_data by done.
  unfold GetDataPtr. rewrite (fmt_GetHeaderLen F). done.
Qed.

(** The guard of [InitHeader] is too weak: it only accounts for the magic,
    the two lengths and the path.  On every block that passes it but is
    smaller than [2 + 4 * sizeof(size_t) + path], [InitHeader] writes outside
    the block. *)
Theorem init_header_guard_too_weak h hd :
  1 + 2 * szc + log_path_len hd <= data_size h ->
  0 <= log_path_len hd -> in_size (data_size h) ->
  blen (data_ptr h) < 2 + 4 * szc + log_path_len hd ->
  ~ is_Ok (InitHeader h hd).
Proof.
  intros Hg Hp [_ Hs] Hsmall [h' H]. apply InitHeader_Ok_room in H as [H | H]; [|lia].
  rewrite szw_small in H; [lia|]. unfold in_size, in_u. destruct szc_cases; lia.
Qed.

(** [SetLogLen] on a formatted buffer changes the log length only: the path,
    the limit, the flag and the data are as before, and [GetLogLen] returns
    the new length when it is positive and smaller than the data area, and 0
    otherwise; a buffer filled to its last byte therefore reads as empty. *)
Theorem set_log_len_spec h path ll lim cb data n :
  formatted h path ll lim cb data -> in_size n ->
  exists h',
    SetLogLen h n = Ok h' /\
    formatted h' path n lim cb data /\
    GetLogLen h' = Ok (if (0 <? n) && (n <? blen data) then n else 0) /\
    GetLogPath h' = GetLogPath h /\ GetLimitSize h' = GetLimitSize h /\
    IsCompress h' = IsCompress h.
Proof.
  intros F Hn. destruct (fmt_SetLogLen F n Hn) as (h' & HS & F').
  exists h'. rewrite (fmt_GetLogLen F'), !(fmt_GetLogPath F), !(fmt_GetLogPath F'),
    (fmt_GetLimitSize F), (fmt_GetLimitSize F'), (fmt_IsCompress F), (fmt_IsCompress F').
  done.
Qed.

End WithArch.

(** Witnesses, on a 64-bit target with the path "/l". *)
Lemma header_roundtrip_witness :
  exists h, InitHeader (A := LP64) (mk (zeros 64) 64)
    (mkHeader kMagicHeader 0 2 (Some [47; 108; 0]) true 1024) = Ok h /\
    IsCompress (A := LP64) h = Ok false.
Proof.
  destruct (header_roundtrip (A := LP64) 64 [47; 108] [0] 0 1024 true) as (h & H & _ & _ & _ & _ & _ & HC);
    [vm_compute; split; congruence .. | vm_compute; congruence | vm_compute; congruence |].
  exists h. split; [exact H | exact HC].
Defined.

Lemma init_header_guard_too_weak_witness :
  ~ is_Ok (InitHeader (A := LP64) (mk (zeros 30) 30)
    (mkHeader kMagicHeader 0 2 (Some [47; 108; 0]) false 1024)).
Proof.
  apply (init_header_guard_too_weak (A := LP64)); vm_compute; try split; congruence.
Defined.

Lemma set_log_len_spec_witness :
  exists h' : t, GetLogLen (A := LP64) h' = Ok 3.
Proof.
  destruct (set_log_len_spec (A := LP64)
    (mk (layout (A := LP64) [47; 108] 0 1024 0 (zeros 16)) 44) [47; 108] 0 1024 0 (zeros 16) 3)
    as (h' & _ & _ & H & _).
  - constructor; vm_compute; try split; congruence.
  - vm_compute; split; congruence.
  - exists h'. exact H.
Defined.

End BufferHeader.
