(* ===== verification/ZapBufferFlush.v ===== *)
(** * Zap: the chunk handed to the writer thread

    Models [class BufferFlush]
    (library_zap/src/main/cpp/zap_buffer_flush.{h,cpp}): a growable byte buffer
    that remembers the log file it goes to, the path string it owns and the
    [Buffer] object to free once it is written. *)

From S2P Require Import Prelude.

(** A [FILE *] opened in append mode is the path it was opened on; [None] is a
    null pointer. *)
Abbreviation FILE := (list Z) (only parsing).

(** [(double) n] for a [size_t]: exact below 2^53, else rounded to the nearest
    multiple of the spacing, ties to even. *)
Definition to_double (n : Z) : Z :=
  if n <? 2 ^ 53 then n
  else
    let e := Z.log2 n - 52 in
    let q := n / 2 ^ e in
    let r := n mod 2 ^ e in
    let half := 2 ^ (e - 1) in
    let q := if r <? half then q
             else if half <? r then q + 1
             else if Z.even q then q else q + 1 in
    q * 2 ^ e.

(** [(size_t) fmax(a, b)] *)
Definition size_fmax {A : Arch} (a b : Z) : Z := szw (Z.max (to_double a) (to_double b)).

(** What a destructor asks of the allocator: [delete[]] of the path string, of a
    pointer into the data array (at an offset), [operator delete] of the owned
    [Buffer]. *)
Inductive dealloc : Type :=
| DelPath
| DelData (off : Z)
| DelRelease.

#[global] Instance dealloc_eq_dec : EqDecision dealloc.
Proof. solve_decision. Defined.

(** A request is legal for the start of an array; nothing may be freed twice. *)
Definition dealloc_ok (l : list dealloc) : Prop :=
  NoDup l /\ Forall (fun d => match d with DelData off => off = 0 | _ => True end) l.

Module BufferFlush.
Section WithArch.
Context {A : Arch}.

(** [data_ptr] is the array it points to, [write_ptr] an offset in it. *)
Record t : Type := mk {
  log_file_ptr : option FILE;
  release_ptr : bool;
  data_ptr : option (list Z);
  write_ptr : option Z;
  path : option (list Z);
  capacity : Z
}.

(** [BufferFlush(log_file, path, size = 128)] *)
Definition new (log_file : option FILE) (path : option (list Z)) (size : Z) : t :=
  mk log_file false None None path size.

Definition GetLength (b : t) : Z :=
  match data_ptr b, write_ptr b with
  | Some _, Some w => szw w
  | _, _ => 0
  end.

Definition EmptySize (b : t) : Z := szw (capacity b - GetLength b).

(** The lazy allocation at the head of [Write]. *)
Definition alloc (b : t) (len : Z) : t :=
  match data_ptr b with
  | Some _ => b
  | None =>
      let c := size_fmax (capacity b) len in
      mk (log_file_ptr b) (release_ptr b) (Some (zeros c)) (Some 0) (path b) c
  end.

Definition Write (b : t) (data : list Z) (len : Z) : outcome t :=
  let b := alloc b len in
  arr ← of_option NullDeref (data_ptr b);
  w ← of_option NullDeref (write_ptr b);
  if len <? EmptySize b then
    src ← mem_read data 0 len;
    arr' ← mem_write arr w src;
    Ok (mk (log_file_ptr b) (release_ptr b) (Some arr') (Some (w + len)) (path b) (capacity b))
  else
    let now_len := GetLength b in
    let new_capacity := szw (now_len + len) in
    old ← mem_read arr 0 now_len;
    data_tmp ← mem_write (zeros new_capacity) 0 old;
    src ← mem_read data 0 len;
    data_tmp ← mem_write data_tmp now_len src;
    Ok (mk (log_file_ptr b) (release_ptr b) (Some data_tmp) (Some new_capacity) (path b)
           (capacity b)).

Definition Reset (b : t) : outcome t :=
  match data_ptr b with
  | None => Ok b
  | Some arr =>
      arr' ← mem_write arr 0 (zeros (capacity b));
      Ok (mk (log_file_ptr b) (release_ptr b) (Some arr') (Some 0) (path b) (capacity b))
  end.

Definition GetPtr (b : t) : option (list Z) := data_ptr b.
Definition GetLogFile (b : t) : option FILE := log_file_ptr b.
Definition GetLogPath (b : t) : option (list Z) := path b.

Definition ReleaseThiz (b : t) (buffer : bool) : t :=
  mk (log_file_ptr b) buffer (data_ptr b) (write_ptr b) (path b) (capacity b).

(** [~BufferFlush()], in the order of the source. *)
Definition destroy (b : t) : list dealloc :=
  match path b with Some _ => [DelPath] | None => [] end
    ++ match write_ptr b with Some w => [DelData w] | None => [] end
    ++ match data_ptr b with Some _ => [DelData 0] | None => [] end
    ++ (if release_ptr b then [DelRelease] else []).

(** ** The bytes a chunk holds *)

Definition contents (b : t) : list Z :=
  match data_ptr b, write_ptr b with
  | Some arr, Some w => take (Z.to_nat w) arr
  | _, _ => []
  end.

(** The array and the capacity field agree (or nothing is allocated yet). *)
Definition in_sync (b : t) : Prop :=
  match data_ptr b, write_ptr b with
  | None, None => in_size (capacity b)
  | Some arr, Some w => blen arr = capacity b /\ 0 <= w <= blen arr /\ in_size (capacity b)
  | _, _ => False
  end.

Lemma to_double_small n : 0 <= n < 2 ^ 53 -> to_double n = n.
Proof. intros. unfold to_double. by rewrite (proj2 (Z.ltb_lt _ _)) by lia. Qed.

Lemma size_fmax_small a b :
  in_size a -> in_size b -> a < 2 ^ 53 -> b < 2 ^ 53 -> size_fmax a b = Z.max a b.
Proof.
  intros [? ?] [? ?] ? ?. unfold size_fmax. rewrite !to_double_small by lia.
  apply szw_small. unfold in_size, in_u. lia.
Qed.

Lemma contents_blen b : in_sync b -> blen (contents b) = GetLength b.
Proof.
  unfold in_sync, contents, GetLength. destruct (data_ptr b), (write_ptr b); try done.
  intros (H1 & H2 & H3). rewrite szw_small by (unfold in_size, in_u in *; lia).
  unfold blen in *. rewrite length_take. lia.
Qed.

Lemma alloc_sync b len :
  in_sync b -> in_size len -> len < 2 ^ 53 -> capacity b < 2 ^ 53 ->
  in_sync (alloc b len) /\ contents (alloc b len) = contents b /\
  log_file_ptr (alloc b len) = log_file_ptr b /\
  is_Some (data_ptr (alloc b len)) /\ capacity (alloc b len) < 2 ^ 53 /\
  (data_ptr b = None -> len <= capacity (alloc b len)).
Proof.
  intros Hs Hl Hlen Hc. unfold alloc.
  destruct (data_ptr b) eqn:E; cbn; [by repeat split; try congruence|].
  unfold in_sync, contents in *. rewrite E in *. destruct (write_ptr b); [done|]. cbn.
  rewrite size_fmax_small by done. unfold in_size, in_u in *.
  rewrite blen_zeros by lia. repeat split; try lia; eauto.
Qed.

Lemma take_splice arr w src :
  0 <= w -> w + blen src <= blen arr ->
  take (Z.to_nat (w + blen src)) (splice w src arr) = take (Z.to_nat w) arr ++ src.
Proof.
  intros Hw Hb. unfold splice. rewrite app_assoc.
  apply take_app_length'. rewrite length_app, length_take. unfold blen in *. lia.
Qed.

(** [Write] on an in-sync chunk appends the bytes. *)
Lemma Write_append b data :
  in_sync b -> blen data < 2 ^ 53 -> capacity b < 2 ^ 53 ->
  in_size (blen (contents b) + blen data) ->
  exists b', Write b data (blen data) = Ok b' /\
    contents b' = contents b ++ data /\
    is_Some (data_ptr b') /\ write_ptr b' = Some (blen (contents b')) /\
    log_file_ptr b' = log_file_ptr b /\ GetLength b' = blen (contents b').
Proof.
  intros Hs Hd Hc Hsum. pose proof (blen_nonneg data). pose proof (blen_nonneg (contents b)).
  assert (in_size (blen data)) as Hl by (unfold in_size, in_u in *; lia).
  destruct (alloc_sync b (blen data) Hs Hl Hd Hc) as (Hs' & Hcont & Hf & [arr Ha] & _ & _).
  unfold Write. set (a := alloc b (blen data)) in *. rewrite Ha. cbn [of_option].
  pose proof (contents_blen a Hs') as HG. rewrite Hcont in HG.
  unfold in_sync in Hs'. rewrite Ha in Hs'. destruct (write_ptr a) as [w|] eqn:Hw; [|done].
  destruct Hs' as (H1 & H2 & H3). cbn [of_option]. rewrite !bind_Ok.
  assert (GetLength a = w) as HGw.
  { unfold GetLength. rewrite Ha, Hw. apply szw_small. unfold in_size, in_u in *. lia. }
  assert (contents b = take (Z.to_nat w) arr) as HC.
  { rewrite <- Hcont. unfold contents. by rewrite Ha, Hw. }
  assert (mem_read data 0 (blen data) = Ok data) as HR.
  { apply (mem_read_at [] data []); [by rewrite app_nil_r|done|done]. }
  unfold EmptySize. rewrite HGw, szw_small by (unfold in_size, in_u in *; lia).
  destruct (Z.ltb_spec (blen data) (capacity a - w)) as [Hlt | Hge]; rewrite HR.
  - rewrite bind_Ok, mem_write_Ok by lia. eexists; split; [reflexivity|].
    unfold contents, GetLength. cbn. rewrite take_splice by lia. rewrite <- HC.
    rewrite blen_app, HG, HGw, szw_small by (unfold in_size, in_u in *; lia).
    split; [done|]. split; [eauto|]. split; [done|]. split; [exact Hf|lia].
  - rewrite szw_small by (unfold in_size, in_u in *; lia).
    destruct (split_at arr w) as (x & y & -> & Hx); [lia|].
    assert (contents b = x) as HCx.
    { rewrite HC. apply take_app_length'. unfold blen in Hx. lia. }
    rewrite (mem_read_at [] x y) by done. rewrite bind_Ok.
    assert (zeros (w + blen data) = [] ++ zeros w ++ zeros (blen data)) as ->.
    { unfold zeros. by rewrite Z2Nat.inj_add, replicate_add by lia. }
    rewrite (mem_write_at [] (zeros w) x (zeros (blen data)))
      by (rewrite ?blen_zeros; done || lia).
    rewrite bind_Ok. cbn [app].
    rewrite bind_Ok, (mem_write_at x (zeros (blen data)) data [])
      by (rewrite ?app_nil_r, ?blen_zeros; done || lia).
    rewrite bind_Ok, app_nil_r. eexists; split; [reflexivity|].
    rewrite HCx. unfold contents, GetLength. cbn.
    rewrite (take_ge (x ++ data)) by (rewrite length_app; unfold blen in *; lia).
    rewrite blen_app, Hx, szw_small by (unfold in_size, in_u in *; lia).
    split; [done|]. split; [eauto|]. split; [done|]. split; [exact Hf|done].
Qed.
Lemma Write_path b data len b' : Write b data len = Ok b' -> path b' = path b.
Proof.
  intros HW. assert (path (alloc b len) = path b) as <-
    by (unfold alloc; by destruct (data_ptr b)).
  unfold Write in HW. ok_inv. destruct (_ <? _); ok_inv; reflexivity.
Qed.

(** Only the first [len] bytes of the source are read. *)
Lemma Write_prefix b data extra :
  Write b (data ++ extra) (blen data) = Write b data (blen data).
Proof.
  unfold Write. rewrite (mem_read_at [] data extra) by done.
  by rewrite (mem_read_at [] data []) by (rewrite ?app_nil_r; done).
Qed.

Lemma new_sync f p size : in_size size -> in_sync (new f p size).
Proof. done. Qed.

(** ** Properties *)

(** [Write] on a chunk whose array and capacity agree (a fresh one in
    particular) never leaves its arrays and appends exactly the given bytes,
    in both the in-place and the reallocating branch. *)
Theorem buffer_flush_write_appends b data :
  in_sync b -> blen data < 2 ^ 53 -> capacity b < 2 ^ 53 ->
  in_size (blen (contents b) + blen data) ->
  exists b', Write b data (blen data) = Ok b' /\
    contents b' = contents b ++ data /\ GetLength b' = blen (contents b ++ data) /\
    GetLogFile b' = GetLogFile b.
Proof.
  intros H1 H2 H3 H4. destruct (Write_append b data) as (b' & HW & HC & _ & _ & HF & HL); try done.
  exists b'. rewrite HL, HC. done.
Qed.

(** The reallocating branch forgets to update [capacity].  Once the contents
    exceed it, [EmptySize] wraps around and the next write of any size below
    that wrapped value is a [memcpy] past the end of the array. *)
Theorem buffer_flush_stale_capacity_overflow b arr w data :
  data_ptr b = Some arr -> write_ptr b = Some w ->
  blen arr = w -> in_size w -> 0 <= capacity b < w ->
  0 < blen data < 2 ^ size_bits - w ->
  Write b data (blen data) = Fault OutOfBounds.
Proof.
  intros Ha Hw Harr Hin Hcap Hdata.
  assert (alloc b (blen data) = b) as Halloc by (unfold alloc; by rewrite Ha).
  unfold Write. rewrite Halloc, Ha, Hw. cbn [of_option]. rewrite !bind_Ok.
  unfold in_size, in_u in *.
  assert (EmptySize b = 2 ^ size_bits + capacity b - w) as HE.
  { unfold EmptySize, GetLength. rewrite Ha, Hw, (szw_small w) by done.
    unfold szw, uwrap. replace (capacity b - w)
      with (2 ^ size_bits + capacity b - w + (-1) * 2 ^ size_bits) by lia.
    rewrite Z.mod_add by lia. apply Z.mod_small. lia. }
  rewrite HE. destruct (Z.ltb_spec (blen data) (2 ^ size_bits + capacity b - w)); [|lia].
  rewrite (mem_read_at [] data []) by (rewrite ?app_nil_r; done). rewrite bind_Ok.
  unfold mem_write. rewrite (proj2 (in_block_false _ _ _)); [done|lia].
Qed.

(** The destructor is never legal once something was written: it calls
    [delete[]] on [write_ptr], which points past the written bytes (or, when
    nothing was written, on the same array twice). *)
Theorem buffer_flush_destructor_illegal b data len b' :
  Write b data len = Ok b' -> ~ dealloc_ok (destroy b').
Proof.
  intros HW. assert (is_Some (data_ptr b') /\ is_Some (write_ptr b')) as [[arr Ha] [w Hw]].
  { unfold Write in HW. ok_inv. destruct (_ <? _); ok_inv; cbn; eauto. }
  unfold dealloc_ok, destroy. rewrite Ha, Hw. intros [HN HF].
  rewrite !Forall_app in HF. destruct HF as (_ & HF & _ & _).
  apply Forall_cons in HF as [-> _].
  apply NoDup_app in HN as (_ & _ & HN). apply NoDup_app in HN as (_ & HN & _).
  apply (HN (DelData 0)); set_solver.
Qed.

End WithArch.

Lemma buffer_flush_write_appends_witness :
  exists b', Write (A := LP64) (new (Some [97]) None 128) [1; 2; 3] 3 = Ok b' /\
    contents b' = [1; 2; 3].
Proof.
  destruct (buffer_flush_write_appends (A := LP64) (new (Some [97]) None 128) [1; 2; 3])
    as (b' & H & HC & _); [vm_compute; try split; congruence .. |].
  exists b'. split; [exact H | exact HC].
Defined.

(** Three writes to a chunk of capacity 2: the first two grow it, the third
    one overflows. *)
Lemma buffer_flush_stale_capacity_overflow_witness :
  exists b1 b2, Write (A := LP64) (new None None 2) [1; 2] 2 = Ok b1 /\
    Write (A := LP64) b1 [3] 1 = Ok b2 /\ Write (A := LP64) b2 [4] 1 = Fault OutOfBounds.
Proof.
  eexists _, _. split; [vm_compute; reflexivity|]. split; [vm_compute; reflexivity|].
  apply (buffer_flush_stale_capacity_overflow (A := LP64) _ [1; 2; 3] 3 [4]);
    vm_compute; try split; congruence.
Defined.

Lemma buffer_flush_destructor_illegal_witness :
  ~ dealloc_ok [DelData 3; DelData 0].
Proof.
  apply (buffer_flush_destructor_illegal (A := LP64) (new None None 128) [1; 2; 3] 3
    (mk None false (Some ([1; 2; 3] ++ zeros 125)) (Some 3) None 128)).
  vm_compute. reflexivity.
Defined.
End BufferFlush.
