(* ===== verification/ZapFileFlush.v ===== *)
(** * Zap: the writer thread

    Models [class FileFlush]
    (library_zap/src/main/cpp/zap_file_flush.{h,cpp}): the queue of chunks, the
    thread that writes them to their log files, and the shutdown protocol.
    Sequential operations are functions; the interleaving of the worker with the
    client that pushes chunks and stops the thread is a step relation in which
    the mutex, the condition variable and the unprotected [exit] flag are
    explicit. *)

From S2P Require Import Prelude ZapBufferFlush.

(** The log files by path; an append-mode write adds at the end. *)
Abbreviation file_store := (gmap (list Z) (list Z)) (only parsing).

Definition fcontents (fs : file_store) (f : FILE) : list Z := default [] (fs !! f).

Definition fappend (fs : file_store) (f : FILE) (bs : list Z) : file_store :=
  <[f := fcontents fs f ++ bs]> fs.

Module FileFlush.
Section WithArch.
Context {A : Arch}.

Record t : Type := mk {
  exit : bool;
  async_buffer : list BufferFlush.t
}.

(** The constructor starts the worker on an empty queue. *)
Definition new : t := mk false [].

(** [AsyncFlush] under the mutex: its result, and what the deleted chunk asks of
    the allocator when the thread is already stopping. *)
Definition AsyncFlush (ff : t) (buffer : BufferFlush.t) : t * bool * list dealloc :=
  if exit ff then (ff, false, BufferFlush.destroy buffer)
  else (mk (exit ff) (async_buffer ff ++ [buffer]), true, []).

(** [Flush]: the store after the write, the returned value ([None] when control
    flows off the end of the function) and the deallocations of [delete buffer]. *)
Definition Flush (fs : file_store) (buffer : BufferFlush.t)
    : outcome (file_store * option Z * list dealloc) :=
  match BufferFlush.GetLogFile buffer with
  | Some log_file =>
      if 0 <? BufferFlush.GetLength buffer then
        arr ← of_option NullDeref (BufferFlush.GetPtr buffer);
        bs ← mem_read arr 0 (BufferFlush.GetLength buffer);
        Ok (fappend fs log_file bs, Some 1, BufferFlush.destroy buffer)
      else Ok (fs, None, [])
  | None => Ok (fs, None, [])
  end.

(** The inner loop of [AsyncLogThread] on [async_buffer], last chunk first: the
    argument is the queue in the order it is popped. *)
Fixpoint flush_all (fs : file_store) (popped : list BufferFlush.t) : outcome file_store :=
  match popped with
  | [] => Ok fs
  | b :: rest =>
      r ← Flush fs b;
      flush_all (r.1.1) rest
  end.

Definition drain (fs : file_store) (ff : t) : outcome (file_store * t) :=
  fs ← flush_all fs (reverse (async_buffer ff));
  Ok (fs, mk (exit ff) []).

(** ** The threads *)

(** Program counter of [AsyncLogThread]. *)
Inductive wpc : Type :=
| WLock      (** constructing [lck_async_log_thread] *)
| WDrain     (** [while (!async_buffer.empty())], mutex held *)
| WCheck     (** [if (exit)], mutex held *)
| WPreWait   (** about to call [wait], mutex held *)
| WWait      (** blocked in [wait], mutex released *)
| WWoken     (** notified, re-acquiring the mutex *)
| WLoopEnd   (** [wait] returned, the lock goes out of scope *)
| WDone.     (** the thread function returned *)

(** Program counter of the client: before [StopFlush], after [exit = true], after
    [notify_all] (blocked in [join]), after [join]. *)
Inductive cpc : Type := CRun | CExitSet | CJoining | CJoined.

Definition holds_mutex (p : wpc) : bool :=
  match p with WDrain | WCheck | WPreWait | WLoopEnd => true | _ => false end.

(** [async_condition.notify_all()] *)
Definition notify_all (p : wpc) : wpc := match p with WWait => WWoken | p => p end.

(** The shared state; [pushed] and [flushed] record the chunks that entered the
    queue and the chunks [Flush] was called on, in order. *)
Record sys : Type := mkSys {
  ff : t;
  worker : wpc;
  client : cpc;
  files : file_store;
  pushed : list BufferFlush.t;
  flushed : list BufferFlush.t
}.

(** A chunk as [Buffer] hands it over: its write pointer lies in its array. *)
Definition chunk_ok (b : BufferFlush.t) : Prop :=
  match BufferFlush.data_ptr b, BufferFlush.write_ptr b with
  | Some arr, Some w => 0 <= w <= blen arr /\ in_size w
  | None, None => True
  | _, _ => False
  end.

Inductive wstep : sys -> sys -> Prop :=
| w_lock f c fs p q :
    wstep (mkSys f WLock c fs p q) (mkSys f WDrain c fs p q)
| w_flush e q0 b c fs fs' r d p q :
    Flush fs b = Ok (fs', r, d) ->
    wstep (mkSys (mk e (q0 ++ [b])) WDrain c fs p q)
          (mkSys (mk e q0) WDrain c fs' p (q ++ [b]))
| w_empty e c fs p q :
    wstep (mkSys (mk e []) WDrain c fs p q) (mkSys (mk e []) WCheck c fs p q)
| w_exit q0 c fs p q :
    wstep (mkSys (mk true q0) WCheck c fs p q) (mkSys (mk true q0) WDone c fs p q)
| w_stay q0 c fs p q :
    wstep (mkSys (mk false q0) WCheck c fs p q) (mkSys (mk false q0) WPreWait c fs p q)
| w_wait f c fs p q :
    wstep (mkSys f WPreWait c fs p q) (mkSys f WWait c fs p q)
| w_wake f c fs p q :
    wstep (mkSys f WWoken c fs p q) (mkSys f WLoopEnd c fs p q)
| w_again f c fs p q :
    wstep (mkSys f WLoopEnd c fs p q) (mkSys f WLock c fs p q).

Inductive cstep : sys -> sys -> Prop :=
| c_push f f' w fs p q b d :
    chunk_ok b -> holds_mutex w = false ->
    AsyncFlush f b = (f', true, d) ->
    cstep (mkSys f w CRun fs p q) (mkSys f' (notify_all w) CRun fs (p ++ [b]) q)
| c_exit f w fs p q :
    cstep (mkSys f w CRun fs p q) (mkSys (mk true (async_buffer f)) w CExitSet fs p q)
| c_notify f w fs p q :
    cstep (mkSys f w CExitSet fs p q) (mkSys f (notify_all w) CJoining fs p q)
| c_join f fs p q :
    cstep (mkSys f WDone CJoining fs p q) (mkSys f WDone CJoined fs p q).

Definition step (s s' : sys) : Prop := wstep s s' \/ cstep s s'.

Definition init (fs : file_store) : sys := mkSys new WLock CRun fs [] [].

(** ** What the worker writes *)

(** The bytes chunk [b] contributes to log file [f]. *)
Definition chunk_bytes (f : FILE) (b : BufferFlush.t) : list Z :=
  if decide (BufferFlush.GetLogFile b = Some f) then BufferFlush.contents b else [].

Definition written (f : FILE) (l : list BufferFlush.t) : list Z := concat (chunk_bytes f <$> l).

Lemma written_app f l1 l2 : written f (l1 ++ l2) = written f l1 ++ written f l2.
Proof. unfold written. by rewrite fmap_app, concat_app. Qed.

Lemma fcontents_fappend fs f g bs :
  fcontents (fappend fs f bs) g = fcontents fs g ++ (if decide (f = g) then bs else []).
Proof.
  unfold fcontents, fappend. destruct (decide (f = g)) as [-> | Hne].
  - by rewrite lookup_insert_eq.
  - by rewrite lookup_insert_ne, app_nil_r.
Qed.

Lemma Flush_spec fs b :
  chunk_ok b ->
  exists fs' r d, Flush fs b = Ok (fs', r, d) /\
    forall f, fcontents fs' f = fcontents fs f ++ chunk_bytes f b.
Proof.
  unfold chunk_ok, Flush, chunk_bytes, BufferFlush.GetLength, BufferFlush.contents,
    BufferFlush.GetPtr, BufferFlush.GetLogFile.
  intros Hok. destruct (BufferFlush.log_file_ptr b) as [lf|].
  2: { eexists _, _, _; split; [done|]. intros f. by rewrite app_nil_r. }
  destruct (BufferFlush.data_ptr b) as [arr|], (BufferFlush.write_ptr b) as [w|]; try done.
  2: { eexists _, _, _; split; [done|]. intros f. by case_decide; rewrite app_nil_r. }
  destruct Hok as [Hw Hin]. rewrite szw_small by done.
  destruct (Z.ltb_spec 0 w) as [Hpos | Hz].
  - cbn [of_option]. rewrite bind_Ok, mem_read_Ok, bind_Ok by lia.
    eexists _, _, _; split; [done|]. intros f. rewrite fcontents_fappend.
    f_equal. case_decide; case_decide; reflexivity || congruence.
  - eexists _, _, _; split; [done|]. intros f. replace w with 0 by lia.
    by case_decide; rewrite app_nil_r.
Qed.

Lemma flush_all_spec fs l :
  Forall chunk_ok l ->
  exists fs', flush_all fs l = Ok fs' /\ forall f, fcontents fs' f = fcontents fs f ++ written f l.
Proof.
  intros Hl. revert fs. induction Hl as [|b l Hb _ IH]; intros fs.
  { exists fs. split; [done|]. intros f. by rewrite app_nil_r. }
  destruct (Flush_spec fs b Hb) as (fs1 & r & d & HF & H1).
  destruct (IH fs1) as (fs2 & HA & H2). exists fs2. split; [cbn; by rewrite HF|].
  intros f. rewrite H2, H1, <- app_assoc. done.
Qed.

(** ** Invariant of the concurrent system *)

Record inv (fs0 : file_store) (s : sys) : Prop := {
  inv_ok : Forall chunk_ok (async_buffer (ff s));
  inv_perm : Permutation (pushed s) (flushed s ++ async_buffer (ff s));
  inv_files : forall f, fcontents (files s) f = fcontents fs0 f ++ written f (flushed s)
}.

Lemma inv_init fs0 : inv fs0 (init fs0).
Proof. split; cbn; [constructor|done|]. intros f. by rewrite app_nil_r. Qed.

Lemma inv_wstep fs0 s s' : inv fs0 s -> wstep s s' -> inv fs0 s'.
Proof.
  intros [H1 H2 H3] Hs. destruct Hs as [| e q0 b c fs fs' r d p q HF | | | | | |];
    try (constructor; cbn in *; assumption).
  cbn in *. apply Forall_app in H1 as [Hq Hb]. apply Forall_cons in Hb as [Hb _].
  destruct (Flush_spec fs b Hb) as (fs1 & r1 & d1 & HF1 & HC).
  rewrite HF in HF1. injection HF1 as <- <- <-.
  split; cbn [files flushed pushed ff async_buffer]; [done| |].
  - rewrite H2, <- app_assoc. apply Permutation_app_head, Permutation_app_comm.
  - intros f. rewrite HC, H3, written_app, <- app_assoc. unfold written. cbn.
    by rewrite app_nil_r.
Qed.

Lemma inv_cstep fs0 s s' : inv fs0 s -> cstep s s' -> inv fs0 s'.
Proof.
  intros [H1 H2 H3] Hs. destruct Hs as [f f' w fs p q b d Hb _ HA | | |];
    try (constructor; cbn in *; assumption).
  unfold AsyncFlush in HA. destruct (exit f); [discriminate|]. injection HA as <- <-.
  split; cbn in *; [by apply Forall_app_2; [|constructor]| |done].
  rewrite H2, <- app_assoc. done.
Qed.

Lemma inv_reachable fs0 s : rtc step (init fs0) s -> inv fs0 s.
Proof.
  intros Hr. remember (init fs0) as s0 eqn:E.
  assert (inv fs0 s0) as H0 by (subst; apply inv_init). clear E.
  induction Hr as [|x y z [Hs | Hs] _ IH]; eauto using inv_wstep, inv_cstep.
Qed.

(** The worker empties the queue from its end. *)
Lemma drain_steps e q c fs p fl :
  Forall chunk_ok q ->
  exists fs', rtc wstep (mkSys (mk e q) WDrain c fs p fl)
                        (mkSys (mk e []) WDrain c fs' p (fl ++ reverse q)).
Proof.
  revert fs fl. induction q as [|b q IH] using rev_ind; intros fs fl Hq.
  { exists fs. rewrite reverse_nil, app_nil_r. done. }
  apply Forall_app in Hq as [Hq Hb]. apply Forall_cons in Hb as [Hb _].
  destruct (Flush_spec fs b Hb) as (fs1 & r & d & HF & _).
  destruct (IH fs1 (fl ++ [b]) Hq) as [fs2 Hr]. exists fs2.
  eapply rtc_l; [by eapply w_flush|]. rewrite reverse_app, reverse_singleton, app_assoc. exact Hr.
Qed.

(** With [exit] set and the worker not (about to be) asleep, it drains the queue
    and returns. *)
Lemma worker_finishes q w c fs p fl :
  Forall chunk_ok q ->
  w = WLock \/ w = WDrain \/ w = WWoken \/ w = WLoopEnd ->
  exists fs', rtc wstep (mkSys (mk true q) w c fs p fl)
                        (mkSys (mk true []) WDone c fs' p (fl ++ reverse q)).
Proof.
  intros Hq Hw. destruct (drain_steps true q c fs p fl Hq) as [fs' Hd]. exists fs'.
  assert (rtc wstep (mkSys (mk true q) WDrain c fs p fl)
                    (mkSys (mk true []) WDone c fs' p (fl ++ reverse q))) as HD.
  { etrans; [exact Hd|].
    eapply rtc_l; [apply w_empty|]. eapply rtc_once, w_exit. }
  destruct Hw as [-> | [-> | [-> | ->]]]; [..|]; try exact HD.
  - eapply rtc_l; [apply w_lock|]. exact HD.
  - eapply rtc_l; [apply w_wake|]. eapply rtc_l; [apply w_again|].
    eapply rtc_l; [apply w_lock|]. exact HD.
  - eapply rtc_l; [apply w_again|]. eapply rtc_l; [apply w_lock|]. exact HD.
Qed.

(** ** Properties *)


(** The inner loop pops from the back of the vector: draining a queue that
    holds several chunks writes the last pushed chunk first, so the log file
    receives them in reverse order. *)
Theorem drain_reverses_chunks fs ff0 :
  Forall chunk_ok (async_buffer ff0) ->
  exists fs', drain fs ff0 = Ok (fs', mk (exit ff0) []) /\
    forall f, fcontents fs' f = fcontents fs f ++ written f (reverse (async_buffer ff0)).
Proof.
  intros Hq. unfold drain. destruct (flush_all_spec fs (reverse (async_buffer ff0)))
    as (fs' & HA & HC); [by apply Forall_reverse|].
  rewrite HA. exists fs'. done.
Qed.


(** C38. [StopFlush] can hang: it sets [exit] and notifies without the mutex, so
    both can fall between the worker's test of [exit] and its [wait].  That
    state is reachable, the client waits in [join], the worker in [wait], and
    no step of either thread is possible. *)
Theorem stop_flush_lost_wakeup fs0 :
  exists s, rtc step (init fs0) s /\ exit (ff s) = true /\ client s = CJoining /\
    worker s = WWait /\ forall s', ~ step s s'.
Proof.
  exists (mkSys (mk true []) WWait CJoining fs0 [] []).
  split; [|repeat split; intros s' [H | H]; inversion H].
  eapply rtc_l; [left; apply w_lock|]. eapply rtc_l; [left; apply w_empty|].
  eapply rtc_l; [left; apply w_stay|]. eapply rtc_l; [right; apply c_exit|].
  eapply rtc_l; [right; apply c_notify|]. cbn. eapply rtc_once. left. apply w_wait.
Qed.

End WithArch.

(** A chunk holding the single byte [x] for the file "f". *)
Definition chunk_of (x : Z) : BufferFlush.t :=
  BufferFlush.mk (Some [102]) false (Some [x]) (Some 1) None 1.

Lemma chunk_of_ok x : chunk_ok (A := LP64) (chunk_of x).
Proof. vm_compute. repeat split; congruence. Defined.

Lemma drain_reverses_chunks_witness :
  exists fs', drain (A := LP64) ∅ (mk false [chunk_of 97; chunk_of 98]) = Ok (fs', mk false []) /\
    fcontents fs' [102] = [98; 97].
Proof.
  destruct (drain_reverses_chunks (A := LP64) ∅ (mk false [chunk_of 97; chunk_of 98]))
    as (fs' & H & HC).
  - constructor; [apply chunk_of_ok|]. constructor; [apply chunk_of_ok|constructor].
  - exists fs'. split; [exact H|]. rewrite HC. vm_compute. reflexivity.
Defined.


End FileFlush.
