(* ===== verification/ZapBuffer.v ===== *)
(** * Zap: the log buffer

    Models [class Buffer] (library_zap/src/main/cpp/zap_buffer.{h,cpp}): a block
    of memory (a mapping or a heap array) with a [BufferHeader] at its start,
    appended to by the logging thread and handed over to the writer thread.

    [buffer_ptr] and the header's [data_ptr] are the same block, so the model has
    one block [mem]; [data_ptr] and [write_ptr] are offsets in it, [None] for a
    null pointer.  The recursive mutex only shows in the model where it is
    released after the object was deleted. *)

From S2P Require Import Prelude ZapHeader ZapBufferFlush ZapFileFlush.

(** zlib, as far as the buffer uses it: [deflate] consumes the input and writes
    at most [avail_out] bytes. *)
Class ZLib : Type := {
  z_stream : Type;
  z_live : z_stream -> bool;
  deflateInit2 : z_stream -> bool * z_stream;
  deflate : z_stream -> list Z -> Z -> bool * list Z * z_stream;
  deflateEnd : z_stream -> z_stream;
  deflate_avail_out : forall z input n, 0 <= n -> blen (deflate z input n).1.2 <= n
}.

(** What [Release] does, in order. *)
Inductive release_action : Type := RDeflateEnd | RMunmap | RDeleteArray | RFclose.

Module Buffer.
Section WithArch.
Context {A : Arch} {Z_ : ZLib}.

(** Whether [fopen(path, "ab+")] succeeds. *)
Variable fopen_ok : list Z -> bool.

Record t : Type := mk {
  map_buffer : bool;
  log_file_ptr : option FILE;
  file_flush_ptr : bool;
  mem : list Z;
  data_ptr : option Z;
  write_ptr : option Z;
  buffer_size : Z;
  zStream : z_stream;
  compress : bool
}.

(** [Buffer(ptr, buffer_size)] with the default member initialisers. *)
Definition new (ptr : list Z) (size : Z) (z0 : z_stream) : t :=
  mk true None false ptr None None size z0 false.

Definition buffer_header (b : t) : BufferHeader.t := BufferHeader.mk (mem b) (buffer_size b).

Definition with_mem (b : t) (m : list Z) : t :=
  mk (map_buffer b) (log_file_ptr b) (file_flush_ptr b) m (data_ptr b) (write_ptr b)
     (buffer_size b) (zStream b) (compress b).
Definition with_ptrs (b : t) (d w : option Z) : t :=
  mk (map_buffer b) (log_file_ptr b) (file_flush_ptr b) (mem b) d w
     (buffer_size b) (zStream b) (compress b).
Definition with_z (b : t) (z : z_stream) (c : bool) : t :=
  mk (map_buffer b) (log_file_ptr b) (file_flush_ptr b) (mem b) (data_ptr b) (write_ptr b)
     (buffer_size b) z c.
Definition with_file (b : t) (f : option FILE) : t :=
  mk (map_buffer b) f (file_flush_ptr b) (mem b) (data_ptr b) (write_ptr b)
     (buffer_size b) (zStream b) (compress b).

Definition SetLength (b : t) (len : Z) : outcome t :=
  h ← BufferHeader.SetLogLen (buffer_header b) len;
  Ok (with_mem b (BufferHeader.data_ptr h)).

Definition GetLength (b : t) : outcome Z :=
  match write_ptr b, data_ptr b with
  | Some w, Some d => Ok (szw (w - d))
  | None, None => Ok 0
  | _, _ => Fault BadPtrDiff
  end.

Definition EmptySize (b : t) : outcome Z :=
  match write_ptr b with
  | Some w => Ok (szw (buffer_size b - w))
  | None => Fault BadPtrDiff
  end.

Definition InitCompress (b : t) (c : bool) : t * bool :=
  if c then
    let r := deflateInit2 (zStream b) in (with_z b r.2 c, r.1)
  else (with_z b (zStream b) c, false).

Definition OpenLogFile (b : t) (path : option (list Z)) : outcome (t * bool) :=
  match path with
  | None => Ok (b, false)
  | Some p =>
      s ← of_option Unterminated (cstr p);
      if fopen_ok s then Ok (with_file b (Some s), true) else Ok (b, false)
  end.

Definition InitData (b : t) (log_path : list Z) (log_path_len limit_size : Z) (c : bool)
    : outcome t :=
  m ← mem_write (mem b) 0 (zeros (buffer_size b));
  let b := with_mem b m in
  h ← BufferHeader.InitHeader (buffer_header b)
        (mkHeader kMagicHeader 0 log_path_len (Some log_path) c limit_size);
  let b := with_mem b (BufferHeader.data_ptr h) in
  let b := (InitCompress b c).1 in
  d ← BufferHeader.GetDataPtr (buffer_header b);
  w ← BufferHeader.GetWritePtr (buffer_header b);
  let b := with_ptrs b (Some d) (Some w) in
  r ← OpenLogFile b (Some log_path);
  Ok (r.1).

(** [Append]: the buffer and the number of bytes written. *)
Definition Append (b : t) (log : list Z) (len : Z) : outcome (t * Z) :=
  n ← GetLength b;
  let b := if n =? 0 then (InitCompress b (compress b)).1 else b in
  free_size ← EmptySize b;
  w ← of_option NullDeref (write_ptr b);
  if compress b then
    input ← mem_read log 0 (u32 len);
    let r := deflate (zStream b) input (u32 free_size) in
    m ← mem_write (mem b) w r.1.2;
    let b := with_z (with_mem b m) r.2 (compress b) in
    if negb r.1.1 then Ok (b, 0)
    else
      let avail_out := u32 free_size - blen r.1.2 in
      let write_size := szw (free_size - avail_out) in
      let b := with_ptrs b (data_ptr b) (Some (w + write_size)) in
      n ← GetLength b;
      b ← SetLength b n;
      Ok (b, write_size)
  else
    let write_size := if len <=? free_size then len else free_size in
    src ← mem_read log 0 write_size;
    m ← mem_write (mem b) w src;
    let b := with_ptrs (with_mem b m) (data_ptr b) (Some (w + write_size)) in
    n ← GetLength b;
    b ← SetLength b n;
    Ok (b, write_size).

(** [Release], run by the destructor: the actions it performs. *)
Definition Release (b : t) : list release_action :=
  (if compress b && z_live (zStream b) then [RDeflateEnd] else [])
    ++ (if map_buffer b then [RMunmap] else [RDeleteArray])
    ++ match log_file_ptr b with Some _ => [RFclose] | None => [] end.

Definition GetLogPath (b : t) : outcome (option (list Z)) :=
  BufferHeader.GetLogPath (buffer_header b).

Definition SetFileFlush (b : t) (flush : bool) : t :=
  mk (map_buffer b) (log_file_ptr b) flush (mem b) (data_ptr b) (write_ptr b)
     (buffer_size b) (zStream b) (compress b).

Definition Clear (b : t) : outcome t :=
  let b := with_ptrs b (data_ptr b) (data_ptr b) in
  w ← of_option NullDeref (write_ptr b);
  e ← EmptySize b;
  m ← mem_write (mem b) w (zeros e);
  let b := with_mem b m in
  n ← GetLength b;
  SetLength b n.

(** How a call of [CallFileFlush] leaves the object: alive, or deleted with the
    actions of its destructor. *)
Inductive flushed_buffer : Type :=
| Alive (b : t)
| Deleted (acts : list release_action).

(** [CallFileFlush(flush, buffer)]; [flush] is the [FileFlush] object or null,
    [self] tells whether the [buffer] argument is this object (it is null
    otherwise, at every call in the program).  Deleting [this] inside the
    critical section makes the lock guard unlock a destroyed mutex. *)
Definition CallFileFlush (b : t) (flush : option FileFlush.t) (self : bool)
    : outcome (flushed_buffer * option FileFlush.t) :=
  match flush with
  | None => Ok (if self then Deleted (Release b) else Alive b, None)
  | Some ff =>
      n ← GetLength b;
      if 0 <? n then
        let b := if compress b && z_live (zStream b)
                 then with_z b (deflateEnd (zStream b)) (compress b) else b in
        path ← GetLogPath b;
        d ← of_option NullDeref (data_ptr b);
        bf ← BufferFlush.Write (BufferFlush.new (log_file_ptr b) path 128)
               (drop (Z.to_nat d) (mem b)) n;
        let bf := BufferFlush.ReleaseThiz bf self in
        b ← Clear b;
        Ok (Alive b, Some ((FileFlush.AsyncFlush ff bf).1.1))
      else if self then Fault UseAfterFree
      else Ok (Alive b, Some ff)
  end.

(** [CallFileFlush()]: the flush object the buffer was given, if any. *)
Definition CallFileFlush_own (b : t) (ff : option FileFlush.t)
    : outcome (flushed_buffer * option FileFlush.t) :=
  if file_flush_ptr b then CallFileFlush b ff false
  else r ← CallFileFlush b None false; Ok (r.1, ff).

Definition ExpLogPath (b : t) (ff : option FileFlush.t) (path : list Z) (limit_size : Z)
    : outcome (t * option FileFlush.t) :=
  r ← match log_file_ptr b with
      | Some _ => CallFileFlush_own b ff
      | None => Ok (Alive b, ff)
      end;
  match r.1 with
  | Alive b =>
      n ← strlen path;
      b ← InitData b path n limit_size (compress b);
      Ok (b, r.2)
  | Deleted _ => Fault UseAfterFree
  end.

(** [ftell] at the end of the open log file. *)
Definition GetCurrentLogFileSize (b : t) (fs : file_store) : Z :=
  match log_file_ptr b with
  | Some f => szw (blen (fcontents fs f))
  | None => 0
  end.

Definition IsCurrentLogFileOversize (b : t) (fs : file_store) : outcome bool :=
  lim ← BufferHeader.GetLimitSize (buffer_header b);
  Ok (lim <=? GetCurrentLogFileSize b fs).

(** ** The representation invariant

    [holds b path ll lim cb pending rest]: the block is a formatted header
    followed by the [pending] log bytes and the [rest] of the data area, and
    the two pointers delimit [pending].  The invariant of the operations is
    [repr], where the stored log length [ll] is the length of [pending]. *)

Record holds (b : t) (path : list Z) (ll lim cb : Z) (pending rest : list Z) : Prop := {
  h_fmt : BufferHeader.formatted (buffer_header b) path ll lim cb (pending ++ rest);
  h_data : data_ptr b = Some (BufferHeader.header_len path);
  h_write : write_ptr b = Some (BufferHeader.header_len path + blen pending)
}.

Definition repr (b : t) (path : list Z) (lim cb : Z) (pending rest : list Z) : Prop :=
  holds b path (blen pending) lim cb pending rest.

Section Holds.
Context {b path ll lim cb pending rest} (H : holds b path ll lim cb pending rest).

Lemma holds_mem : mem b = BufferHeader.layout path ll lim cb (pending ++ rest).
Proof. apply (BufferHeader.f_mem _ _ _ _ _ _ (h_fmt _ _ _ _ _ _ _ H)). Qed.

Lemma holds_size : buffer_size b = BufferHeader.header_len path + blen pending + blen rest.
Proof.
  pose proof (BufferHeader.fmt_data_size (h_fmt _ _ _ _ _ _ _ H)) as E. cbn in E.
  rewrite E, blen_app. lia.
Qed.

Lemma holds_bound : 0 <= BufferHeader.header_len path /\
  BufferHeader.header_len path + blen pending + blen rest < 2 ^ size_bits.
Proof.
  pose proof (BufferHeader.f_fits _ _ _ _ _ _ (h_fmt _ _ _ _ _ _ _ H)) as [_ E]. cbn in E.
  rewrite holds_size in E. split; [|exact E].
  unfold BufferHeader.header_len. pose proof (blen_nonneg path). destruct szc_cases; lia.
Qed.

(** Lengths inside the block are representable. *)
Lemma holds_szw z : 0 <= z <= blen pending + blen rest -> in_size z.
Proof. intros ?. pose proof holds_bound. unfold in_size, in_u. lia. Qed.

Lemma holds_GetLength : GetLength b = Ok (blen pending).
Proof.
  unfold GetLength. rewrite (h_data _ _ _ _ _ _ _ H), (h_write _ _ _ _ _ _ _ H).
  f_equal. rewrite szw_small; [lia|]. apply holds_szw.
  pose proof (blen_nonneg pending). pose proof (blen_nonneg rest). lia.
Qed.

Lemma holds_EmptySize : EmptySize b = Ok (blen rest).
Proof.
  unfold EmptySize. rewrite (h_write _ _ _ _ _ _ _ H), holds_size. f_equal.
  rewrite szw_small; [lia|]. apply holds_szw.
  pose proof (blen_nonneg pending). pose proof (blen_nonneg rest). lia.
Qed.

Lemma holds_SetLength n :
  in_size n -> exists b', SetLength b n = Ok b' /\ holds b' path n lim cb pending rest /\
    log_file_ptr b' = log_file_ptr b /\ compress b' = compress b /\
    file_flush_ptr b' = file_flush_ptr b /\ zStream b' = zStream b.
Proof.
  intros Hn. unfold SetLength.
  destruct (BufferHeader.fmt_SetLogLen (h_fmt _ _ _ _ _ _ _ H) n Hn) as (h' & HS & F').
  rewrite HS, bind_Ok. eexists; split; [reflexivity|]. cbn.
  assert (BufferHeader.data_size h' = buffer_size b) as E.
  { unfold BufferHeader.SetLogLen, BufferHeader.write_at in HS. ok_inv.
    destruct a; ok_inv; reflexivity. }
  split; [|done]. split; cbn; [|apply H|apply H].
  unfold buffer_header. cbn. rewrite <- E. by destruct h'.
Qed.

(** Overwriting the start of the free area. *)
Lemma holds_fill src rest' :
  blen src + blen rest' = blen rest ->
  (exists x, blen x = blen src /\ rest = x ++ rest') ->
  exists m, mem_write (mem b) (BufferHeader.header_len path + blen pending) src = Ok m /\
    m = BufferHeader.layout path ll lim cb (pending ++ src ++ rest').
Proof.
  intros Hl (x & Hx & Hr). eexists; split; [|reflexivity]. rewrite holds_mem, Hr.
  rewrite !BufferHeader.layout_data, !app_nil_r.
  match goal with |- context [?p ++ pending ++ x ++ rest'] =>
    rewrite (mem_write_at (p ++ pending) x src rest') end.
  - by rewrite <- !app_assoc.
  - by rewrite <- !app_assoc.
  - rewrite !blen_app, !BufferHeader.szc_blen, !blen_cons, blen_nil.
    unfold BufferHeader.header_len. lia.
  - done.
Qed.

Lemma holds_layout b' src rest' :
  blen src + blen rest' = blen rest ->
  mem b' = BufferHeader.layout path ll lim cb (pending ++ src ++ rest') ->
  buffer_size b' = buffer_size b -> data_ptr b' = data_ptr b ->
  write_ptr b' = Some (BufferHeader.header_len path + blen (pending ++ src)) ->
  holds b' path ll lim cb (pending ++ src) rest'.
Proof.
  intros Hl Hm Hs Hd Hw. destruct H as [F Fd Fw].
  split; [|by rewrite Hd | exact Hw]. rewrite <- app_assoc.
  pose proof holds_size as Hsz.
  destruct F as [F1 F2 F3 F4 F5 F6 F7]. unfold buffer_header in *.
  constructor; cbn [BufferHeader.data_ptr BufferHeader.data_size] in *; try done.
  - rewrite Hm, BufferHeader.blen_layout, Hs, Hsz, !blen_app. lia.
  - by rewrite Hs.
  - rewrite !blen_app in *. lia.
Qed.
End Holds.

Lemma rest_cut (rest src : list Z) :
  blen src <= blen rest ->
  exists x, blen x = blen src /\ rest = x ++ drop (length src) rest /\
    blen src + blen (drop (length src) rest) = blen rest.
Proof.
  intros Hl. exists (take (length src) rest). unfold blen in *.
  rewrite length_take, length_drop, take_drop. split; [lia|]. split; [done|lia].
Qed.

(** The common tail of both branches of [Append]: store the bytes, move the write
    pointer, update the stored length. *)
Lemma store_tail b0 b path lim cb pending rest src :
  repr b path lim cb pending rest -> blen src <= blen rest ->
  (forall m, mem_write (mem b) (BufferHeader.header_len path + blen pending) src = Ok m ->
     mem b0 = m /\ buffer_size b0 = buffer_size b /\ data_ptr b0 = data_ptr b /\
     write_ptr b0 = Some (BufferHeader.header_len path + blen pending + blen src)) ->
  exists m b', mem_write (mem b) (BufferHeader.header_len path + blen pending) src = Ok m /\
    GetLength b0 = Ok (blen (pending ++ src)) /\
    SetLength b0 (blen (pending ++ src)) = Ok b' /\
    repr b' path lim cb (pending ++ src) (drop (length src) rest) /\
    log_file_ptr b' = log_file_ptr b0 /\ compress b' = compress b0 /\
    file_flush_ptr b' = file_flush_ptr b0 /\ zStream b' = zStream b0.
Proof.
  intros H Hl Hb0. destruct (rest_cut rest src Hl) as (x & Hx & Hr & Hsum).
  destruct (holds_fill H src (drop (length src) rest) Hsum) as (m & HW & Hm); [eauto|].
  destruct (Hb0 m HW) as (E1 & E2 & E3 & E4).
  assert (holds b0 path (blen pending) lim cb (pending ++ src) (drop (length src) rest)) as H0.
  { apply (holds_layout H); try done; [by rewrite E1|]. rewrite E4, blen_app. f_equal. lia. }
  assert (in_size (blen (pending ++ src))) as Hn.
  { apply (holds_szw H0). pose proof (blen_nonneg (pending ++ src)).
    pose proof (blen_nonneg (drop (length src) rest)). lia. }
  destruct (holds_SetLength H0 _ Hn) as (b' & HS & HR & HF).
  exists m, b'. rewrite (holds_GetLength H0). done.
Qed.

(** ** The operations preserve the invariant *)

Lemma repr_with_z b path lim cb pending rest z c :
  repr b path lim cb pending rest -> repr (with_z b z c) path lim cb pending rest.
Proof. intros [H1 H2 H3]. by split. Qed.

Lemma repr_with_file b path lim cb pending rest f :
  repr b path lim cb pending rest -> repr (with_file b f) path lim cb pending rest.
Proof. intros [H1 H2 H3]. by split. Qed.

(** The bytes an uncompressed [Append] stores: as many as there is room for. *)
Definition stored (log rest : list Z) : list Z := take (length rest) log.

Lemma blen_stored log rest : blen (stored log rest) = Z.min (blen log) (blen rest).
Proof. unfold stored, blen. rewrite length_take. lia. Qed.

Lemma Append_plain b path lim cb pending rest log :
  repr b path lim cb pending rest -> compress b = false ->
  exists b', Append b log (blen log) = Ok (b', Z.min (blen log) (blen rest)) /\
    repr b' path lim cb (pending ++ stored log rest)
         (drop (length (stored log rest)) rest) /\
    log_file_ptr b' = log_file_ptr b /\ compress b' = false /\
    file_flush_ptr b' = file_flush_ptr b.
Proof.
  intros H Hc. unfold Append. rewrite (holds_GetLength H), bind_Ok.
  assert ((if blen pending =? 0 then (InitCompress b (compress b)).1 else b) = b) as ->.
  { destruct (_ =? _); [|done]. unfold InitCompress. rewrite Hc. destruct b; cbn in *. by subst. }
  rewrite (holds_EmptySize H), bind_Ok, (h_write _ _ _ _ _ _ _ H). cbn [of_option].
  rewrite bind_Ok, Hc.
  replace (if blen log <=? blen rest then blen log else blen rest)
    with (blen (stored log rest))
    by (rewrite blen_stored; destruct (Z.leb_spec (blen log) (blen rest)); lia).
  assert (mem_read log 0 (blen (stored log rest)) = Ok (stored log rest)) as ->.
  { unfold stored. apply (mem_read_at [] _ (drop (length rest) log)); [|done|done].
    by rewrite take_drop. }
  rewrite bind_Ok.
  destruct (mem_write (mem b) _ (stored log rest)) as [m|] eqn:HW; cycle 1.
  { destruct (store_tail b b path lim cb pending rest (stored log rest) H) as (m & b' & HW' & _);
      [rewrite blen_stored; lia| |congruence]. congruence. }
  rewrite bind_Ok.
  destruct (store_tail (with_ptrs (with_mem b m) (data_ptr b)
      (Some (BufferHeader.header_len path + blen pending + blen (stored log rest))))
      b path lim cb pending rest (stored log rest) H)
    as (m' & b' & HW' & HG & HS & HR & HF & HCc & HFf & _).
  { rewrite blen_stored; lia. }
  { intros m' Hm'. rewrite HW in Hm'. injection Hm' as <-. done. }
  rewrite HG, bind_Ok, HS, bind_Ok. exists b'. rewrite blen_stored.
  split; [done|]. split; [exact HR|]. rewrite HF, HCc, HFf. done.
Qed.

(** [Append] reads no more than [len] bytes of the message. *)
Lemma Append_prefix b path lim cb pending rest log tl :
  repr b path lim cb pending rest -> compress b = false ->
  Append b (log ++ tl) (blen log) = Append b log (blen log).
Proof.
  intros H Hc. unfold Append. rewrite (holds_GetLength H), !bind_Ok.
  assert ((if blen pending =? 0 then (InitCompress b (compress b)).1 else b) = b) as ->.
  { destruct (_ =? _); [|done]. unfold InitCompress. rewrite Hc. destruct b; cbn in *. by subst. }
  rewrite (holds_EmptySize H), !bind_Ok, Hc.
  destruct (of_option _ _); [|done]. rewrite !bind_Ok.
  set (k := if blen log <=? blen rest then blen log else blen rest).
  assert (0 <= k <= blen log) as Hk.
  { unfold k. pose proof (blen_nonneg log). pose proof (blen_nonneg rest).
    destruct (Z.leb_spec (blen log) (blen rest)); lia. }
  assert (mem_read (log ++ tl) 0 k = mem_read log 0 k) as ->; [|done].
  rewrite !mem_read_Ok by (rewrite ?blen_app; pose proof (blen_nonneg tl); lia).
  unfold slice. change (Z.to_nat 0) with 0%nat. rewrite !drop_0, take_app_le; [done|].
  unfold blen in *. lia.
Qed.

(** The stream [Append] compresses with: re-initialised on an empty buffer. *)
Definition append_stream (b : t) (pending : list Z) : z_stream :=
  if blen pending =? 0 then (deflateInit2 (zStream b)).2 else zStream b.

Lemma Append_deflate b path lim cb pending rest log :
  repr b path lim cb pending rest -> compress b = true ->
  blen rest < 2 ^ 32 -> blen log < 2 ^ 32 ->
  let r := deflate (append_stream b pending) log (blen rest) in
  exists b', Append b log (blen log) =
      Ok (b', if r.1.1 then blen r.1.2 else 0) /\
    (if r.1.1 then repr b' path lim cb (pending ++ r.1.2) (drop (length r.1.2) rest)
     else exists rest', repr b' path lim cb pending rest') /\
    log_file_ptr b' = log_file_ptr b /\ compress b' = true /\ zStream b' = r.2.
Proof.
  intros H Hc Hrest Hlog r. unfold Append. rewrite (holds_GetLength H), bind_Ok.
  set (b1 := if blen pending =? 0 then (InitCompress b (compress b)).1 else b).
  assert (repr b1 path lim cb pending rest /\ compress b1 = true /\
          zStream b1 = append_stream b pending /\ log_file_ptr b1 = log_file_ptr b)
    as (H1 & Hc1 & Hz1 & Hf1).
  { unfold b1, append_stream, InitCompress. rewrite Hc.
    destruct (_ =? _); cbn; [split; [by apply repr_with_z|done]|done]. }
  rewrite (holds_EmptySize H1), bind_Ok, (h_write _ _ _ _ _ _ _ H1). cbn [of_option].
  pose proof (blen_nonneg log). pose proof (blen_nonneg rest).
  rewrite bind_Ok, Hc1, !uwrap_small by (unfold in_u; lia).
  rewrite (mem_read_at [] log []) by (rewrite ?app_nil_r; done). rewrite bind_Ok, Hz1.
  fold r. pose proof (deflate_avail_out (append_stream b pending) log (blen rest) ltac:(lia))
    as Hout. fold r in Hout.
  set (b2 := fun m => with_z (with_mem b1 m) r.2 true).
  set (b3 := fun m => with_ptrs (b2 m) (data_ptr (b2 m))
    (Some (BufferHeader.header_len path + blen pending + blen r.1.2))).
  destruct (rest_cut rest r.1.2 Hout) as (x & Hx & Hr & Hsum).
  destruct (holds_fill H1 r.1.2 (drop (length r.1.2) rest) Hsum) as (m & HW & Hm); [eauto|].
  destruct (store_tail (b3 m) b1 path lim cb pending rest r.1.2 H1 Hout)
    as (m' & b' & HW' & HG & HS & HR & HF & HCc & HFf & HZ).
  { intros m' Hm'. rewrite HW in Hm'. injection Hm' as <-. done. }
  rewrite HW, bind_Ok. fold (b2 m). destruct (r.1.1); cbn [negb].
  - replace (szw (blen rest - (blen rest - blen r.1.2))) with (blen r.1.2).
    2: { rewrite szw_small; [lia|]. apply (holds_szw H1).
         pose proof (blen_nonneg r.1.2). pose proof (blen_nonneg pending). lia. }
    fold (b3 m). rewrite HG, bind_Ok, HS, bind_Ok. exists b'.
    split; [done|]. split; [exact HR|]. rewrite HF, HCc, HZ. done.
  - exists (b2 m). split; [done|]. split; [|done].
    exists (r.1.2 ++ drop (length r.1.2) rest).
    assert (holds (b2 m) path (blen pending) lim cb (pending ++ [])
              (r.1.2 ++ drop (length r.1.2) rest)) as HH.
    { apply (holds_layout H1 (b2 m) []); try done.
      - rewrite blen_app, blen_nil. lia.
      - rewrite app_nil_r. exact (h_write _ _ _ _ _ _ _ H1). }
    by rewrite app_nil_r in HH.
Qed.

Lemma Clear_repr b path lim cb pending rest :
  repr b path lim cb pending rest ->
  exists b', Clear b = Ok b' /\ repr b' path lim cb [] (zeros (blen pending + blen rest)) /\
    log_file_ptr b' = log_file_ptr b /\ compress b' = compress b /\
    file_flush_ptr b' = file_flush_ptr b /\ zStream b' = zStream b.
Proof.
  intros H. unfold Clear. pose proof (blen_nonneg pending) as Hp0. pose proof (blen_nonneg rest) as Hr0.
  set (b1 := with_ptrs b (data_ptr b) (data_ptr b)).
  assert (holds b1 path (blen pending) lim cb [] (pending ++ rest)) as H1.
  { destruct H as [F D W]. split; [exact F|exact D|]. cbn. by rewrite D, Z.add_0_r. }
  rewrite (h_write _ _ _ _ _ _ _ H1). cbn [of_option].
  rewrite bind_Ok, (holds_EmptySize H1), bind_Ok.
  set (zs := zeros (blen (pending ++ rest))).
  assert (blen zs = blen (pending ++ rest)) as Hz by (apply blen_zeros, blen_nonneg).
  destruct (holds_fill H1 zs []) as (m & HW & Hm).
  { rewrite Hz, blen_nil. lia. }
  { exists (pending ++ rest). by rewrite app_nil_r. }
  rewrite HW, bind_Ok.
  assert (holds (with_mem b1 m) path (blen pending) lim cb [] zs) as H2.
  { pose proof (holds_layout H1 (with_mem b1 m) [] zs) as HL. apply HL; try done.
    - rewrite Hm. by rewrite app_nil_r.
    - exact (h_write _ _ _ _ _ _ _ H1). }
  rewrite (holds_GetLength H2), bind_Ok.
  destruct (holds_SetLength H2 (blen [])) as (b' & HS & HR & HF).
  { apply (holds_szw H2). rewrite blen_nil. pose proof (blen_nonneg zs). lia. }
  exists b'. split; [exact HS|]. split; [|exact HF].
  unfold zs in HR. by rewrite blen_app in HR.
Qed.

Lemma InitData_repr b path tl lim c :
  blen (mem b) = buffer_size b -> in_size (buffer_size b) -> in_size lim ->
  no_nul path -> 0 < blen path -> 2 + 4 * szc + blen path <= buffer_size b ->
  exists b', InitData b (path ++ 0 :: tl) (blen path) lim c = Ok b' /\
    repr b' path lim 0 [] (BufferHeader.fresh_data (buffer_size b) path c) /\
    log_file_ptr b' = (if fopen_ok path then Some path else log_file_ptr b) /\
    compress b' = c /\ file_flush_ptr b' = file_flush_ptr b.
Proof.
  intros Hm Hs Hlim Hnn Hp Hroom. unfold InitData.
  rewrite (mem_write_at [] (mem b) (zeros (buffer_size b)) [])
    by (rewrite ?app_nil_r, ?blen_zeros; (done || destruct Hs; lia)).
  rewrite bind_Ok, app_nil_r. cbn [app].
  destruct (BufferHeader.InitHeader_zeros (buffer_size b) path (0 :: tl) 0 lim c)
    as (h & HI & Hds & F); try done.
  { unfold in_size, in_u. pose proof size_bits_ge. lia. }
  change (buffer_header (with_mem b (zeros (buffer_size b))))
    with (BufferHeader.mk (zeros (buffer_size b)) (buffer_size b)).
  rewrite HI, bind_Ok.
  set (b1 := (InitCompress (with_mem (with_mem b (zeros (buffer_size b)))
               (BufferHeader.data_ptr h)) c).1).
  assert (buffer_header b1 = h /\ log_file_ptr b1 = log_file_ptr b /\ compress b1 = c /\
          file_flush_ptr b1 = file_flush_ptr b) as (Hb & Hf & Hc & Hff).
  { unfold b1, InitCompress, buffer_header. destruct h, c; cbn in *; by subst. }
  rewrite Hb. unfold BufferHeader.GetDataPtr, BufferHeader.GetWritePtr.
  rewrite (BufferHeader.fmt_GetHeaderLen F), !bind_Ok, (BufferHeader.fmt_GetLogLen F), !bind_Ok.
  cbn -[with_ptrs BufferHeader.header_len]. rewrite cstr_app by done. cbn [of_option].
  rewrite bind_Ok.
  assert (repr (with_ptrs b1 (Some (BufferHeader.header_len path))
            (Some (BufferHeader.header_len path + 0))) path lim 0 []
            (BufferHeader.fresh_data (buffer_size b) path c)) as HR.
  { split; [|done|done]. change (buffer_header (with_ptrs b1 _ _)) with (buffer_header b1).
    by rewrite Hb. }
  destruct (fopen_ok path); rewrite bind_Ok; eexists; (split; [reflexivity|]); cbn;
    rewrite ?Hf, ?Hc, ?Hff; (split; [|done]); [by apply repr_with_file|exact HR].
Qed.

Lemma repr_block b path lim cb pending rest :
  repr b path lim cb pending rest ->
  blen (mem b) = buffer_size b /\ in_size (buffer_size b) /\ in_size lim.
Proof. intros [F _ _]. destruct F as [_ F2 F3 _ _ _ F7]. done. Qed.

(** Handing over a non-empty buffer: the chunk holds exactly the pending bytes, goes
    to the buffer's log file, and the buffer is empty again. *)
Lemma CallFileFlush_repr b path lim cb pending rest q self :
  repr b path lim cb pending rest -> 0 < blen pending < 2 ^ 53 ->
  exists b' bf,
    CallFileFlush b (Some (FileFlush.mk false q)) self =
      Ok (Alive b', Some (FileFlush.mk false (q ++ [bf]))) /\
    BufferFlush.contents bf = pending /\ BufferFlush.GetLogFile bf = log_file_ptr b /\
    BufferFlush.path bf = Some (path ++ [0]) /\ BufferFlush.release_ptr bf = self /\
    FileFlush.chunk_ok bf /\
    repr b' path lim cb [] (zeros (blen pending + blen rest)) /\
    log_file_ptr b' = log_file_ptr b /\ compress b' = compress b /\
    file_flush_ptr b' = file_flush_ptr b.
Proof.
  intros H Hn. unfold CallFileFlush. rewrite (holds_GetLength H), bind_Ok.
  destruct (Z.ltb_spec 0 (blen pending)); [|lia].
  set (b1 := if compress b && z_live (zStream b)
             then with_z b (deflateEnd (zStream b)) (compress b) else b).
  assert (repr b1 path lim cb pending rest /\ log_file_ptr b1 = log_file_ptr b /\
          compress b1 = compress b /\ file_flush_ptr b1 = file_flush_ptr b)
    as (H1 & Hf & Hc & Hff).
  { unfold b1. destruct (_ && _); [split; [by apply repr_with_z|done]|done]. }
  unfold GetLogPath. rewrite (BufferHeader.fmt_GetLogPath (h_fmt _ _ _ _ _ _ _ H1)), bind_Ok.
  rewrite (h_data _ _ _ _ _ _ _ H1). cbn [of_option]. rewrite bind_Ok.
  assert (drop (Z.to_nat (BufferHeader.header_len path)) (mem b1) = pending ++ rest) as ->.
  { rewrite (holds_mem H1), BufferHeader.layout_data, app_nil_r. apply drop_app_length'.
    match goal with |- _ = length ?l =>
      enough (blen l = BufferHeader.header_len path) as E by (rewrite <- E; apply Nat2Z.id) end.
    rewrite !blen_app, !BufferHeader.szc_blen, !blen_cons, blen_nil.
    unfold BufferHeader.header_len. lia. }
  rewrite BufferFlush.Write_prefix.
  destruct (BufferFlush.Write_append (BufferFlush.new (log_file_ptr b1) (Some (path ++ [0])) 128)
    pending) as (bf & HW & HC & [arr Ha] & Hw & HF & HL).
  { apply BufferFlush.new_sync. unfold in_size, in_u. pose proof size_bits_ge. lia. }
  { lia. }
  { cbn. lia. }
  { apply (holds_szw H). cbn [BufferFlush.contents BufferFlush.new BufferFlush.data_ptr].
    rewrite blen_nil. pose proof (blen_nonneg rest). lia. }
  cbn [BufferFlush.contents BufferFlush.new BufferFlush.data_ptr app] in HC.
  rewrite HW, bind_Ok.
  destruct (Clear_repr b1 path lim cb pending rest H1) as (b' & HCl & HR & Hf' & Hc' & Hff' & _).
  rewrite HCl, bind_Ok. cbn [FileFlush.AsyncFlush FileFlush.exit fst FileFlush.async_buffer].
  exists b', (BufferFlush.ReleaseThiz bf self). split; [done|].
  rewrite Hf', Hc', Hff', Hf, Hc, Hff.
  pose proof (BufferFlush.Write_path _ _ _ _ HW) as HP. cbn in HP.
  split; [exact HC|]. split; [cbn; by rewrite HF|]. split; [exact HP|]. split; [done|].
  split; [|done].
  unfold FileFlush.chunk_ok. cbn. rewrite Ha, Hw, HC.
  assert (blen pending <= blen arr) as Hle.
  { unfold BufferFlush.contents in HC. rewrite Ha, Hw in HC.
    unfold blen in *. apply (f_equal length) in HC. rewrite length_take in HC. lia. }
  split; [lia|]. apply (holds_szw H). pose proof (blen_nonneg rest). lia.
Qed.

Lemma CallFileFlush_empty b path lim cb rest ff :
  repr b path lim cb [] rest -> CallFileFlush b (Some ff) false = Ok (Alive b, Some ff).
Proof. intros H. unfold CallFileFlush. by rewrite (holds_GetLength H). Qed.

(** ** Properties *)

(** An uncompressed [Append] stores as much of the message as fits behind the
    pending bytes, returns that count, and keeps the invariant: the block is a
    formatted header whose stored length is that of the pending bytes. *)
Theorem append_plain_spec b path lim cb pending rest log :
  repr b path lim cb pending rest -> compress b = false ->
  exists b', Append b log (blen log) = Ok (b', Z.min (blen log) (blen rest)) /\
    repr b' path lim cb (pending ++ take (length rest) log)
         (drop (length (take (length rest) log)) rest) /\
    GetLength b' = Ok (blen pending + Z.min (blen log) (blen rest)).
Proof.
  intros H Hc. destruct (Append_plain b path lim cb pending rest log H Hc) as (b' & HA & HR & _).
  exists b'. split; [exact HA|]. split; [exact HR|].
  rewrite (holds_GetLength HR), blen_app, blen_stored. done.
Qed.

(** C36. A compressed [Append] never writes outside the block, whatever zlib
    produces within [avail_out]: on success exactly the compressor's output is
    appended and its size returned; on failure 0 is returned and the pending
    bytes are untouched. *)
Theorem append_deflate_spec b path lim cb pending rest log :
  repr b path lim cb pending rest -> compress b = true ->
  blen rest < 2 ^ 32 -> blen log < 2 ^ 32 ->
  let r := deflate (append_stream b pending) log (blen rest) in
  exists b', Append b log (blen log) = Ok (b', if r.1.1 then blen r.1.2 else 0) /\
    exists rest', repr b' path lim cb (if r.1.1 then pending ++ r.1.2 else pending) rest'.
Proof.
  intros H Hc H1 H2 r.
  destruct (Append_deflate b path lim cb pending rest log H Hc H1 H2) as (b' & HA & HR & _).
  fold r in HA, HR. exists b'. split; [exact HA|]. destruct (r.1.1); eauto.
Qed.

(** Handing a non-empty buffer to a running writer: one chunk is queued, its
    contents are the pending bytes, its file and path are the buffer's, and
    the buffer is left empty with all of its data area free. *)
Theorem call_file_flush_spec b path lim cb pending rest q self :
  repr b path lim cb pending rest -> 0 < blen pending < 2 ^ 53 ->
  exists b' bf,
    CallFileFlush b (Some (FileFlush.mk false q)) self =
      Ok (Alive b', Some (FileFlush.mk false (q ++ [bf]))) /\
    BufferFlush.contents bf = pending /\ BufferFlush.GetLogFile bf = log_file_ptr b /\
    BufferFlush.GetLogPath bf = Some (path ++ [0]) /\
    repr b' path lim cb [] (zeros (blen pending + blen rest)).
Proof.
  intros H Hn.
  destruct (CallFileFlush_repr b path lim cb pending rest q self H Hn)
    as (b' & bf & HC & H1 & H2 & H3 & _ & _ & HR & _).
  exists b', bf. done.
Qed.


(** Changing the log path discards the pending log.  [file_flush_ptr] is only set
    by [SetFileFlush], which nothing calls, so the flush [ExpLogPath] asks for is
    a no-op, and [InitData] then zeroes the block: the writer's queue is
    unchanged and the buffer is empty, whatever was pending. *)
Theorem exp_log_path_drops_pending b path lim cb pending rest ff path' tl' lim' :
  repr b path lim cb pending rest -> file_flush_ptr b = false ->
  no_nul path' -> 0 < blen path' -> in_size lim' ->
  2 + 4 * szc + blen path' <= buffer_size b ->
  exists b', ExpLogPath b ff (path' ++ 0 :: tl') lim' = Ok (b', ff) /\
    repr b' path' lim' 0 [] (BufferHeader.fresh_data (buffer_size b) path' (compress b)).
Proof.
  intros H Hff Hnn Hp Hlim Hroom. destruct (repr_block _ _ _ _ _ _ H) as (Hm & Hs & _).
  unfold ExpLogPath, CallFileFlush_own. rewrite Hff.
  assert ((match log_file_ptr b with
           | Some _ => r ← CallFileFlush b None false; Ok (r.1, ff)
           | None => Ok (Alive b, ff) end) = Ok (Alive b, ff)) as -> by by destruct (log_file_ptr b).
  rewrite bind_Ok. cbn [fst snd].
  rewrite strlen_app by done. rewrite bind_Ok.
  destruct (InitData_repr b path' tl' lim' (compress b)) as (b' & HI & HR & _); try done.
  rewrite HI, bind_Ok. exists b'. done.
Qed.

End WithArch.

(** ** Witnesses: a 64-bit target, the path "/l", a stored-block "compressor". *)

Program Definition stored_zlib : ZLib := {|
  z_stream := unit; z_live := fun _ => false; deflateInit2 := fun _ => (true, tt);
  deflate := fun _ i n => (true, take (Z.to_nat n) i, tt); deflateEnd := fun _ => tt
|}.
Next Obligation. intros z i n Hn. cbn. unfold blen. rewrite length_take. lia. Qed.

#[local] Existing Instance stored_zlib.

(** A 60-byte block holding the log "ab". *)
Definition sample (c : bool) : t :=
  mk true (Some [47; 108]) false
     (BufferHeader.layout (A := LP64) [47; 108] 2 1024 0 ([97; 98] ++ zeros 30))
     (Some 28) (Some 30) 60 tt c.

Lemma sample_repr c : repr (A := LP64) (sample c) [47; 108] 1024 0 [97; 98] (zeros 30).
Proof. destruct c; split; try constructor; vm_compute; try split; congruence. Defined.

Lemma append_plain_spec_witness :
  exists b', Append (A := LP64) (sample false) [99] 1 = Ok (b', 1) /\
    GetLength (A := LP64) b' = Ok 3.
Proof.
  destruct (append_plain_spec (A := LP64) (sample false) _ _ _ _ _ [99] (sample_repr false) eq_refl)
    as (b' & H & _ & HG). exists b'. split; [exact H | exact HG].
Defined.

Lemma append_deflate_spec_witness :
  exists b', Append (A := LP64) (sample true) [99] 1 = Ok (b', 1).
Proof.
  destruct (append_deflate_spec (A := LP64) (sample true) _ _ _ _ _ [99] (sample_repr true) eq_refl)
    as (b' & H & _); [vm_compute; reflexivity .. |]. exists b'. exact H.
Defined.

Lemma call_file_flush_spec_witness :
  exists b' bf, CallFileFlush (A := LP64) (sample false) (Some (FileFlush.mk false [])) false =
      Ok (Alive b', Some (FileFlush.mk false [bf])) /\ BufferFlush.contents bf = [97; 98].
Proof.
  destruct (call_file_flush_spec (A := LP64) (sample false) _ _ _ _ _ [] false (sample_repr false))
    as (b' & bf & H & HC & _); [vm_compute; split; reflexivity|].
  exists b', bf. split; [exact H | exact HC].
Defined.


Lemma exp_log_path_drops_pending_witness :
  exists b', ExpLogPath (A := LP64) (fun _ => true) (sample false) (Some FileFlush.new)
      [47; 109; 0] 9 = Ok (b', Some FileFlush.new).
Proof.
  destruct (exp_log_path_drops_pending (A := LP64) (fun _ => true) (sample false) _ _ _ _ _
    (Some FileFlush.new) [47; 109] [] 9 (sample_repr false) eq_refl) as (b' & H & _);
    [repeat constructor; congruence | vm_compute; try split; congruence .. |].
  exists b'. exact H.
Defined.
End Buffer.
