(* ===== verification/ZapNative.v ===== *)
(** * Zap: the native entry points

    Models library_zap/src/main/cpp/zap.cpp: opening (or recovering) the mapped
    buffer file, the JNI methods of [ZapRecord], and the abstract log stream they
    implement.  The system calls are the fields of [env]; JNI strings are the
    NUL-terminated blocks [GetStringUTFChars] returns. *)

From S2P Require Import Prelude Jni ZapHeader ZapBufferFlush ZapFileFlush ZapBuffer.

Module ZapNative.
Section WithArch.
Context {A : Arch} {Z_ : ZLib}.

(** Results of the system calls made on the buffer file and the heap. *)
Record env : Type := mkEnv {
  open_ok : bool;                    (** [open(buffer_path)] is not -1 *)
  fstat_ok : bool;
  mmap_dirty_ok : bool;              (** the first [mmap], of the old file *)
  mmap_ok : bool;                    (** the second [mmap] *)
  heap_block : Z -> list Z;          (** what [new char[n]] returns *)
  fopen_ok : list Z -> bool;
  z_zero : z_stream                  (** [z_stream zStream{}] *)
}.

(** The [Buffer] behind the handle Java holds, and the global [pFileFlush]. *)
Record native : Type := mkNative {
  buffer : Buffer.t;
  pFileFlush : option FileFlush.t
}.

(** [WriteDirty2File]: the queue of the writer after looking at the old contents of
    the buffer file, and what became of the temporary buffer. *)
Definition WriteDirty2File (e : env) (file : list Z) (fileFlush : FileFlush.t)
    : outcome (FileFlush.t * list release_action) :=
  if fstat_ok e then
    let buffer_size := szw (blen file) in
    if BufferHeader.CalculateHeaderLen 0 <? buffer_size then
      if mmap_dirty_ok e then
        let tmp := Buffer.new file buffer_size (z_zero e) in
        data_size ← Buffer.GetLength tmp;
        if 0 <? data_size then
          r ← Buffer.CallFileFlush tmp (Some fileFlush) true;
          Ok (default fileFlush r.2, [])
        else Ok (fileFlush, Buffer.Release tmp)
      else Ok (fileFlush, [])
    else Ok (fileFlush, [])
  else Ok (fileFlush, []).

(** [ftruncate(fd, n)]: cut or extend with zeros; a negative size is refused. *)
Definition ftruncate (file : list Z) (n : Z) : list Z :=
  if n <? 0 then file
  else take (Z.to_nat n) file ++ zeros (n - blen file).

(** [OpenMMap]: the mapped block (the file resized, as far as it reaches), [None] for
    null. *)
Definition OpenMMap (e : env) (file : list Z) (buffer_size : Z) (fileFlush : FileFlush.t)
    : outcome (option (list Z) * FileFlush.t) :=
  if open_ok e then
    r ← WriteDirty2File e file fileFlush;
    let file := ftruncate file (swrap 32 buffer_size) in
    if mmap_ok e then Ok (Some (take (Z.to_nat buffer_size) file), r.1)
    else Ok (None, r.1)
  else Ok (None, fileFlush).

Definition InitNative (e : env) (file : list Z) (log_path : list Z) (capacity limit_size : Z)
    (compress : bool) : outcome native :=
  path_len ← strlen log_path;
  let file_flush := FileFlush.new in
  let buffer_size := szw (szw capacity + BufferHeader.CalculateHeaderLen path_len) in
  r ← OpenMMap e file buffer_size file_flush;
  let map_buffer := match r.1 with Some _ => true | None => false end in
  let buffer_ptr := match r.1 with Some p => p | None => heap_block e buffer_size end in
  let b := Buffer.new buffer_ptr buffer_size (z_zero e) in
  c ← Buffer.CallFileFlush b (Some r.2) false;
  match c.1 with
  | Buffer.Deleted _ => Fault UseAfterFree
  | Buffer.Alive b =>
      b ← Buffer.InitData (fopen_ok e) b log_path path_len (szw limit_size) compress;
      let b := Buffer.mk map_buffer (Buffer.log_file_ptr b) (Buffer.file_flush_ptr b)
                 (Buffer.mem b) (Buffer.data_ptr b) (Buffer.write_ptr b)
                 (Buffer.buffer_size b) (Buffer.zStream b) (Buffer.compress b) in
      Ok (mkNative b c.2)
  end.

(** [buffer->CallFileFlush(pFileFlush)] guarded by [pFileFlush != nullptr]. *)
Definition flush_if_open (n : native) : outcome native :=
  match pFileFlush n with
  | None => Ok n
  | Some ff =>
      r ← Buffer.CallFileFlush (buffer n) (Some ff) false;
      match r.1 with
      | Buffer.Alive b => Ok (mkNative b r.2)
      | Buffer.Deleted _ => Fault UseAfterFree
      end
  end.

Definition WriteNative (n : native) (msg : list Z) (msg_len : Z) : outcome native :=
  e ← Buffer.EmptySize (buffer n);
  n ← (if e <=? szw msg_len then flush_if_open n else Ok n);
  r ← Buffer.Append (buffer n) msg (szw msg_len);
  Ok (mkNative r.1 (pFileFlush n)).

Definition AsyncFlushNative (n : native) : outcome native := flush_if_open n.

Definition ExpLogFileNative (e : env) (n : native) (path : list Z) (limit_size : Z)
    : outcome native :=
  r ← Buffer.ExpLogPath (fopen_ok e) (buffer n) (pFileFlush n) path (szw limit_size);
  Ok (mkNative r.1 r.2).

(** [ReleaseNative]: flush, then [delete pFileFlush], whose join lets the worker
    write everything that is queued. *)
Definition ReleaseNative (n : native) (fs : file_store)
    : outcome (Buffer.flushed_buffer * file_store) :=
  r ← Buffer.CallFileFlush (buffer n) (pFileFlush n) true;
  match r.2 with
  | None => Ok (r.1, fs)
  | Some ff =>
      d ← FileFlush.drain fs (FileFlush.mk true (FileFlush.async_buffer ff));
      Ok (r.1, d.1)
  end.

Definition IsLogFileOverSizeNative (n : native) (fs : file_store) : outcome bool :=
  Buffer.IsCurrentLogFileOversize (buffer n) fs.

(** ** Registration *)

Definition gMethods : list (string * string) :=
  [("initNative"%string, "(Ljava/lang/String;Ljava/lang/String;IIZ)J"%string);
   ("writeNative"%string, "(JLjava/lang/String;)V"%string);
   ("asyncFlushNative"%string, "(J)V"%string);
   ("expLogFileNative"%string, "(JLjava/lang/String;I)V"%string);
   ("releaseNative"%string, "(J)V"%string);
   ("isLogFileOverSizeNative"%string, "(J)Z"%string)].

Definition JNI_OnLoad (env : Z) (classes : Jni.class_path) : outcome Z :=
  Jni.on_load env classes "com/dolin/zap/impl/ZapRecord" gMethods.

(** The table is that of the native methods [ZapRecord] declares: the library loads. *)
Lemma zap_loads : JNI_OnLoad Jni.JNI_OK Jni.repository = Ok Jni.JNI_VERSION_1_6.
Proof. by apply (Jni.on_load_declared Jni.repository _ Jni.ZapRecord). Qed.

(** ** Opening the buffer *)

Lemma WriteDirty2File_noop e file ff :
  exists acts, WriteDirty2File e file ff = Ok (ff, acts).
Proof.
  unfold WriteDirty2File. destruct (fstat_ok e); [|eauto]. destruct (_ <? _); [|eauto].
  destruct (mmap_dirty_ok e); [|eauto]. cbn. eauto.
Qed.

Lemma blen_ftruncate file n : 0 <= n -> blen (ftruncate file n) = n.
Proof.
  intros Hn. unfold ftruncate. destruct (Z.ltb_spec n 0); [lia|].
  rewrite blen_app. unfold blen, zeros. rewrite length_take, length_replicate. lia.
Qed.

Lemma OpenMMap_block e file size ff :
  0 <= size < 2 ^ 31 ->
  exists r, OpenMMap e file size ff = Ok (r, ff) /\
    match r with Some m => blen m = size | None => True end.
Proof.
  intros Hs. unfold OpenMMap. destruct (open_ok e); [|by exists None].
  destruct (WriteDirty2File_noop e file ff) as [acts ->]. rewrite bind_Ok.
  rewrite swrap_small by lia. destruct (mmap_ok e); [|by exists None].
  eexists; split; [reflexivity|].
  pose proof (blen_ftruncate file size ltac:(lia)) as HL.
  unfold blen in *. rewrite length_take. lia.
Qed.

(** The parameters [InitNative] is meant for: a C string as path, a capacity with room
    for one [size_t], a block below 2 GiB. *)
Record init_ok (e : env) (path : list Z) (capacity limit_size : Z) : Prop := {
  io_path : no_nul path;
  io_nonempty : 0 < blen path;
  io_cap : szc <= capacity;
  io_size : capacity + BufferHeader.header_len path < 2 ^ 31;
  io_limit : 0 <= limit_size < 2 ^ 31;
  io_heap : forall n, 0 <= n -> blen (heap_block e n) = n
}.

Lemma InitNative_repr e file path tl capacity lim c :
  init_ok e path capacity lim ->
  exists n, InitNative e file (path ++ 0 :: tl) capacity lim c = Ok n /\
    Buffer.repr (buffer n) path lim 0 []
      (BufferHeader.fresh_data (capacity + BufferHeader.header_len path) path c) /\
    pFileFlush n = Some FileFlush.new /\
    Buffer.log_file_ptr (buffer n) = (if fopen_ok e path then Some path else None) /\
    Buffer.compress (buffer n) = c /\ Buffer.file_flush_ptr (buffer n) = false.
Proof.
  intros [Hnn Hp Hcap Hsize Hlim Hheap]. unfold InitNative.
  pose proof (blen_nonneg path). pose proof size_bits_ge.
  assert (0 < szc) by (destruct szc_cases; lia).
  rewrite strlen_app, bind_Ok by done.
  assert (szw (szw capacity + BufferHeader.CalculateHeaderLen (blen path)) =
          capacity + BufferHeader.header_len path) as ->.
  { unfold BufferHeader.CalculateHeaderLen, BufferHeader.header_len in *.
    rewrite (szw_small capacity), (szw_small (1 + _ + _ + _ + _ + 1))
      by (unfold in_size, in_u; lia).
    rewrite szw_small by (unfold in_size, in_u; lia). lia. }
  set (size := capacity + BufferHeader.header_len path) in *.
  assert (0 <= BufferHeader.header_len path) by (unfold BufferHeader.header_len; lia).
  destruct (OpenMMap_block e file size FileFlush.new) as (r & -> & Hr); [lia|].
  rewrite bind_Ok. cbn [fst snd].
  set (blk := match r with Some p => p | None => heap_block e size end).
  assert (blen blk = size) as Hblk by (unfold blk; destruct r; [done|apply Hheap; lia]).
  change (Buffer.CallFileFlush (Buffer.new blk size (z_zero e)) (Some FileFlush.new) false)
    with (Ok (Buffer.Alive (Buffer.new blk size (z_zero e)), Some FileFlush.new)).
  rewrite bind_Ok. cbn [fst snd].
  rewrite (szw_small lim) by (unfold in_size, in_u; lia).
  destruct (Buffer.InitData_repr (fopen_ok e) (Buffer.new blk size (z_zero e)) path tl lim c)
    as (b & HI & HR & HF & HC & HFF); cbn [Buffer.new Buffer.mem Buffer.buffer_size]; try done.
  { unfold in_size, in_u. lia. }
  { unfold in_size, in_u. lia. }
  { unfold size, BufferHeader.header_len. lia. }
  rewrite HI, bind_Ok. eexists; split; [reflexivity|]. cbn.
  split; [|done]. destruct HR as [F D W]. by split.
Qed.

(** ** The abstract log

    The stream a client has written so far: the chunks handed to the writer, in the
    order they were handed over, then the pending bytes of the buffer. *)

Definition logs (n : native) (path : list Z) (lim cap : Z) (f : option FILE) (s : list Z)
    : Prop :=
  exists cb pending rest q,
    Buffer.repr (buffer n) path lim cb pending rest /\
    Buffer.compress (buffer n) = false /\ Buffer.log_file_ptr (buffer n) = f /\
    pFileFlush n = Some (FileFlush.mk false q) /\
    blen pending + blen rest = cap /\
    Forall (fun b => FileFlush.chunk_ok b /\ BufferFlush.GetLogFile b = f) q /\
    s = concat (BufferFlush.contents <$> q) ++ pending.

(** Flushing moves the pending bytes to the queue; the stream is unchanged. *)
Lemma flush_if_open_logs n path lim cap f s :
  logs n path lim cap f s -> cap < 2 ^ 53 ->
  exists n', flush_if_open n = Ok n' /\ logs n' path lim cap f s /\
    exists cb rest, Buffer.repr (buffer n') path lim cb [] rest /\ blen rest = cap.
Proof.
  intros (cb & pending & rest & q & HR & Hc & Hf & HF & Hcap & Hq & ->) Hlt.
  pose proof (blen_nonneg pending) as Hp0. pose proof (blen_nonneg rest) as Hr0.
  unfold flush_if_open. rewrite HF.
  destruct (decide (pending = [])) as [-> | Hne].
  { rewrite (Buffer.CallFileFlush_empty (buffer n) path lim cb rest _ HR), bind_Ok. cbn.
    eexists; split; [reflexivity|]. split; [|by exists cb, rest].
    exists cb, [], rest, q. done. }
  destruct (Buffer.CallFileFlush_repr (buffer n) path lim cb pending rest q false HR)
    as (b' & bf & HC & H1 & H2 & _ & _ & Hok & HR' & Hf' & Hc' & _).
  { destruct pending; [done|]. rewrite blen_cons in *. pose proof (blen_nonneg pending). lia. }
  rewrite HC, bind_Ok. cbn. eexists; split; [reflexivity|].
  assert (blen (zeros (blen pending + blen rest)) = cap) as Hz by (rewrite blen_zeros; lia).
  split; [|by exists cb, (zeros (blen pending + blen rest))].
  exists cb, [], (zeros (blen pending + blen rest)), (q ++ [bf]). cbn.
  split; [exact HR'|]. split; [by rewrite Hc'|]. split; [by rewrite Hf'|]. split; [done|].
  split; [by rewrite Hz|]. split.
  - apply Forall_app_2; [done|]. constructor; [|constructor]. by rewrite H2.
  - rewrite fmap_app, concat_app, app_nil_r. cbn. by rewrite app_nil_r, H1.
Qed.

(** One [WriteNative] adds the first [cap] bytes of the message to the stream. *)
Lemma WriteNative_logs n path lim cap f s msg tl :
  logs n path lim cap f s -> cap < 2 ^ 53 -> blen msg < 2 ^ 31 ->
  exists n', WriteNative n (msg ++ tl) (blen msg) = Ok n' /\
    logs n' path lim cap f (s ++ take (Z.to_nat cap) msg).
Proof.
  intros HL Hlt Hm. pose proof HL as (cb & pending & rest & q & HR & Hc & Hf & HF & Hcap & Hq & Hs).
  pose proof (blen_nonneg msg) as Hm0. pose proof size_bits_ge.
  unfold WriteNative. rewrite (Buffer.holds_EmptySize HR), bind_Ok.
  rewrite szw_small by (unfold in_size, in_u; lia).
  assert (exists n1 cb1 p1 r1 q1, (if blen rest <=? blen msg then flush_if_open n else Ok n) = Ok n1 /\
    Buffer.repr (buffer n1) path lim cb1 p1 r1 /\ Buffer.compress (buffer n1) = false /\
    Buffer.log_file_ptr (buffer n1) = f /\ pFileFlush n1 = Some (FileFlush.mk false q1) /\
    blen p1 + blen r1 = cap /\
    Forall (fun b => FileFlush.chunk_ok b /\ BufferFlush.GetLogFile b = f) q1 /\
    s = concat (BufferFlush.contents <$> q1) ++ p1 /\
    take (length r1) msg = take (Z.to_nat cap) msg)
    as (n1 & cb1 & p1 & r1 & q1 & -> & HR1 & Hc1 & Hf1 & HF1 & Hcap1 & Hq1 & Hs1 & Htake).
  { pose proof (blen_nonneg pending). destruct (Z.leb_spec (blen rest) (blen msg)).
    - destruct (flush_if_open_logs n path lim cap f s HL Hlt)
        as (n1 & Hfl & (cb1 & p1 & r1 & q1 & HR1 & Hrest) & (cb2 & r2 & HR2 & Hr2)).
      exists n1, cb1, p1, r1, q1. split; [done|]. split; [done|].
      destruct Hrest as (? & ? & ? & ? & ? & ?). do 6 (split; [done|]).
      pose proof (Buffer.holds_GetLength HR1) as E1.
      pose proof (Buffer.holds_GetLength HR2) as E2. rewrite E1 in E2.
      injection E2 as E2. rewrite blen_nil in E2. f_equal. unfold blen in *. lia.
    - exists n, cb, pending, rest, q. do 8 (split; [done|]).
      rewrite !take_ge; [done| |]; unfold blen in *; lia. }
  rewrite bind_Ok.
  rewrite (Buffer.Append_prefix (buffer n1) path lim cb1 p1 r1 msg tl HR1 Hc1).
  destruct (Buffer.Append_plain (buffer n1) path lim cb1 p1 r1 msg HR1 Hc1)
    as (b' & -> & HR' & Hf' & Hc' & _).
  rewrite bind_Ok. eexists; split; [reflexivity|]. cbn.
  eexists cb1, _, _, q1. split; [exact HR'|]. split; [done|]. split; [exact (eq_trans Hf' Hf1)|].
  split; [done|]. split; [|split; [done|]].
  - rewrite blen_app. unfold blen in *. rewrite length_drop.
    unfold Buffer.stored. rewrite length_take. lia.
  - rewrite Hs1, <- app_assoc. unfold Buffer.stored. by rewrite Htake.
Qed.

(** ** Sessions *)

(** What the Java side does with an open logger. *)
Inductive op : Type :=
| OpWrite (msg : list Z)
| OpFlush.

Definition do_op (n : native) (o : op) : outcome native :=
  match o with
  | OpWrite msg => WriteNative n (msg ++ [0]) (blen msg)
  | OpFlush => AsyncFlushNative n
  end.

Fixpoint do_ops (n : native) (ops : list op) : outcome native :=
  match ops with
  | [] => Ok n
  | o :: ops => n ← do_op n o; do_ops n ops
  end.

(** The abstract effect: each message, cut to the capacity, joins the stream. *)
Definition op_bytes (cap : Z) (o : op) : list Z :=
  match o with OpWrite msg => take (Z.to_nat cap) msg | OpFlush => [] end.

Definition op_ok (o : op) : Prop :=
  match o with OpWrite msg => blen msg < 2 ^ 31 | OpFlush => True end.

Lemma do_ops_logs ops n path lim cap f s :
  logs n path lim cap f s -> cap < 2 ^ 53 -> Forall op_ok ops ->
  exists n', do_ops n ops = Ok n' /\
    logs n' path lim cap f (s ++ concat (op_bytes cap <$> ops)).
Proof.
  intros HL Hlt Hops. revert n s HL. induction Hops as [|o ops Ho _ IH]; intros n s HL.
  { exists n. split; [done|]. cbn. by rewrite app_nil_r. }
  assert (exists n1, do_op n o = Ok n1 /\ logs n1 path lim cap f (s ++ op_bytes cap o))
    as (n1 & H1 & HL1).
  { destruct o as [msg|]; cbn in *.
    - by apply WriteNative_logs.
    - destruct (flush_if_open_logs n path lim cap f s HL Hlt) as (n1 & H1 & HL1 & _).
      rewrite app_nil_r. eauto. }
  destruct (IH n1 _ HL1) as (n' & H' & HL'). exists n'. cbn [do_ops].
  rewrite H1, bind_Ok. split; [exact H'|]. cbn. by rewrite app_assoc.
Qed.

(** ** Properties *)

(** C1. A logging session implements an append-only stream: opening an uncompressed
    logger (over any old buffer file, mapped or on the heap) and running any
    sequence of writes and flushes succeeds, and the bytes handed to the writer
    followed by the bytes pending in the buffer are exactly the messages in
    order, each cut to the capacity. *)
Theorem session_refines_stream e file path tl capacity lim ops :
  init_ok e path capacity lim -> Forall op_ok ops ->
  exists n n', InitNative e file (path ++ 0 :: tl) capacity lim false = Ok n /\
    do_ops n ops = Ok n' /\
    logs n' path lim capacity (if fopen_ok e path then Some path else None)
      (concat (op_bytes capacity <$> ops)).
Proof.
  intros Hio Hops.
  destruct (InitNative_repr e file path tl capacity lim false Hio)
    as (n & HI & HR & HF & Hf & Hc & _).
  assert (0 < szc) by (destruct szc_cases; lia).
  assert (blen (BufferHeader.fresh_data (capacity + BufferHeader.header_len path) path false)
          = capacity) as Hcap.
  { rewrite BufferHeader.blen_fresh_data; [lia|]. destruct Hio.
    unfold BufferHeader.header_len. lia. }
  destruct (do_ops_logs ops n path lim capacity
    (if fopen_ok e path then Some path else None) []) as (n' & HO & HL); [| |done|].
  - eexists 0, [], _, []. split; [exact HR|]. do 3 (split; [done|]).
    split; [by rewrite Hcap|]. split; [constructor|done].
  - destruct Hio. unfold BufferHeader.header_len in *. pose proof (blen_nonneg path). lia.
  - exists n, n'. done.
Qed.

(** The log left in the buffer file by a crash is never recovered: the temporary
    [Buffer] built over it has null data and write pointers, so its length is
    always 0: the buffer is unmapped and the writer's queue stays as it was,
    whatever the file holds. *)
Theorem dirty_buffer_never_recovered e file ff :
  exists acts, WriteDirty2File e file ff = Ok (ff, acts) /\ (acts = [] \/ acts = [RMunmap]).
Proof.
  unfold WriteDirty2File.
  destruct (fstat_ok e); [destruct (_ <? _); [destruct (mmap_dirty_ok e)|]|]; cbn; eauto.
Qed.

(** Releasing a logger with pending bytes and an idle writer writes exactly those
    bytes to the log file and leaves every other file alone. *)
Theorem release_writes_pending n fs path lim cap f s :
  logs n path lim cap (Some f) s -> cap < 2 ^ 53 -> s <> [] ->
  pFileFlush n = Some (FileFlush.mk false []) ->
  exists b fs', ReleaseNative n fs = Ok (b, fs') /\
    forall g, fcontents fs' g = fcontents fs g ++ (if decide (g = f) then s else []).
Proof.
  intros (cb & pending & rest & q & HR & Hc & Hf & HF & Hcap & Hq & Hs) Hlt Hne Hidle.
  rewrite HF in Hidle. injection Hidle as ->. cbn in Hs. subst s.
  pose proof (blen_nonneg rest).
  unfold ReleaseNative. rewrite HF.
  destruct (Buffer.CallFileFlush_repr (buffer n) path lim cb pending rest [] true HR)
    as (b' & bf & HC & H1 & H2 & _ & _ & Hok & _).
  { destruct pending; [done|]. rewrite blen_cons in *. pose proof (blen_nonneg pending). lia. }
  rewrite HC, bind_Ok. cbn [snd fst app FileFlush.async_buffer].
  unfold FileFlush.drain. cbn [FileFlush.async_buffer FileFlush.exit].
  destruct (FileFlush.flush_all_spec fs (reverse [bf])) as (fs' & HA & HCt).
  { rewrite reverse_singleton. by constructor. }
  rewrite HA, !bind_Ok. eexists _, fs'. split; [reflexivity|].
  intros g. rewrite HCt, reverse_singleton. unfold FileFlush.written, FileFlush.chunk_bytes. cbn.
  rewrite app_nil_r, H2, Hf, H1. f_equal. repeat case_decide; congruence.
Qed.

(** Releasing a logger whose buffer is empty is undefined behaviour:
    [CallFileFlush] deletes the buffer while holding its mutex. *)
Theorem release_empty_use_after_free n fs path lim cb rest ff :
  Buffer.repr (buffer n) path lim cb [] rest -> pFileFlush n = Some ff ->
  ReleaseNative n fs = Fault UseAfterFree.
Proof.
  intros HR HF. unfold ReleaseNative, Buffer.CallFileFlush.
  by rewrite HF, (Buffer.holds_GetLength HR).
Qed.

End WithArch.

(** ** Witnesses *)

Definition sample_env : env (Z_ := Buffer.stored_zlib) :=
  mkEnv (Z_ := Buffer.stored_zlib) true true true true zeros (fun _ => true) tt.

Lemma sample_init_ok : init_ok (A := LP64) sample_env [47; 108] 16 1024.
Proof.
  constructor; [repeat constructor; congruence | vm_compute; try split; congruence .. |].
  intros n Hn. by apply blen_zeros.
Defined.

Lemma session_refines_stream_witness :
  exists n n', InitNative (A := LP64) sample_env [] [47; 108; 0] 16 1024 false = Ok n /\
    do_ops (A := LP64) n [OpWrite [97]; OpFlush; OpWrite [98; 99]] = Ok n' /\
    logs (A := LP64) n' [47; 108] 1024 16 (Some [47; 108]) [97; 98; 99].
Proof.
  apply (session_refines_stream (A := LP64) sample_env [] [47; 108] [] 16 1024
    [OpWrite [97]; OpFlush; OpWrite [98; 99]]); [apply sample_init_ok|].
  repeat constructor.
Defined.

(** The pending log of [Buffer.sample], behind a running writer. *)
Definition sample_native : native (Z_ := Buffer.stored_zlib) :=
  mkNative (Buffer.sample false) (Some (FileFlush.mk false [])).

Lemma release_writes_pending_witness :
  exists b fs', ReleaseNative (A := LP64) sample_native ∅ = Ok (b, fs') /\
    fcontents fs' [47; 108] = [97; 98].
Proof.
  destruct (release_writes_pending (A := LP64) sample_native ∅ [47; 108] 1024 32 [47; 108]
    [97; 98]) as (b & fs' & H & HC).
  - exists 0, [97; 98], (zeros 30), []. split; [apply Buffer.sample_repr|].
    repeat split; constructor.
  - vm_compute. reflexivity.
  - congruence.
  - reflexivity.
  - exists b, fs'. split; [exact H|]. rewrite HC. vm_compute. reflexivity.
Defined.

Lemma release_empty_use_after_free_witness :
  exists n, InitNative (A := LP64) sample_env [] [47; 108; 0] 16 1024 false = Ok n /\
    ReleaseNative (A := LP64) n ∅ = Fault UseAfterFree.
Proof.
  eexists; split; [vm_compute; reflexivity|].
  apply (release_empty_use_after_free (A := LP64) _ _ [47; 108] 1024 0 (zeros 16) FileFlush.new);
    [|reflexivity].
  split; try constructor; vm_compute; try split; congruence.
Defined.
End ZapNative.
