(* ===== verification/Comm.v ===== *)
(** * Comm: the native bridge of library_comm

    Models library_comm/src/main/cpp/comm: the FNV-1a dispatch of [NativeInvoke]
    (comm.cpp), the device information getters (device_info_util.cpp) and the strings
    given to Java (string_util.cpp).  The
    system properties, the API level and the success of [malloc] are parameters;
    [char] may be signed or not, as on the ABIs the library is built for. *)

From S2P Require Import Prelude Jni.

Module Comm.
Section WithArch.
Context {A : Arch}.
Variable char_signed : bool.

(** The value a [char] promotes to. *)
Definition char_val (c : Z) : Z := if char_signed then swrap 8 c else c.

Definition prime : Z := szw 0x100000001B3.
Definition basis : Z := szw 0xCBF29CE484222325.

(** The loop: xor in a character, multiply, until the terminator. *)
Fixpoint hash_loop (m : list Z) (ret : Z) : outcome Z :=
  match m with
  | [] => Fault OutOfBounds
  | c :: m =>
      if c =? 0 then Ok ret
      else hash_loop m (szw (Z.lxor ret (szw (char_val c)) * prime))
  end.

Definition hash_run_time (m : list Z) : outcome Z := hash_loop m basis.

(** The recursive [constexpr] version, on a literal. *)
Fixpoint hash_compile_time (s : list Z) (value : Z) : Z :=
  match s with
  | [] => value
  | c :: s => hash_compile_time s (szw (Z.lxor (szw (char_val c)) value * prime))
  end.

(** The user-defined literal suffix [_hash]. *)
Definition literal_hash (s : string) : Z := hash_compile_time (str s) basis.

(** ** Device information *)

(** [malloc(128)] succeeds; [__system_property_get]; the API level. *)
Variable malloc_ok : bool.
Variable prop : string -> list Z.
Variable api_level : Z.

(** The four getters that read one property into a 128-byte block. *)
Definition get_prop (key : string) : outcome (list Z) :=
  if malloc_ok then
    m ← mem_write (zeros 128) 0 (prop key ++ [0]);
    of_option Unterminated (cstr m)
  else Ok [].

Definition GetDeviceManufacturer : outcome (list Z) := get_prop "ro.product.manufacturer".
Definition GetDeviceModel : outcome (list Z) := get_prop "ro.product.model".
Definition GetMobileBrand : outcome (list Z) := get_prop "ro.product.brand".
Definition GetDeviceSoftwareVersion : outcome (list Z) := get_prop "ro.build.version.release".

(** The two inner [malloc]s are not checked by the code; they succeed with the
    first here. *)
Definition GetCpuAbi : outcome (list Z) :=
  if malloc_ok then
    m ← (if 21 <=? api_level then
           mem_write (zeros 128) 0 (prop "ro.product.cpu.abilist" ++ [0])
         else
           m32 ← mem_write (zeros 128) 0 (prop "ro.product.cpu.abilist32" ++ [0]);
           m64 ← mem_write (zeros 128) 0 (prop "ro.product.cpu.abilist64" ++ [0]);
           abi32 ← of_option Unterminated (cstr m32);
           abi64 ← of_option Unterminated (cstr m64);
           match abi64 with
           | [] => mem_write (zeros 128) 0 (abi32 ++ [0])
           | _ => mem_write (zeros 128) 0 (abi64 ++ str "," ++ abi32 ++ [0])
           end);
    of_option Unterminated (cstr m)
  else Ok [].

(** The [switch] of [NativeInvoke]: the string handed to [GetJString]. *)
Definition invoke (method : list Z) : outcome (list Z) :=
  h ← hash_run_time method;
  if h =? literal_hash "GetDeviceManufacturer" then GetDeviceManufacturer
  else if h =? literal_hash "GetDeviceModel" then GetDeviceModel
  else if h =? literal_hash "GetMobileBrand" then GetMobileBrand
  else if h =? literal_hash "GetDeviceSoftwareVersion" then GetDeviceSoftwareVersion
  else if h =? literal_hash "GetCpuAbi" then GetCpuAbi
  else Ok [].

(** The JNI state: local references and strings that are held. *)
Record jni : Type := mkJni { local_refs : nat; pinned : nat }.

(** [StringUtil::GetJString(env, src)]: the bytes of the new string, which Java decodes as UTF-8.  The
    class, the name of the encoding and the array of bytes are references that are deleted again; an
    array cannot have a negative length. *)
Definition GetJString (src : list Z) (s : jni) : outcome (list Z * jni) :=
  n ← strlen src;
  let length := swrap 32 n in
  let s := mkJni (local_refs s + 3) (pinned s) in
  if length <? 0 then Fault NullDeref
  else
    let bytes := take (Z.to_nat length) src in
    let s := mkJni (S (local_refs s)) (pinned s) in
    Ok (bytes, mkJni (local_refs s - 3) (pinned s)).

(** [NativeInvoke]: [method] is what [GetStringUTFChars] returns. *)
Definition NativeInvoke (method : list Z) (s : jni) : outcome (list Z * jni) :=
  let s := mkJni (local_refs s) (S (pinned s)) in
  result ← invoke method;
  r ← GetJString (result ++ [0]) s;
  let '(jresult, s) := r in
  Ok (jresult, mkJni (local_refs s) (pred (pinned s))).

(** ** Registration *)

Definition gMethod : list (string * string) := [("nativeInvoke"%string, "(Ljava/lang/String;)Ljava/lang/String;"%string)].

Definition JNI_OnLoad (env : Z) (classes : Jni.class_path) : outcome Z :=
  Jni.on_load env classes "com/dolin/comm/impl/NativeBridge" gMethod.

Lemma comm_loads : JNI_OnLoad Jni.JNI_OK Jni.repository = Ok Jni.JNI_VERSION_1_6.
Proof. by apply (Jni.on_load_declared Jni.repository _ Jni.NativeBridge). Qed.

(** ** Lemmas *)

Lemma hash_loop_compile m s v :
  cstr m = Some s -> hash_loop m v = Ok (hash_compile_time s v).
Proof.
  revert s v. induction m as [|c m IH]; intros s v; cbn; [done|].
  destruct (c =? 0); [by intros [= <-]|].
  destruct (cstr m) as [s'|]; [|done]. intros [= <-]. cbn.
  rewrite (Z.lxor_comm (szw (char_val c)) v). by apply IH.
Qed.

(** A property value as Android bounds it ([PROP_VALUE_MAX] is 92). *)
Definition prop_ok (v : list Z) : Prop := no_nul v /\ blen v < 92.

Lemma fill_block v :
  no_nul v -> blen v < 128 ->
  exists m, mem_write (zeros 128) 0 (v ++ [0]) = Ok m /\ cstr m = Some v.
Proof.
  intros Hn Hv. pose proof (blen_nonneg v).
  assert (blen (zeros 128) = 128) by (apply blen_zeros; lia).
  eexists; split.
  - apply mem_write_Ok; rewrite ?blen_app, ?blen_cons, ?blen_nil; lia.
  - unfold splice. cbn [Z.to_nat take app]. rewrite <- app_assoc. by apply cstr_app.
Qed.

Lemma get_prop_spec key :
  prop_ok (prop key) -> get_prop key = Ok (if malloc_ok then prop key else []).
Proof.
  intros [Hn Hl]. unfold get_prop. destruct malloc_ok; [|done].
  destruct (fill_block (prop key) Hn) as (m & -> & HC); [lia|]. cbn. by rewrite HC.
Qed.

(** ** Properties *)

(** The run-time hash of a C string is the compile-time hash of its characters,
    for both widths of [size_t] and both signednesses of [char], so a [case] of
    [NativeInvoke] is reached by the method name it spells. *)
Theorem run_time_hash_is_compile_time_hash m s :
  cstr m = Some s -> hash_run_time m = Ok (hash_compile_time s basis).
Proof. apply hash_loop_compile. Qed.

(** Below API level 21 [GetCpuAbi] formats the two ABI lists into a 128-byte block
    without a bound: with lists Android allows (below 92 characters each) whose
    joint length with the comma is at least 128, the [sprintf] overflows it. *)
Theorem get_cpu_abi_overflow :
  malloc_ok = true -> api_level < 21 ->
  prop_ok (prop "ro.product.cpu.abilist32") -> prop_ok (prop "ro.product.cpu.abilist64") ->
  prop "ro.product.cpu.abilist64" <> [] ->
  128 <= blen (prop "ro.product.cpu.abilist64") + 1 + blen (prop "ro.product.cpu.abilist32") ->
  GetCpuAbi = Fault OutOfBounds.
Proof.
  intros Hm Hapi [Hn32 Hl32] [Hn64 Hl64] Hne Hlen. unfold GetCpuAbi. rewrite Hm.
  destruct (Z.leb_spec 21 api_level); [lia|].
  destruct (fill_block _ Hn32) as (m32 & -> & HC32); [lia|].
  destruct (fill_block _ Hn64) as (m64 & -> & HC64); [lia|].
  rewrite !bind_Ok, HC32, HC64. cbn [of_option]. rewrite !bind_Ok.
  destruct (prop "ro.product.cpu.abilist64") as [|c l] eqn:E; [done|].
  unfold mem_write. rewrite (proj2 (in_block_false _ _ _)); [done|]. right. right.
  rewrite blen_zeros by lia. rewrite !blen_app. cbn [str]. blen_lia.
Qed.

End WithArch.

(** ** The dispatch *)

(** The five [case] labels are distinct, on both widths and for both kinds of
    [char] (the names are ASCII). *)
Definition labels : list string :=
  ["GetDeviceManufacturer"; "GetDeviceModel"; "GetMobileBrand"; "GetDeviceSoftwareVersion";
   "GetCpuAbi"]%string.

Lemma labels_distinct_64 sgn : NoDup (literal_hash (A := LP64) sgn <$> labels).
Proof. destruct sgn; apply (bool_decide_unpack _); vm_compute; exact I. Qed.

Lemma labels_distinct_32 sgn : NoDup (literal_hash (A := ILP32) sgn <$> labels).
Proof. destruct sgn; apply (bool_decide_unpack _); vm_compute; exact I. Qed.

(** The [switch] dispatches each of its five method names to its getter, on
    32-bit and 64-bit targets and for signed and unsigned [char]. *)
Lemma invoke_dispatch sgn malloc_ok prop api (A : Arch) :
  A = LP64 \/ A = ILP32 ->
  invoke sgn malloc_ok prop api (str "GetDeviceManufacturer" ++ [0]) =
    GetDeviceManufacturer malloc_ok prop /\
  invoke sgn malloc_ok prop api (str "GetDeviceModel" ++ [0]) =
    GetDeviceModel malloc_ok prop /\
  invoke sgn malloc_ok prop api (str "GetMobileBrand" ++ [0]) =
    GetMobileBrand malloc_ok prop /\
  invoke sgn malloc_ok prop api (str "GetDeviceSoftwareVersion" ++ [0]) =
    GetDeviceSoftwareVersion malloc_ok prop /\
  invoke sgn malloc_ok prop api (str "GetCpuAbi" ++ [0]) = GetCpuAbi malloc_ok prop api.
Proof.
  intros HA.
  assert (forall k, nul_free k = true ->
            hash_run_time sgn (str k ++ [0]) = Ok (literal_hash sgn k)) as HR.
  { intros k Hk. by apply hash_loop_compile, cstr_app, nul_free_no_nul. }
  assert (NoDup (literal_hash sgn <$> labels)) as HD.
  { destruct HA as [-> | ->]; [apply labels_distinct_64 | apply labels_distinct_32]. }
  unfold invoke. rewrite !HR by reflexivity. rewrite !bind_Ok, !Z.eqb_refl. clear HR HA.
  unfold labels in HD. cbn [fmap list_fmap] in HD.
  repeat match type of HD with
  | NoDup (_ :: _) => apply NoDup_cons in HD as [?Hnin HD]
  end.
  rewrite !not_elem_of_cons in *. destruct_and!.
  repeat match goal with
  | |- context [literal_hash sgn ?a =? literal_hash sgn ?b] =>
      rewrite (proj2 (Z.eqb_neq (literal_hash sgn a) (literal_hash sgn b))) by congruence
  end.
  done.
Qed.

Lemma run_time_hash_is_compile_time_hash_witness :
  hash_run_time (A := LP64) true [97; 0; 98] = Ok 12638187200555641996.
Proof.
  exact (run_time_hash_is_compile_time_hash (A := LP64) true [97; 0; 98] [97] eq_refl).
Defined.

Lemma get_cpu_abi_overflow_witness :
  GetCpuAbi true (fun _ => replicate 80 97) 19 = Fault OutOfBounds.
Proof.
  apply get_cpu_abi_overflow; try reflexivity; try (vm_compute; congruence).
  - split; [repeat constructor; congruence | vm_compute; reflexivity].
  - split; [repeat constructor; congruence | vm_compute; reflexivity].
Defined.

(** The whole call: with properties as Android bounds them, each of the five method names gives Java the
    value of its property, one local reference is left (the result) and no string is held. *)
Theorem native_invoke_returns sgn prop api (A : Arch) key name s :
  A = LP64 \/ A = ILP32 -> prop_ok (prop key) -> 21 <= api ->
  (name, key) ∈ [("GetDeviceManufacturer", "ro.product.manufacturer"); ("GetDeviceModel", "ro.product.model");
                 ("GetMobileBrand", "ro.product.brand"); ("GetDeviceSoftwareVersion", "ro.build.version.release");
                 ("GetCpuAbi", "ro.product.cpu.abilist")]%string ->
  NativeInvoke sgn true prop api (str name ++ [0]) s = Ok (prop key, mkJni (S (local_refs s)) (pinned s)).
Proof.
  intros HA HP Hapi Hin. assert (invoke sgn true prop api (str name ++ [0]) = Ok (prop key)) as HI.
  { destruct (invoke_dispatch sgn true prop api A HA) as (H1 & H2 & H3 & H4 & H5).
    rewrite !elem_of_cons, elem_of_nil in Hin. destruct Hin as [[= -> ->]|[[= -> ->]|[[= -> ->]|[[= -> ->]|[[= -> ->]|[]]]]]].
    - rewrite H1. by apply (get_prop_spec true).
    - rewrite H2. by apply (get_prop_spec true).
    - rewrite H3. by apply (get_prop_spec true).
    - rewrite H4. by apply (get_prop_spec true).
    - rewrite H5. unfold GetCpuAbi. destruct (Z.leb_spec 21 api); [|lia]. destruct HP as [Hn Hl].
      destruct (fill_block _ Hn) as (m & -> & HC); [lia|]. rewrite bind_Ok, HC. done. }
  unfold NativeInvoke. rewrite HI, bind_Ok. destruct HP as [Hn Hl]. unfold GetJString, strlen.
  rewrite cstr_app by done. rewrite bind_Ok. pose proof (blen_nonneg (prop key)). rewrite swrap_small by lia.
  destruct (Z.ltb_spec (blen (prop key)) 0); [lia|]. rewrite bind_Ok. unfold blen at 1. rewrite Nat2Z.id, take_app_length.
  cbn. do 3 f_equal. lia.
Qed.

Lemma native_invoke_returns_witness :
  NativeInvoke (A := ILP32) true true (fun _ => str "x") 30 (str "GetDeviceModel" ++ [0]) (mkJni 2 0) =
    Ok (str "x", mkJni 3 0).
Proof.
  apply (native_invoke_returns true (fun _ => str "x") 30 ILP32 "ro.product.model" "GetDeviceModel" (mkJni 2 0)).
  - by right.
  - split; [by apply nul_free_no_nul|reflexivity].
  - lia.
  - right. left.
Defined.
End Comm.
