(* ===== verification/HawkGuard.v ===== *)
(** * Hawkeye: the mapped report buffer

    Models library_hawkeye/src/main/cpp/guard: [FileGuard] (file_guard.cpp) and
    [MmapGuard] (mmap_guard.cpp), the mapped file a crash report is collected in
    as one NUL-terminated text.

    [MmapGuard::Write] assembles the new text in a heap array it may overrun;
    the model keeps the bytes that land inside the array and returns the number
    of bytes written past its end (the spill), so that both the effect on the
    mapping and the overrun can be stated. *)

From S2P Require Import Prelude ZapBufferFlush ZapFileFlush.

(** [CAPACITY] *)
Definition CAPACITY : Z := 1024 * 400.

(** The capacity both constructors settle on. *)
Definition clamp_capacity (capacity : Z) : Z :=
  if capacity <=? CAPACITY then CAPACITY else capacity.

Module FileGuard.
(** [fd], and the size the file was set to. *)
Record t : Type := mk { fd : Z; file_size : Z }.

(** [open_fd] is what [open] returns. *)
Definition new (filename : option (list Z)) (open_fd capacity : Z) : t :=
  match filename with
  | None => mk (-1) 0
  | Some _ =>
      if open_fd <? 0 then mk open_fd 0
      else mk open_fd (clamp_capacity capacity)
  end.

Definition IsOk (g : t) : bool := 0 <=? fd g.
Definition GetFd (g : t) : Z := fd g.

(** The destructor: whether [close] is called. *)
Definition destroy (g : t) : bool := 0 <=? fd g.
End FileGuard.

(** A byte string stored with [strcpy] at [off] of an array: what the array then
    holds, and how many bytes went past its end. *)
Definition strcpy (dst : list Z) (off : Z) (s : list Z) : list Z * Z :=
  let w := s ++ [0] in
  let room := Z.max 0 (blen dst - off) in
  (splice off (take (Z.to_nat room) w) dst, Z.max 0 (blen w - room)).

Module MmapGuard.
Section WithArch.
Context {A : Arch}.

(** [buffer_ptr]: null, [MAP_FAILED], or a mapping. *)
Inductive map_ptr : Type :=
| MNull
| MFailed
| MMap (m : list Z).

Record t : Type := mk {
  buffer_ptr : map_ptr;
  file_guard : option FileGuard.t
}.

Definition new (filename : option (list Z)) (open_fd : Z) (mmap_ok : bool) (capacity : Z) : t :=
  match filename with
  | None => mk MNull None
  | Some _ =>
      let fg := FileGuard.new filename open_fd capacity in
      if FileGuard.IsOk fg then
        if mmap_ok then mk (MMap (zeros (clamp_capacity capacity))) (Some fg)
        else mk MFailed (Some fg)
      else mk MNull (Some fg)
  end.

Definition IsOk (g : t) : bool := match buffer_ptr g with MNull => false | _ => true end.
Definition GetBufferPtr (g : t) : map_ptr := buffer_ptr g.

(** The mapping behind a pointer that is not null; [MAP_FAILED] is not mapped. *)
Definition mapped (p : map_ptr) : outcome (list Z) :=
  match p with
  | MMap m => Ok m
  | MNull => Fault NullDeref
  | MFailed => Fault OutOfBounds
  end.

(** [Write(content, content_len, appendable)]: the guard and the spill. *)
Definition Write3 (g : t) (content : option (list Z)) (content_len : Z) (appendable : bool)
    : outcome (t * Z) :=
  match content, buffer_ptr g with
  | None, _ => Ok (g, 0)
  | _, MNull => Ok (g, 0)
  | Some content, _ =>
      m ← mapped (buffer_ptr g);
      if appendable then
        now_len ← strlen m;
        let new_capacity := szw (now_len + content_len) in
        src ← mem_read m 0 now_len;
        data_tmp ← mem_write (zeros new_capacity) 0 src;
        s ← of_option Unterminated (cstr content);
        let r := strcpy data_tmp now_len s in
        m ← mem_write m 0 r.1;
        Ok (mk (MMap m) (file_guard g), r.2)
      else
        src ← mem_read content 0 content_len;
        m ← mem_write m 0 src;
        Ok (mk (MMap m) (file_guard g), 0)
  end.

Definition Write2 (g : t) (content : option (list Z)) (content_len : Z) : outcome (t * Z) :=
  Write3 g content content_len true.

(** [Write(content)] takes [strlen] of its argument first. *)
Definition Write (g : t) (content : option (list Z)) : outcome (t * Z) :=
  c ← of_option NullDeref content;
  n ← strlen c;
  Write2 g content n.

(** [Flush(filename)]: append the text to the file; [fclose] of a null pointer when
    the file cannot be opened. *)
Definition Flush (g : t) (fs : file_store) (fopen_ok : list Z -> bool) (filename : list Z)
    : outcome file_store :=
  if fopen_ok filename then
    match buffer_ptr g with
    | MNull => Ok fs
    | p =>
        m ← mapped p;
        s ← of_option Unterminated (cstr m);
        Ok (fappend fs filename s)
    end
  else Fault NullDeref.

(** The destructor: the length given to [munmap], if it is called. *)
Definition destroy (g : t) : outcome (option Z) :=
  match buffer_ptr g with
  | MNull => Ok None
  | p => m ← mapped p; Some <$> strlen m
  end.

(** ** The text held by a guard *)

Definition text (g : t) (cap : Z) (s : list Z) : Prop :=
  buffer_ptr g = MMap (s ++ zeros (cap - blen s)) /\ no_nul s /\ blen s < cap /\ in_size cap.

Lemma text_cstr g cap s :
  text g cap s -> cstr (s ++ zeros (cap - blen s)) = Some s.
Proof. intros (_ & Hn & Hl & _). rewrite zeros_S by lia. by apply cstr_app. Qed.

Lemma text_blen g cap s : text g cap s -> blen (s ++ zeros (cap - blen s)) = cap.
Proof. intros (_ & _ & Hl & _). rewrite blen_app, blen_zeros by lia. lia. Qed.

Lemma new_text filename fd capacity :
  0 <= fd -> in_size (clamp_capacity capacity) ->
  text (new (Some filename) fd true capacity) (clamp_capacity capacity) [].
Proof.
  intros Hfd Hc. unfold new, FileGuard.IsOk, FileGuard.new. cbn.
  destruct (Z.ltb_spec fd 0); [lia|]. cbn. destruct (Z.leb_spec 0 fd); [|lia].
  split; [cbn; by rewrite Z.sub_0_r|]. split; [constructor|]. split; [|done].
  unfold clamp_capacity, CAPACITY, blen. cbn.
  destruct (Z.leb_spec capacity (1024 * 400)); lia.
Qed.

(** [strcpy] into the tail of an array with [k] bytes left, of a string at least that
    long: the tail is filled, the rest spills. *)
Lemma strcpy_tail a (k : Z) s :
  0 <= k <= blen s ->
  strcpy (a ++ zeros k) (blen a) s = (a ++ take (Z.to_nat k) s, blen s + 1 - k).
Proof.
  intros Hk. unfold strcpy. rewrite blen_app, blen_zeros by lia.
  replace (Z.max 0 (blen a + k - blen a)) with k by lia.
  rewrite blen_app. change (blen [0]) with 1. f_equal; [|lia].
  rewrite take_app_le by (unfold blen in Hk; lia).
  unfold splice, blen. rewrite Nat2Z.id, take_app_length. f_equal.
  rewrite drop_ge, app_nil_r; [done|]. rewrite length_app, length_take.
  unfold zeros. rewrite length_replicate. unfold blen in Hk. lia.
Qed.

(** [strcpy] of a string that leaves exactly its terminator's room. *)
Lemma strcpy_exact a s :
  strcpy (a ++ zeros (blen s + 1)) (blen a) s = (a ++ s ++ [0], 0).
Proof.
  unfold strcpy. pose proof (blen_nonneg s). rewrite blen_app, blen_zeros by lia.
  replace (Z.max 0 (blen a + (blen s + 1) - blen a)) with (blen s + 1) by lia.
  rewrite blen_app. change (blen [0]) with 1. f_equal; [|lia].
  rewrite take_ge by (rewrite length_app; cbn; unfold blen; lia).
  unfold splice, blen. rewrite Nat2Z.id, take_app_length. f_equal.
  rewrite drop_ge, app_nil_r; [done|]. rewrite !length_app.
  unfold zeros. rewrite length_replicate. cbn. lia.
Qed.

(** The appending branch of [Write] up to the final copy into the mapping. *)
Lemma Write2_reduce g cap s content len c :
  text g cap s -> cstr content = Some c -> 0 <= len -> in_size (blen s + len) ->
  Write2 g (Some content) len =
    (m ← mem_write (s ++ zeros (cap - blen s)) 0 (strcpy (s ++ zeros len) (blen s) c).1;
     Ok (mk (MMap m) (file_guard g), (strcpy (s ++ zeros len) (blen s) c).2)).
Proof.
  intros HT Hc Hlen Hin. pose proof HT as (Hb & Hn & Hl & _). pose proof (blen_nonneg s).
  unfold Write2, Write3. rewrite Hb. cbn [mapped]. rewrite bind_Ok.
  unfold strlen. rewrite (text_cstr g cap s HT), bind_Ok, szw_small by done.
  rewrite (mem_read_at [] s (zeros (cap - blen s))) by done. rewrite bind_Ok.
  rewrite zeros_app by lia.
  rewrite (mem_write_at [] (zeros (blen s)) s (zeros len)) by (rewrite ?blen_zeros; done || lia).
  rewrite bind_Ok, Hc. cbn [of_option app]. rewrite bind_Ok. done.
Qed.

(** Appending the first [len] characters of a C string that is at least that long. *)
Lemma Write2_clip g cap s content len c :
  text g cap s -> cstr content = Some c -> 0 <= len <= blen c -> blen s + len < cap ->
  exists g', Write2 g (Some content) len = Ok (g', blen c + 1 - len) /\
    text g' cap (s ++ take (Z.to_nat len) c).
Proof.
  intros HT Hc Hlen Hfit. pose proof HT as (Hb & Hn & Hl & Hin). pose proof (blen_nonneg s).
  rewrite (Write2_reduce g cap s content len c) by (try done; unfold in_size, in_u in *; lia).
  rewrite strcpy_tail by done. cbn [fst snd].
  set (w := take (Z.to_nat len) c).
  assert (blen w = len) as Hw by (unfold w, blen in *; rewrite length_take; lia).
  rewrite (mem_write_at [] (s ++ zeros len) (s ++ w) (zeros (cap - blen (s ++ w)))).
  - rewrite bind_Ok. eexists; split; [reflexivity|]. split; [done|]. split; [|split; [|done]].
    + apply Forall_app_2; [done|]. apply Forall_take. by apply (cstr_no_nul content).
    + rewrite blen_app. lia.
  - cbn [app]. rewrite <- app_assoc. f_equal. rewrite <- zeros_app by (rewrite ?blen_app; lia).
    f_equal. rewrite blen_app. lia.
  - done.
  - rewrite !blen_app, blen_zeros by lia. lia.
Qed.

(** Appending a C string with its terminator counted: nothing spills. *)
Lemma Write2_exact g cap s content c :
  text g cap s -> cstr content = Some c -> blen s + blen c < cap ->
  exists g', Write2 g (Some content) (blen c + 1) = Ok (g', 0) /\ text g' cap (s ++ c).
Proof.
  intros HT Hc Hfit. pose proof HT as (Hb & Hn & Hl & Hin).
  pose proof (blen_nonneg s). pose proof (blen_nonneg c).
  rewrite (Write2_reduce g cap s content (blen c + 1) c)
    by (try done; unfold in_size, in_u in *; lia).
  rewrite strcpy_exact. cbn [fst snd].
  rewrite (mem_write_at [] (s ++ zeros (blen c + 1)) (s ++ c ++ [0])
            (zeros (cap - blen (s ++ c) - 1))).
  - rewrite bind_Ok. eexists; split; [reflexivity|]. split; [|split; [|split; [|done]]].
    + cbn. rewrite (zeros_S (cap - blen (s ++ c))) by (rewrite blen_app; lia).
      by rewrite <- !app_assoc.
    + apply Forall_app_2; [done|]. by apply (cstr_no_nul content).
    + rewrite blen_app. lia.
  - cbn [app]. rewrite <- app_assoc. f_equal. rewrite <- zeros_app by (rewrite ?blen_app; lia).
    f_equal. rewrite blen_app. lia.
  - done.
  - rewrite !blen_app, blen_zeros by lia. change (blen [0]) with 1. lia.
Qed.

(** An unterminated argument is read past its end. *)
Lemma Write2_unterminated g cap s content len :
  text g cap s -> cstr content = None -> 0 <= len -> in_size (blen s + len) ->
  Write2 g (Some content) len = Fault Unterminated.
Proof.
  intros HT Hc Hlen Hin. pose proof HT as (Hb & Hn & Hl & _). pose proof (blen_nonneg s).
  unfold Write2, Write3. rewrite Hb. cbn [mapped]. rewrite bind_Ok.
  unfold strlen. rewrite (text_cstr g cap s HT), bind_Ok, szw_small by done.
  rewrite (mem_read_at [] s (zeros (cap - blen s))) by done. rewrite bind_Ok.
  rewrite zeros_app by lia.
  rewrite (mem_write_at [] (zeros (blen s)) s (zeros len)) by (rewrite ?blen_zeros; done || lia).
  rewrite bind_Ok, Hc. done.
Qed.

(** A sequence of [Write(content)]s, with the total spill. *)
Fixpoint write_all (g : t) (cs : list (list Z)) : outcome (t * Z) :=
  match cs with
  | [] => Ok (g, 0)
  | c :: cs =>
      r ← Write g (Some (c ++ [0]));
      r' ← write_all r.1 cs;
      Ok (r'.1, r.2 + r'.2)
  end.

Lemma Write_text g cap s c :
  text g cap s -> no_nul c -> blen s + blen c < cap ->
  exists g', Write g (Some (c ++ [0])) = Ok (g', 1) /\ text g' cap (s ++ c).
Proof.
  intros HT Hn Hfit. pose proof (blen_nonneg c). unfold Write. cbn [of_option]. rewrite bind_Ok.
  assert (cstr (c ++ [0]) = Some c) as Hc by by apply cstr_app.
  unfold strlen. rewrite Hc, bind_Ok.
  destruct (Write2_clip g cap s (c ++ [0]) (blen c) c HT Hc) as (g' & HW & HT'); [lia..|].
  exists g'. rewrite HW, take_blen in *. split; [do 2 f_equal; lia|done].
Qed.

Lemma write_all_text cs g cap s :
  text g cap s -> Forall no_nul cs -> blen s + blen (concat cs) < cap ->
  exists g', write_all g cs = Ok (g', Z.of_nat (length cs)) /\ text g' cap (s ++ concat cs).
Proof.
  intros HT Hcs. revert g s HT. induction Hcs as [|c cs Hc _ IH]; intros g s HT Hfit.
  { exists g. cbn. by rewrite app_nil_r. }
  cbn [concat] in *. rewrite blen_app in Hfit.
  pose proof (blen_nonneg (concat cs)).
  destruct (Write_text g cap s c HT Hc) as (g1 & HW & HT1); [lia|].
  destruct (IH g1 _ HT1) as (g' & HA & HT'); [rewrite blen_app; lia|].
  exists g'. cbn [write_all]. rewrite HW, bind_Ok. cbn [fst snd]. rewrite HA, bind_Ok.
  cbn [fst snd]. rewrite app_assoc. split; [|done]. do 2 f_equal. cbn [length]. lia.
Qed.

(** ** Writing near the end of the mapping *)

(** A mapping that is filled to its end, without a terminator. *)
Definition full (g : t) : Prop := exists m, buffer_ptr g = MMap m /\ cstr m = None.

Lemma no_nul_cstr s : no_nul s -> cstr s = None.
Proof. induction 1 as [|x s Hx _ IH]; [done|]. cbn. destruct (Z.eqb_spec x 0); [done|]. by rewrite IH. Qed.

Lemma full_Write2 g content len : full g -> Write2 g (Some content) len = Fault Unterminated.
Proof. intros (m & Hb & Hc). unfold Write2, Write3. rewrite Hb. cbn [mapped]. rewrite bind_Ok. unfold strlen. by rewrite Hc. Qed.

Lemma splice_0 bs m : splice 0 bs m = bs ++ drop (length bs) m.
Proof. done. Qed.

(** A string that does not fit fills the mapping, or is stored past its end. *)
Lemma Write2_tight g cap s content len c r :
  text g cap s -> cstr content = Some c -> 0 <= len <= blen c -> cap <= blen s + len -> in_size (blen s + len) ->
  Write2 g (Some content) len = Ok r -> full r.1.
Proof.
  intros HT Hc Hlen Hbig Hin. rewrite (Write2_reduce g cap s content len c) by (done || lia). rewrite strcpy_tail by done. cbn [fst snd].
  set (w := take (Z.to_nat len) c). assert (blen w = len) as Hw by (unfold w, blen in *; rewrite length_take; lia).
  intros H. apply bind_Ok_inv in H as (m & Hm & H). injection H as <-. pose proof (text_blen g cap s HT) as HB. exists m. split; [done|].
  apply mem_write_Ok_inv in Hm as (_ & Hle & ->). rewrite blen_app in Hle. rewrite splice_0.
  rewrite drop_ge by (rewrite !length_app; unfold blen in *; rewrite length_app in HB; lia). rewrite app_nil_r. apply no_nul_cstr, Forall_app_2.
  - apply HT.
  - apply Forall_take. by apply (cstr_no_nul content).
Qed.

(** [strcpy] of a string that leaves more than its terminator's room. *)
Lemma strcpy_room a k s : blen s < k -> strcpy (a ++ zeros k) (blen a) s = (a ++ s ++ zeros (k - blen s), 0).
Proof.
  intros Hk. pose proof (blen_nonneg s). unfold strcpy. rewrite blen_app, blen_zeros by lia. rewrite blen_app. change (blen [0]) with 1.
  f_equal; [|lia]. rewrite take_ge by (rewrite length_app; cbn; unfold blen in *; lia). unfold splice, blen. rewrite Nat2Z.id, take_app_length.
  f_equal. rewrite <- app_assoc. f_equal. rewrite (zeros_S (k - _)) by (unfold blen in *; lia). cbn [app]. f_equal.
  rewrite drop_app_ge by (rewrite length_app; cbn; lia). rewrite length_app. cbn [length]. unfold zeros. rewrite drop_replicate. f_equal. unfold blen in *. lia.
Qed.

(** Whatever is written behind a text, the text stays. *)
Lemma Write2_extends g cap s content len r :
  text g cap s -> 0 <= len -> in_size (blen s + len) -> Write2 g (Some content) len = Ok r ->
  (exists w, text r.1 cap (s ++ w)) \/ full r.1.
Proof.
  intros HT Hlen Hin HW. destruct (cstr content) as [c|] eqn:Hc; [|by rewrite (Write2_unterminated g cap s content len) in HW].
  destruct (Z.le_gt_cases len (blen c)) as [Hle|Hgt].
  - destruct (Z.lt_ge_cases (blen s + len) cap) as [Hlt|Hge]; [|right; by eapply Write2_tight].
    destruct (Write2_clip g cap s content len c HT Hc) as (g' & HW' & HT'); [lia|lia|]. rewrite HW' in HW. injection HW as <-. left. by eexists.
  - left. exists c. rewrite (Write2_reduce g cap s content len c) in HW by (done || lia). rewrite strcpy_room in HW by lia. cbn [fst snd] in HW.
    apply bind_Ok_inv in HW as (m & Hm & HW). injection HW as <-. pose proof (text_blen g cap s HT) as HB. pose proof HT as (Hb & Hn & Hl & Hc').
    pose proof (blen_nonneg c). apply mem_write_Ok_inv in Hm as (_ & Hfit & ->). rewrite HB, !blen_app, blen_zeros in Hfit by lia.
    split; [|split; [|split]]; cbn [fst buffer_ptr].
    + f_equal. rewrite splice_0, <- !app_assoc. do 2 f_equal. rewrite blen_app.
      rewrite drop_app_ge by (rewrite !length_app; lia). unfold zeros. rewrite drop_replicate, <- replicate_add. f_equal.
      rewrite !length_app, length_replicate. unfold blen in *. lia.
    + apply Forall_app_2; [done|]. by apply (cstr_no_nul content).
    + rewrite blen_app. lia.
    + done.
Qed.

(** ** Properties *)

(** C3. A report buffer implements an append-only text: as long as the report stays
    below the capacity, any sequence of [Write]s followed by [Flush] appends the
    concatenation of the strings to the crash file.  Each [Write] also stores
    one byte, the terminator, past the end of its temporary array. *)
Theorem report_refines_text g cap s cs fs fopen_ok f :
  text g cap s -> Forall no_nul cs -> blen s + blen (concat cs) < cap -> fopen_ok f = true ->
  exists g' fs', write_all g cs = Ok (g', Z.of_nat (length cs)) /\
    text g' cap (s ++ concat cs) /\
    Flush g' fs fopen_ok f = Ok fs' /\
    fcontents fs' f = fcontents fs f ++ s ++ concat cs.
Proof.
  intros HT Hcs Hfit Hf. destruct (write_all_text cs g cap s HT Hcs Hfit) as (g' & HA & HT').
  exists g'. eexists; split; [exact HA|]. split; [exact HT'|]. pose proof HT' as (Hb & _).
  unfold Flush. rewrite Hf, Hb. cbn [mapped]. rewrite bind_Ok, (text_cstr g' cap _ HT').
  cbn [of_option]. rewrite bind_Ok. split; [reflexivity|].
  unfold fcontents, fappend. by rewrite lookup_insert_eq.
Qed.

(** [Write] never compares with the capacity: a string that does not fit below it
    is copied past the end of the mapping, and one that fits exactly leaves the
    mapping without a terminator, so that every later [Write] reads past it. *)
Theorem report_overflow g cap s c :
  text g cap s -> no_nul c -> cap <= blen s + blen c -> in_size (blen s + blen c) ->
  Write g (Some (c ++ [0])) = Fault OutOfBounds \/
  (exists g', Write g (Some (c ++ [0])) = Ok (g', 1) /\
     forall c', no_nul c' -> Write g' (Some (c' ++ [0])) = Fault Unterminated).
Proof.
  intros HT Hn Hbig Hin. pose proof HT as (Hb & Hns & Hl & _). pose proof (blen_nonneg c).
  assert (forall c, no_nul c -> cstr (c ++ [0]) = Some c) as Hc by (intros; by apply cstr_app).
  unfold Write. cbn [of_option]. rewrite bind_Ok. unfold strlen at 1 2. rewrite Hc, bind_Ok by done.
  rewrite (Write2_reduce g cap s _ (blen c) c) by auto.
  rewrite strcpy_tail by lia. cbn [fst snd].
  rewrite take_blen. destruct (decide (blen s + blen c = cap)) as [Heq | Hne].
  - right. rewrite (mem_write_at [] (s ++ zeros (cap - blen s)) (s ++ c) []).
    2: by rewrite app_nil_r. 2: done. 2: rewrite !blen_app, blen_zeros; lia.
    rewrite bind_Ok. eexists; split; [do 2 f_equal; lia|].
    intros c' Hc'. rewrite bind_Ok. unfold strlen at 1. rewrite Hc, bind_Ok by done.
    unfold Write2, Write3. cbn [buffer_ptr mapped]. rewrite bind_Ok, app_nil_r. cbn [app].
    unfold strlen. rewrite (cstr_None (s ++ c)); [done|]. by apply Forall_app_2.
  - left. unfold mem_write. rewrite (proj2 (in_block_false _ _ _)); [done|].
    rewrite (text_blen g cap s HT), blen_app. lia.
Qed.

End WithArch.

(** ** Witnesses: the report buffer right after construction *)

Lemma fresh_text : text (A := LP64) (new (Some [102]) 3 true 0) CAPACITY [].
Proof. apply new_text; vm_compute; try split; congruence. Defined.

Lemma report_refines_text_witness :
  exists g' fs', write_all (A := LP64) (new (Some [102]) 3 true 0) [str "a"; str "bc"] = Ok (g', 2) /\
    Flush g' ∅ (fun _ => true) [99] = Ok fs' /\ fcontents fs' [99] = str "abc".
Proof.
  destruct (report_refines_text (A := LP64) (new (Some [102]) 3 true 0) CAPACITY []
    [str "a"; str "bc"] ∅ (fun _ => true) [99] fresh_text) as (g' & fs' & H1 & _ & H2 & H3).
  - constructor; [by apply nul_free_no_nul|]. constructor; [by apply nul_free_no_nul|constructor].
  - vm_compute. reflexivity.
  - reflexivity.
  - exists g', fs'. split; [exact H1|]. split; [exact H2 | exact H3].
Defined.

Lemma report_overflow_witness :
  Write (A := LP64) (mk (MMap (zeros 4)) None) (Some (str "abcde" ++ [0])) = Fault OutOfBounds.
Proof.
  destruct (report_overflow (A := LP64) (mk (MMap (zeros 4)) None) 4 [] (str "abcde")) as [H | (g' & H & _)].
  - split; [reflexivity|]. split; [constructor|]. vm_compute. repeat split; congruence.
  - by apply nul_free_no_nul.
  - vm_compute. congruence.
  - vm_compute. split; congruence.
  - exact H.
  - vm_compute in H. discriminate H.
Defined.
End MmapGuard.
