(* ===== verification/HawkPrivate.v ===== *)
(** * Hawkeye: helpers of the crash reporter

    Models library_hawkeye/src/main/cpp/hawkeye_private.{h,cpp}: the functions
    that format a line into the report buffer, number and string helpers, the
    socket address, the enumeration of threads, and the report sections read from
    /proc, from logcat and from the system.

    Formatting is done by [vsnprintf]; the callers build the formatted text, and
    [RecordNewline] / [RecordLine] get it as an argument.  The contents [malloc]
    returns are the parameter [junk]. *)

From stdpp Require Import pretty.
From S2P Require Import Prelude ZapBufferFlush ZapFileFlush HawkGuard.

(** [%d], [%zu], [%u] *)
Definition dec (z : Z) : list Z := str (pretty z).

(** [HAWKEYE_LOG_BUFFER_SIZE] *)
Definition HAWKEYE_LOG_BUFFER_SIZE : Z := 1024.
Definition UNIX_PATH_MAX : Z := 108.

(** ** Characters *)

Definition isdigit (c : Z) : bool := (48 <=? c) && (c <=? 57).
Definition isspace (c : Z) : bool := (c =? 32) || ((9 <=? c) && (c <=? 13)).

Section Numbers.
Context {A : Arch}.

(** [long] is as wide as [size_t]. *)
Definition LONG_MAX : Z := 2 ^ (size_bits - 1) - 1.
Definition LONG_MIN : Z := - 2 ^ (size_bits - 1).
Definition INT_MAX : Z := 2 ^ 31 - 1.
Definition INT_MIN : Z := - 2 ^ 31.

Fixpoint span_digits (s : list Z) : list Z :=
  match s with
  | c :: s => if isdigit c then c :: span_digits s else []
  | [] => []
  end.

Definition digits_val (ds : list Z) : Z := fold_left (fun a c => 10 * a + (c - 48)) ds 0.

Fixpoint skip_space (s : list Z) : list Z :=
  match s with
  | c :: s' => if isspace c then skip_space s' else s
  | [] => []
  end.

(** [strtol(s, &end, 10)]: the value, whether [errno] is [ERANGE], and whether a
    number was converted at all ([end != s]). *)
Definition strtol (s : list Z) : Z * bool * bool :=
  let s := skip_space s in
  let '(neg, s) := match s with
                   | c :: s' => if c =? 45 then (true, s') else if c =? 43 then (false, s')
                                else (false, s)
                   | [] => (false, [])
                   end in
  let ds := span_digits s in
  match ds with
  | [] => (0, false, false)
  | _ =>
      let v := if neg : bool then - digits_val ds else digits_val ds in
      if LONG_MAX <? v then (LONG_MAX, true, true)
      else if v <? LONG_MIN then (LONG_MIN, true, true)
      else (v, false, true)
  end.

Definition atoi (s : list Z) : Z := swrap 32 (strtol s).1.1.

(** [Atoi(str, &i)]: [Some v] for the return value 0 with [*i = v], [None] for -1. *)
Definition Atoi (str : option (list Z)) : option Z :=
  match str with
  | None => None
  | Some s =>
      match s with
      | [] => None
      | c :: rest =>
          if negb (isdigit c) && negb (c =? 45) then None
          else if negb (forallb isdigit rest) then None
          else
            let '(val, erange, converted) := strtol s in
            if erange && ((val =? LONG_MAX) || (val =? LONG_MIN)) then None
            else if negb converted then None
            else if (INT_MAX <? val) || (val <? INT_MIN) then None
            else Some val
      end
  end.
End Numbers.

(** [Trim]: the string left between the moved start and end. *)
Fixpoint trim_end (s : list Z) (n : nat) : nat :=
  match n with
  | O => O
  | S k => if isspace (nth k s 0) then trim_end s k else n
  end.

Definition Trim (start : list Z) : list Z :=
  match start with
  | [] => []
  | _ =>
      match skip_space start with
      | [] => []
      | t => take (trim_end t (length t)) t
      end
  end.

(** ** The socket address *)

(** [struct sockaddr_un]: [sun_family] and the 108 bytes of [sun_path]. *)
Record sockaddr_un : Type := mkSockaddr { sun_family : Z; sun_path : list Z }.

Definition PF_UNIX : Z := 1.

Definition FillSockAddr (socket_name : list Z) : outcome sockaddr_un :=
  n ← strlen socket_name;
  let n := if UNIX_PATH_MAX - 1 <? n then UNIX_PATH_MAX - 1 else n in
  p ← mem_write (zeros UNIX_PATH_MAX) 0 [0];
  src ← mem_read socket_name 0 n;
  p ← mem_write p 1 src;
  Ok (mkSockaddr PF_UNIX p).

(** ** Threads *)

(** The loop of [GetThreads] over the directory entries: [left] is the room left in
    [out]. *)
Fixpoint threads_loop {A : Arch} (pid : Z) (entries : list (list Z)) (left : nat) : list Z :=
  match left, entries with
  | O, _ => []
  | _, [] => []
  | S k, d_name :: entries =>
      let tid := atoi d_name in
      if (tid =? 0) || (tid =? pid) then threads_loop pid entries left
      else tid :: threads_loop pid entries k
  end.

(** [GetThreads(pid, out, size)]; [None]: [opendir] failed. *)
Definition GetThreads {A : Arch} (pid : Z) (dir : option (list (list Z))) (size : nat) : list Z :=
  match dir with
  | None => []
  | Some entries => threads_loop pid entries size
  end.

(** ** Writing report lines *)

Section Records.
Context {A : Arch}.

(** The contents of a fresh [malloc(HAWKEYE_LOG_BUFFER_SIZE)] block: unspecified, so a
    function of whatever the state of the report and the text are. *)
Variable junk : MmapGuard.t -> list Z -> list Z.

(** [vsnprintf(buffer, 1024, ...)] when the full formatted text is [text]. *)
Definition vsnprintf (block text : list Z) : outcome (list Z) :=
  mem_write block 0 (take (Z.to_nat (HAWKEYE_LOG_BUFFER_SIZE - 1)) text ++ [0]).

Definition clip_printed (printed : Z) : Z :=
  if HAWKEYE_LOG_BUFFER_SIZE <=? printed then HAWKEYE_LOG_BUFFER_SIZE - 1 else printed.

(** [RecordNewline]: the report and the spill of its [Write]. *)
Definition RecordNewline (mmap_ptr : option MmapGuard.t) (text : list Z)
    : outcome (option MmapGuard.t * Z) :=
  match mmap_ptr with
  | None => Ok (None, 0)
  | Some g =>
      buffer ← vsnprintf (junk g text) text;
      if 0 <? blen text then
        let printed := clip_printed (blen text) in
        buffer ← mem_write buffer printed [10];
        r ← MmapGuard.Write2 g (Some buffer) (printed + 1);
        Ok (Some r.1, r.2)
      else Ok (Some g, 0)
  end.

Definition RecordLine (mmap_ptr : option MmapGuard.t) (text : list Z)
    : outcome (option MmapGuard.t * Z) :=
  match mmap_ptr with
  | None => Ok (None, 0)
  | Some g =>
      buffer ← vsnprintf (junk g text) text;
      if 0 <? blen text then
        let printed := clip_printed (blen text) in
        r ← MmapGuard.Write2 g (Some buffer) (printed + 1);
        Ok (Some r.1, r.2)
      else Ok (Some g, 0)
  end.

(** A report action: how it changes the report. *)
Abbreviation report := (option MmapGuard.t) (only parsing).

Definition newline (text : list Z) (g : report) : outcome report := fst <$> RecordNewline g text.
Definition line (text : list Z) (g : report) : outcome report := fst <$> RecordLine g text.

Fixpoint newlines (texts : list (list Z)) (g : report) : outcome report :=
  match texts with
  | [] => Ok g
  | t :: texts => g ← newline t g; newlines texts g
  end.

(** ** Sections of the report *)

(** [fgets(line, size, fp)] until end of file: the pieces the file is read in, each of
    at most [full = size - 1] characters; [room] is what is left of the current one. *)
Fixpoint fgets_all (full room : nat) (acc content : list Z) : list (list Z) :=
  match content with
  | [] => match acc with [] => [] | _ => [reverse acc] end
  | c :: content =>
      if c =? 10 then reverse (c :: acc) :: fgets_all full full [] content
      else match room with
           | S (S k) => fgets_all full (S k) (c :: acc) content
           | _ => reverse (c :: acc) :: fgets_all full full [] content
           end
  end.

(** [char line[512]] of [GetSubSection], [fgets(buf, 1024, fp)] of [GetLogcatInfo]. *)
Definition file_lines (content : list Z) : list (list Z) := fgets_all 511 511 [] content.
Definition logcat_lines (content : list Z) : list (list Z) := fgets_all 1023 1023 [] content.

(** The loop of [GetSubSection]: record non-blank lines up to [limit] (0 is no
    limit), count all of them. *)
Fixpoint sub_loop (lines : list (list Z)) (limit n : Z) (g : report) : outcome (report * Z) :=
  match lines with
  | [] => Ok (g, n)
  | l :: lines =>
      s ← of_option Unterminated (cstr (l ++ [0]));
      let p := Trim s in
      match p with
      | [] => sub_loop lines limit n g
      | _ =>
          let n := szw (n + 1) in
          g ← (if (limit =? 0) || (n <=? limit) then newline (str "  " ++ p) g else Ok g);
          sub_loop lines limit n g
      end
  end.

(** [None]: the file could not be opened. *)
Definition GetSubSection (content : option (list Z)) (title : list Z) (limit : Z) (g : report)
    : outcome report :=
  match content with
  | None => Ok g
  | Some content =>
      g ← newline title g;
      r ← sub_loop (file_lines content) limit 0 g;
      g ← (if (0 <? limit) && (limit <? r.2) then
             g ← newline (str "  ......") r.1;
             newline (str "  (number of records: " ++ dec r.2 ++ str ")") g
           else Ok r.1);
      newline (str "-") g
  end.

(** One directory entry in [GetFds]: the number it names, if it counts. *)
Definition fd_of_entry (d_name : list Z) : option Z :=
  match d_name with
  | [] => None
  | c :: _ =>
      if c =? 46 then None
      else match Atoi (Some d_name) with
           | Some fd_num => if fd_num <? 0 then None else Some fd_num
           | None => None
           end
  end.

(** The loop over the entries [getdents] returns; [readlink] gives the target of a
    descriptor ([None] or an empty string when it fails). *)
Fixpoint fds_loop (readlink : Z -> option (list Z)) (entries : list (list Z)) (total : Z)
    (g : report) : outcome (report * Z) :=
  match entries with
  | [] => Ok (g, total)
  | e :: entries =>
      match fd_of_entry e with
      | None => fds_loop readlink entries total g
      | Some fd_num =>
          let total := szw (total + 1) in
          if 1024 <? total then fds_loop readlink entries total g
          else
            let fd_path := match readlink fd_num with
                           | Some ((_ :: _) as p) =>
                               if 511 <? blen p then str "???" else p
                           | _ => str "???"
                           end in
            g ← newline (str "    fd " ++ dec fd_num ++ str ": " ++ fd_path) g;
            fds_loop readlink entries total g
      end
  end.

(** [GetFds]; [None]: the directory could not be opened. *)
Definition GetFds (readlink : Z -> option (list Z)) (dir : option (list (list Z))) (g : report)
    : outcome report :=
  r ← match dir with Some entries => fds_loop readlink entries 0 g | None => Ok (g, 0) end;
  g ← (if 1024 <? r.2 then newline (str "    ......") r.1 else Ok r.1);
  newline (str "    (number of FDs: " ++ dec r.2 ++ str ")") g.

(** [strstr(hay, needle) != nullptr] *)
Fixpoint strstr (hay needle : list Z) : bool :=
  if bool_decide (take (length needle) hay = needle) then true
  else match hay with
       | [] => false
       | _ :: hay => strstr hay needle
       end.

(** [RecordLine(mmap_ptr, buf)] passes the line as the format string; [expand] is what
    [vsnprintf] makes of a format without arguments. *)
Variable expand : list Z -> list Z.

Fixpoint logcat_loop (api : Z) (pid_label : list Z) (lines : list (list Z)) (g : report)
    : outcome report :=
  match lines with
  | [] => Ok g
  | l :: lines =>
      s ← of_option Unterminated (cstr (l ++ [0]));
      g ← (if (24 <=? api) || strstr s pid_label then line (expand s) g else Ok g);
      logcat_loop api pid_label lines g
  end.

(** The command line, cut to the 127 characters that fit [cmd]. *)
Definition logcat_cmd (api pid : Z) (stack_name : list Z) (lines : Z) (priority : Z) : list Z :=
  let pid_filter := if 24 <=? api then str "--pid " ++ dec pid ++ str " " else [] in
  take 127 (str "/system/bin/logcat -b " ++ stack_name ++ str " -d -v threadtime -t "
            ++ dec lines ++ str " " ++ pid_filter ++ str "*:" ++ [priority]).

(** [popen] gives what the command prints, [None] when it fails. *)
Definition GetLogcatInfo (popen : list Z -> option (list Z)) (api pid : Z)
    (stack_name : list Z) (lines priority : Z) (g : report) : outcome report :=
  let pid_label := if 24 <=? api then [] else str " " ++ dec pid ++ str " " in
  let cmd := logcat_cmd api pid stack_name lines priority in
  g ← newline (str "--------- tail end of log " ++ stack_name ++ str " (" ++ cmd ++ str ")") g;
  match popen cmd with
  | Some out => logcat_loop api pid_label (logcat_lines out) g
  | None => Ok g
  end.

(** The sections of [GetNetworkInfo]: file under /proc/PID/net, title, limit. *)
Definition net_sections : list (list Z * list Z * Z) :=
  [(str "tcp", str " TCP over IPV4 (From: /proc/PID/net/tcp)", 1024);
   (str "tcp6", str " TCP over IPv6 (From: /proc/PID/net/tcp6)", 1024);
   (str "udp", str " UDP over IPv4 (From: /proc/PID/net/udp)", 1024);
   (str "udp6", str " UDP over IPv6 (From: /proc/PID/net/udp6)" ++ [10], 1024);
   (str "icmp", str " ICMP in IPv4 (From: /proc/PID/net/icmp)" ++ [10], 256);
   (str "icmp6", str " ICMP in IPv6 (From: /proc/PID/net/icmp6)" ++ [10], 256);
   (str "unix", str " UNIX domain (From: /proc/PID/net/unix)" ++ [10], 256)].

Fixpoint net_loop (read_file : list Z -> option (list Z)) (pid : Z)
    (sections : list (list Z * list Z * Z)) (g : report) : outcome report :=
  match sections with
  | [] => Ok g
  | (name, title, limit) :: rest =>
      let path := str "/proc/" ++ dec pid ++ str "/net/" ++ name in
      g ← GetSubSection (read_file path) title limit g;
      net_loop read_file pid rest g
  end.

Definition GetNetworkInfo (read_file : list Z -> option (list Z)) (api pid : Z) (g : report)
    : outcome report :=
  if 29 <=? api then newline (str "Not supported on Android Q (API level 29) and later.") g
  else net_loop read_file pid net_sections g.

(** [GetABIs(buf, len)]: the string left in [buf]; [prop] is [__system_property_get]. *)
Definition GetABIs (prop : string -> list Z) (api : Z) (len : nat) : list Z :=
  if 21 <=? api then prop "ro.product.cpu.abilist"
  else
    let abi32 := prop "ro.product.cpu.abilist32" in
    match prop "ro.product.cpu.abilist64" with
    | [] => take (len - 1) abi32
    | abi64 => take (len - 1) (abi64 ++ str "," ++ abi32)
    end.

(** [GetKernelVersion(buf, len)]; [None]: [uname] failed. *)
Definition GetKernelVersion (uts : option (list Z * list Z * list Z * list Z)) (len : nat)
    : list Z :=
  match uts with
  | None => take (len - 1) (str "unknown")
  | Some (sysname, release, version, machine) =>
      take (len - 1) (sysname ++ str " version " ++ release ++ str " " ++ version
                      ++ str " (" ++ machine ++ str ")")
  end.
End Records.

(** ** Numbers *)

(** A decimal numeral: an optional minus sign and at least one digit. *)
Inductive numeral : list Z -> Z -> Prop :=
| num_pos ds : ds <> [] -> Forall (fun c => isdigit c = true) ds -> numeral ds (digits_val ds)
| num_neg ds : ds <> [] -> Forall (fun c => isdigit c = true) ds ->
    numeral (45 :: ds) (- digits_val ds).

Lemma span_digits_all ds : Forall (fun c => isdigit c = true) ds -> span_digits ds = ds.
Proof. induction 1 as [|c ds Hc _ IH]; cbn; [done|]. by rewrite Hc, IH. Qed.

Lemma isdigit_spec c : isdigit c = true <-> 48 <= c <= 57.
Proof. unfold isdigit. rewrite andb_true_iff, !Z.leb_le. done. Qed.

Lemma digit_not_space c : isdigit c = true -> isspace c = false.
Proof.
  rewrite isdigit_spec. intros ?. unfold isspace.
  destruct (Z.eqb_spec c 32), (Z.leb_spec 9 c), (Z.leb_spec c 13); cbn; done || lia.
Qed.

Lemma skip_space_nonspace c s : isspace c = false -> skip_space (c :: s) = c :: s.
Proof. intros H. cbn. by rewrite H. Qed.

Lemma digits_val_nonneg ds : Forall (fun c => isdigit c = true) ds -> 0 <= digits_val ds.
Proof.
  unfold digits_val. intros H. assert (forall a, 0 <= a ->
    0 <= fold_left (fun a c => 10 * a + (c - 48)) ds a) as HG; [|apply HG; lia].
  induction H as [|c ds Hc _ IH]; intros a Ha; cbn; [done|]. apply IH.
  apply isdigit_spec in Hc. lia.
Qed.

Lemma forallb_digits s : forallb isdigit s = true <-> Forall (fun c => isdigit c = true) s.
Proof.
  induction s as [|c s IH]; cbn; [done|]. rewrite andb_true_iff, IH, Forall_cons. done.
Qed.

Section NumberLemmas.
Context {A : Arch}.

Lemma long_bounds : LONG_MIN <= INT_MIN /\ INT_MAX <= LONG_MAX.
Proof.
  unfold LONG_MIN, LONG_MAX, INT_MIN, INT_MAX.
  assert (2 ^ 31 <= 2 ^ (size_bits - 1)); [|lia].
  apply Z.pow_le_mono_r; [lia|]. unfold size_bits. destruct szc_cases; lia.
Qed.

(** [strtol] of a numeral, with its saturation. *)
Definition saturate (v : Z) : Z * bool * bool :=
  if LONG_MAX <? v then (LONG_MAX, true, true)
  else if v <? LONG_MIN then (LONG_MIN, true, true) else (v, false, true).

Lemma strtol_numeral s v : numeral s v -> strtol s = saturate v.
Proof.
  intros H. destruct H as [ds Hne Hds | ds Hne Hds]; unfold strtol.
  - destruct ds as [|c ds]; [done|]. inversion Hds as [|? ? Hc Hr]; subst.
    rewrite skip_space_nonspace by by apply digit_not_space.
    apply isdigit_spec in Hc as Hc'.
    destruct (Z.eqb_spec c 45); [lia|]. destruct (Z.eqb_spec c 43); [lia|].
    by rewrite span_digits_all by done.
  - rewrite skip_space_nonspace by done. cbn -[span_digits digits_val].
    rewrite span_digits_all by done. by destruct ds.
Qed.

Lemma Atoi_Some s v :
  Atoi (Some s) = Some v <-> numeral s v /\ INT_MIN <= v <= INT_MAX.
Proof.
  pose proof long_bounds as HB. split.
  - unfold Atoi. destruct s as [|c rest]; [done|].
    destruct (negb (isdigit c) && negb (c =? 45)) eqn:E1; [done|].
    destruct (forallb isdigit rest) eqn:E2; [|done]. cbn [negb].
    assert (Forall (fun c => isdigit c = true) rest) as HR by by apply forallb_digits.
    assert (exists w, strtol (c :: rest) = (0, false, false) \/
              (numeral (c :: rest) w /\ strtol (c :: rest) = saturate w)) as [w Hw].
    { destruct (isdigit c) eqn:Ed.
      - exists (digits_val (c :: rest)). right. split; [|apply strtol_numeral];
          (constructor; [done|by constructor]).
      - cbn in E1. destruct (Z.eqb_spec c 45) as [-> |]; [|done].
        destruct rest as [|d rest]; [exists 0; by left|].
        exists (- digits_val (d :: rest)). right. split; [|apply strtol_numeral]; by constructor. }
    destruct Hw as [-> | [Hn ->]]; [done|]. unfold saturate.
    destruct (Z.ltb_spec LONG_MAX w); [rewrite Z.eqb_refl; done|].
    destruct (Z.ltb_spec w LONG_MIN); [rewrite Z.eqb_refl, orb_true_r; done|]. cbn [andb negb].
    destruct (Z.ltb_spec INT_MAX w), (Z.ltb_spec w INT_MIN); cbn; try done.
    intros [= <-]. done.
  - intros [Hn Hv]. unfold Atoi. pose proof (strtol_numeral s v Hn) as HS.
    assert (exists c rest, s = c :: rest /\ (isdigit c || (c =? 45)) = true /\
              forallb isdigit rest = true) as (c & rest & -> & H1 & H2).
    { destruct Hn as [ds Hne Hds | ds Hne Hds].
      - destruct Hds as [|c ds Hc Hds]; [done|]. exists c, ds. rewrite Hc.
        split; [done|]. split; [done|]. by apply forallb_digits.
      - exists 45, ds. split; [done|]. split; [done|]. by apply forallb_digits. }
    rewrite <- negb_orb, H1, H2. cbn [negb]. rewrite HS. unfold saturate.
    destruct (Z.ltb_spec LONG_MAX v); [lia|]. destruct (Z.ltb_spec v LONG_MIN); [lia|].
    cbn [andb negb]. destruct (Z.ltb_spec INT_MAX v); [lia|].
    destruct (Z.ltb_spec v INT_MIN); [lia|]. done.
Qed.
End NumberLemmas.

(** ** Decimal output *)

Definition digit_string (s : string) : Prop := Forall (fun c => isdigit c = true) (str s).

Lemma str_cons c s : str (String c s) = Z.of_N (Ascii.N_of_ascii c) :: str s.
Proof. reflexivity. Qed.

Lemma pretty_N_char_digit x : isdigit (Z.of_N (Ascii.N_of_ascii (pretty_N_char x))) = true.
Proof. unfold pretty_N_char. by repeat case_match. Qed.

Lemma pretty_N_go_digits (k : nat) x s :
  (x < 10 ^ N.of_nat k)%N -> digit_string s ->
  digit_string (pretty_N_go x s) /\ (length (str (pretty_N_go x s)) <= k + length (str s))%nat.
Proof.
  revert x s. induction k as [|k IH]; intros x s Hx Hs.
  { cbn in Hx. assert (x = 0%N) as -> by lia. rewrite pretty_N_go_0. cbn. split; [done|lia]. }
  destruct (decide (x = 0%N)) as [-> | Hn]; [rewrite pretty_N_go_0; split; [done|lia]|].
  rewrite pretty_N_go_step by lia.
  assert (x `div` 10 < 10 ^ N.of_nat k)%N as Hd.
  { apply N.Div0.div_lt_upper_bound. replace (N.of_nat (S k)) with (N.succ (N.of_nat k)) in Hx by lia.
    by rewrite N.pow_succ_r' in Hx. }
  destruct (IH _ (String (pretty_N_char (x `mod` 10)) s) Hd) as [HD HL].
  - unfold digit_string. rewrite str_cons. constructor; [apply pretty_N_char_digit|done].
  - split; [done|]. cbn [str length] in HL. lia.
Qed.

Lemma pretty_pos p : pretty (Z.pos p) = pretty_N_go (N.pos p) EmptyString.
Proof.
  transitivity (pretty (N.pos p)); [done|]. unfold pretty, pretty_N.
  by destruct (decide (N.pos p = 0%N)).
Qed.

Lemma dec_nonneg_digits z :
  0 <= z < 10 ^ 20 -> Forall (fun c => isdigit c = true) (dec z) /\ blen (dec z) <= 20.
Proof.
  intros Hz. unfold dec.
  destruct z as [|p|p]; [by vm_compute; split; [repeat constructor|]| |lia].
  rewrite pretty_pos.
  destruct (pretty_N_go_digits 20 (N.pos p) EmptyString) as [HD HL]; [|constructor|].
  { rewrite N2Z.inj_lt, N2Z.inj_pow. exact (proj2 Hz). }
  clear Hz.
  change (length (str EmptyString)) with O in HL. split; [exact HD|]. unfold blen. lia.
Qed.

Lemma digits_no_nul s : Forall (fun c => isdigit c = true) s -> no_nul s.
Proof. intros H. apply (Forall_impl _ _ _ H). intros c. rewrite isdigit_spec. lia. Qed.

(** ** Report lines *)

(** The text a list of lines adds to the report. *)
Definition doc (lines : list (list Z)) : list Z := concat (map (fun t => t ++ [10]) lines).

(** A line that fits the temporary buffer of [RecordNewline]. *)
Definition short_line (t : list Z) : Prop := no_nul t /\ 0 < blen t < HAWKEYE_LOG_BUFFER_SIZE - 1.

Lemma doc_app a b : doc (a ++ b) = doc a ++ doc b.
Proof. unfold doc. by rewrite map_app, concat_app. Qed.

Section RecordLemmas.
Context {A : Arch}.
Variable junk : MmapGuard.t -> list Z -> list Z.

(** Blocks of the requested size that happen to end in a zero byte. *)
Hypothesis junk_ends_in_zero : forall g t, exists body,
  junk g t = body ++ [0] /\ blen body = HAWKEYE_LOG_BUFFER_SIZE - 1.

Lemma vsnprintf_short g t text :
  blen text <= HAWKEYE_LOG_BUFFER_SIZE - 1 ->
  exists tail, vsnprintf (junk g t) text = Ok (text ++ 0 :: tail) /\
    blen tail = HAWKEYE_LOG_BUFFER_SIZE - 1 - blen text /\
    (blen text < HAWKEYE_LOG_BUFFER_SIZE - 1 -> exists body, tail = body ++ [0]).
Proof.
  intros Hl. destruct (junk_ends_in_zero g t) as (body & -> & Hb). unfold vsnprintf.
  pose proof (blen_nonneg text). unfold HAWKEYE_LOG_BUFFER_SIZE in *.
  rewrite take_ge by (unfold blen in Hl; lia).
  destruct (split_at body (blen text)) as (a & r & -> & Ha); [lia|].
  rewrite blen_app in Hb. destruct r as [|x r].
  - exists []. rewrite app_nil_r. rewrite (mem_write_at [] (a ++ [0]) (text ++ [0]) []).
    + rewrite app_nil_r. split; [done|]. rewrite blen_nil in *. split; lia.
    + by rewrite app_nil_r.
    + done.
    + blen_lia.
  - exists (r ++ [0]). rewrite (mem_write_at [] (a ++ [x]) (text ++ [0]) (r ++ [0])).
    + cbn [app]. rewrite <- app_assoc. split; [done|]. split; [blen_lia|eauto].
    + cbn [app]. by rewrite <- !app_assoc.
    + done.
    + blen_lia.
Qed.

(** The string in the buffer, with what follows the line in it. *)
Lemma cstr_newline text body : no_nul text -> exists z, cstr (text ++ 10 :: body ++ [0]) = Some (text ++ 10 :: z).
Proof.
  intros Hn. assert (exists z, cstr (body ++ [0]) = Some z) as [z Hz].
  { clear. induction body as [|x body [z IH]]; cbn; [eauto|]. destruct (x =? 0); [eauto|]. rewrite IH. cbn. eauto. }
  exists z. induction Hn as [|x t Hx _ IH]; cbn; [by rewrite Hz|]. destruct (Z.eqb_spec x 0); [done|]. by rewrite IH.
Qed.

(** A short line is appended with its newline; the temporary array of [Write]
    overflows by at least the terminator. *)
Lemma RecordNewline_short g cap s text :
  MmapGuard.text g cap s -> short_line text -> blen s + blen text + 1 < cap ->
  exists g' spill, RecordNewline junk (Some g) text = Ok (Some g', spill) /\ 1 <= spill /\
    MmapGuard.text g' cap (s ++ text ++ [10]).
Proof.
  intros HT [Hn Hl] Hfit. unfold RecordNewline.
  destruct (vsnprintf_short g text text) as (tail & -> & Hb & Hz); [lia|]. rewrite bind_Ok.
  destruct Hz as (body & ->); [lia|]. rewrite (proj2 (Z.ltb_lt _ _)) by lia.
  unfold clip_printed. rewrite (proj2 (Z.leb_gt _ _)) by (unfold HAWKEYE_LOG_BUFFER_SIZE in *; lia).
  rewrite (mem_write_at text [0] [10] (body ++ [0])) by done. rewrite bind_Ok. cbn [app].
  destruct (cstr_newline text body Hn) as [z Hc]. set (c := text ++ 10 :: z) in *.
  pose proof (blen_nonneg z).
  destruct (MmapGuard.Write2_clip g cap s _ (blen text + 1) c HT Hc) as (g' & -> & HT');
    [unfold c; blen_lia|lia|].
  rewrite bind_Ok. exists g'. eexists. split; [reflexivity|]. cbn [snd].
  split; [unfold c; blen_lia|].
  replace (take (Z.to_nat (blen text + 1)) c) with (text ++ [10]) in HT'; [done|].
  unfold c. replace (text ++ 10 :: z) with ((text ++ [10]) ++ z) by by rewrite <- app_assoc.
  rewrite take_app_length'; [done|]. rewrite length_app. unfold blen. cbn. lia.
Qed.

Lemma newline_short g cap s text :
  MmapGuard.text g cap s -> short_line text -> blen s + blen text + 1 < cap ->
  exists g', newline junk text (Some g) = Ok (Some g') /\ MmapGuard.text g' cap (s ++ text ++ [10]).
Proof.
  intros HT Hs Hf. destruct (RecordNewline_short g cap s text HT Hs Hf) as (g' & sp & H & _ & HT').
  exists g'. unfold newline. by rewrite H.
Qed.

Lemma newlines_short ts g cap s :
  MmapGuard.text g cap s -> Forall short_line ts -> blen s + blen (doc ts) < cap ->
  exists g', newlines junk ts (Some g) = Ok (Some g') /\ MmapGuard.text g' cap (s ++ doc ts).
Proof.
  intros HT Hts. revert g s HT. induction Hts as [|t ts Ht _ IH]; intros g s HT Hf.
  { exists g. cbn. by rewrite app_nil_r. }
  change (doc (t :: ts)) with ((t ++ [10]) ++ doc ts) in *. pose proof (blen_nonneg (doc ts)).
  destruct (newline_short g cap s t HT Ht) as (g1 & H1 & HT1); [blen_lia|].
  destruct (IH g1 _ HT1) as (g' & H' & HT'); [blen_lia|].
  exists g'. cbn [newlines]. rewrite H1, bind_Ok, H'. split; [done|]. by rewrite <- app_assoc in HT'.
Qed.
End RecordLemmas.

(** ** Reports that are written until something goes wrong *)

Section Extending.
Context {A : Arch}.
Variable junk : MmapGuard.t -> list Z -> list Z.
Variable cap : Z.
Hypothesis Hcap : in_size (cap + HAWKEYE_LOG_BUFFER_SIZE).

(** A report that begins with [s], unless it is full. *)
Definition extends (s : list Z) (r : option MmapGuard.t) : Prop :=
  exists g, r = Some g /\ ((exists w, MmapGuard.text g cap (s ++ w)) \/ MmapGuard.full g).

Lemma text_extends g s : MmapGuard.text g cap s -> extends s (Some g).
Proof. intros HT. exists g. split; [done|]. left. exists []. by rewrite app_nil_r. Qed.

Lemma clip_printed_range text : 0 < blen text -> 0 <= clip_printed (blen text) + 1 <= HAWKEYE_LOG_BUFFER_SIZE.
Proof. intros H. unfold clip_printed. destruct (Z.leb_spec HAWKEYE_LOG_BUFFER_SIZE (blen text)); unfold HAWKEYE_LOG_BUFFER_SIZE in *; lia. Qed.

Lemma Write2_line_extends s g content len r :
  extends s (Some g) -> 0 <= len <= HAWKEYE_LOG_BUFFER_SIZE -> MmapGuard.Write2 g (Some content) len = Ok r -> extends s (Some r.1).
Proof.
  intros (g' & [= <-] & HT) Hlen HW. exists r.1. split; [done|]. destruct HT as [[w HT]|HF]; [|by rewrite MmapGuard.full_Write2 in HW].
  destruct (MmapGuard.Write2_extends g cap (s ++ w) content len r HT) as [[w' H]|H]; [lia| |done|left; exists (w ++ w'); by rewrite app_assoc|by right].
  destruct HT as (_ & _ & Hl & _). pose proof (blen_nonneg (s ++ w)). unfold in_size, in_u in *. lia.
Qed.

Lemma newline_extends s t r r' : extends s r -> newline junk t r = Ok r' -> extends s r'.
Proof.
  intros HE. unfold newline, RecordNewline. destruct r as [g|]; [|by destruct HE as (? & [=] & _)]. intros H.
  destruct (vsnprintf _ _) as [b|]; [|done]. rewrite bind_Ok in H. destruct (Z.ltb_spec 0 (blen t)) as [Ht|]; [|by injection H as <-].
  destruct (mem_write _ _ _) as [b'|]; [|done]. rewrite bind_Ok in H. destruct (MmapGuard.Write2 _ _ _) as [r1|] eqn:EW; [|done].
  injection H as <-. eapply Write2_line_extends; [exact HE| |exact EW]. by apply clip_printed_range.
Qed.

Lemma line_extends s t r r' : extends s r -> line junk t r = Ok r' -> extends s r'.
Proof.
  intros HE. unfold line, RecordLine. destruct r as [g|]; [|by destruct HE as (? & [=] & _)]. intros H.
  destruct (vsnprintf _ _) as [b|]; [|done]. rewrite bind_Ok in H. destruct (Z.ltb_spec 0 (blen t)) as [Ht|]; [|by injection H as <-].
  destruct (MmapGuard.Write2 _ _ _) as [r1|] eqn:EW; [|done].
  injection H as <-. eapply Write2_line_extends; [exact HE| |exact EW]. by apply clip_printed_range.
Qed.

(** A full report stays full. *)
Lemma newlines_full ls g r : MmapGuard.full g -> newlines junk ls (Some g) = Ok r -> exists g', r = Some g' /\ MmapGuard.full g'.
Proof.
  intros HF. induction ls as [|t ls IH]; cbn [newlines]; [intros [= <-]; by exists g|]. intros H. apply bind_Ok_inv in H as (r1 & H1 & H).
  unfold newline, RecordNewline in H1. destruct (vsnprintf _ _); [|done]. rewrite bind_Ok in H1. destruct (0 <? blen t).
  - destruct (mem_write _ _ _); [|done]. rewrite bind_Ok, MmapGuard.full_Write2 in H1 by done. done.
  - injection H1 as <-. by apply IH.
Qed.

Hypothesis junk_ends_in_zero : forall g t, exists body, junk g t = body ++ [0] /\ blen body = HAWKEYE_LOG_BUFFER_SIZE - 1.

(** Short lines are written as they are, while the report is not full. *)
Lemma newline_exact s t g r :
  MmapGuard.text g cap s -> short_line t -> newline junk t (Some g) = Ok r -> exists g', r = Some g' /\ (MmapGuard.text g' cap (s ++ t ++ [10]) \/ MmapGuard.full g').
Proof.
  intros HT Hs H. destruct (Z.lt_ge_cases (blen s + blen t + 1) cap) as [Hlt|Hge].
  { destruct (newline_short junk junk_ends_in_zero g cap s t HT Hs Hlt) as (g' & HN & HT'). rewrite HN in H. injection H as <-. exists g'. by auto. }
  destruct Hs as [Hn Hl]. unfold newline, RecordNewline in H.
  destruct (vsnprintf_short junk junk_ends_in_zero g t t) as (tail & HV & Hb & Hz); [lia|]. rewrite HV, bind_Ok in H. destruct Hz as (body & ->); [lia|].
  rewrite (proj2 (Z.ltb_lt _ _)) in H by lia. unfold clip_printed in H. rewrite (proj2 (Z.leb_gt _ _)) in H by (unfold HAWKEYE_LOG_BUFFER_SIZE in *; lia).
  rewrite (mem_write_at t [0] [10] (body ++ [0])) in H by done. rewrite bind_Ok in H. cbn [app] in H.
  destruct (cstr_newline t body Hn) as (z & Hc). destruct (MmapGuard.Write2 _ _ _) as [r1|] eqn:EW; [|done]. injection H as <-. exists r1.1. split; [done|]. right.
  pose proof (blen_nonneg z). pose proof (blen_nonneg s). destruct HT as (? & ? & ? & ?).
  eapply (MmapGuard.Write2_tight g cap s _ (blen t + 1)); [by split_and!|exact Hc|blen_lia|lia| |exact EW]. unfold in_size, in_u in *. lia.
Qed.

Lemma newlines_exact ls s g r :
  MmapGuard.text g cap s -> Forall short_line ls -> newlines junk ls (Some g) = Ok r -> exists g', r = Some g' /\ (MmapGuard.text g' cap (s ++ doc ls) \/ MmapGuard.full g').
Proof.
  intros HT Hs. revert s g HT. induction Hs as [|t ls Ht Hs IH]; intros s g HT; cbn [newlines].
  { intros [= <-]. exists g. split; [done|]. left. by rewrite app_nil_r. }
  intros H. apply bind_Ok_inv in H as (r1 & H1 & H). destruct (newline_exact s t g r1 HT Ht H1) as (g1 & -> & [HT1|HF]).
  - destruct (IH _ _ HT1 H) as (g' & -> & HG). exists g'. split; [done|]. change (doc (t :: ls)) with ((t ++ [10]) ++ doc ls). by rewrite app_assoc.
  - destruct (newlines_full ls g1 r HF H) as (g' & -> & HF'). exists g'. by auto.
Qed.
End Extending.

(** ** Trimming *)

(** The white space characters of the C locale. *)
Definition space_run (w : list Z) : Prop := Forall (fun c => isspace c = true) w.

Lemma skip_space_split s : exists w, s = w ++ skip_space s /\ space_run w.
Proof.
  induction s as [|c s (w & Hw & Hs)]; [exists []; split; [done|constructor]|].
  cbn. destruct (isspace c) eqn:E; [|exists []; split; [done|constructor]].
  exists (c :: w). split; [by rewrite Hw at 1|by constructor].
Qed.

Lemma skip_space_head s c t : skip_space s = c :: t -> isspace c = false.
Proof.
  induction s as [|x s IH]; cbn; [done|]. destruct (isspace x) eqn:E; [done|].
  by intros [= <- <-].
Qed.

Lemma trim_end_split s n :
  (n <= length s)%nat ->
  (trim_end s n <= n)%nat /\ space_run (drop (trim_end s n) (take n s)) /\
  (trim_end s n = O \/ isspace (nth (trim_end s n - 1) s 0) = false).
Proof.
  induction n as [|n IH]; intros Hn; [split; [done|]; split; [constructor|by left]|].
  cbn [trim_end]. destruct (isspace (nth n s 0)) eqn:E.
  - destruct IH as (H1 & H2 & H3); [lia|]. split; [lia|]. split; [|done].
    rewrite (take_S_r s n (nth n s 0)) by (destruct (nth_lookup_or_length s n 0); [done|lia]).
    rewrite drop_app_le by (rewrite length_take; lia).
    apply Forall_app_2; [done|]. by constructor.
  - split; [lia|]. split; [|right; by rewrite Nat.sub_1_r].
    rewrite drop_ge by (rewrite length_take; lia). constructor.
Qed.

(** [Trim] splits its argument into white space, its result, and white space, and the
    result neither starts nor ends with white space. *)
Lemma Trim_split s : exists w1 w2, s = w1 ++ Trim s ++ w2 /\ space_run w1 /\ space_run w2.
Proof.
  destruct (skip_space_split s) as (w & Hw & Hr). unfold Trim. destruct s as [|c0 s0].
  { exists [], []. split_and!; [done|constructor|constructor]. }
  destruct (skip_space (c0 :: s0)) as [|c t] eqn:E.
  { exists w, []. split_and!; [by rewrite Hw at 1|done|constructor]. }
  destruct (trim_end_split (c :: t) (length (c :: t))) as (_ & H2 & _); [done|].
  exists w. eexists. split_and!; [|done|exact H2].
  rewrite firstn_all, take_drop. exact Hw.
Qed.

Lemma Trim_no_space_ends s t :
  Trim s = t -> t <> [] ->
  isspace (nth 0 t 0) = false /\ isspace (nth (length t - 1) t 0) = false.
Proof.
  unfold Trim. destruct s as [|c0 s0]; [by intros <-|].
  destruct (skip_space (c0 :: s0)) as [|c u] eqn:E; [by intros <-|].
  destruct (trim_end_split (c :: u) (length (c :: u))) as (H1 & _ & H3); [done|].
  set (k := trim_end (c :: u) (length (c :: u))) in *. intros <- Hne.
  destruct H3 as [H3 | H3]; [by rewrite H3 in Hne|].
  assert (length (take k (c :: u)) = k) as Hl by (rewrite length_take; lia).
  assert (0 < k)%nat by (destruct k; [done|lia]).
  rewrite Hl. split.
  - destruct k; [lia|]. cbn. by apply (skip_space_head (c0 :: s0) c u).
  - rewrite <- H3. rewrite <- (take_drop k (c :: u)) at 2. rewrite app_nth1; [done|]. lia.
Qed.

Lemma Trim_Forall (P : Z -> Prop) s : Forall P s -> Forall P (Trim s) /\ blen (Trim s) <= blen s.
Proof.
  destruct (Trim_split s) as (w1 & w2 & H & _). rewrite H at 1 4. intros HP.
  apply Forall_app in HP as [_ HP]. apply Forall_app in HP as [HP _]. split; [done|].
  rewrite !blen_app. pose proof (blen_nonneg w1). pose proof (blen_nonneg w2). lia.
Qed.

(** ** The lines of a section *)

Lemma fgets_all_short full room acc content :
  (1 <= room)%nat -> (length acc + room <= full)%nat ->
  Forall (fun l => (length l <= full)%nat) (fgets_all full room acc content).
Proof.
  revert room acc. induction content as [|c content IH]; intros room acc H1 H2; cbn [fgets_all].
  - destruct acc as [|x acc]; [constructor|]. constructor; [|constructor].
    rewrite length_reverse. lia.
  - assert (length (reverse (c :: acc)) <= full)%nat by (rewrite length_reverse; cbn; lia).
    destruct (c =? 10); [constructor; [done|apply IH; cbn; lia]|].
    destruct room as [|[|k]]; [lia| |apply IH; cbn; lia].
    constructor; [done|apply IH; cbn; lia].
Qed.

(** The C string [fgets] leaves in the line buffer. *)
Definition c_line (l : list Z) : list Z := default [] (cstr (l ++ [0])).

Lemma c_line_spec l : cstr (l ++ [0]) = Some (c_line l) /\ no_nul (c_line l) /\ blen (c_line l) <= blen l.
Proof.
  unfold c_line. induction l as [|c l (H1 & H2 & H3)]; cbn.
  - split_and!; [done|constructor|lia].
  - destruct (Z.eqb_spec c 0); cbn.
    + split_and!; [done|constructor|]. rewrite blen_cons. pose proof (blen_nonneg l). rewrite blen_nil. lia.
    + destruct (cstr (l ++ [0])) as [t|]; [|done]. cbn in *.
      split_and!; [done|by constructor|]. rewrite !blen_cons. lia.
Qed.

(** The records of a file: its lines, trimmed, without the blank ones. *)
Definition records (lines : list (list Z)) : list (list Z) :=
  filter (fun p => p <> []) (map (fun l => Trim (c_line l)) lines).

Definition kept (limit : Z) (rs : list (list Z)) : list (list Z) :=
  if limit =? 0 then rs else take (Z.to_nat limit) rs.

Definition overflow_note (limit n : Z) : list (list Z) :=
  if (0 <? limit) && (limit <? n)
  then [str "  ......"; str "  (number of records: " ++ dec n ++ str ")"] else [].

Lemma overflow_note_short limit n : 0 <= n < 10 ^ 20 -> Forall short_line (overflow_note limit n).
Proof.
  intros Hn. unfold overflow_note. destruct (_ && _); [|constructor].
  destruct (dec_nonneg_digits n Hn) as [Hd Hl].
  constructor; [split; [by apply nul_free_no_nul|vm_compute; split; congruence]|].
  constructor; [|constructor]. split.
  - apply Forall_app_2; [by apply nul_free_no_nul|].
    apply Forall_app_2; [by apply digits_no_nul|by apply nul_free_no_nul].
  - pose proof (blen_nonneg (dec n)). rewrite !blen_app.
    change (blen (str "  (number of records: ")) with 22. change (blen (str ")")) with 1.
    unfold HAWKEYE_LOG_BUFFER_SIZE. lia.
Qed.

(** What [GetSubSection] promises: the title, the first [limit] records indented, the
    record count when some were left out, and a closing dash. *)
Definition section_lines (content title : list Z) (limit : Z) : list (list Z) :=
  let rs := records (file_lines content) in
  let n := Z.of_nat (length rs) in
  title :: map (fun p => str "  " ++ p) (kept limit rs)
  ++ overflow_note limit n ++ [str "-"].

Definition indent (p : list Z) : list Z := str "  " ++ p.

Lemma records_cons l lines :
  records (l :: lines) =
    match Trim (c_line l) with [] => records lines | p => p :: records lines end.
Proof. unfold records. cbn [map]. rewrite filter_cons. destruct (Trim (c_line l)); by case_decide. Qed.

Lemma records_length lines : (length (records lines) <= length lines)%nat.
Proof.
  induction lines as [|l lines IH]; [done|]. rewrite records_cons.
  destruct (Trim (c_line l)); cbn; lia.
Qed.

Lemma indent_short l :
  (length l <= 511)%nat -> Trim (c_line l) <> [] -> short_line (indent (Trim (c_line l))).
Proof.
  intros Hl _. destruct (c_line_spec l) as (_ & Hn & Hb).
  destruct (Trim_Forall _ _ Hn) as [HT Hb']. pose proof (blen_nonneg (Trim (c_line l))).
  split.
  - apply Forall_app_2; [by apply nul_free_no_nul|done].
  - unfold indent. rewrite blen_app. change (blen (str "  ")) with 2.
    unfold HAWKEYE_LOG_BUFFER_SIZE, blen in *. lia.
Qed.

Section SubSectionLemmas.
Context {A : Arch}.
Variable junk : MmapGuard.t -> list Z -> list Z.
Hypothesis junk_ends_in_zero : forall g t, exists body,
  junk g t = body ++ [0] /\ blen body = HAWKEYE_LOG_BUFFER_SIZE - 1.

(** The records [sub_loop] still writes when [n] were counted already. *)
Definition kept_from (limit n : Z) (rs : list (list Z)) : list (list Z) :=
  if limit =? 0 then rs else take (Z.to_nat (limit - n)) rs.

Lemma kept_from_cons limit n p rs :
  0 <= limit -> 0 <= n ->
  kept_from limit n (p :: rs) =
    (if (limit =? 0) || (n + 1 <=? limit) then [p] else []) ++ kept_from limit (n + 1) rs.
Proof.
  intros Hl Hn. unfold kept_from. destruct (Z.eqb_spec limit 0); [done|]. cbn [orb].
  destruct (Z.leb_spec (n + 1) limit).
  - replace (Z.to_nat (limit - n)) with (S (Z.to_nat (limit - (n + 1)))) by lia. done.
  - replace (Z.to_nat (limit - n)) with O by lia.
    by replace (Z.to_nat (limit - (n + 1))) with O by lia.
Qed.

Lemma sub_loop_spec lines limit n g cap s :
  MmapGuard.text g cap s -> Forall (fun l => (length l <= 511)%nat) lines ->
  0 <= limit -> 0 <= n -> n + Z.of_nat (length lines) < 2 ^ size_bits ->
  blen s + blen (doc (map indent (kept_from limit n (records lines)))) < cap ->
  exists g', sub_loop junk lines limit n (Some g) =
      Ok (Some g', n + Z.of_nat (length (records lines))) /\
    MmapGuard.text g' cap (s ++ doc (map indent (kept_from limit n (records lines)))).
Proof.
  intros HT HL Hlim. revert n g s HT. induction HL as [|l lines Hl _ IH]; intros n g s HT Hn Hb Hf.
  { exists g. unfold records, kept_from in *. cbn in *.
    destruct (limit =? 0); cbn; rewrite ?take_nil; cbn; rewrite app_nil_r; split; try done;
      do 2 f_equal; lia. }
  cbn [sub_loop]. destruct (c_line_spec l) as (-> & _). cbn [of_option]. rewrite bind_Ok.
  rewrite records_cons in *. destruct (Trim (c_line l)) as [|c p] eqn:ET.
  { apply IH; [done|done|cbn [length] in Hb; lia|done]. }
  rewrite <- ET in *.
  assert (Trim (c_line l) <> []) as Hne by by rewrite ET.
  rewrite kept_from_cons in * by lia. cbn [length] in *.
  assert (szw (n + 1) = n + 1) as -> by (apply szw_small; unfold in_size, in_u; lia).
  rewrite map_app, doc_app in *. rewrite blen_app in Hf.
  pose proof (blen_nonneg (doc (map indent (kept_from limit (n + 1) (records lines))))).
  replace (n + Z.of_nat (S (length (records lines))))
    with (n + 1 + Z.of_nat (length (records lines))) by lia.
  destruct ((limit =? 0) || (n + 1 <=? limit)).
  - unfold doc in Hf at 1. cbn [map concat] in Hf. rewrite app_nil_r in Hf.
    destruct (newline_short junk junk_ends_in_zero g cap s (indent (Trim (c_line l))) HT)
      as (g1 & H1 & HT1); [by apply indent_short|blen_lia|].
    unfold indent at 1 in H1. rewrite H1, bind_Ok.
    destruct (IH (n + 1) g1 _ HT1) as (g' & H' & HT'); [lia|lia|blen_lia|].
    exists g'. split; [done|]. unfold doc at 1. cbn [map concat]. by rewrite app_nil_r, app_assoc.
  - rewrite bind_Ok. change (doc (map indent [])) with (@nil Z) in *. rewrite blen_nil in Hf.
    cbn [app]. apply (IH (n + 1) g s HT); lia.
Qed.
End SubSectionLemmas.

(** ** Decimal output read back *)

Lemma digits_val_cons c ds : digits_val (c :: ds) = (c - 48) * 10 ^ blen ds + digits_val ds.
Proof.
  assert (forall ds a, fold_left (fun a c => 10 * a + (c - 48)) ds a
                       = a * 10 ^ blen ds + fold_left (fun a c => 10 * a + (c - 48)) ds 0) as HG.
  { clear. induction ds as [|c ds IH]; intros a; cbn [fold_left]; [rewrite blen_nil; lia|].
    rewrite (IH (10 * a + _)), (IH (10 * 0 + _)), blen_cons, Z.pow_add_r by (apply blen_nonneg || lia).
    lia. }
  unfold digits_val. cbn [fold_left]. rewrite HG. lia.
Qed.

Lemma pretty_N_char_val x :
  (x < 10)%N -> Z.of_N (Ascii.N_of_ascii (pretty_N_char x)) - 48 = Z.of_N x.
Proof.
  intros Hx. destruct (decide (x = 0)%N) as [-> | ?]; [done|].
  assert (x = 1 \/ x = 2 \/ x = 3 \/ x = 4 \/ x = 5 \/ x = 6 \/ x = 7 \/ x = 8 \/ x = 9)%N
    as HX by lia.
  by repeat destruct HX as [-> | HX]; try subst x.
Qed.

Lemma pretty_N_go_val x s :
  digits_val (str (pretty_N_go x s)) = Z.of_N x * 10 ^ blen (str s) + digits_val (str s).
Proof.
  revert s. induction (N.lt_wf_0 x) as [x _ IH]. intros s.
  destruct (decide (x = 0)%N) as [-> | Hx]; [by rewrite pretty_N_go_0|].
  rewrite pretty_N_go_step by lia. rewrite IH by (apply N.div_lt; lia).
  rewrite str_cons, digits_val_cons, blen_cons, pretty_N_char_val by (apply N.mod_lt; lia).
  rewrite Z.pow_add_r by (apply blen_nonneg || lia).
  assert (Z.of_N x = 10 * Z.of_N (x `div` 10) + Z.of_N (x `mod` 10)) as HX.
  { rewrite <- (N2Z.inj_mul 10), <- N2Z.inj_add. f_equal. apply N.div_mod. lia. }
  rewrite HX at 1. change (10 ^ 1) with 10. lia.
Qed.

Lemma dec_numeral z : numeral (dec z) z.
Proof.
  assert (forall p, Forall (fun c => isdigit c = true) (str (pretty (Z.pos p))) /\
                    digits_val (str (pretty (Z.pos p))) = Z.pos p /\
                    str (pretty (Z.pos p)) <> []) as HP.
  { intros p. rewrite pretty_pos. pose proof (pretty_N_go_val (N.pos p) EmptyString) as HV.
    change (digits_val (str EmptyString)) with 0 in HV. change (10 ^ blen (str EmptyString)) with 1 in HV.
    destruct (pretty_N_go_digits (Pos.to_nat p) (N.pos p) EmptyString) as [HD _].
    { rewrite positive_nat_N. apply N.pow_gt_lin_r. lia. }
    { constructor. }
    split; [exact HD|]. split; [lia|]. intros E. rewrite E in HV.
    change (digits_val []) with 0 in HV. lia. }
  unfold dec. destruct z as [|p|p].
  - change 0 with (digits_val (str "0")) at 2. constructor; [done|by repeat constructor].
  - destruct (HP p) as (H1 & H2 & H3). rewrite <- H2 at 2. by constructor.
  - destruct (HP p) as (H1 & H2 & H3).
    change (str (pretty (Z.neg p))) with (45 :: str (pretty (Z.pos p))).
    change (Z.neg p) with (- Z.pos p). rewrite <- H2 at 2. by constructor.
Qed.

(** ** The socket address, evaluated *)

Lemma FillSockAddr_eq name rest :
  no_nul name ->
  FillSockAddr (name ++ 0 :: rest) =
    Ok (mkSockaddr PF_UNIX (0 :: take 107 name ++ zeros (107 - blen (take 107 name)))).
Proof.
  intros Hn. unfold FillSockAddr. rewrite strlen_app, bind_Ok by done.
  set (n := if _ : bool then _ else _).
  assert (n = blen (take 107 name)) as Hl.
  { unfold n, blen, UNIX_PATH_MAX. rewrite length_take.
    destruct (Z.ltb_spec (108 - 1) (Z.of_nat (length name))); lia. }
  clearbody n. set (w := take 107 name) in *.
  assert (blen w <= 107) as Hw by (unfold w, blen; rewrite length_take; lia).
  pose proof (blen_nonneg w).
  rewrite (mem_write_at [] [0] [0] (zeros 107)) by done. rewrite bind_Ok. cbn [app].
  rewrite (mem_read_at [] w (drop 107 name ++ 0 :: rest));
    [|unfold w; cbn [app]; by rewrite app_assoc, take_drop|done|done].
  rewrite bind_Ok, (mem_write_at [0] (zeros (blen w)) w (zeros (107 - blen w))).
  - done.
  - cbn [app]. rewrite <- zeros_app by lia. by replace (blen w + (107 - blen w)) with 107 by lia.
  - done.
  - by rewrite blen_zeros.
Qed.

Lemma FillSockAddr_ok name rest : no_nul name -> exists a, FillSockAddr (name ++ 0 :: rest) = Ok a.
Proof. intros. rewrite FillSockAddr_eq by done. eauto. Qed.

Lemma GetThreads_filter {A : Arch} pid entries size :
  GetThreads pid (Some entries) size =
    take size (filter (fun tid => tid <> 0 /\ tid <> pid) (map atoi entries)).
Proof.
  unfold GetThreads. revert size. induction entries as [|e es IH]; intros [|k]; try done.
  cbn [threads_loop map]. rewrite filter_cons. rewrite !IH.
  destruct (Z.eqb_spec (atoi e) 0), (Z.eqb_spec (atoi e) pid); case_decide; try tauto; cbn; done.
Qed.

Lemma GetThreads_elem {A : Arch} pid tasks size x :
  x ∈ GetThreads pid tasks size -> x <> 0 /\ x <> pid.
Proof.
  destruct tasks as [es|]; [|cbn; set_solver]. rewrite GetThreads_filter. intros Hx.
  apply elem_of_take in Hx as (i & Hi & _). apply list_elem_of_lookup_2 in Hi.
  by apply list_elem_of_filter in Hi as [? _].
Qed.

(** ** Properties *)

(** [Atoi] is the checked inverse of decimal printing: it returns [v] exactly for the
    numerals (optional minus sign, digits only) of a value that fits an [int], in
    particular for the decimal output of every [int], and -1 for everything else. *)
Theorem atoi_checked {A : Arch} s v :
  (Atoi (Some s) = Some v <-> numeral s v /\ INT_MIN <= v <= INT_MAX) /\
  (INT_MIN <= v <= INT_MAX -> Atoi (Some (dec v)) = Some v).
Proof.
  split; [apply Atoi_Some|]. intros Hv. apply Atoi_Some. split; [apply dec_numeral|done].
Qed.

Lemma atoi_checked_witness : Atoi (A := LP64) (Some (dec (-42))) = Some (-42).
Proof. apply (atoi_checked (A := LP64) (dec (-42)) (-42)). vm_compute. split; congruence. Defined.

(** [GetThreads] returns the first [size] thread ids of the directory, in order,
    leaving out the entries that are not numbers and the process id itself. *)
Theorem get_threads_spec {A : Arch} pid entries size :
  GetThreads pid (Some entries) size =
    take size (filter (fun tid => tid <> 0 /\ tid <> pid) (map atoi entries)) /\
  (length (GetThreads pid (Some entries) size) <= size)%nat.
Proof. rewrite GetThreads_filter. split; [done|]. rewrite length_take. lia. Qed.

(** [FillSockAddr] is memory safe for every name and builds an abstract address:
    a zero byte, the first 107 bytes of the name, zero padding up to 108 bytes. *)
Theorem fill_sock_addr_spec name rest :
  no_nul name ->
  exists a, FillSockAddr (name ++ 0 :: rest) = Ok a /\ sun_family a = PF_UNIX /\
    blen (sun_path a) = UNIX_PATH_MAX /\
    sun_path a = 0 :: take 107 name ++ zeros (107 - blen (take 107 name)).
Proof.
  intros Hn. rewrite FillSockAddr_eq by done. eexists. split; [reflexivity|]. split; [done|].
  cbn [sun_path]. split; [|done].
  assert (blen (take 107 name) <= 107) as Hw by (unfold blen; rewrite length_take; lia).
  rewrite blen_cons, blen_app, blen_zeros by lia. unfold UNIX_PATH_MAX. lia.
Qed.

Lemma fill_sock_addr_spec_witness :
  exists a, FillSockAddr (str "sock" ++ [0]) = Ok a /\ sun_path a = 0 :: str "sock" ++ zeros 103.
Proof.
  destruct (fill_sock_addr_spec (str "sock") []) as (a & H1 & _ & _ & H2); [by apply nul_free_no_nul|].
  exists a. split; [exact H1 | exact H2].
Defined.

(** [GetSubSection] appends to the report exactly the section it promises: the
    title, the first [limit] non-blank lines of the file, trimmed and indented, the
    count when lines were left out, and a closing dash, each on a line of its own.
    Assumes that the blocks [malloc] returns end in a zero byte (see
    [record_newline_overlong] for what happens without a terminator). *)
Theorem get_sub_section_spec {A : Arch} junk g cap s content title limit :
  (forall g t, exists body, junk g t = body ++ [0] /\ blen body = HAWKEYE_LOG_BUFFER_SIZE - 1) ->
  MmapGuard.text g cap s -> short_line title -> 0 <= limit ->
  Z.of_nat (length (file_lines content)) < 2 ^ size_bits ->
  blen s + blen (doc (section_lines content title limit)) < cap ->
  exists g', GetSubSection junk (Some content) title limit (Some g) = Ok (Some g') /\
    MmapGuard.text g' cap (s ++ doc (section_lines content title limit)).
Proof.
  intros HJ HT Ht Hlim Hn Hf. set (rs := records (file_lines content)).
  set (n := Z.of_nat (length rs)).
  set (more := overflow_note limit n).
  assert (doc (section_lines content title limit) =
     (title ++ [10]) ++ doc (map indent (kept_from limit 0 rs)) ++ doc more ++ doc [str "-"]) as HD.
  { unfold section_lines. change (doc (?t :: ?l)) with ((t ++ [10]) ++ doc l).
    rewrite !doc_app. unfold kept_from. by rewrite Z.sub_0_r. }
  rewrite HD in *. clear HD. autorewrite with blen_db in Hf. change (blen (doc [str "-"])) with 2 in Hf.
  pose proof (blen_nonneg (doc more)).
  pose proof (blen_nonneg (doc (map indent (kept_from limit 0 rs)))).
  unfold GetSubSection.
  destruct (newline_short junk HJ g cap s title HT Ht) as (g1 & -> & HT1); [lia|]. rewrite bind_Ok.
  destruct (sub_loop_spec junk HJ (file_lines content) limit 0 g1 cap _ HT1) as (g2 & -> & HT2);
    [by apply fgets_all_short; cbn; lia|lia|lia|lia|fold rs; blen_lia|].
  rewrite bind_Ok. cbn [fst snd]. rewrite Z.add_0_l. fold rs in HT2 |- *. fold n.
  assert (n < 10 ^ 20) as Hn20.
  { unfold n, rs. pose proof (records_length (file_lines content)).
    assert (2 ^ size_bits <= 2 ^ 64); [|lia]. apply Z.pow_le_mono_r; [lia|]. unfold size_bits.
    destruct szc_cases; lia. }
  assert (Forall short_line more) as Hmore by (apply overflow_note_short; lia).
  destruct (newlines_short junk HJ more g2 cap _ HT2 Hmore) as (g3 & H3 & HT3); [blen_lia|].
  destruct (newline_short junk HJ g3 cap _ (str "-") HT3) as (g4 & H4 & HT4).
  { split; [by apply nul_free_no_nul|vm_compute; split; congruence]. }
  { change (blen (str "-")) with 1. blen_lia. }
  exists g4. split; [|by rewrite <- !app_assoc in *].
  unfold more, overflow_note in H3. destruct (_ && _); cbn [newlines] in H3; ok_inv.
  - match goal with H : newline _ _ (Some g2) = Ok _ |- _ => rewrite H, bind_Ok end.
    match goal with H : newline _ _ _ = Ok (Some g3) |- _ => rewrite H, bind_Ok end. exact H4.
  - exact H4.
Qed.

(** A zero-filled [malloc]. *)
Definition zero_junk (_ : MmapGuard.t) (_ : list Z) : list Z := zeros HAWKEYE_LOG_BUFFER_SIZE.

Lemma zero_junk_ends_in_zero g t : exists body,
  zero_junk g t = body ++ [0] /\ blen body = HAWKEYE_LOG_BUFFER_SIZE - 1.
Proof.
  exists (zeros 1023). split; [|done]. unfold zero_junk, HAWKEYE_LOG_BUFFER_SIZE.
  exact (zeros_app 1023 1 ltac:(lia) ltac:(lia)).
Qed.

Definition sample_report : MmapGuard.t := MmapGuard.mk (MmapGuard.MMap (zeros 100)) None.

Lemma sample_report_text : MmapGuard.text (A := LP64) sample_report 100 [].
Proof. split; [done|]. split; [constructor|]. vm_compute. repeat split; congruence. Qed.

Lemma get_sub_section_spec_witness :
  exists g', GetSubSection (A := LP64) zero_junk (Some (str "a " ++ [10; 10] ++ str " b")) (str "T") 1
      (Some sample_report) = Ok (Some g') /\
    MmapGuard.text (A := LP64) g' 100
      (doc [str "T"; str "  a"; str "  ......"; str "  (number of records: 2)"; str "-"]).
Proof.
  destruct (get_sub_section_spec (A := LP64) zero_junk sample_report 100 []
              (str "a " ++ [10; 10] ++ str " b") (str "T") 1) as (g' & H1 & H2).
  - apply zero_junk_ends_in_zero.
  - apply sample_report_text.
  - split; [by apply nul_free_no_nul|vm_compute; split; congruence].
  - lia.
  - vm_compute. congruence.
  - vm_compute. congruence.
  - exists g'. split; [exact H1|]. exact H2.
Defined.

(** C39. [RecordNewline] stores its newline over the terminator: a line of 1023 or more
    characters leaves the temporary buffer without one, and [Write] reads past its
    end, whatever [malloc] returned. *)
Theorem record_newline_overlong {A : Arch} junk g cap s text :
  blen (junk g text) = HAWKEYE_LOG_BUFFER_SIZE -> MmapGuard.text g cap s ->
  no_nul text -> HAWKEYE_LOG_BUFFER_SIZE - 1 <= blen text ->
  in_size (blen s + HAWKEYE_LOG_BUFFER_SIZE) ->
  RecordNewline junk (Some g) text = Fault Unterminated.
Proof.
  intros Hj HT Hn Hl Hin. unfold RecordNewline, vsnprintf, HAWKEYE_LOG_BUFFER_SIZE in *.
  set (w := take (Z.to_nat (1024 - 1)) text).
  assert (blen w = 1023) as Hw by (unfold w, blen in *; rewrite length_take; lia).
  rewrite (mem_write_at [] (junk g text) (w ++ [0]) []);
    [|by rewrite app_nil_r|done|rewrite blen_app, Hw, Hj; done].
  rewrite bind_Ok, (proj2 (Z.ltb_lt _ _)) by lia.
  assert (clip_printed (blen text) = 1023) as ->.
  { unfold clip_printed, HAWKEYE_LOG_BUFFER_SIZE. destruct (Z.leb_spec 1024 (blen text)); lia. }
  rewrite app_nil_r. cbn [app]. rewrite (mem_write_at w [0] [10] []) by (rewrite ?app_nil_r; done).
  rewrite bind_Ok. cbn [app].
  rewrite (MmapGuard.Write2_unterminated g cap s); [done|done| |done|done].
  apply cstr_None, Forall_app_2; [by apply Forall_take|by repeat constructor].
Qed.

Lemma record_newline_overlong_witness :
  RecordNewline (A := LP64) zero_junk (Some sample_report) (replicate 1023 65) = Fault Unterminated.
Proof.
  apply (record_newline_overlong (A := LP64) zero_junk sample_report 100 [] (replicate 1023 65)).
  - reflexivity.
  - apply sample_report_text.
  - by apply Forall_replicate.
  - vm_compute. congruence.
  - vm_compute. split; congruence.
Defined.
