(* ===== verification/HawkSignals.v ===== *)
(** * Hawkeye: signals and the in-process core

    Models library_hawkeye/src/main/cpp/hawkeye_signal_utils.cpp (names and codes,
    installing and restoring handlers) and hawkeye_core.cpp ([HawkeyeCore], which
    lives in the monitored process: [InitCore], [ReleaseCore] and the handler that
    reports a crash to the daemon).

    The disposition of every signal is process state; the kernel's answers
    ([sigaction] refusing a signal, the socket calls) are arguments. *)

From S2P Require Import Prelude HawkPrivate.

(** ** Constants of the Linux ABIs Android uses *)

Definition SIGILL : Z := 4.
Definition SIGTRAP : Z := 5.
Definition SIGABRT : Z := 6.
Definition SIGBUS : Z := 7.
Definition SIGFPE : Z := 8.
Definition SIGSEGV : Z := 11.
Definition SIGSTKFLT : Z := 16.
Definition SIGSTOP : Z := 19.
Definition SIGSYS : Z := 31.
Definition NSIG : Z := 65.

Definition SI_USER : Z := 0.
Definition SI_KERNEL : Z := 128.
Definition SI_QUEUE : Z := -1.
Definition SI_TIMER : Z := -2.
Definition SI_MESGQ : Z := -3.
Definition SI_ASYNCIO : Z := -4.
Definition SI_SIGIO : Z := -5.
Definition SI_TKILL : Z := -6.
Definition SI_DETHREAD : Z := -7.

(** [SIGNALS_TO_CATCH], in its order *)
Definition SIGNALS_TO_CATCH : list Z :=
  [SIGABRT; SIGBUS; SIGFPE; SIGSEGV; SIGILL; SIGSTKFLT; SIGTRAP].

Module SignalUtils.
Definition HasSiAddr (si_signo si_code : Z) : bool :=
  if (si_code =? SI_USER) || (si_code =? SI_QUEUE) || (si_code =? SI_TKILL) then false
  else (si_signo =? SIGBUS) || (si_signo =? SIGFPE) || (si_signo =? SIGILL)
       || (si_signo =? SIGSEGV) || (si_signo =? SIGTRAP).

(** A [switch] over constants: the first case that matches. *)
Fixpoint switch (cases : list (Z * string)) (v : Z) : option string :=
  match cases with
  | [] => None
  | (k, s) :: cases => if v =? k then Some s else switch cases v
  end.

Definition sig_names : list (Z * string) :=
  [(SIGABRT, "SIGABRT"); (SIGBUS, "SIGBUS"); (SIGFPE, "SIGFPE"); (SIGILL, "SIGILL");
   (SIGSEGV, "SIGSEGV"); (SIGSTKFLT, "SIGSTKFLT"); (SIGSTOP, "SIGSTOP"); (SIGSYS, "SIGSYS");
   (SIGTRAP, "SIGTRAP")]%string.

Definition GetSigName (sig : Z) : string := default "?"%string (switch sig_names sig).

(** The inner [switch]es of [GetSigCode], by signal; the constants number the codes of a
    signal from 1. *)
Definition sig_codes (signo : Z) : list (Z * string) :=
  if signo =? SIGILL then
    [(1, "ILL_ILLOPC"); (2, "ILL_ILLOPN"); (3, "ILL_ILLADR"); (4, "ILL_ILLTRP");
     (5, "ILL_PRVOPC"); (6, "ILL_PRVREG"); (7, "ILL_COPROC"); (8, "ILL_BADSTK")]%string
  else if signo =? SIGBUS then
    [(1, "BUS_ADRALN"); (2, "BUS_ADRERR"); (3, "BUS_OBJERR")]%string
  else if signo =? SIGFPE then
    [(1, "FPE_INTDIV"); (2, "FPE_INTOVF"); (3, "FPE_FLTDIV"); (4, "FPE_FLTOVF");
     (5, "FPE_FLTUND"); (6, "FPE_FLTRES"); (7, "FPE_FLTINV"); (8, "FPE_FLTSUB")]%string
  else if signo =? SIGSEGV then
    [(1, "SEGV_MAPERR"); (2, "SEGV_ACCERR"); (3, "SEGV_BNDERR"); (4, "SEGV_PKUERR");
     (5, "SEGV_ACCADI"); (6, "SEGV_ADIDERR"); (7, "SEGV_ADIPERR")]%string
  else if signo =? SIGSYS then [(1, "SYS_SECCOMP")]%string
  else if signo =? SIGTRAP then [(1, "TRAP_BRKPT"); (2, "TRAP_TRACE")]%string
  else [].

(** The second [switch], for the codes every signal shares. *)
Definition si_codes : list (Z * string) :=
  [(SI_USER, "SI_USER"); (SI_KERNEL, "SI_KERNEL"); (SI_QUEUE, "SI_QUEUE");
   (SI_TIMER, "SI_TIMER"); (SI_MESGQ, "SI_MESGQ"); (SI_ASYNCIO, "SI_ASYNCIO");
   (SI_SIGIO, "SI_SIGIO"); (SI_TKILL, "SI_TKILL"); (SI_DETHREAD, "SI_DETHREAD")]%string.

Definition GetSigCode (signo code : Z) : string :=
  match switch (sig_codes signo) code with
  | Some s => s
  | None => default "?"%string (switch si_codes code)
  end.

(** ** Dispositions *)

(** [struct sigaction], by its handler: [SIG_DFL] is the null pointer. *)
Inductive disposition : Type :=
| SIG_DFL
| SIG_IGN
| Handler (f : Z).

#[global] Instance disposition_eq_dec : EqDecision disposition.
Proof. solve_decision. Defined.

(** The dispositions of the process, and an array of [NSIG] saved ones. *)
Abbreviation table := (Z -> disposition) (only parsing).

Definition set_disp (t : table) (signo : Z) (d : disposition) : table :=
  fun s => if s =? signo then d else t s.

(** The loop of [RegisterSignalHandler]; [refused] tells which [sigaction]s fail. *)
Fixpoint register_loop (refused : Z -> bool) (handler : disposition) (sigs : list Z)
    (t old : table) : bool * table * table :=
  match sigs with
  | [] => (true, t, old)
  | signo :: sigs =>
      if refused signo then (false, t, old)
      else register_loop refused handler sigs (set_disp t signo handler)
             (set_disp old signo (t signo))
  end.

Definition RegisterSignalHandler (refused : Z -> bool) (handler : disposition) (t old : table)
    : bool * table * table :=
  register_loop refused handler SIGNALS_TO_CATCH t old.

(** [sigaction] on a signal number it refuses changes nothing, and the result is ignored. *)
Definition sigaction (refused : Z -> bool) (t : table) (signo : Z) (d : disposition) : table :=
  if refused signo then t else set_disp t signo d.

Definition unregister_step (refused : Z -> bool) (old : table) (t : table) (signo : Z) : table :=
  match old signo with
  | SIG_DFL => t
  | d => sigaction refused t signo d
  end.

Definition UnregisterSignalHandler (refused : Z -> bool) (old t : table) : table :=
  fold_left (unregister_step refused old) (map Z.of_nat (seq 0 (Z.to_nat NSIG))) t.

(** *** Lemmas *)

Lemma set_disp_same t s d : set_disp t s d s = d.
Proof. unfold set_disp. by rewrite Z.eqb_refl. Qed.

Lemma set_disp_other t s s' d : s' <> s -> set_disp t s d s' = t s'.
Proof. unfold set_disp. by destruct (Z.eqb_spec s' s). Qed.

(** Registering with no refusal hooks each signal of a duplicate-free list and saves
    what it replaced. *)
Lemma register_loop_ok handler sigs t old :
  NoDup sigs ->
  exists t' old', register_loop (fun _ => false) handler sigs t old = (true, t', old') /\
    (forall s, s ∈ sigs -> t' s = handler /\ old' s = t s) /\
    (forall s, s ∉ sigs -> t' s = t s /\ old' s = old s).
Proof.
  intros HN. revert t old. induction HN as [|x sigs Hx HN IH]; intros t old.
  { exists t, old. split; [done|]. split; [set_solver|done]. }
  cbn [register_loop].
  destruct (IH (set_disp t x handler) (set_disp old x (t x))) as (t' & old' & -> & HI & HO).
  exists t', old'. split; [done|]. split.
  - intros s [-> | Hs]%elem_of_cons.
    + destruct (HO x Hx) as [-> ->]. by rewrite !set_disp_same.
    + destruct (HI s Hs) as [-> ->]. rewrite set_disp_other by set_solver. done.
  - intros s [Hn Hs]%not_elem_of_cons. destruct (HO s Hs) as [-> ->].
    by rewrite !set_disp_other.
Qed.

Lemma unregister_loop old sigs t s :
  fold_left (unregister_step (fun _ => false) old) sigs t s =
    if bool_decide (s ∈ sigs) then (match old s with SIG_DFL => t s | d => d end) else t s.
Proof.
  revert t. induction sigs as [|x sigs IH]; intros t; cbn [fold_left].
  { by rewrite bool_decide_eq_false_2 by set_solver. }
  rewrite IH. unfold unregister_step, sigaction.
  destruct (decide (s = x)) as [-> | Hn].
  - rewrite (bool_decide_eq_true_2 (x ∈ x :: sigs)) by set_solver.
    destruct (old x) eqn:E; rewrite ?set_disp_same; by case_bool_decide.
  - assert (bool_decide (s ∈ x :: sigs) = bool_decide (s ∈ sigs)) as ->
      by (apply bool_decide_ext; set_solver).
    destruct (old x); rewrite ?set_disp_other by done; done.
Qed.

Lemma signo_in_range s : 0 <= s < NSIG -> s ∈ map Z.of_nat (seq 0 (Z.to_nat NSIG)).
Proof.
  intros Hs. apply list_elem_of_fmap. exists (Z.to_nat s). split; [lia|].
  apply elem_of_seq. lia.
Qed.

Lemma UnregisterSignalHandler_spec old t s :
  0 <= s < NSIG ->
  UnregisterSignalHandler (fun _ => false) old t s =
    match old s with SIG_DFL => t s | d => d end.
Proof.
  intros Hs. unfold UnregisterSignalHandler. rewrite unregister_loop.
  by rewrite bool_decide_eq_true_2 by by apply signo_in_range.
Qed.
End SignalUtils.

(** ** The core *)

Module HawkeyeCore.
Import SignalUtils.

(** [struct hawkeye_core_context] *)
Record core_context : Type := mkContext {
  old_handlers : Z -> disposition;
  socket_address : sockaddr_un;
  old_dumpable : Z
}.

(** The monitored process: its signal dispositions, its dumpable flag and the global
    [core_context]. *)
Record process : Type := mkProcess {
  disp : Z -> disposition;
  dumpable : Z;
  context : option core_context
}.

(** The address of [SignalHandler]. *)
Definition core_handler : disposition := Handler 1.

(** [ReleaseCore] *)
Definition ReleaseCore (refused : Z -> bool) (p : process) : bool * process :=
  match context p with
  | None => (false, p)
  | Some c =>
      let d := UnregisterSignalHandler refused (old_handlers c) (disp p) in
      let dump := if 0 <=? old_dumpable c then old_dumpable c else dumpable p in
      (true, mkProcess d dump None)
  end.

(** [InitCore(socket_name)]; [get_dumpable] is what [prctl(PR_GET_DUMPABLE)] returns. *)
Definition InitCore (refused : Z -> bool) (get_dumpable : Z) (socket_name : option (list Z))
    (p : process) : outcome (bool * process) :=
  match context p, socket_name with
  | Some _, _ => Ok (false, p)
  | None, None => Ok (false, p)
  | None, Some name =>
      first ← mem_read name 0 1;
      if bool_decide (first = [0]) then Ok (false, p)
      else
        addr ← FillSockAddr name;
        let '(ok, d, old) :=
          RegisterSignalHandler refused core_handler (disp p) (fun _ => SIG_DFL) in
        let p := mkProcess d 1 (Some (mkContext old addr get_dumpable)) in
        if ok : bool then Ok (true, p)
        else Ok (false, (ReleaseCore refused p).2)
  end.

(** [struct hawkeye_crash_message] *)
Record crash_message : Type := mkMessage {
  m_pid : Z; m_tid : Z; m_signo : Z; m_si_code : Z; m_fault_addr : Z; m_context : list Z
}.

(** What the handler does to the outside, in order. *)
Inductive event : Type :=
| Connect (a : sockaddr_un)
| Send (m : crash_message)
| AwaitReply
| CloseSocket
| Tgkill (pid tid signo : Z)
| Exit1.

(** How the kernel answers: [socket], [connect] and [tgkill] succeed or not. *)
Record kernel : Type := mkKernel { socket_ok : bool; connect_ok : bool; tgkill_ok : bool }.

Definition talk (k : kernel) (c : core_context) (m : crash_message) : list event :=
  if negb (socket_ok k) then []
  else if negb (connect_ok k) then [Connect (socket_address c); CloseSocket]
  else [Connect (socket_address c); Send m; AwaitReply; CloseSocket].

(** [SignalHandler(signo, siginfo, ctx)] running in thread [tid] of [pid]. *)
Definition SignalHandler (refused : Z -> bool) (k : kernel) (pid tid signo si_code si_addr : Z)
    (ucontext : list Z) (p : process) : outcome (process * list event) :=
  c ← of_option NullDeref (context p);
  if (signo <? 0) || (NSIG <=? signo) then Fault OutOfBounds
  else
    let p := mkProcess (sigaction refused (disp p) signo (old_handlers c signo))
                       (dumpable p) (context p) in
    let m := mkMessage pid tid signo si_code si_addr ucontext in
    let resend :=
      if (si_code <=? 0) || (signo =? SIGABRT) then
        Tgkill pid tid signo :: (if tgkill_ok k then [] else [Exit1])
      else [] in
    Ok (p, talk k c m ++ resend).

(** *** Lemmas *)

Lemma signals_nodup : NoDup SIGNALS_TO_CATCH.
Proof. apply (bool_decide_unpack _). vm_compute. exact I. Qed.

(** [InitCore] with a usable name, when nothing is refused. *)
Lemma InitCore_ok gd name rest p :
  context p = None -> name <> [] -> no_nul name ->
  exists c p', InitCore (fun _ => false) gd (Some (name ++ 0 :: rest)) p = Ok (true, p') /\
    context p' = Some c /\ dumpable p' = 1 /\ old_dumpable c = gd /\
    FillSockAddr (name ++ 0 :: rest) = Ok (socket_address c) /\
    (forall s, s ∈ SIGNALS_TO_CATCH -> disp p' s = core_handler /\ old_handlers c s = disp p s) /\
    (forall s, s ∉ SIGNALS_TO_CATCH -> disp p' s = disp p s /\ old_handlers c s = SIG_DFL).
Proof.
  intros Hc Hne Hn. destruct name as [|x name]; [done|].
  inversion Hn as [|? ? Hx Hr]; subst. unfold InitCore. rewrite Hc.
  rewrite (mem_read_at [] [x] (name ++ 0 :: rest)), bind_Ok by done.
  rewrite bool_decide_eq_false_2 by congruence.
  destruct (FillSockAddr_ok (x :: name) rest Hn) as (a & Ha). rewrite Ha, bind_Ok.
  destruct (register_loop_ok core_handler SIGNALS_TO_CATCH (disp p) (fun _ => SIG_DFL) signals_nodup)
    as (t' & old' & HR & HI & HO).
  unfold RegisterSignalHandler. rewrite HR. eexists. eexists. split; [reflexivity|]. cbn.
  split; [reflexivity|]. cbn. tauto.
Qed.

(** ** Properties *)

(** [InitCore] followed by [ReleaseCore] restores the dispositions the process had,
    except that a signal whose disposition was [SIG_DFL] keeps Hawkeye's handler
    (the restoring loop takes the null handler for a signal it never saved); the
    context is gone by then, so that handler faults when such a signal arrives. *)
Theorem release_leaves_default_hooked gd name rest p :
  context p = None -> name <> [] -> no_nul name ->
  exists p1 p2, InitCore (fun _ => false) gd (Some (name ++ 0 :: rest)) p = Ok (true, p1) /\
    ReleaseCore (fun _ => false) p1 = (true, p2) /\ context p2 = None /\
    dumpable p2 = (if 0 <=? gd then gd else 1) /\
    (forall s, 0 <= s < NSIG -> disp p2 s =
       if bool_decide (s ∈ SIGNALS_TO_CATCH /\ disp p s = SIG_DFL) then core_handler
       else disp p s) /\
    (forall k pid tid s code addr uc,
       SignalHandler (fun _ => false) k pid tid s code addr uc p2 = Fault NullDeref).
Proof.
  intros Hc Hne Hn.
  destruct (InitCore_ok gd name rest p Hc Hne Hn) as (c & p1 & HI & H1 & H2 & H3 & _ & HS & HO).
  exists p1. unfold ReleaseCore. rewrite H1. eexists. split; [exact HI|].
  split; [reflexivity|]. cbn [context dumpable disp].
  split; [done|]. rewrite H3, H2. split; [done|]. split; [|done].
  intros s Hs. rewrite UnregisterSignalHandler_spec by done.
  destruct (decide (s ∈ SIGNALS_TO_CATCH)) as [Hin | Hout].
  - destruct (HS s Hin) as [-> ->].
    destruct (disp p s) eqn:E; case_bool_decide as HB; try done; exfalso; naive_solver.
  - destruct (HO s Hout) as [-> ->]. rewrite bool_decide_eq_false_2 by tauto. done.
Qed.

Lemma release_leaves_default_hooked_witness :
  exists p1 p2, InitCore (fun _ => false) 0 (Some (str "s" ++ [0])) (mkProcess (fun _ => SIG_DFL) 0 None)
      = Ok (true, p1) /\ ReleaseCore (fun _ => false) p1 = (true, p2) /\
    disp p2 SIGSEGV = core_handler.
Proof.
  destruct (release_leaves_default_hooked 0 (str "s") [] (mkProcess (fun _ => SIG_DFL) 0 None))
    as (p1 & p2 & H1 & H2 & _ & _ & H3 & _); [done|done|by apply nul_free_no_nul|].
  exists p1, p2. split; [exact H1|]. split; [exact H2|].
  rewrite H3 by done. by rewrite bool_decide_eq_true_2 by (split; [set_solver|done]).
Defined.


End HawkeyeCore.
