(* ===== verification/HawkDumper.v ===== *)
(** * Hawkeye: the sections of a crash report

    Models library_hawkeye/src/main/cpp/hawkeye_dumper_utils.cpp: [DumperUtils],
    which writes the header of a report, the headers of the other threads,
    the registers, backtrace lines, and the logcat, descriptor and network
    sections.

    What the functions read from the system (properties, /proc files, ptrace) is
    the record [system]; an action of a section maps the report to the report. *)

From stdpp Require Import pretty.
From S2P Require Import Prelude HawkGuard HawkPrivate HawkSignals.

(** ** printf conversions *)

Definition hex_digit (d : Z) : Z := if d <? 10 then 48 + d else 87 + d.

Fixpoint hex_digits (fuel : nat) (z : Z) (acc : list Z) : list Z :=
  match fuel with
  | O => acc
  | S fuel =>
      let acc := hex_digit (z mod 16) :: acc in
      if z / 16 =? 0 then acc else hex_digits fuel (z / 16) acc
  end.

(** [%x] of a non-negative value below 2^64, and [%0wx]. *)
Definition hex (z : Z) : list Z := hex_digits 16 z [].
Definition pad_left (w : nat) (c : Z) (s : list Z) : list Z := replicate (w - length s) c ++ s.
Definition pad_right (w : nat) (c : Z) (s : list Z) : list Z := s ++ replicate (w - length s) c.
Definition hex0 (w : nat) (z : Z) : list Z := pad_left w 48 (hex z).

(** ** What the dumper reads *)

Inductive cpu : Type := cpu_arm | cpu_arm64 | cpu_x86 | cpu_x86_64.

(** How [read] answers, call by call: an error, or the number of bytes the kernel is
    ready to give (at least one before the end of the file). *)
Inductive read_answer : Type := ReadError | ReadUpTo (n : nat).

(** A file of /proc as [ReadFile] sees it: [None] when [open] fails. *)
Record proc_file : Type := mkFile { content : list Z; answers : list read_answer }.

Record system : Type := mkSystem {
  arch : cpu;
  api_level : Z;
  prop : string -> list Z;                       (* __system_property_get *)
  uts : option (list Z * list Z * list Z * list Z);
  date_of : Z -> list Z;                         (* localtime and strftime *)
  proc : list Z -> option proc_file;             (* files under /proc *)
  siginfo_of : Z -> option (Z * Z * Z);          (* PTRACE_GETSIGINFO: signo, code, addr *)
  regs_of : Z -> option (string -> Z);           (* PTRACE_GETREGS(ET) *)
  stack_junk : list Z;                           (* 16 bytes of an uninitialised local *)
  dir_of : list Z -> option (list (list Z));     (* directory entries *)
  readlink_of : Z -> option (list Z);
  popen_of : list Z -> option (list Z);
  expand : list Z -> list Z
}.

Module DumperUtils.
Section WithArch.
Context {A : Arch}.
Variable junk : MmapGuard.t -> list Z -> list Z.
Variable sys : system.

Abbreviation report := (option MmapGuard.t) (only parsing).
Abbreviation action := (option MmapGuard.t -> outcome (option MmapGuard.t)) (only parsing).

Fixpoint run_all (actions : list action) (g : report) : outcome report :=
  match actions with
  | [] => Ok g
  | a :: actions => g ← a g; run_all actions g
  end.

(** ** [ReadFile] *)

(** One [read(fd, p, n)]: the bytes it returns, [None] for an error. *)
Definition read (n : Z) (f : proc_file) : option (list Z) * proc_file :=
  match answers f with
  | ReadError :: rest => (None, mkFile (content f) rest)
  | ReadUpTo k :: rest =>
      let d := take (Nat.min (Nat.max 1 k) (Z.to_nat n)) (content f) in
      (Some d, mkFile (drop (length d) (content f)) rest)
  | [] =>
      let d := take (Z.to_nat n) (content f) in
      (Some d, mkFile (drop (length d) (content f)) [])
  end.

(** The loop: the buffer, [overall_read], and whether the last [read] failed. *)
Fixpoint read_loop (fuel : nat) (buffer_size : Z) (f : proc_file) (out_buffer : list Z)
    (overall_read : Z) : outcome (list Z * Z * bool) :=
  match fuel with
  | O => Ok (out_buffer, overall_read, false)
  | S fuel =>
      match read (szw (buffer_size - overall_read - 1)) f with
      | (None, _) => Ok (out_buffer, overall_read, true)
      | (Some [], _) => Ok (out_buffer, overall_read, false)
      | (Some d, f) =>
          out_buffer ← mem_write out_buffer overall_read d;
          let overall_read := overall_read + blen d in
          if szw (buffer_size - 1) <=? szw overall_read then Ok (out_buffer, overall_read, false)
          else read_loop fuel buffer_size f out_buffer overall_read
      end
  end.

(** [ReadFile]: the return value and the buffer.  Every [read] that does not end the loop
    returns at least one byte, so [buffer_size] iterations are enough. *)
Definition ReadFile (f : option proc_file) (out_buffer : list Z) (buffer_size : Z)
    : outcome (Z * list Z) :=
  match f with
  | None => Ok (-1, out_buffer)
  | Some f =>
      r ← read_loop (Z.to_nat buffer_size) buffer_size f out_buffer 0;
      let '(out_buffer, overall_read, failed) := r in
      if failed : bool then Ok (-1, out_buffer)
      else
        out_buffer ← mem_write out_buffer overall_read [0];
        Ok (overall_read, out_buffer)
  end.

(** ** Process, thread and signal lines *)

Definition proc_path (id : Z) (leaf : string) : list Z :=
  str "/proc/" ++ dec id ++ str "/" ++ str leaf.

(** [WriteProcessAndThreadInfo]; returns [process_name_buffer] too. *)
Definition WriteProcessAndThreadInfo (pid tid : Z) (process_name_buffer : list Z)
    (g : report) : outcome (report * list Z) :=
  let size := blen process_name_buffer in
  process_name_buffer ← mem_write process_name_buffer 0 [0];
  r ← ReadFile (proc sys (proc_path pid "cmdline")) process_name_buffer size;
  let process_name_buffer := r.2 in
  c ← ReadFile (proc sys (proc_path tid "comm")) (stack_junk sys) 16;
  let '(bytes_read, proc_comm_content) := c in
  last ← (if 0 <? bytes_read then mem_read proc_comm_content (bytes_read - 1) 1 else Ok []);
  proc_comm_content ← (if bool_decide (last = [10])
                       then mem_write proc_comm_content (bytes_read - 1) [0]
                       else Ok proc_comm_content);
  comm ← of_option Unterminated (cstr proc_comm_content);
  name ← of_option Unterminated (cstr process_name_buffer);
  g ← newline junk (str "pid: " ++ dec pid ++ str ", tid: " ++ dec tid ++ str ", name: " ++ comm
                    ++ str ",  >>> " ++ name ++ str " <<<") g;
  Ok (g, process_name_buffer).

(** [DumpSignalInfo]; [str_buffer] is only used to hold the address. *)
Definition DumpSignalInfo (signo si_code faultaddr str_buffer_size : Z) (g : report)
    : outcome report :=
  let addr := take (Z.to_nat (str_buffer_size - 1))
                (if SignalUtils.HasSiAddr signo si_code then str "0x" ++ hex faultaddr
                 else str "--------") in
  newline junk (str "signal " ++ dec signo ++ str " (" ++ str (SignalUtils.GetSigName signo)
                ++ str "), code " ++ dec si_code ++ str " ("
                ++ str (SignalUtils.GetSigCode signo si_code) ++ str "), fault addr " ++ addr) g.

(** ** Registers *)

(** A row of registers: label, width, value. *)
Definition row (cells : list (string * nat * Z)) : list Z :=
  concat (map (fun '(l, w, v) => str l ++ hex0 w v) cells).

(** Four 64-bit registers of arm64, from [x i]. *)
Definition row_x (r : string -> Z) (i : Z) : list Z :=
  let cell lead j := str lead ++ pad_right 2 32 (dec j) ++ str "  "
                     ++ hex0 16 (r (String.append "x" (pretty j))) in
  cell "    x"%string i ++ cell "  x"%string (i + 1) ++ cell "  x"%string (i + 2)
  ++ cell "  x"%string (i + 3).

Definition rows_x : list Z := [0; 4; 8; 12; 16; 20; 24].

Local Open Scope string_scope.

(** The registers of the crashed thread, from its [ucontext]. *)
Definition main_registers (r : string -> Z) : list action :=
  match arch sys with
  | cpu_arm =>
      [line junk (row [("    r0 ", 8%nat, r "r0"); ("  r1 ", 8%nat, r "r1");
                       ("  r2 ", 8%nat, r "r2"); ("  r3 ", 8%nat, r "r3")]);
       line junk (row [("    r4 ", 8%nat, r "r4"); ("  r5 ", 8%nat, r "r5");
                       ("  r6 ", 8%nat, r "r6"); ("  r7 ", 8%nat, r "r7")]);
       line junk (row [("    r8 ", 8%nat, r "r8"); ("  r9 ", 8%nat, r "r9");
                       ("  sl ", 8%nat, r "r10"); ("  fp ", 8%nat, r "fp")]);
       newline junk (row [("    ip ", 8%nat, r "ip"); ("  sp ", 8%nat, r "sp");
                          ("  lr ", 8%nat, r "lr"); ("  pc ", 8%nat, r "pc");
                          ("  cpsr ", 8%nat, r "cpsr")])]
  | cpu_arm64 =>
      map (fun i => line junk (row_x r i)) rows_x ++
      [newline junk (row [("    x28  ", 16%nat, r "x28"); ("  x29  ", 16%nat, r "x29");
                          ("  x30  ", 16%nat, r "x30")]);
       line junk (row [("    sp   ", 16%nat, r "sp"); ("  pc   ", 16%nat, r "pc");
                       ("  pstate ", 16%nat, r "pstate")])]
  | cpu_x86 =>
      [newline junk (row [("    eax ", 8%nat, r "eax"); ("  ebx ", 8%nat, r "ebx");
                          ("  ecx ", 8%nat, r "ecx"); ("  edx ", 8%nat, r "edx")]);
       newline junk (row [("    esi ", 8%nat, r "esi"); ("  edi ", 8%nat, r "edi")]);
       newline junk (row [("    xcs ", 8%nat, r "xcs"); ("  xds ", 8%nat, r "xds");
                          ("  xes ", 8%nat, r "xes"); ("  xfs ", 8%nat, r "xfs");
                          ("  xss ", 8%nat, r "xss")]);
       newline junk (row [("    eip ", 8%nat, r "eip"); ("  ebp ", 8%nat, r "ebp");
                          ("  esp ", 8%nat, r "esp"); ("  flags ", 8%nat, r "eflags")])]
  | cpu_x86_64 =>
      [line junk (row [("    rax ", 16%nat, r "rax"); ("  rbx ", 16%nat, r "rbx");
                       ("  rcx ", 16%nat, r "rcx"); ("  rdx ", 16%nat, r "rdx")]);
       newline junk (row [("    rsi ", 16%nat, r "rsi"); ("  rdi ", 16%nat, r "rdi")]);
       line junk (row [("    r8  ", 16%nat, r "r8"); ("  r9  ", 16%nat, r "r9");
                       ("  r10 ", 16%nat, r "r10"); ("  r11 ", 16%nat, r "r11")]);
       line junk (row [("    r12 ", 16%nat, r "r12"); ("  r13 ", 16%nat, r "r13");
                       ("  r14 ", 16%nat, r "r14"); ("  r15 ", 16%nat, r "r15")]);
       line junk (row [("    cs  ", 16%nat, r "csgsfs")]);
       line junk (row [("    rip ", 16%nat, r "rip"); ("  rbp ", 16%nat, r "rbp");
                       ("  rsp ", 16%nat, r "rsp"); ("  eflags ", 16%nat, r "eflags")])]
  end.

(** The registers of another thread. *)
Definition other_registers (r : string -> Z) : list action :=
  match arch sys with
  | cpu_arm =>
      [newline junk (row [("    r0 ", 8%nat, r "r0"); ("  r1 ", 8%nat, r "r1");
                          ("  r2 ", 8%nat, r "r2"); ("  r3 ", 8%nat, r "r3")]);
       line junk (row [("    r4 ", 8%nat, r "r4"); ("  r5 ", 8%nat, r "r5");
                       ("  r6 ", 8%nat, r "r6"); ("  r7 ", 8%nat, r "r7")]);
       line junk (row [("    r8 ", 8%nat, r "r8"); ("  r9 ", 8%nat, r "r9");
                       ("  sl ", 8%nat, r "r10"); ("  fp ", 8%nat, r "fp")]);
       line junk (row [("    ip ", 8%nat, r "ip"); ("  sp ", 8%nat, r "sp");
                       ("  lr ", 8%nat, r "lr"); ("  pc ", 8%nat, r "pc");
                       ("  cpsr ", 8%nat, r "cpsr")])]
  | cpu_arm64 =>
      map (fun i => newline junk (row_x r i)) rows_x ++
      [line junk (row [("    x28  ", 16%nat, r "x28"); ("  x29  ", 16%nat, r "x29");
                       ("  x30  ", 16%nat, r "x30")]);
       line junk (row [("    sp   ", 16%nat, r "sp"); ("  pc   ", 16%nat, r "pc");
                       ("  pstate ", 16%nat, r "pstate")])]
  | cpu_x86 =>
      [newline junk (row [("    eax ", 8%nat, r "eax"); ("  ebx ", 8%nat, r "ebx");
                          ("  ecx ", 8%nat, r "ecx"); ("  edx ", 8%nat, r "edx")]);
       newline junk (row [("    esi ", 8%nat, r "esi"); ("  edi ", 8%nat, r "edi")]);
       newline junk (row [("    xcs ", 8%nat, r "xcs"); ("  xds ", 8%nat, r "xds");
                          ("  xes ", 8%nat, r "xes"); ("  xfs ", 8%nat, r "xfs");
                          ("  xss ", 8%nat, r "xss")]);
       newline junk (row [("    eip ", 8%nat, r "eip"); ("  ebp ", 8%nat, r "ebp");
                          ("  esp ", 8%nat, r "esp"); ("  flags ", 8%nat, r "eflags")])]
  | cpu_x86_64 =>
      [line junk (row [("    rax ", 16%nat, r "rax"); ("  rbx ", 16%nat, r "rbx");
                       ("  rcx ", 16%nat, r "rcx"); ("  rdx ", 16%nat, r "rdx")]);
       line junk (row [("    rsi ", 16%nat, r "rsi"); ("  rdi ", 16%nat, r "rdi")]);
       line junk (row [("    r8  ", 16%nat, r "r8"); ("  r9  ", 16%nat, r "r9");
                       ("  r10 ", 16%nat, r "r10"); ("  r11 ", 16%nat, r "r11")]);
       newline junk (row [("    r12 ", 16%nat, r "r12"); ("  r13 ", 16%nat, r "r13");
                          ("  r14 ", 16%nat, r "r14"); ("  r15 ", 16%nat, r "r15")]);
       line junk (row [("    cs  ", 16%nat, r "cs"); ("  ss  ", 16%nat, r "ss")]);
       line junk (row [("    rip ", 16%nat, r "rip"); ("  rbp ", 16%nat, r "rbp");
                       ("  rsp ", 16%nat, r "rsp"); ("  eflags ", 16%nat, r "eflags")])]
  end.

Definition DumpOtherThreadRegistersByPtrace (tid : Z) (g : report) : outcome report :=
  match regs_of sys tid with
  | None => Ok g
  | Some r => run_all (other_registers r) g
  end.
Local Close Scope string_scope.

(** ** Headers *)

Definition SEP_HEAD : list Z :=
  str "*** *** *** *** *** *** *** *** *** *** *** *** *** *** *** ***".
Definition SEP_OTHER_INFO : list Z :=
  str "--- --- --- --- --- --- --- --- --- --- --- --- --- --- --- ---".
Definition FULL_VERSION : list Z := str "hawkeye_1.0.0".
Definition SCENE_TYPE : list Z := str "native".
Definition PROP_VALUE_MAX : Z := 92.

Definition quoted (label : string) (v : list Z) : list Z :=
  str label ++ str ": '" ++ v ++ str "'".

Definition abi_name : string :=
  match arch sys with
  | cpu_arm => "arm" | cpu_arm64 => "arm64" | cpu_x86 => "x86" | cpu_x86_64 => "x86_64"
  end%string.

(** The lines of [DumpHeader] up to the process line. *)
Definition header_lines (start_ts crash_ts : Z) : list (list Z) :=
  [SEP_HEAD;
   quoted "Dolin-Hawkeye monitor" FULL_VERSION;
   quoted "Scene type" SCENE_TYPE;
   quoted "Start time" (date_of sys start_ts);
   quoted "Crash time" (date_of sys crash_ts);
   quoted "API version" (prop sys "ro.build.version.sdk");
   quoted "OS version" (prop sys "ro.build.version.release");
   quoted "Kernel version" (GetKernelVersion (uts sys) (Z.to_nat PROP_VALUE_MAX));
   quoted "ABIs" (GetABIs (prop sys) (api_level sys) (Z.to_nat PROP_VALUE_MAX));
   quoted "Manufacturer" (prop sys "ro.product.manufacturer");
   quoted "Brand" (prop sys "ro.product.brand");
   quoted "Model" (prop sys "ro.product.model");
   str "Build fingerprint: " ++ prop sys "ro.build.fingerprint";
   str "Revision: '0'";
   quoted "ABI" (str abi_name)].

Definition DumpHeader (start_ts crash_ts pid tid signo si_code faultaddr : Z)
    (context : string -> Z) (str_buffer : list Z) (g : report) : outcome report :=
  g ← newlines junk (header_lines start_ts crash_ts) g;
  r ← WriteProcessAndThreadInfo pid tid str_buffer g;
  g ← DumpSignalInfo signo si_code faultaddr PROP_VALUE_MAX r.1;
  g ← run_all (main_registers context) g;
  newlines junk [str " "; str "backtrace: "] g.

Definition DumpOtherThreadHeader (pid tid : Z) (process_name_buffer : list Z) (g : report)
    : outcome report :=
  g ← newline junk ([10] ++ SEP_OTHER_INFO) g;
  r ← WriteProcessAndThreadInfo pid tid process_name_buffer g;
  match siginfo_of sys tid with
  | None => Ok r.1
  | Some (signo, code, addr) =>
      g ← DumpSignalInfo signo code addr 64 r.1;
      g ← DumpOtherThreadRegistersByPtrace tid g;
      newlines junk [str " "; str "backtrace: "] g
  end.

(** ** Backtrace lines and the remaining sections *)

(** [PRIPTR]: a pointer as a zero-padded hexadecimal number of its width. *)
Definition priptr (pc : Z) : list Z := hex0 (2 * sizeof_size_t) (szw pc).

Definition backtrace_text (counter pc : Z) (map_name func_name : option (list Z))
    (func_offset : Z) : list Z :=
  let map_name := match map_name with
                  | None => str "<unknown>"
                  | Some [] => str "<anonymous>"
                  | Some m => m
                  end in
  str "    #" ++ pad_left 2 48 (dec counter) ++ str " pc " ++ priptr pc ++ str "  " ++ map_name
  ++ match func_name with
     | None => []
     | Some f => str " (" ++ f ++ str "+" ++ dec (swrap 32 func_offset) ++ str ")"
     end.

Definition DumpBacktraceLine (counter pc : Z) (map_name func_name : option (list Z))
    (func_offset : Z) (g : report) : outcome report :=
  newline junk (backtrace_text counter pc map_name func_name func_offset) g.

Definition DumpLogcatInfo (pid : Z) (g : report) : outcome report :=
  g ← newlines junk [[10] ++ SEP_OTHER_INFO; str "logcat:"] g;
  g ← GetLogcatInfo junk (expand sys) (popen_of sys) (api_level sys) pid (str "main") 200 68 g;
  g ← GetLogcatInfo junk (expand sys) (popen_of sys) (api_level sys) pid (str "system") 50 87 g;
  GetLogcatInfo junk (expand sys) (popen_of sys) (api_level sys) pid (str "events") 50 73 g.

Definition DumpFds (pid : Z) (g : report) : outcome report :=
  g ← newlines junk [[10] ++ SEP_OTHER_INFO; str "open files:"] g;
  GetFds junk (readlink_of sys) (dir_of sys (proc_path pid "fd")) g.

Definition DumpNetworkInfo (pid : Z) (g : report) : outcome report :=
  g ← newlines junk [[10] ++ SEP_OTHER_INFO; str "network info:"] g;
  GetNetworkInfo junk (fun path => content <$> proc sys path) (api_level sys) pid g.

(** ** [ReadFile] is bounded and complete *)

Definition error_free (f : proc_file) : Prop := ReadError ∉ answers f.

(** One [read] of [n] bytes: a prefix of what is left, empty only at the end of the file
    or when nothing was asked for. *)
Lemma read_prefix n f :
  error_free f -> 0 <= n ->
  exists d, (read n f).1 = Some d /\ content f = d ++ content (read n f).2 /\
    error_free (read n f).2 /\ blen d <= n /\ (d = [] -> n = 0 \/ content f = []).
Proof.
  intros He Hn. unfold error_free, read in *.
  assert (forall k rest, exists d, d = take (Nat.min (Nat.max 1 k) (Z.to_nat n)) (content f) /\
    content f = d ++ drop (length d) (content f) /\ blen d <= n /\
    (d = [] -> n = 0 \/ content f = []) /\ (rest = rest :> list read_answer)) as HK.
  { intros k rest. eexists. split; [reflexivity|]. set (m := Nat.min _ _).
    split_and!; [|unfold blen; rewrite length_take; lia| |done].
    - rewrite length_take. destruct (decide (m <= length (content f))%nat).
      + rewrite Nat.min_l by lia. by rewrite take_drop.
      + rewrite Nat.min_r, firstn_all2, drop_all, app_nil_r by lia. done.
    - intros E. apply (f_equal length) in E. rewrite length_take in E. cbn in E.
      destruct (content f); [by right|]. cbn in E. left. lia. }
  destruct (answers f) as [|[|k] rest] eqn:E; cbn [fst snd content answers].
  - destruct (HK (Z.to_nat n) []) as (d & Hd & H1 & H2 & H3 & _).
    replace (Nat.min (Nat.max 1 (Z.to_nat n)) (Z.to_nat n)) with (Z.to_nat n) in Hd by lia.
    rewrite <- Hd. exists d. split_and!; [done|done|set_solver|done|done].
  - set_solver.
  - destruct (HK k rest) as (d & Hd & H1 & H2 & H3 & _). rewrite <- Hd.
    exists d. split_and!; [done|done|set_solver|done|done].
Qed.

(** Bytes past the end of a concatenation's first part. *)
Lemma take_app_past (d c : list Z) (n : Z) :
  blen d <= n -> take (Z.to_nat n) (d ++ c) = d ++ take (Z.to_nat (n - blen d)) c.
Proof.
  intros Hn. unfold blen in *. rewrite take_app, take_ge by lia. do 2 f_equal. lia.
Qed.

Lemma read_loop_spec fuel size f acc rest :
  error_free f -> blen acc <= size - 1 -> size <= blen (acc ++ rest) -> in_size size ->
  (Z.to_nat (size - blen acc) <= fuel)%nat ->
  exists d rest', read_loop fuel size f (acc ++ rest) (blen acc) =
      Ok (acc ++ d ++ rest', blen acc + blen d, false) /\
    d = take (Z.to_nat (size - 1 - blen acc)) (content f) /\ blen (d ++ rest') = blen rest.
Proof.
  intros He. revert f acc rest He. induction fuel as [|fuel IH]; intros f acc rest He Ha Hs Hin Hf.
  { lia. }
  pose proof (blen_nonneg acc). unfold in_size, in_u in Hin. cbn [read_loop].
  rewrite (szw_small (size - blen acc - 1)) by (unfold in_size, in_u; lia).
  destruct (read_prefix (size - blen acc - 1) f He) as (d & Hd & Hc & He' & Hl & Hnil); [lia|].
  destruct (read (size - blen acc - 1) f) as [od f'] eqn:ER. cbn [fst snd] in *. subst od.
  destruct d as [|x d0] eqn:Ed.
  { exists [], rest. cbn [app]. rewrite Z.add_0_r. split; [done|]. split; [|done].
    destruct (Hnil eq_refl) as [H0 | H0].
    - replace (Z.to_nat (size - 1 - blen acc)) with O by lia. done.
    - rewrite H0. by rewrite take_nil. }
  rewrite <- Ed in *. assert (0 < blen d) by (subst d; rewrite blen_cons; pose proof (blen_nonneg d0); lia).
  rewrite blen_app in Hs. destruct (split_at rest (blen d)) as (r1 & r2 & -> & Hr1); [lia|].
  rewrite (mem_write_at acc r1 d r2) by (done || lia). rewrite bind_Ok.
  rewrite !szw_small by (unfold in_size, in_u; lia). rewrite blen_app in *.
  destruct (Z.leb_spec (size - 1) (blen acc + blen d)).
  - exists d, r2. split; [done|]. split; [|rewrite blen_app; lia].
    rewrite Hc, take_app_le by (unfold blen in *; lia).
    rewrite take_ge by (unfold blen in *; lia). done.
  - rewrite <- blen_app, app_assoc.
    destruct (IH f' (acc ++ d) r2) as (d' & r' & -> & Hd' & Hb); rewrite ?blen_app in *; try lia; try done.
    exists (d ++ d'), r'. split; [by rewrite <- !app_assoc, blen_app, Z.add_assoc|].
    split; [|rewrite <- app_assoc, !blen_app in *; lia].
    rewrite Hc, Hd', take_app_past by lia. do 3 f_equal. lia.
Qed.

(** ** Properties *)

(** [ReadFile] terminates for every schedule of short reads, stays inside its
    buffer, and leaves the first [buffer_size - 1] bytes of the file in it,
    terminated; its result is their number. *)
Theorem read_file_spec f out_buffer buffer_size :
  error_free f -> 1 <= buffer_size <= blen out_buffer -> in_size buffer_size ->
  exists buf, ReadFile (Some f) out_buffer buffer_size =
      Ok (blen (take (Z.to_nat (buffer_size - 1)) (content f)), buf) /\
    blen buf = blen out_buffer /\
    take (S (length (take (Z.to_nat (buffer_size - 1)) (content f)))) buf =
      take (Z.to_nat (buffer_size - 1)) (content f) ++ [0].
Proof.
  intros He Hb Hin. unfold ReadFile.
  destruct (read_loop_spec (Z.to_nat buffer_size) buffer_size f [] out_buffer He)
    as (d & rest & HR & Hd & HB); rewrite ?blen_nil; cbn [app]; try done; try lia.
  rewrite blen_nil in *. cbn [app] in HR. rewrite Z.sub_0_r in Hd. rewrite <- Hd, HR, bind_Ok, Z.add_0_l.
  assert (blen d <= buffer_size - 1) by (subst d; unfold blen; rewrite length_take; lia).
  rewrite blen_app in HB. destruct rest as [|x rest]; [rewrite blen_nil in HB; lia|].
  rewrite (mem_write_at d [x] [0] rest), bind_Ok by done.
  eexists. split; [reflexivity|]. rewrite !blen_app, blen_cons in *. split; [blen_lia|].
  cbn [app]. replace (d ++ 0 :: rest) with ((d ++ [0]) ++ rest) by by rewrite <- app_assoc.
  rewrite take_app_length'; [done|]. rewrite length_app. cbn. lia.
Qed.

(** The comment in [WriteProcessAndThreadInfo] promises first characters for a failed
    read, but the assignment clears the path buffer instead of the thread name: when
    the comm file cannot be opened, the line prints uninitialised stack bytes, and
    reads past them when they hold no terminator. *)
Theorem thread_name_uninitialised pid tid buf g :
  0 < blen buf -> proc sys (proc_path pid "cmdline") = None ->
  proc sys (proc_path tid "comm") = None ->
  WriteProcessAndThreadInfo pid tid buf g =
    (comm ← of_option Unterminated (cstr (stack_junk sys));
     g ← newline junk (str "pid: " ++ dec pid ++ str ", tid: " ++ dec tid ++ str ", name: " ++ comm
                       ++ str ",  >>> " ++ str " <<<") g;
     Ok (g, 0 :: drop 1 buf)).
Proof.
  intros Hb H1 H2. unfold WriteProcessAndThreadInfo. destruct buf as [|x buf]; [done|].
  rewrite (mem_write_at [] [x] [0] buf), bind_Ok by done. rewrite H1, H2. cbn [ReadFile app].
  reflexivity.
Qed.
End WithArch.

(** ** Witnesses *)

Lemma read_file_spec_witness :
  exists buf, ReadFile (A := LP64) (Some (mkFile (str "zygote") [ReadUpTo 1; ReadUpTo 0])) (zeros 5) 5
      = Ok (4, buf) /\ take 5 buf = str "zygo" ++ [0].
Proof.
  destruct (read_file_spec (A := LP64) (mkFile (str "zygote") [ReadUpTo 1; ReadUpTo 0]) (zeros 5) 5)
    as (buf & H1 & _ & H2).
  - unfold error_free. cbn. rewrite !elem_of_cons, elem_of_nil. intros [? | [? | ?]]; done.
  - vm_compute. split; congruence.
  - vm_compute. split; congruence.
  - exists buf. split; [exact H1 | exact H2].
Defined.

Definition sample_system : system :=
  mkSystem cpu_arm64 30 (fun _ => []) None (fun _ => []) (fun _ => None) (fun _ => None)
    (fun _ => None) (replicate 16 88) (fun _ => None) (fun _ => None) (fun _ => None) id.

Lemma thread_name_uninitialised_witness :
  WriteProcessAndThreadInfo (A := LP64) zero_junk sample_system 10 11 (zeros 64) (Some sample_report)
    = Fault Unterminated.
Proof.
  rewrite (thread_name_uninitialised (A := LP64) zero_junk sample_system 10 11 (zeros 64)
             (Some sample_report)); [|vm_compute; congruence|reflexivity|reflexivity].
  vm_compute. reflexivity.
Defined.
End DumperUtils.
