(* ===== verification/HawkUnwinder.v ===== *)
(** * Hawkeye: walking a stack into the report

    Models library_hawkeye/src/main/cpp/hawkeye_unwinder.cpp ([InitUnwinder],
    [DoUnwind], [Unwind]) against the interface of libunwindstack it uses, the
    class [Unwindstack]: finding the map of a pc, loading its ELF, naming a
    function and stepping to the caller. *)

From S2P Require Import Prelude HawkGuard HawkPrivate HawkDumper.

(** What [Unwind] needs from libunwindstack.  The library has a state, the maps of the process and
    what was read for them; memory is read as a thread sees it, by its id.  [None] for a null
    pointer or the result false. *)
Class Unwindstack : Type := {
  ustate : Type;
  uregs : Type;
  umap : Type;
  uelf : Type;
  (** [RemoteMaps(pid)] and [Parse] *)
  remote_maps : Z -> outcome ustate;
  pc_of : uregs -> Z;
  Find : Z -> ustate -> option umap;
  map_name_of : umap -> ustate -> list Z;
  elf_offset_of : umap -> ustate -> Z;
  GetElf : Z -> umap -> ustate -> outcome (option uelf * ustate);
  GetRelPc : uelf -> Z -> umap -> ustate -> Z;
  GetPcAdjustment : uregs -> Z -> uelf -> ustate -> Z;
  GetFunctionName : uelf -> Z -> ustate -> outcome (option (list Z * Z) * ustate);
  (** The new registers and [*finished]. *)
  Step : Z -> uelf -> Z -> Z -> Z -> uregs -> ustate -> outcome (option (uregs * bool) * ustate);
  CreateFromUcontext : list Z -> outcome (option uregs);
  RemoteGet : Z -> outcome (option uregs)
}.

(** [HAWKEYE_MAX_FRAMES] *)
Definition HAWKEYE_MAX_FRAMES : nat := 128.

Module Unwinder.
Section WithLib.
Context {A : Arch} {U : Unwindstack}.
Variable junk : MmapGuard.t -> list Z -> list Z.

Abbreviation report := (option MmapGuard.t) (only parsing).

(** [InitUnwinder(pid)]; a failure of [Parse] is only logged. *)
Definition InitUnwinder (pid : Z) : outcome ustate := remote_maps pid.

(** The loop of [Unwind] for the thread [tid], with [todo] frames to go. *)
Fixpoint unwind_loop (tid : Z) (todo : nat) (frame_num : Z) (regs : uregs) (st : ustate) (g : report)
    : outcome (report * ustate) :=
  match todo with
  | O => Ok (g, st)
  | S todo =>
      match Find (pc_of regs) st with
      | None =>
          g ← DumperUtils.DumpBacktraceLine junk frame_num (pc_of regs) None None 0 g;
          Ok (g, st)
      | Some map_info =>
          r ← GetElf tid map_info st;
          let '(elf, st) := r in
          match elf with
          | None =>
              g ← DumperUtils.DumpBacktraceLine junk frame_num (pc_of regs)
                    (Some (map_name_of map_info st)) None 0 g;
              Ok (g, st)
          | Some elf =>
              let rel_pc := GetRelPc elf (pc_of regs) map_info st in
              let adjusted_rel_pc :=
                if frame_num =? 0 then rel_pc else u64 (rel_pc - GetPcAdjustment regs rel_pc elf st) in
              r ← GetFunctionName elf rel_pc st;
              let '(fn, st) := r in
              g ← match fn with
                  | Some (name, func_offset) =>
                      DumperUtils.DumpBacktraceLine junk frame_num rel_pc
                        (Some (map_name_of map_info st)) (Some name) func_offset g
                  | None =>
                      DumperUtils.DumpBacktraceLine junk frame_num rel_pc
                        (Some (map_name_of map_info st)) None 0 g
                  end;
              r ← Step tid elf rel_pc adjusted_rel_pc (elf_offset_of map_info st) regs st;
              match r with
              | (None, st) => Ok (g, st)
              | (Some (regs, finished), st) => unwind_loop tid todo (frame_num + 1) regs st g
              end
          end
      end
  end.

Definition Unwind (tid : Z) (regs : uregs) (st : ustate) (g : report) : outcome (report * ustate) :=
  unwind_loop tid HAWKEYE_MAX_FRAMES 0 regs st g.

(** [DoUnwind(mmap_ptr, tid, context, data)]; the registers of a context are used unchecked. *)
Definition DoUnwind (tid : Z) (context : option (list Z)) (st : ustate) (g : report) : outcome (report * ustate) :=
  match context with
  | Some c =>
      regs ← CreateFromUcontext c;
      regs ← of_option NullDeref regs;
      Unwind tid regs st g
  | None =>
      regs ← RemoteGet tid;
      match regs with
      | None => Ok (g, st)
      | Some regs => Unwind tid regs st g
      end
  end.

(** ** The backtrace as a list of lines *)

(** One frame: its line, and the registers of its caller when there is one. *)
Definition frame (tid frame_num : Z) (regs : uregs) (st : ustate) : outcome (list Z * option uregs * ustate) :=
  match Find (pc_of regs) st with
  | None => Ok (DumperUtils.backtrace_text frame_num (pc_of regs) None None 0, (None : option uregs), st)
  | Some m =>
      r ← GetElf tid m st;
      let '(elf, st) := r in
      match elf with
      | None => Ok (DumperUtils.backtrace_text frame_num (pc_of regs) (Some (map_name_of m st)) None 0, (None : option uregs), st)
      | Some elf =>
          let rel_pc := GetRelPc elf (pc_of regs) m st in
          let adjusted := if frame_num =? 0 then rel_pc else u64 (rel_pc - GetPcAdjustment regs rel_pc elf st) in
          r ← GetFunctionName elf rel_pc st;
          let '(fn, st) := r in
          let line := DumperUtils.backtrace_text frame_num rel_pc (Some (map_name_of m st))
                        (fst <$> fn) (default 0 (snd <$> fn)) in
          r ← Step tid elf rel_pc adjusted (elf_offset_of m st) regs st;
          Ok (line, option_map fst r.1, r.2)
      end
  end.

Fixpoint frames (tid : Z) (todo : nat) (frame_num : Z) (regs : uregs) (st : ustate) : outcome (list (list Z) * ustate) :=
  match todo with
  | O => Ok ([], st)
  | S todo =>
      r ← frame tid frame_num regs st;
      match r with
      | (l, Some regs, st) =>
          rest ← frames tid todo (frame_num + 1) regs st;
          Ok (l :: rest.1, rest.2)
      | (l, None, st) => Ok ([l], st)
      end
  end.

Lemma newlines_cons l ls g : newlines junk (l :: ls) g = newline junk l g ≫= newlines junk ls.
Proof. done. Qed.

Lemma unwind_loop_frames tid todo n regs st g ls st' :
  frames tid todo n regs st = Ok (ls, st') ->
  unwind_loop tid todo n regs st g = g ← newlines junk ls g; Ok (g, st').
Proof.
  revert n regs st g ls. induction todo as [|todo IH]; intros n regs st g ls; cbn [frames unwind_loop].
  { by intros [= <- <-]. }
  unfold frame, DumperUtils.DumpBacktraceLine.
  destruct (Find (pc_of regs) st) as [m|].
  2: { rewrite bind_Ok. intros [= <- <-]. rewrite newlines_cons. by destruct (newline _ _ g). }
  destruct (GetElf tid m st) as [[[elf|] st1]|]; [| |done]; rewrite !bind_Ok.
  2: { intros [= <- <-]. rewrite newlines_cons. by destruct (newline _ _ g). }
  set (rel := GetRelPc elf (pc_of regs) m st1).
  destruct (GetFunctionName elf rel st1) as [[fn st2]|]; [|done]. rewrite !bind_Ok.
  destruct (Step tid elf rel _ _ regs st2) as [[[[r' f]|] st3]|]; [| |by destruct fn as [[? ?]|]].
  - rewrite !bind_Ok. cbn [fst snd fmap option_fmap option_map].
    destruct (frames tid todo (n + 1) r' st3) as [[ls2 st4]|] eqn:EF; [|done]. rewrite bind_Ok. intros [= <- <-].
    rewrite newlines_cons. destruct fn as [[nm off]|]; cbn [fmap option_fmap option_map fst snd default];
      (destruct (newline _ _ g) as [g'|]; [|done]); rewrite !bind_Ok; by apply IH.
  - rewrite !bind_Ok. intros [= <- <-]. rewrite newlines_cons.
    destruct fn as [[nm off]|]; cbn [fmap option_fmap option_map fst snd default]; by destruct (newline _ _ g).
Qed.

Lemma frames_length tid todo n regs st ls st' : frames tid todo n regs st = Ok (ls, st') -> (length ls <= todo)%nat.
Proof.
  revert n regs st ls. induction todo as [|todo IH]; intros n regs st ls; cbn [frames]; [by intros [= <- <-]|].
  destruct (frame tid n regs st) as [[[l [r'|]] st1]|]; [| |done]; rewrite bind_Ok.
  - intros H. ok_inv. destruct a as [ls2 st2]. apply IH in Ha. cbn in *. lia.
  - intros [= <- <-]. cbn. lia.
Qed.

Lemma frames_first tid todo n regs st ls st' : frames tid (S todo) n regs st = Ok (ls, st') -> (1 <= length ls)%nat.
Proof.
  cbn [frames]. destruct (frame tid n regs st) as [[[l [r'|]] st1]|]; [| |done]; rewrite bind_Ok.
  - intros H. ok_inv. cbn. lia.
  - intros [= <- <-]. cbn. lia.
Qed.

(** ** Properties *)

End WithLib.

(** ** Witness: an unwinder that never gets anywhere *)

Definition stuck_unwindstack : Unwindstack := {|
  ustate := unit; uregs := Z; umap := unit; uelf := unit; remote_maps := fun _ => Ok tt; pc_of := id; Find := fun _ _ => Some tt;
  map_name_of := fun _ _ => str "m"; elf_offset_of := fun _ _ => 0; GetElf := fun _ _ _ => Ok (Some tt, tt);
  GetRelPc := fun _ pc _ _ => pc; GetPcAdjustment := fun _ _ _ _ => 4;
  GetFunctionName := fun _ _ _ => Ok (None, tt); Step := fun _ _ _ _ _ r _ => Ok (Some (r, true), tt);
  CreateFromUcontext := fun _ => Ok (Some 0); RemoteGet := fun _ => Ok None |}.

Definition short_lineb (t : list Z) : bool :=
  forallb (fun b => negb (b =? 0)) t && (0 <? blen t) && (blen t <? HAWKEYE_LOG_BUFFER_SIZE - 1).

Lemma short_lineb_spec t : short_lineb t = true -> short_line t.
Proof.
  unfold short_lineb. rewrite !andb_true_iff, !Z.ltb_lt. intros [[H1 H2] H3]. split; [|lia].
  clear H2 H3. induction t as [|b t IH]; [constructor|]. cbn in H1.
  rewrite andb_true_iff, negb_true_iff, Z.eqb_neq in H1. destruct H1. constructor; [done|]. by apply IH.
Qed.

Definition wide_report : MmapGuard.t := MmapGuard.mk (MmapGuard.MMap (zeros 8192)) None.

Definition stuck_lines : list (list Z) :=
  match frames (A := LP64) (U := stuck_unwindstack) 1 HAWKEYE_MAX_FRAMES 0 7 tt with Ok (ls, _) => ls | Fault _ => [] end.

End Unwinder.
