(* ===== verification/HawkDaemon.v ===== *)
(** * Hawkeye: the daemon that writes crash reports

    Models library_hawkeye/src/main/cpp/hawkeye_daemon.cpp: [HawkeyeDaemon], which
    runs in a process of its own, accepts the connection of a crashing process,
    attaches to its threads, writes the report and answers.

    The daemon's memory is [daemon_context]; what it does to the outside is the
    [world]: which threads it traces, the files, and the flags of descriptors.
    Answers of the kernel are arguments: which threads can be attached and stop,
    the connections and messages that arrive. *)

From stdpp Require Import pretty.
From S2P Require Import Prelude ZapFileFlush HawkGuard HawkPrivate HawkSignals HawkDumper HawkUnwinder.

Module HawkeyeDaemon.
Import HawkSignals.HawkeyeCore.

(** [struct hawkeye_daemon_context]; the callbacks by whether they are set. *)
Record daemon_context : Type := mkContext {
  log_folder_path : option (list Z);
  log_file_path : option (list Z);
  mmap_guard : option MmapGuard.t;
  interrupter : Z * Z;
  start_ts : Z;
  crash_ts : Z;
  daemon_thread : Z;
  start_callback : bool;
  stop_callback : bool;
  crash_callback : bool;
  d_socket_address : sockaddr_un
}.

(** Threads traced by the daemon. *)
Abbreviation traced := (gset Z) (only parsing).

Section Tracing.
(** [ptrace(PTRACE_ATTACH)] is granted for a thread not traced yet; [waitpid] reports
    the thread stopped. *)
Variables (attachable stops : Z -> bool).

Definition PtraceAttach (tid : Z) (t : traced) : bool * traced :=
  if attachable tid && negb (bool_decide (tid ∈ t)) then (stops tid, {[tid]} ∪ t)
  else (false, t).

Definition PtraceDetach (tid : Z) (t : traced) : traced := t ∖ {[tid]}.

(** The loop that attaches to [tids], replacing those that fail by 0. *)
Fixpoint attach_loop (tids : list Z) (t : traced) : list Z * traced :=
  match tids with
  | [] => ([], t)
  | it :: tids =>
      let '(ok, t) := PtraceAttach it t in
      let '(rest, t) := attach_loop tids t in
      ((if ok : bool then it else 0) :: rest, t)
  end.

Fixpoint detach_loop (tids : list Z) (t : traced) : traced :=
  match tids with
  | [] => t
  | it :: tids => detach_loop tids (if it =? 0 then t else PtraceDetach it t)
  end.
End Tracing.

(** ** The report *)

Record world : Type := mkWorld { w_traced : traced; w_files : file_store }.

Section Report.
Context {A : Arch} {U : Unwindstack}.
Variable junk : MmapGuard.t -> list Z -> list Z.
Variable fresh : Z -> list Z.      (* uninitialised local arrays *)
Variable sys : system.
Variables (attachable stops : Z -> bool).
Variable fopen_ok : list Z -> bool.
Variable uc_regs : list Z -> string -> Z.   (* the registers in a ucontext *)

(** Headers and backtraces of the threads that were attached. *)
Fixpoint other_threads (pid : Z) (tids : list Z) (st : ustate) (g : option MmapGuard.t)
    : outcome (option MmapGuard.t * ustate) :=
  match tids with
  | [] => Ok (g, st)
  | it :: tids =>
      r ← (if it =? 0 then Ok (g, st)
           else
             g ← DumperUtils.DumpOtherThreadHeader junk sys pid it (fresh 64) g;
             Unwinder.DoUnwind junk it None st g);
      other_threads pid tids r.2 r.1
  end.

(** The text of the report, in the order [DaemonCreateReport] writes it. *)
Definition write_report (m : crash_message) (start_ts crash_ts : Z) (tids : list Z)
    (g : option MmapGuard.t) : outcome (option MmapGuard.t) :=
  g ← DumperUtils.DumpHeader junk sys start_ts crash_ts (m_pid m) (m_tid m) (m_signo m)
        (m_si_code m) (m_fault_addr m) (uc_regs (m_context m))
        (fresh DumperUtils.PROP_VALUE_MAX) g;
  unwinder_data ← Unwinder.InitUnwinder (m_tid m);
  r ← Unwinder.DoUnwind junk (m_tid m) (Some (m_context m)) unwinder_data g;
  r ← other_threads (m_pid m) tids r.2 r.1;
  g ← DumperUtils.DumpLogcatInfo junk sys (m_pid m) r.1;
  g ← DumperUtils.DumpFds junk sys (m_pid m) g;
  g ← DumperUtils.DumpNetworkInfo junk sys (m_pid m) g;
  newline junk (str " ") g.

(** The name of the crash file: 255 characters of it. *)
Definition crash_file (folder : list Z) (crash_time : Z) : list Z :=
  take 255 (folder ++ str "/hawkeye_" ++ pad_left 20 48 (dec crash_time) ++ str ".native.crash").

(** [mmap_guard->Flush(log_file_path); delete mmap_guard;] *)
Definition finish_report (g : option MmapGuard.t) (log_file : option (list Z)) (fs : file_store)
    : outcome file_store :=
  match g with
  | None => Ok fs
  | Some guard =>
      name ← of_option NullDeref log_file;
      fs ← MmapGuard.Flush guard fs fopen_ok name;
      _ ← MmapGuard.destroy guard;
      Ok fs
  end.

(** [DaemonCreateReport(message)]; [now] is [time(nullptr)], [now_us] the crash time in
    microseconds, [tasks] the entries of /proc/PID/task. *)
Definition DaemonCreateReport (m : crash_message) (now now_us : Z)
    (tasks : option (list (list Z))) (d : daemon_context) (w : world)
    : outcome (bool * daemon_context * world) :=
  let '(ok, t) := PtraceAttach attachable stops (m_tid m) (w_traced w) in
  if negb ok then Ok (false, d, mkWorld t (w_files w))
  else
    let tids := GetThreads (m_pid m) tasks 64 in
    let '(tids, t) := attach_loop attachable stops tids t in
    let log_file := match log_folder_path d with
                    | Some folder => Some (crash_file folder now_us)
                    | None => log_file_path d
                    end in
    g ← write_report m (start_ts d) now tids (mmap_guard d);
    fs ← finish_report g log_file (w_files w);
    let t := detach_loop tids (PtraceDetach (m_tid m) t) in
    let d := mkContext (log_folder_path d) log_file None (interrupter d) (start_ts d) now
               (daemon_thread d) (start_callback d) (stop_callback d) (crash_callback d)
               (d_socket_address d) in
    Ok (true, d, mkWorld t fs).
End Report.

(** ** A client connection *)

(** What happens on the client's socket while the daemon waits for it. *)
Inductive socket_event : Type :=
| SelectFails
| RecvFails
| Recv (data : list Z).       (* the empty list: the peer has closed *)

Inductive client_result : Type :=
| ClientDropped               (* the socket is closed, no report *)
| ClientMessage (bytes : list Z)
| ClientWaiting (got : list Z).

(** The receive loop of [DaemonProcessClient] for a message of [size] bytes.  Only the
    client's socket is put into the set given to [select]. *)
Fixpoint recv_loop (socket_fd interrupter0 size : Z) (events : list socket_event) (got : list Z)
    : client_result :=
  match events with
  | [] => ClientWaiting got
  | SelectFails :: _ => ClientDropped
  | e :: events =>
      if interrupter0 =? socket_fd then ClientDropped
      else
        match e with
        | Recv d =>
            let got := got ++ take (Z.to_nat (size - blen got)) d in
            if blen got <? size then recv_loop socket_fd interrupter0 size events got
            else ClientMessage got
        | _ => ClientDropped
        end
  end.

(** The layout of [struct hawkeye_crash_message]: four [int]s, a pointer, [pad] bytes of
    alignment and the [ucontext]. *)
Section Message.
Context {A : Arch}.
Variables (pad uc_size : Z).

Definition message_size : Z := 16 + szc + pad + uc_size.

Definition encode_message (m : crash_message) : list Z :=
  le_bytes 4 (u32 (m_pid m)) ++ le_bytes 4 (u32 (m_tid m)) ++ le_bytes 4 (u32 (m_signo m))
  ++ le_bytes 4 (u32 (m_si_code m)) ++ le_bytes sizeof_size_t (m_fault_addr m)
  ++ zeros pad ++ m_context m.

Definition decode_message (b : list Z) : crash_message :=
  mkMessage (swrap 32 (le_val (slice 0 4 b))) (swrap 32 (le_val (slice 4 4 b)))
    (swrap 32 (le_val (slice 8 4 b))) (swrap 32 (le_val (slice 12 4 b)))
    (le_val (slice 16 szc b)) (slice (16 + szc + pad) uc_size b).
End Message.

(** What the daemon does to others, in order. *)
Inductive event : Type :=
| Reply
| CloseClient
| CrashCallback (log_path : option (list Z))
| StartCallback
| StopCallback
| CloseListener.

Section Service.
Context {A : Arch} {U : Unwindstack}.
Variable junk : MmapGuard.t -> list Z -> list Z.
Variable fresh : Z -> list Z.
Variable sys : system.
Variables (attachable stops : Z -> bool).
Variable fopen_ok : list Z -> bool.
Variable uc_regs : list Z -> string -> Z.
Variables (pad uc_size : Z).

(** One accepted connection, with what the system shows while it is served. *)
Record client : Type := mkClient {
  c_fd : Z; c_events : list socket_event; c_now : Z; c_now_us : Z;
  c_tasks : Z -> option (list (list Z))
}.

(** [DaemonProcessClient]; [None]: it has not returned. *)
Definition DaemonProcessClient (c : client) (d : daemon_context) (w : world)
    : outcome (option (list event * daemon_context * world)) :=
  match recv_loop (c_fd c) (interrupter d).1 (message_size pad uc_size) (c_events c) [] with
  | ClientWaiting _ => Ok None
  | ClientDropped => Ok (Some ([CloseClient], d, w))
  | ClientMessage b =>
      let m := decode_message pad uc_size b in
      r ← DaemonCreateReport junk fresh sys attachable stops fopen_ok uc_regs m (c_now c)
            (c_now_us c) (c_tasks c (m_pid m)) d w;
      let '(report_file_created, d, w) := r in
      Ok (Some (Reply :: CloseClient ::
                  (if report_file_created && crash_callback d
                   then [CrashCallback (log_folder_path d)] else []), d, w))
  end.

(** What [select] and [accept] give in the service loop. *)
Inductive accept_event : Type :=
| AcceptSelectFails
| Interrupted
| AcceptFails
| Accepted (c : client).

(** The accept loop; the last component tells whether it has ended. *)
Fixpoint accept_loop (events : list accept_event) (d : daemon_context) (w : world)
    : outcome (list event * daemon_context * world * bool) :=
  match events with
  | [] => Ok ([], d, w, false)
  | AcceptSelectFails :: _ => Ok ([], d, w, true)
  | Interrupted :: _ => Ok ([], d, w, true)
  | AcceptFails :: events => accept_loop events d w
  | Accepted c :: events =>
      r ← DaemonProcessClient c d w;
      match r with
      | None => Ok ([], d, w, false)
      | Some (out, d, w) =>
          r ← accept_loop events d w;
          let '(out', d, w, ended) := r in
          Ok (out ++ out', d, w, ended)
      end
  end.

(** [DaemonFunction]; [socket], [bind] and [listen] succeed or not. *)
Definition DaemonFunction (socket_ok bind_ok listen_ok : bool) (events : list accept_event)
    (d : daemon_context) (w : world) : outcome (list event * daemon_context * world * bool) :=
  if negb (socket_ok && bind_ok && listen_ok) then Ok ([], d, w, true)
  else
    r ← accept_loop events d w;
    let '(out, d', w, ended) := r in
    let start := if start_callback d then [StartCallback] else [] in
    let stop := if ended : bool
                then CloseListener :: (if stop_callback d' then [StopCallback] else [])
                else [] in
    Ok (start ++ out ++ stop, d', w, ended).
End Service.

(** ** Starting and stopping *)

Definition O_NONBLOCK : Z := 2048.

(** The status flags of the open descriptors. *)
Abbreviation fd_flags := (gmap Z Z) (only parsing).

(** [_SetNonBlock(fd)] *)
Definition SetNonBlock (fd : Z) (fl : fd_flags) : bool * fd_flags :=
  match fl !! fd with
  | None => (false, fl)
  | Some socket_flags =>
      if negb (Z.land socket_flags O_NONBLOCK =? 0) then (true, fl)
      else (true, <[fd := Z.lor socket_flags O_NONBLOCK]> fl)
  end.

(** [_SetNonBlock(interrupter[0] || !_SetNonBlock(interrupter[1]))] *)
Definition set_interrupter_nonblock (interrupter : Z * Z) (fl : fd_flags) : bool * fd_flags :=
  if negb (interrupter.1 =? 0) then SetNonBlock 1 fl
  else
    let '(ok, fl) := SetNonBlock interrupter.2 fl in
    SetNonBlock (if ok : bool then 0 else 1) fl.

Section Lifecycle.
Context {A : Arch}.

(** [StopDaemon]; [write_ok]: the byte could be written to the pipe, [joins]: the daemon
    thread ends.  [None]: [pthread_join] never returns. *)
Definition StopDaemon (write_ok joins : bool) (d : option daemon_context)
    : outcome (option (bool * option daemon_context)) :=
  match d with
  | None => Ok (Some (false, None))
  | Some c =>
      if negb (daemon_thread c =? 0) && negb write_ok then Ok (Some (false, d))
      else if negb (daemon_thread c =? 0) && negb joins then Ok None
      else
        _ ← match mmap_guard c with
            | Some g => MmapGuard.destroy g
            | None => Ok None
            end;
        Ok (Some (true, None))
  end.

(** The report buffer [StartDaemon] opens in the log folder. *)
Definition open_guard (folder : option (list Z)) (open_fd : Z) (mmap_ok : bool)
    : option (list Z) * option MmapGuard.t :=
  match folder with
  | None | Some [] => (None, None)
  | Some f =>
      (Some f, Some (MmapGuard.new (Some (take 255 (f ++ str "/native_log.temp"))) open_fd mmap_ok
                       (400 * 1024)))
  end.

(** [StartDaemon]; [pipe] gives the descriptors, [thread] is what [pthread_create]
    stores on success ([None] on failure). *)
Definition StartDaemon (socket_name : option (list Z)) (folder : option (list Z))
    (cb_start cb_crash cb_stop : bool) (now open_fd : Z) (mmap_ok : bool)
    (pipe : option (Z * Z)) (thread : option Z) (d : option daemon_context) (fl : fd_flags)
    : outcome (bool * option daemon_context * fd_flags) :=
  match d, socket_name with
  | Some _, _ => Ok (false, d, fl)
  | None, None => Ok (false, None, fl)
  | None, Some name =>
      first ← mem_read name 0 1;
      if bool_decide (first = [0]) then Ok (false, None, fl)
      else
        addr ← FillSockAddr name;
        let '(folder, guard) := open_guard folder open_fd mmap_ok in
        let ctx i t := mkContext folder None guard i now 0 t cb_start cb_stop cb_crash addr in
        match pipe with
        | None =>
            r ← StopDaemon true true (Some (ctx (0, 0) 0));
            Ok (false, None, fl)
        | Some i =>
            let '(ok, fl) := set_interrupter_nonblock i fl in
            if negb ok then
              r ← StopDaemon true true (Some (ctx i 0));
              Ok (false, None, fl)
            else
              match thread with
              | None => Ok (false, Some (ctx i 0), fl)
              | Some t => Ok (true, Some (ctx i t), fl)
              end
        end
  end.
End Lifecycle.

(** ** Lemmas *)

Lemma recv_loop_pieces fd i size chunks got :
  i <> fd -> blen got + blen (concat chunks) = size -> blen got < size ->
  recv_loop fd i size (map Recv chunks) got = ClientMessage (got ++ concat chunks).
Proof.
  intros Hi. revert got. induction chunks as [|d chunks IH]; intros got Hs Hg; cbn [concat] in *.
  { rewrite blen_nil in Hs. lia. }
  cbn [map recv_loop]. destruct (Z.eqb_spec i fd); [done|]. rewrite blen_app in Hs.
  pose proof (blen_nonneg (concat chunks)).
  rewrite take_ge by (unfold blen in *; lia). rewrite app_assoc.
  destruct (Z.ltb_spec (blen (got ++ d)) size) as [Hlt | Hge]; rewrite blen_app in *.
  - apply IH; rewrite blen_app; lia.
  - assert (concat chunks = []) as -> by (apply length_zero_iff_nil; unfold blen in *; lia).
    by rewrite app_nil_r.
Qed.

Definition int32 (z : Z) : Prop := - 2 ^ 31 <= z < 2 ^ 31.

Section MessageLemmas.
Context {A : Arch}.
Variables (pad uc_size : Z).

Definition message_ok (m : crash_message) : Prop :=
  int32 (m_pid m) /\ int32 (m_tid m) /\ int32 (m_signo m) /\ int32 (m_si_code m) /\
  in_size (m_fault_addr m) /\ blen (m_context m) = uc_size.

Lemma blen_encode m : 0 <= pad -> message_ok m -> blen (encode_message pad m) = message_size pad uc_size.
Proof.
  intros Hp (_ & _ & _ & _ & _ & Hu). unfold encode_message, message_size.
  rewrite !blen_app, !blen_le_bytes, blen_zeros, Hu by done. unfold szc. lia.
Qed.

Lemma int32_roundtrip z : int32 z -> swrap 32 (le_val (le_bytes 4 (u32 z))) = z.
Proof.
  intros Hz. rewrite le_val_bytes. change (u32 z mod 2 ^ (8 * Z.of_nat 4)) with (u32 (u32 z)).
  rewrite uwrap_idemp, swrap_uwrap by lia. by apply swrap_small.
Qed.

Lemma slice_mid a b c off len : off = blen a -> len = blen b -> slice off len (a ++ b ++ c) = b.
Proof.
  intros -> ->. unfold slice, blen. by rewrite !Nat2Z.id, drop_app_length, take_app_length.
Qed.

Lemma slice_at a b c m off len :
  m = a ++ b ++ c -> off = blen a -> len = blen b -> slice off len m = b.
Proof. intros ->. apply slice_mid. Qed.

Lemma decode_encode m : 0 <= pad -> message_ok m -> decode_message pad uc_size (encode_message pad m) = m.
Proof.
  intros Hp (H1 & H2 & H3 & H4 & H5 & Hu). destruct m as [pid tid signo code addr uc].
  cbn [m_pid m_tid m_signo m_si_code m_fault_addr m_context] in *.
  unfold decode_message, encode_message. cbn [m_pid m_tid m_signo m_si_code m_fault_addr m_context].
  set (b1 := le_bytes 4 (u32 pid)). set (b2 := le_bytes 4 (u32 tid)).
  set (b3 := le_bytes 4 (u32 signo)). set (b4 := le_bytes 4 (u32 code)).
  set (b5 := le_bytes sizeof_size_t addr).
  assert (blen b5 = szc) as L5 by apply blen_le_bytes.
  assert (blen b1 = 4 /\ blen b2 = 4 /\ blen b3 = 4 /\ blen b4 = 4) as (L1 & L2 & L3 & L4)
    by (split_and!; apply blen_le_bytes).
  rewrite (slice_at [] b1 (b2 ++ b3 ++ b4 ++ b5 ++ zeros pad ++ uc)) by done.
  rewrite (slice_at b1 b2 (b3 ++ b4 ++ b5 ++ zeros pad ++ uc)) by done.
  rewrite (slice_at (b1 ++ b2) b3 (b4 ++ b5 ++ zeros pad ++ uc))
    by (rewrite ?blen_app, <- ?app_assoc; done || lia).
  rewrite (slice_at (b1 ++ b2 ++ b3) b4 (b5 ++ zeros pad ++ uc))
    by (rewrite ?blen_app, <- ?app_assoc; done || lia).
  rewrite (slice_at (b1 ++ b2 ++ b3 ++ b4) b5 (zeros pad ++ uc))
    by (rewrite ?blen_app, <- ?app_assoc; done || lia).
  rewrite (slice_at (b1 ++ b2 ++ b3 ++ b4 ++ b5 ++ zeros pad) uc [])
    by (rewrite ?blen_app, <- ?app_assoc, ?app_nil_r, ?blen_zeros by done; done || lia).
  unfold b1, b2, b3, b4, b5. rewrite !int32_roundtrip by done. by rewrite le_val_size by done.
Qed.
End MessageLemmas.

(** *** Tracing *)

Lemma attach_loop_spec attachable stops tids t :
  (forall x, stops x = true) ->
  exists new, attach_loop attachable stops tids t = new /\
    (forall x, x ∈ new.2 -> x ∈ t \/ (x ∈ tids /\ x ∈ new.1)) /\ t ⊆ new.2 /\
    (forall x, x ∈ new.1 -> x <> 0 -> x ∈ tids /\ x ∉ t /\ attachable x = true).
Proof.
  intros Hs. eexists. split; [reflexivity|]. revert t. induction tids as [|it tids IH]; intros t.
  { cbn. split_and!; set_solver. }
  cbn [attach_loop]. unfold PtraceAttach.
  destruct (attachable it && negb (bool_decide (it ∈ t))) eqn:E.
  - rewrite Hs. specialize (IH ({[it]} ∪ t)). destruct (attach_loop _ _ tids _) as [l t'].
    cbn [fst snd] in *. destruct IH as (H1 & H2 & H3). apply andb_true_iff in E as [E1 E2].
    apply negb_true_iff, bool_decide_eq_false in E2.
    split_and!; [set_solver|set_solver|]. intros x [-> | Hx]%elem_of_cons Hn; [set_solver|].
    destruct (H3 x Hx Hn). set_solver.
  - specialize (IH t). destruct (attach_loop _ _ tids _) as [l t']. cbn [fst snd] in *.
    destruct IH as (H1 & H2 & H3). split_and!; [set_solver|set_solver|].
    intros x [-> | Hx]%elem_of_cons Hn; [done|]. destruct (H3 x Hx Hn). set_solver.
Qed.

Lemma detach_loop_spec tids t x :
  x ∈ detach_loop tids t <-> x ∈ t /\ (x = 0 \/ x ∉ tids).
Proof.
  revert t. induction tids as [|it tids IH]; intros t; cbn [detach_loop]; [set_solver|].
  rewrite IH. unfold PtraceDetach. destruct (Z.eqb_spec it 0) as [-> | Hn].
  - rewrite not_elem_of_cons. destruct (decide (x = 0)); naive_solver.
  - rewrite not_elem_of_cons. set_solver.
Qed.

(** *** What every line of a report keeps *)

(** A property of the report that writing a line keeps is kept by everything that writes the report. *)
Section Kept.
Context {A : Arch} {U : Unwindstack}.
Variable junk : MmapGuard.t -> list Z -> list Z.
Variable fresh : Z -> list Z.
Variable sys : system.
Variable P : option MmapGuard.t -> Prop.

Definition kept_by (a : option MmapGuard.t -> outcome (option MmapGuard.t)) : Prop := forall g g', P g -> a g = Ok g' -> P g'.

Hypothesis newline_kept : forall t, kept_by (newline junk t).
Hypothesis line_kept : forall t, kept_by (line junk t).

(** The actions of a hypothesis, one after the other. *)
Ltac kept :=
  repeat match goal with
  | H : (_ ≫= _) = Ok _ |- _ => let x := fresh "x" in let Hx := fresh "Hx" in apply bind_Ok_inv in H as (x & Hx & H)
  | H : newline junk _ ?g = Ok _, Hg : P ?g |- _ => apply (newline_kept _ _ _ Hg) in H
  | H : line junk _ ?g = Ok _, Hg : P ?g |- _ => apply (line_kept _ _ _ Hg) in H
  end.

Lemma newlines_kept ts : kept_by (newlines junk ts).
Proof.
  induction ts as [|t ts IH]; intros g g' Hg; cbn [newlines]; [by intros [= <-]|]. intros H. kept. by apply (IH x).
Qed.

Lemma run_all_kept rs : Forall kept_by rs -> kept_by (DumperUtils.run_all rs).
Proof.
  induction 1 as [|a rs Ha _ IH]; intros g g' Hg; cbn [DumperUtils.run_all]; [by intros [= <-]|].
  intros H. kept. apply (IH x); [by apply (Ha g)|done].
Qed.

Lemma sub_loop_kept lines limit n g r : P g -> sub_loop junk lines limit n g = Ok r -> P r.1.
Proof.
  revert n g. induction lines as [|l lines IH]; intros n g Hg; cbn [sub_loop]; [by intros [= <-]|]. intros H. kept.
  destruct (Trim _); [by eapply IH|]. kept. eapply (IH _ x0); [|done]. destruct ((limit =? 0) || _); [by kept|by injection Hx0 as <-].
Qed.

Lemma GetSubSection_kept c t l : kept_by (GetSubSection junk c t l).
Proof.
  intros g g' Hg. destruct c as [c|]; cbn [GetSubSection]; [|by intros [= <-]]. intros H. kept. apply sub_loop_kept in Hx0; [|done].
  eapply newline_kept; [|exact H]. destruct ((0 <? l) && _); [by kept|by injection Hx1 as <-].
Qed.

Lemma net_loop_kept rf pid secs : kept_by (net_loop junk rf pid secs).
Proof.
  induction secs as [|[[n t] l] secs IH]; intros g g' Hg; cbn [net_loop]; [by intros [= <-]|].
  intros H. kept. apply (IH x); [by eapply GetSubSection_kept|done].
Qed.

Lemma logcat_loop_kept ex api lbl lines : kept_by (logcat_loop junk ex api lbl lines).
Proof.
  induction lines as [|l lines IH]; intros g g' Hg; cbn [logcat_loop]; [by intros [= <-]|].
  intros H. kept. apply (IH x0); [|done]. destruct (_ || _); [by kept|by injection Hx0 as <-].
Qed.

Lemma GetLogcatInfo_kept ex po api pid st n pr : kept_by (GetLogcatInfo junk ex po api pid st n pr).
Proof.
  intros g g' Hg. unfold GetLogcatInfo. intros H. kept. destruct (po _); [by eapply logcat_loop_kept|by injection H as <-].
Qed.

Lemma fds_loop_kept rl es n g r : P g -> fds_loop junk rl es n g = Ok r -> P r.1.
Proof.
  revert n g. induction es as [|e es IH]; intros n g Hg; cbn [fds_loop]; [by intros [= <-]|].
  destruct (fd_of_entry e); [|by apply IH]. destruct (1024 <? _); [by apply IH|]. intros H. kept. by eapply IH.
Qed.

Lemma GetFds_kept rl dir : kept_by (GetFds junk rl dir).
Proof.
  intros g g' Hg. unfold GetFds. intros H. kept. assert (P x.1) as Hx1.
  { destruct dir; [by eapply fds_loop_kept|by injection Hx as <-]. }
  eapply newline_kept; [|exact H]. destruct (1024 <? x.2); [by kept|by injection Hx0 as <-].
Qed.

Ltac each_line := repeat first [apply Forall_nil_2 | apply Forall_cons_2]; first [apply newline_kept | apply line_kept].

Lemma main_registers_kept r : Forall kept_by (DumperUtils.main_registers junk sys r).
Proof. unfold DumperUtils.main_registers, DumperUtils.rows_x. destruct (arch sys); cbn [map app]; each_line. Qed.

Lemma other_registers_kept r : Forall kept_by (DumperUtils.other_registers junk sys r).
Proof. unfold DumperUtils.other_registers, DumperUtils.rows_x. destruct (arch sys); cbn [map app]; each_line. Qed.

Lemma WriteProcess_kept pid tid buf g r : P g -> DumperUtils.WriteProcessAndThreadInfo junk sys pid tid buf g = Ok r -> P r.1.
Proof.
  intros Hg. unfold DumperUtils.WriteProcessAndThreadInfo. intros H. kept. destruct x1 as [n c]. kept. by injection H as <-.
Qed.

Lemma unwind_loop_kept tid todo n regs st g r : P g -> Unwinder.unwind_loop junk tid todo n regs st g = Ok r -> P r.1.
Proof.
  unfold Unwinder.unwind_loop, DumperUtils.DumpBacktraceLine. fold (Unwinder.unwind_loop junk).
  revert n regs st g. induction todo as [|todo IH]; intros n regs st g Hg; cbn [Unwinder.unwind_loop]; [by intros [= <-]|].
  destruct (Find _ _) as [m|]; intros H; [|kept; by injection H as <-]. apply bind_Ok_inv in H as ([[elf|] st1] & _ & H); [|kept; by injection H as <-].
  apply bind_Ok_inv in H as ([fn st2] & _ & H). apply bind_Ok_inv in H as (g1 & Hg1 & H).
  assert (P g1) by (destruct fn as [[? ?]|]; by eapply newline_kept).
  apply bind_Ok_inv in H as ([[[r' f]|] st3] & _ & H); [by eapply IH|by injection H as <-].
Qed.

Lemma DoUnwind_kept tid c st g r : P g -> Unwinder.DoUnwind junk tid c st g = Ok r -> P r.1.
Proof.
  intros Hg. unfold Unwinder.DoUnwind, Unwinder.Unwind. destruct c; intros H; apply bind_Ok_inv in H as (regs & _ & H).
  - apply bind_Ok_inv in H as (regs' & _ & H). by eapply unwind_loop_kept.
  - destruct regs; [by eapply unwind_loop_kept|by injection H as <-].
Qed.

Lemma DumpHeader_kept st ct pid tid signo code addr ctx buf : kept_by (DumperUtils.DumpHeader junk sys st ct pid tid signo code addr ctx buf).
Proof.
  intros g g' Hg. unfold DumperUtils.DumpHeader, DumperUtils.DumpSignalInfo. intros H. kept. apply newlines_kept in Hx; [|done].
  apply WriteProcess_kept in Hx0; [|done]. kept. apply run_all_kept in Hx2; [|apply main_registers_kept|done]. by eapply newlines_kept.
Qed.

Lemma DumpOtherThreadHeader_kept pid tid buf : kept_by (DumperUtils.DumpOtherThreadHeader junk sys pid tid buf).
Proof.
  intros g g' Hg. unfold DumperUtils.DumpOtherThreadHeader, DumperUtils.DumpSignalInfo, DumperUtils.DumpOtherThreadRegistersByPtrace. intros H. kept.
  apply WriteProcess_kept in Hx0; [|done]. destruct (siginfo_of sys tid) as [[[sg cd] ad]|]; [|by injection H as <-]. kept.
  assert (P x2) by (destruct (regs_of sys tid); [by eapply run_all_kept; [apply other_registers_kept| |]|by injection Hx2 as <-]). by eapply newlines_kept.
Qed.

Lemma DumpSections_kept pid g g' : P g ->
  (g ← DumperUtils.DumpLogcatInfo junk sys pid g; g ← DumperUtils.DumpFds junk sys pid g; g ← DumperUtils.DumpNetworkInfo junk sys pid g;
   newline junk (str " ") g) = Ok g' -> P g'.
Proof.
  intros Hg H. unfold DumperUtils.DumpLogcatInfo, DumperUtils.DumpFds, DumperUtils.DumpNetworkInfo, GetNetworkInfo in H. kept.
  repeat match goal with
  | H : newlines junk _ ?g = Ok _, Hg : P ?g |- _ => apply (newlines_kept _ _ _ Hg) in H
  | H : GetLogcatInfo junk _ _ _ _ _ _ _ ?g = Ok _, Hg : P ?g |- _ => apply (GetLogcatInfo_kept _ _ _ _ _ _ _ _ _ Hg) in H
  | H : GetFds junk _ _ ?g = Ok _, Hg : P ?g |- _ => apply (GetFds_kept _ _ _ _ Hg) in H
  end.
  eapply newline_kept; [|exact H]. destruct (29 <=? api_level sys); [by eapply newline_kept|by eapply net_loop_kept].
Qed.

Lemma other_threads_kept pid tids st g r : P g -> other_threads junk fresh sys pid tids st g = Ok r -> P r.1.
Proof.
  revert st g. induction tids as [|it tids IH]; intros st g Hg; cbn [other_threads]; [by intros [= <-]|].
  intros H. kept. eapply (IH x.2 x.1); [|done]. destruct (it =? 0); [by injection Hx as <-|]. kept.
  apply DumpOtherThreadHeader_kept in Hx0; [|done]. by apply DoUnwind_kept in Hx.
Qed.

Lemma write_report_kept uc m st ct tids : kept_by (write_report junk fresh sys uc m st ct tids).
Proof.
  intros g g' Hg. unfold write_report. intros H. apply bind_Ok_inv in H as (g1 & H1 & H). apply DumpHeader_kept in H1; [|done].
  apply bind_Ok_inv in H as (data & _ & H). apply bind_Ok_inv in H as (r1 & H2 & H). apply DoUnwind_kept in H2; [|done].
  apply bind_Ok_inv in H as (r2 & H3 & H). apply other_threads_kept in H3; [|done]. by eapply DumpSections_kept.
Qed.
End Kept.

(** A daemon without a report buffer writes nothing. *)
Lemma write_report_none {A : Arch} {U : Unwindstack} junk fresh sys uc m st ct tids g :
  write_report junk fresh sys uc m st ct tids None = Ok g -> g = None.
Proof.
  intros H. symmetry. revert H. apply (write_report_kept junk fresh sys (eq None)); [| |done]; intros t g1 g2 <- H; by injection H as <-.
Qed.

(** ** Properties *)

Section Properties.
Context {A : Arch} {U : Unwindstack}.
Variable junk : MmapGuard.t -> list Z -> list Z.
Variable fresh : Z -> list Z.
Variable sys : system.
Variables (attachable stops : Z -> bool).
Variable fopen_ok : list Z -> bool.
Variable uc_regs : list Z -> string -> Z.

(** C7. The crash message survives the socket: however the stream is cut into pieces,
    the daemon assembles and decodes exactly the message the signal handler sent. *)
Theorem crash_message_roundtrip pad uc_size m chunks fd i :
  0 <= pad -> message_ok uc_size m -> i <> fd ->
  concat chunks = encode_message pad m ->
  exists b, recv_loop fd i (message_size pad uc_size) (map Recv chunks) [] = ClientMessage b /\
    decode_message pad uc_size b = m.
Proof.
  intros Hp Hm Hi Hc. exists (encode_message pad m). split; [|by apply decode_encode].
  rewrite <- (blen_encode pad uc_size m) by done. rewrite recv_loop_pieces; [by rewrite Hc|done| |].
  - by rewrite blen_nil, Hc.
  - rewrite blen_nil, (blen_encode pad uc_size m) by done. unfold message_size.
    destruct Hm as (_ & _ & _ & _ & _ & Hu). pose proof (blen_nonneg (m_context m)).
    destruct szc_cases; lia.
Qed.

(** A client that disconnects early hangs the daemon: [recv] returning 0 is not
    treated as the end, so the receive loop goes round forever, and it never looks
    at the interruption pipe ([StopDaemon] then waits for the thread forever). *)
Theorem client_disconnect_hangs fd i size got n :
  i <> fd -> blen got < size ->
  recv_loop fd i size (replicate n (Recv [])) got = ClientWaiting got.
Proof.
  intros Hi Hg. induction n as [|n IH]; [done|]. cbn [replicate recv_loop].
  destruct (Z.eqb_spec i fd); [done|]. rewrite take_nil, app_nil_r.
  rewrite (proj2 (Z.ltb_lt _ _)) by done. exact IH.
Qed.


(** Only the first crash is recorded: a report deletes the buffer, and every later
    report of the same daemon succeeds without writing to any file. *)
Theorem later_reports_lost m now us tasks d w d' w' :
  DaemonCreateReport junk fresh sys attachable stops fopen_ok uc_regs m now us tasks d w
    = Ok (true, d', w') ->
  mmap_guard d' = None /\ (mmap_guard d = None -> w_files w' = w_files w).
Proof.
  unfold DaemonCreateReport. destruct (PtraceAttach _ _ _ _) as [[] t]; [|done]. cbn [negb].
  destruct (attach_loop _ _ _ _) as [l t']. intros H. ok_inv.
  split; [done|]. intros Hd. rewrite Hd in Ha. apply write_report_none in Ha. subst.
  cbn in Ha0. by injection Ha0 as <-.
Qed.

(** Because of a misplaced parenthesis [StartDaemon] makes descriptor 1 (the
    process's standard output) non-blocking and leaves both ends of the interruption
    pipe blocking. *)
Theorem start_daemon_nonblock_stdout name rest folder cs cc cst now fd mm r wr t fl flags1 :
  name <> [] -> no_nul name -> r <> 0 -> r <> 1 -> wr <> 1 -> fl !! 1 = Some flags1 ->
  Z.land flags1 O_NONBLOCK = 0 ->
  exists d fl', StartDaemon (Some (name ++ 0 :: rest)) folder cs cc cst now fd mm
      (Some (r, wr)) (Some t) None fl = Ok (true, Some d, fl') /\
    interrupter d = (r, wr) /\ fl' !! r = fl !! r /\ fl' !! wr = fl !! wr /\
    fl' !! 1 = Some (Z.lor flags1 O_NONBLOCK).
Proof.
  intros Hne Hn Hr0 Hr1 Hw1 H1 Hb. destruct name as [|x name]; [done|].
  inversion Hn as [|? ? Hx _]; subst. unfold StartDaemon.
  rewrite (mem_read_at [] [x] (name ++ 0 :: rest)), bind_Ok by done.
  rewrite bool_decide_eq_false_2 by congruence.
  destruct (FillSockAddr_ok (x :: name) rest Hn) as (a & ->). rewrite bind_Ok.
  destruct (open_guard folder fd mm) as [f g]. unfold set_interrupter_nonblock. cbn [fst].
  destruct (Z.eqb_spec r 0); [done|]. cbn [negb]. unfold SetNonBlock. rewrite H1, Hb. cbn [Z.eqb negb].
  do 2 eexists. split; [reflexivity|]. cbn [interrupter]. split; [done|].
  by rewrite !lookup_insert_ne, lookup_insert_eq by done.
Qed.
End Properties.

(** ** Witnesses *)

Definition sample_message : crash_message := mkMessage 10 11 SIGSEGV 1 4096 [7; 8].

Lemma crash_message_roundtrip_witness :
  exists b, recv_loop 5 3 (message_size (A := LP64) 8 2)
      [Recv (take 9 (encode_message (A := LP64) 8 sample_message));
       Recv (drop 9 (encode_message (A := LP64) 8 sample_message))] [] = ClientMessage b /\
    decode_message (A := LP64) 8 2 b = sample_message.
Proof.
  apply (crash_message_roundtrip (A := LP64) 8 2 sample_message
    [take 9 (encode_message (A := LP64) 8 sample_message);
     drop 9 (encode_message (A := LP64) 8 sample_message)] 5 3).
  - lia.
  - unfold message_ok, int32. vm_compute. repeat split; congruence.
  - lia.
  - vm_compute. reflexivity.
Defined.

Lemma client_disconnect_hangs_witness :
  recv_loop 5 3 100 (replicate 1000 (Recv [])) [1; 2] = ClientWaiting [1; 2].
Proof. apply (client_disconnect_hangs 5 3 100 [1; 2] 1000); [lia|reflexivity]. Defined.

(** A quiet system in which every read fails, and a daemon with no log folder. *)
Definition quiet_system : system :=
  mkSystem cpu_arm64 30 (fun _ => []) None (fun _ => []) (fun _ => None) (fun _ => None)
    (fun _ => None) (zeros 16) (fun _ => None) (fun _ => None) (fun _ => None) id.

Definition idle_daemon (g : option MmapGuard.t) : daemon_context :=
  mkContext (Some (str "/d")) None g (3, 4) 0 0 1 true true true (mkSockaddr PF_UNIX []).

Definition sample_run (g : option MmapGuard.t) : outcome (bool * daemon_context * world) :=
  DaemonCreateReport (A := LP64) (U := Unwinder.stuck_unwindstack) zero_junk zeros quiet_system
    (fun _ => true) (fun _ => true) (fun _ => true) (fun _ _ => 0) sample_message 5 6
    (Some [str "10"; str "11"; str "12"]) (idle_daemon g) (mkWorld ∅ ∅).

Lemma sample_run_Ok : exists d w, sample_run (Some (MmapGuard.mk (MmapGuard.MMap (zeros 12000)) None))
  = Ok (true, d, w).
Proof. eexists. eexists. vm_compute. reflexivity. Qed.


Lemma later_reports_lost_witness : exists d w, sample_run None = Ok (true, d, w) /\ w_files w = ∅.
Proof.
  assert (exists d w, sample_run None = Ok (true, d, w)) as (d & w & H)
    by (eexists; eexists; vm_compute; reflexivity).
  exists d, w. split; [exact H|].
  apply (later_reports_lost (A := LP64) (U := Unwinder.stuck_unwindstack) zero_junk zeros quiet_system
    (fun _ => true) (fun _ => true) (fun _ => true) (fun _ _ => 0) sample_message 5 6
    (Some [str "10"; str "11"; str "12"]) (idle_daemon None) (mkWorld ∅ ∅) d w H). reflexivity.
Defined.

Lemma start_daemon_nonblock_stdout_witness : exists d fl',
  StartDaemon (Some (str "sock" ++ [0])) None true true true 0 3 true (Some (7, 8)) (Some 1)
    None {[1 := 1; 7 := 0; 8 := 1]} = Ok (true, Some d, fl') /\
  fl' !! 7 = Some 0 /\ fl' !! 1 = Some 2049.
Proof.
  destruct (start_daemon_nonblock_stdout (str "sock") [] None true true true 0 3 true 7 8 1
              {[1 := 1; 7 := 0; 8 := 1]} 1) as (d & fl' & H1 & _ & H2 & _ & H3);
    [done|by apply nul_free_no_nul|lia|lia|lia|reflexivity|reflexivity|].
  exists d, fl'. split; [exact H1|]. split; [exact H2 | exact H3].
Defined.
End HawkeyeDaemon.
