(* ===== verification/HawkNative.v ===== *)
(** * hawkeye: the JNI entry points

    Models library_hawkeye/src/main/cpp/hawkeye.cpp: the functions registered for
    BoostCrashHandler.java, on top of HawkSignals ([HawkeyeCore]), HawkDaemon ([HawkeyeDaemon]) and
    HawkGuard ([MmapGuard]).

    The state counts what the entry points take from the virtual machine and have to give back
    (characters of strings, global and local references, attached threads), and holds the guards
    that Java knows by their address.  A null string passed where the code does not test it, a null
    or a stale address are faults. *)

From S2P Require Import Prelude Jni ZapBufferFlush ZapFileFlush HawkGuard HawkPrivate HawkSignals HawkDumper HawkUnwinder HawkDaemon.

Module HawkNative.
Import HawkSignals.HawkeyeCore HawkeyeDaemon.

Section WithArch.
Context {A : Arch}.

(** What the entry points change. *)
Record state : Type := mk {
  pinned : nat;                        (* characters obtained and not released *)
  globals : nat;                       (* global references *)
  callback_contexts : nat;             (* allocated [callback_context]s *)
  core : process;
  daemon : option daemon_context;
  flags : fd_flags;
  buffers : gmap Z MmapGuard.t;        (* the live guards, by address *)
  fs : file_store;
  spill : Z                            (* bytes [MmapGuard::Write] stored past its temporary array *)
}.

Definition set_pinned (n : nat) (s : state) : state :=
  mk n (globals s) (callback_contexts s) (core s) (daemon s) (flags s) (buffers s) (fs s) (spill s).
Definition set_core (p : process) (s : state) : state :=
  mk (pinned s) (globals s) (callback_contexts s) p (daemon s) (flags s) (buffers s) (fs s) (spill s).
Definition set_daemon (d : option daemon_context) (fl : fd_flags) (s : state) : state :=
  mk (pinned s) (globals s) (callback_contexts s) (core s) d fl (buffers s) (fs s) (spill s).
Definition set_buffers (b : gmap Z MmapGuard.t) (s : state) : state :=
  mk (pinned s) (globals s) (callback_contexts s) (core s) (daemon s) (flags s) b (fs s) (spill s).
Definition set_fs (f : file_store) (s : state) : state :=
  mk (pinned s) (globals s) (callback_contexts s) (core s) (daemon s) (flags s) (buffers s) f (spill s).
Definition add_spill (n : Z) (s : state) : state :=
  mk (pinned s) (globals s) (callback_contexts s) (core s) (daemon s) (flags s) (buffers s) (fs s) (spill s + n).
Definition add_context (s : state) : state :=
  mk (pinned s) (S (globals s)) (S (callback_contexts s)) (core s) (daemon s) (flags s) (buffers s) (fs s) (spill s).

(** ** Strings *)

(** [env->GetStringUTFChars(s, ...)] of a string that is not null; the C string it returns. *)
Definition GetStringUTFChars (js : option (list Z)) (s : state) : outcome (list Z * state) :=
  chars ← of_option NullDeref js;
  Ok (chars ++ [0], set_pinned (S (pinned s)) s).

Definition ReleaseStringUTFChars (s : state) : state := set_pinned (pred (pinned s)) s.

(** [s ? env->GetStringUTFChars(s, ...) : nullptr], and [if (c) env->ReleaseStringUTFChars(s, c)]. *)
Definition chars_or_null (js : option (list Z)) (s : state) : outcome (option (list Z) * state) :=
  match js with
  | None => Ok (None, s)
  | Some _ => r ← GetStringUTFChars js s; Ok (Some r.1, r.2)
  end.
Definition release_chars (c : option (list Z)) (s : state) : state :=
  match c with None => s | Some _ => ReleaseStringUTFChars s end.

(** ** The crash monitor and the daemon *)

Definition InitCxxCrashMonitor (refused : Z -> bool) (get_dumpable : Z) (socket_name : option (list Z)) (s : state)
    : outcome (bool * state) :=
  r ← chars_or_null socket_name s;
  let '(name, s) := r in
  r ← InitCore refused get_dumpable name (core s);
  let '(success, p) := r in
  Ok (success, release_chars name (set_core p s)).

(** The folder is passed to [StartDaemon] as a C string; [HawkDaemon] takes its characters. *)
Definition ZygoteCxxCrashDaemon (socket_name log_path : option (list Z)) (now open_fd : Z) (mmap_ok : bool)
    (pipe : option (Z * Z)) (thread : option Z) (s : state) : outcome (bool * state) :=
  r ← chars_or_null socket_name s;
  let '(name, s) := r in
  r ← chars_or_null log_path s;
  let '(path, s) := r in
  let s := add_context s in
  r ← StartDaemon name log_path true true true now open_fd mmap_ok pipe thread (daemon s) (flags s);
  let '(success, d, fl) := r in
  Ok (success, release_chars path (release_chars name (set_daemon d fl s))).

(** [None]: [pthread_join] never returns. *)
Definition ReleaseCxxCrashDaemon (write_ok joins : bool) (s : state) : outcome (option (bool * state)) :=
  r ← StopDaemon write_ok joins (daemon s);
  Ok (option_map (fun x => (x.1, set_daemon x.2 (flags s) s)) r).

Definition TestCxxCrash (s : state) : outcome state := Fault NullDeref.

(** *** The callbacks of the daemon thread *)

(** [callback_context::env] and what the thread has done with it: whether it is attached, its local
    references and the calls of [onCxxCrashCallback]. *)
Record daemon_env : Type := mkEnv { env : bool; local_refs : nat; java_calls : list (option (list Z)) }.

Definition OnDaemonStart (e : daemon_env) : daemon_env := mkEnv true (local_refs e) (java_calls e).

Definition OnCrash (log_file : option (list Z)) (e : daemon_env) : outcome daemon_env :=
  if env e then
    let e := mkEnv true (S (local_refs e)) (java_calls e) in
    let e := mkEnv true (local_refs e) (java_calls e ++ [log_file]) in
    Ok (mkEnv true (pred (local_refs e)) (java_calls e))
  else Fault NullDeref.

Definition OnDaemonStop (e : daemon_env) : daemon_env := mkEnv false 0 (java_calls e).

(** ** The temporary buffers *)

(** An address as the [long] Java keeps, and back. *)
Definition to_jlong (p : Z) : Z := swrap size_bits p.
Definition of_jlong (h : Z) : Z := szw h.

(** The guard a handle points to. *)
Definition guard_at (h : Z) (s : state) : outcome MmapGuard.t :=
  if of_jlong h =? 0 then Fault NullDeref else of_option UseAfterFree (buffers s !! of_jlong h).

(** [new] gives the address [p]; [open_fd] and [mmap_ok] are the answers of the system. *)
Definition InitTempBuffer (p open_fd : Z) (mmap_ok : bool) (buffer_path : option (list Z)) (capacity : Z) (s : state)
    : outcome (Z * state) :=
  r ← GetStringUTFChars buffer_path s;
  let '(path, s) := r in
  let buffer_size := szw capacity in
  let g := MmapGuard.new (Some path) open_fd mmap_ok buffer_size in
  let s := set_buffers (<[p := g]> (buffers s)) s in
  Ok (to_jlong p, ReleaseStringUTFChars s).

(** The content is fetched before the guard is used. *)
Definition Record2Buffer (h : Z) (content : option (list Z)) (s : state) : outcome state :=
  r ← GetStringUTFChars content s;
  let '(c, s) := r in
  g ← guard_at h s;
  r ← MmapGuard.Write g (Some c);
  let '(g, n) := r in
  Ok (ReleaseStringUTFChars (add_spill n (set_buffers (<[of_jlong h := g]> (buffers s)) s))).

(** The characters of the path are not released. *)
Definition FlushLog2File (fopen_ok : list Z -> bool) (h : Z) (path : option (list Z)) (s : state) : outcome state :=
  r ← GetStringUTFChars path s;
  let '(c, s) := r in
  f ← of_option Unterminated (cstr c);
  g ← guard_at h s;
  fs ← MmapGuard.Flush g (fs s) fopen_ok f;
  Ok (set_fs fs s).

(** [delete]; of a null pointer it does nothing. *)
Definition ReleaseBuffer (h : Z) (s : state) : outcome state :=
  if of_jlong h =? 0 then Ok s
  else
    g ← guard_at h s;
    _ ← MmapGuard.destroy g;
    Ok (set_buffers (delete (of_jlong h) (buffers s)) s).

(** ** Registration *)

Definition gMethods : list (string * string) :=
  [("initCxxCrashMonitor"%string, "(Ljava/lang/String;)Z"%string);
   ("zygoteCxxCrashDaemon"%string, "(Ljava/lang/String;Ljava/lang/String;)Z"%string);
   ("releaseCxxCrashDaemon"%string, "()Z"%string);
   ("testCxxCrash"%string, "()V"%string);
   ("initTempBuffer"%string, "(Ljava/lang/String;I)J"%string);
   ("record2Buffer"%string, "(JLjava/lang/String;)V"%string);
   ("flushLog2File"%string, "(JLjava/lang/String;)V"%string);
   ("releaseBuffer"%string, "(J)V"%string)].

(** The result and whether [gJavaVm] is set. *)
Definition JNI_OnLoad (env : Z) (classes : Jni.class_path) : outcome (Z * bool) :=
  r ← Jni.on_load env classes "com/dolin/hawkeye/handler/BoostCrashHandler" gMethods;
  Ok (r, negb (r =? Jni.JNI_ERR)).

(** The table is that of the native methods [BoostCrashHandler] declares: the library loads. *)
Lemma hawkeye_loads : JNI_OnLoad Jni.JNI_OK Jni.repository = Ok (Jni.JNI_VERSION_1_6, true).
Proof. unfold JNI_OnLoad. by rewrite (Jni.on_load_declared Jni.repository _ Jni.BoostCrashHandler). Qed.
End WithArch.
End HawkNative.

(** ** Properties *)

Module NativeTheorems.
Import HawkNative.

Section WithArch.
Context {A : Arch}.

(** Calls of Java into the library, with the answers of the system. *)
Inductive call : Type :=
| CallInitMonitor (refused : Z -> bool) (get_dumpable : Z) (socket_name : option (list Z))
| CallZygote (socket_name log_path : option (list Z)) (now open_fd : Z) (mmap_ok : bool) (pipe : option (Z * Z)) (thread : option Z)
| CallReleaseDaemon (write_ok joins : bool)
| CallInitBuffer (p open_fd : Z) (mmap_ok : bool) (buffer_path : option (list Z)) (capacity : Z)
| CallRecord (h : Z) (content : option (list Z))
| CallFlush (fopen_ok : list Z -> bool) (h : Z) (path : option (list Z))
| CallRelease (h : Z).

(** [None]: the call does not return. *)
Definition do_call (c : call) (s : state) : outcome (option state) :=
  match c with
  | CallInitMonitor r d n => x ← InitCxxCrashMonitor r d n s; Ok (Some x.2)
  | CallZygote n l t fd m p th => x ← ZygoteCxxCrashDaemon n l t fd m p th s; Ok (Some x.2)
  | CallReleaseDaemon w j => x ← ReleaseCxxCrashDaemon w j s; Ok (option_map snd x)
  | CallInitBuffer p fd m path cap => x ← InitTempBuffer p fd m path cap s; Ok (Some x.2)
  | CallRecord h c => x ← Record2Buffer h c s; Ok (Some x)
  | CallFlush ok h path => x ← FlushLog2File ok h path s; Ok (Some x)
  | CallRelease h => x ← ReleaseBuffer h s; Ok (Some x)
  end.

Fixpoint do_calls (cs : list call) (s : state) : outcome (option state) :=
  match cs with
  | [] => Ok (Some s)
  | c :: cs =>
      r ← do_call c s;
      match r with None => Ok None | Some s => do_calls cs s end
  end.

Definition is_flush (c : call) : bool := match c with CallFlush _ _ _ => true | _ => false end.
Definition is_zygote (c : call) : bool := match c with CallZygote _ _ _ _ _ _ _ => true | _ => false end.
Definition count (p : call -> bool) (cs : list call) : nat := length (List.filter p cs).

(** What a call leaves with the virtual machine. *)
Definition leaves (c : call) (s s' : state) : Prop :=
  pinned s' = (pinned s + (if is_flush c then 1 else 0))%nat /\
  globals s' = (globals s + (if is_zygote c then 1 else 0))%nat /\
  callback_contexts s' = (callback_contexts s + (if is_zygote c then 1 else 0))%nat.

Lemma chars_pinned js s c s' :
  chars_or_null js s = Ok (c, s') -> s' = match c with None => s | Some _ => set_pinned (S (pinned s)) s end.
Proof. destruct js; cbn; by intros [= <- <-]. Qed.

Lemma do_call_leaves c s s' : do_call c s = Ok (Some s') -> leaves c s s'.
Proof.
  unfold leaves. destruct c; cbn [do_call is_flush is_zygote]; intros H; apply bind_Ok_inv in H as (x & H & HE).
  - injection HE as <-. apply bind_Ok_inv in H as ([n s1] & H1 & H). apply chars_pinned in H1 as ->.
    apply bind_Ok_inv in H as ([b p] & _ & H). injection H as <-. destruct n; cbn; lia.
  - injection HE as <-. apply bind_Ok_inv in H as ([n s1] & H1 & H). apply chars_pinned in H1 as ->.
    apply bind_Ok_inv in H as ([l s2] & H2 & H). apply chars_pinned in H2 as ->.
    apply bind_Ok_inv in H as ([[b d] fl] & _ & H). injection H as <-. destruct n, l; cbn; lia.
  - apply bind_Ok_inv in H as (r & _ & H). injection H as <-. destruct r as [[b d]|]; [|done]. injection HE as <-. cbn. lia.
  - injection HE as <-. apply bind_Ok_inv in H as ([n s1] & H1 & H). apply bind_Ok_inv in H1 as (ch & _ & H1). injection H1 as _ <-.
    injection H as <-. cbn. lia.
  - injection HE as <-. apply bind_Ok_inv in H as ([n s1] & H1 & H). apply bind_Ok_inv in H1 as (ch & _ & H1). injection H1 as _ <-.
    apply bind_Ok_inv in H as (g & _ & H). apply bind_Ok_inv in H as ([g' k] & _ & H). injection H as <-. cbn. lia.
  - injection HE as <-. apply bind_Ok_inv in H as ([n s1] & H1 & H). apply bind_Ok_inv in H1 as (ch & _ & H1). injection H1 as _ <-.
    apply bind_Ok_inv in H as (f & _ & H). apply bind_Ok_inv in H as (g & _ & H). apply bind_Ok_inv in H as (fs' & _ & H).
    injection H as <-. cbn. lia.
  - injection HE as <-. unfold ReleaseBuffer in H. destruct (_ =? 0); [injection H as <-; cbn; lia|].
    apply bind_Ok_inv in H as (g & _ & H). apply bind_Ok_inv in H as (d & _ & H). injection H as <-. cbn. lia.
Qed.

Lemma count_cons p c cs : count p (c :: cs) = ((if p c then 1 else 0) + count p cs)%nat.
Proof. unfold count. cbn. by destruct (p c). Qed.

Lemma do_calls_leave cs s s' :
  do_calls cs s = Ok (Some s') ->
  pinned s' = (pinned s + count is_flush cs)%nat /\ globals s' = (globals s + count is_zygote cs)%nat /\
  callback_contexts s' = (callback_contexts s + count is_zygote cs)%nat.
Proof.
  revert s. induction cs as [|c cs IH]; intros s H; cbn [do_calls] in H.
  { injection H as <-. unfold count. cbn. lia. }
  apply bind_Ok_inv in H as ([s1|] & H1 & H); [|done]. apply do_call_leaves in H1 as (L1 & L2 & L3).
  apply IH in H as (I1 & I2 & I3). rewrite !count_cons. lia.
Qed.

(** *** A buffer from its creation to its release *)

Fixpoint record_all (h : Z) (cs : list (list Z)) (s : state) : outcome state :=
  match cs with
  | [] => Ok s
  | c :: cs => s ← Record2Buffer h (Some c) s; record_all h cs s
  end.

Lemma jlong_roundtrip p : in_size p -> of_jlong (to_jlong p) = p.
Proof.
  intros H. unfold of_jlong, to_jlong, szw. assert (0 < size_bits) by (unfold size_bits; destruct szc_cases; lia).
  rewrite uwrap_swrap by lia. by apply uwrap_small.
Qed.

Lemma record_all_text h cap cs : of_jlong h <> 0 -> forall s g text,
  buffers s !! of_jlong h = Some g -> MmapGuard.text g cap text -> Forall no_nul cs -> blen text + blen (concat cs) < cap ->
  exists g' s', record_all h cs s = Ok s' /\ MmapGuard.text g' cap (text ++ concat cs) /\
    buffers s' = <[of_jlong h := g']> (buffers s) /\ fs s' = fs s /\ pinned s' = pinned s /\ spill s' = spill s + Z.of_nat (length cs).
Proof.
  intros H0. induction cs as [|c cs IH]; intros s g text Hg HT Hn Hl.
  { exists g, s. rewrite app_nil_r, insert_id by done. cbn. split_and!; try done; try apply HT; try lia. }
  apply Forall_cons in Hn as [Hc Hn]. cbn [concat] in *. rewrite blen_app in Hl. pose proof (blen_nonneg (concat cs)).
  destruct (MmapGuard.Write_text g cap text c HT Hc) as (g1 & HW & HT1); [lia|].
  cbn [record_all]. unfold Record2Buffer, GetStringUTFChars. cbn [of_option]. rewrite !bind_Ok. cbv beta iota.
  unfold guard_at. destruct (Z.eqb_spec (of_jlong h) 0); [done|]. cbn [buffers set_pinned]. rewrite Hg. cbn [of_option].
  rewrite bind_Ok, HW, !bind_Ok. cbv beta iota. set (s1 := ReleaseStringUTFChars _).
  destruct (IH s1 g1 (text ++ c)) as (g' & s' & E1 & E2 & E3 & E4 & E5 & E6); [|done|done|rewrite blen_app; lia|].
  { unfold s1. cbn. by rewrite lookup_insert_eq. }
  exists g', s'. rewrite E1. split; [done|]. rewrite app_assoc. split; [done|]. rewrite E3, E4, E5, E6. unfold s1. cbn.
  rewrite insert_insert_eq. split_and!; try done. lia.
Qed.
End WithArch.

(** C23. A temporary buffer of Java is an append-only text: created with the address the constructor
    gets, filled by any number of [record2Buffer] calls whose text stays below the capacity, flushed
    to a file and released, it has added exactly the strings to the file, in order, and nothing else
    is left behind but the characters of the flushed path; each record has stored one byte past a
    temporary array. *)
Theorem temp_buffer_session {A : Arch} p fd path capacity cs f fopen_ok s :
  0 < p -> in_size p -> buffers s !! p = None -> 0 <= fd -> in_size (clamp_capacity (szw capacity)) ->
  Forall no_nul cs -> blen (concat cs) < clamp_capacity (szw capacity) -> no_nul f -> fopen_ok f = true ->
  exists h s1 s2 s3 s4, InitTempBuffer p fd true (Some path) capacity s = Ok (h, s1) /\
    record_all h cs s1 = Ok s2 /\ FlushLog2File fopen_ok h (Some f) s2 = Ok s3 /\ ReleaseBuffer h s3 = Ok s4 /\
    fs s4 = fappend (fs s) f (concat cs) /\ buffers s4 = buffers s /\ pinned s4 = S (pinned s) /\
    spill s4 = spill s + Z.of_nat (length cs).
Proof.
  intros Hp Hps Hb Hfd Hcap Hn Hl Hf Hok. set (cap := clamp_capacity (szw capacity)) in *.
  set (g := MmapGuard.new (Some (path ++ [0])) fd true (szw capacity)).
  set (s1 := ReleaseStringUTFChars (set_buffers (<[p := g]> (buffers s)) (set_pinned (S (pinned s)) s))).
  exists (to_jlong p), s1. pose proof (jlong_roundtrip p Hps) as HJ.
  assert (MmapGuard.text g cap []) as HT by (by apply MmapGuard.new_text).
  destruct (record_all_text (to_jlong p) cap cs) with (s := s1) (g := g) (text := @nil Z) as (g' & s2 & E1 & E2 & E3 & E4 & E5 & E6).
  { rewrite HJ. lia. } { unfold s1. cbn. by rewrite HJ, lookup_insert_eq. } { done. } { done. } { rewrite blen_nil. lia. }
  exists s2. rewrite E1. rewrite HJ in E3. cbn [app] in E2. pose proof E2 as (Hbuf & _).
  assert (MmapGuard.Flush g' (fs s2) fopen_ok f = Ok (fappend (fs s2) f (concat cs))) as HF.
  { unfold MmapGuard.Flush. rewrite Hok, Hbuf. cbn [MmapGuard.mapped]. by rewrite bind_Ok, (MmapGuard.text_cstr g' cap _ E2). }
  exists (set_fs (fappend (fs s2) f (concat cs)) (set_pinned (S (pinned s2)) s2)).
  assert (guard_at (to_jlong p) (set_pinned (S (pinned s2)) s2) = Ok g') as HG.
  { unfold guard_at. rewrite HJ. destruct (Z.eqb_spec p 0); [lia|]. cbn [buffers set_pinned]. by rewrite E3, lookup_insert_eq. }
  exists (set_buffers (delete p (buffers s2)) (set_fs (fappend (fs s2) f (concat cs)) (set_pinned (S (pinned s2)) s2))).
  split; [done|]. split; [done|]. split.
  { unfold FlushLog2File, GetStringUTFChars. cbn [of_option]. rewrite !bind_Ok. cbv beta iota. rewrite cstr_app by done.
    cbn [of_option]. rewrite bind_Ok, HG, bind_Ok. cbn [fs set_pinned]. by rewrite HF. }
  split.
  { unfold ReleaseBuffer. rewrite HJ. destruct (Z.eqb_spec p 0); [lia|].
    change (guard_at (to_jlong p) (set_fs ?x ?y)) with (guard_at (to_jlong p) y). rewrite HG, bind_Ok.
    unfold MmapGuard.destroy. rewrite Hbuf. cbn [MmapGuard.mapped]. rewrite bind_Ok.
    unfold strlen. rewrite (MmapGuard.text_cstr g' cap _ E2). done. }
  cbn. rewrite E3, E4, E5, E6. unfold s1. cbn. rewrite insert_insert_eq, delete_insert_id by done. done.
Qed.


(** ** Witnesses *)

Definition calm : state :=
  mk 0 0 0 (HawkSignals.HawkeyeCore.mkProcess (fun _ => SignalUtils.SIG_DFL) 0 None) None ∅ ∅ ∅ 0.

Lemma temp_buffer_session_witness :
  exists h s1 s2 s3 s4, InitTempBuffer (A := LP64) (2 ^ 63) 5 true (Some (str "/data/b")) 1024 calm = Ok (h, s1) /\
    record_all (A := LP64) h [str "java "; str "crash"] s1 = Ok s2 /\
    FlushLog2File (A := LP64) (fun _ => true) h (Some (str "/data/log")) s2 = Ok s3 /\ ReleaseBuffer (A := LP64) h s3 = Ok s4 /\
    fs s4 = fappend ∅ (str "/data/log") (str "java crash") /\ buffers s4 = ∅ /\ pinned s4 = 1%nat /\ spill s4 = 2.
Proof.
  apply (temp_buffer_session (A := LP64) (2 ^ 63) 5 (str "/data/b") 1024 [str "java "; str "crash"] (str "/data/log") (fun _ => true) calm).
  - lia.
  - split; vm_compute; congruence.
  - done.
  - lia.
  - split; vm_compute; congruence.
  - repeat constructor; vm_compute; congruence.
  - vm_compute. reflexivity.
  - repeat constructor; vm_compute; congruence.
  - done.
Defined.

Definition two_flushes : list call :=
  [CallInitBuffer 4096 5 true (Some (str "/data/b")) 1024; CallRecord 4096 (Some (str "x"));
   CallFlush (fun _ => true) 4096 (Some (str "/data/1")); CallFlush (fun _ => true) 4096 (Some (str "/data/2")); CallRelease 4096;
   CallZygote None None 0 3 true None None].

End NativeTheorems.
