(* ===== verification/Caps.v ===== *)
(** * Caps: the JVMTI agent

    Models library_caps/src/main/cpp: the termination flag (terminator.cpp), the
    class-prepare callback (clz_prepare.cpp), the entry points (zege.cpp) and the
    stack description built by [createStackInfo] (zege_drive.cpp).  The JVMTI
    environment is the class [Jvmti]: what its queries answer, [inl] an error code;
    a string it answers is a block that has to be given back with [Deallocate], and
    the operations count the blocks they keep.  [asprintf] succeeds. *)

From S2P Require Import Prelude Jni.
Import Jni(JNI_OK, JNI_ERR).

Definition JVMTI_ERROR_NONE : Z := 0.

(** The queries the agent makes; strings are C strings without their terminator. *)
Class Jvmti : Type := {
  jthread : Type;
  jmethod : Type;
  jclass : Type;
  GetStackTrace : jthread -> Z -> Z + list jmethod;
  GetMethodName : jmethod -> Z + list Z;
  GetMethodDeclaringClass : jmethod -> Z + jclass;
  GetClassSignature : jclass -> Z + list Z
}.

Module Caps.
(** ** terminator.cpp *)
Definition setTerminated (is_terminated : bool) (terminated : bool) : bool := is_terminated.
Definition isTerminated (terminated : bool) : bool := terminated.

Section WithJvmti.
Context {J : Jvmti}.

(** ** zege.cpp *)

(** [createJvmtiEnv]: [GetEnv] gives a result code and an environment. *)
Definition createJvmtiEnv {E} (get_env : Z * option E) : option E :=
  if get_env.1 =? JNI_OK then get_env.2 else None.

(** [setAllCapabilities]: the capabilities added; errors are logged and ignored.
    [garbage] stands for the uninitialised structure a failed query leaves. *)
Definition setAllCapabilities {C} (potential : Z + C) (garbage : C) : C :=
  match potential with inr caps => caps | inl _ => garbage end.

(** [Agent_OnAttach]: the result, the environment kept in [localJvmtiEnv] and the
    capabilities added to the new environment.  [potential] is what
    [GetPotentialCapabilities] answers there. *)
Definition Agent_OnAttach {E C} (get_env : Z * option E) (potential : E -> Z + C) (garbage : C)
    (local_env : option E) : Z * option E * option C :=
  match createJvmtiEnv get_env with
  | None => (JNI_ERR, local_env, None)
  | Some e => (JNI_OK, Some e, Some (setAllCapabilities (potential e) garbage))
  end.

Definition initNative : Z := 0.

Definition gMethods : list (string * string) := [("initNative"%string, "()J"%string)].

Definition JNI_OnLoad (env : Z) (classes : Jni.class_path) : outcome Z :=
  Jni.on_load env classes "com/suyghur/zege/Zege" gMethods.

(** ** clz_prepare.cpp *)

(** The signature that is looked up and the blocks that are kept. *)
Definition clzPrepare (terminated : bool) (clz : jclass) : option (list Z) * nat :=
  if isTerminated terminated then (None, 0%nat)
  else
    match GetClassSignature clz with
    | inl _ => (None, 0%nat)
    | inr clz_signature => (Some clz_signature, 1%nat)
    end.

(** ** zege_drive.cpp *)

(** Accessors that are not written yet. *)
Definition getJvmtiEnv {E} : option E := None.
Definition getJvmtiEnvFromJNI {E} : option E := None.
Definition getJavaVM {V} : option V := None.
Definition getObjectSize : Z := 0.

(** One frame: the signature of its class and its method name, if all queries succeed, and the blocks
    that are kept when the loop is left. *)
Definition frame_text (m : jmethod) : option (list Z * list Z) * nat :=
  match GetMethodName m with
  | inl _ => (None, 0%nat)
  | inr method_name =>
      match GetMethodDeclaringClass m with
      | inl _ => (None, 1%nat)
      | inr c =>
          match GetClassSignature c with
          | inl _ => (None, 1%nat)
          | inr clz_signature => (Some (clz_signature, method_name), 2%nat)
          end
      end
  end.

(** The loop over the frames; it stops at the first error.  After a frame was added its two blocks are
    given back. *)
Fixpoint stack_loop (frames : list jmethod) (result : option (list Z)) : option (list Z) * nat :=
  match frames with
  | [] => (result, 0%nat)
  | m :: frames =>
      match frame_text m with
      | (None, blocks) => (result, blocks)
      | (Some (clz_signature, method_name), blocks) =>
          let result :=
            match result with
            | None => clz_signature ++ str "^^^" ++ method_name
            | Some r => r ++ str ",,," ++ clz_signature ++ str "^^^" ++ method_name
            end in
          let '(result, kept) := stack_loop frames (Some result) in
          (result, (kept + (blocks - 2))%nat)
      end
  end.

(** [createStackInfo]; [GetStackTrace] fills at most [stack_depth] frames of an array that has to have a
    positive length. *)
Definition createStackInfo (thread : jthread) (stack_depth : Z) : outcome (option (list Z) * nat) :=
  if stack_depth <=? 0 then Fault OutOfBounds
  else
    Ok match GetStackTrace thread stack_depth with
       | inl _ => (None, 0%nat)
       | inr frames => stack_loop frames None
       end.

(** ** Specification: the frames before the first failing one, joined *)

Fixpoint good_frames (frames : list jmethod) : list (list Z) :=
  match frames with
  | [] => []
  | m :: frames =>
      match (frame_text m).1 with
      | None => []
      | Some (c, n) => (c ++ str "^^^" ++ n) :: good_frames frames
      end
  end.

(** The name of the method of the first failing frame is never given back. *)
Fixpoint kept_names (frames : list jmethod) : nat :=
  match frames with
  | [] => 0
  | m :: frames =>
      match (frame_text m).1, GetMethodName m with
      | Some _, _ => kept_names frames
      | None, inr _ => 1
      | None, inl _ => 0
      end
  end.

(** [join]: the elements with [,,,] between them. *)
Fixpoint join (l : list (list Z)) : list Z :=
  match l with
  | [] => []
  | [x] => x
  | x :: l => x ++ str ",,," ++ join l
  end.

Lemma frame_text_blocks m :
  match (frame_text m).1 with
  | Some _ => (frame_text m).2 = 2%nat
  | None => (frame_text m).2 = match GetMethodName m with inr _ => 1%nat | inl _ => 0%nat end
  end.
Proof.
  unfold frame_text. destruct (GetMethodName m); [done|]. destruct (GetMethodDeclaringClass m) as [|c]; [done|].
  by destruct (GetClassSignature c).
Qed.

Lemma stack_loop_some frames r :
  stack_loop frames (Some r) = (Some (join (r :: good_frames frames)), kept_names frames).
Proof.
  revert r. induction frames as [|m frames IH]; intros r; [done|]. cbn [stack_loop good_frames kept_names].
  pose proof (frame_text_blocks m) as HB. destruct (frame_text m) as [[[c n]|] blocks]; cbn [fst snd] in *; subst blocks; [|done].
  rewrite IH. f_equal; [|lia]. f_equal. cbn [join]. destruct (good_frames frames); rewrite <- ?app_assoc; done.
Qed.

(** [createStackInfo] describes exactly the frames before the first one whose
    queries fail: class and method separated by carets, frames by commas; without
    a frame it returns null.  The only block it keeps is the name of the method of
    the failing frame. *)
Theorem create_stack_info_spec thread depth :
  0 < depth ->
  createStackInfo thread depth = Ok
    match GetStackTrace thread depth with
    | inl _ => (None, 0%nat)
    | inr frames => (match good_frames frames with [] => None | fs => Some (join fs) end, kept_names frames)
    end.
Proof.
  intros Hd. unfold createStackInfo. destruct (Z.leb_spec depth 0); [lia|]. f_equal.
  destruct (GetStackTrace thread _) as [e | [|m frames]]; [done|done|]. cbn [stack_loop good_frames kept_names].
  pose proof (frame_text_blocks m) as HB. destruct (frame_text m) as [[[c n]|] blocks]; cbn [fst snd] in *; subst blocks; [|done].
  rewrite stack_loop_some. by rewrite Nat.add_0_r.
Qed.

(** Every class that is prepared leaves the block of its signature behind. *)
Lemma clz_prepare_keeps clz signature : GetClassSignature clz = inr signature -> (clzPrepare false clz).2 = 1%nat.
Proof. intros H. unfold clzPrepare. cbn. by rewrite H. Qed.

(** The class [Zege] is in another package than the one that is looked for: the library does not load. *)
Lemma caps_does_not_load : JNI_OnLoad JNI_OK Jni.repository = Fault NullDeref.
Proof. vm_compute. reflexivity. Qed.
End WithJvmti.

(** A stack of two frames, of which the class of the second cannot be found. *)
Definition two_frames : Jvmti := {|
  jthread := unit; jmethod := bool; jclass := unit;
  GetStackTrace _ _ := inr [true; false];
  GetMethodName m := inr (if m then str "run" else str "main");
  GetMethodDeclaringClass m := if m then inr tt else inl 35;
  GetClassSignature _ := inr (str "LTask;")
|}.

Lemma create_stack_info_spec_witness : createStackInfo (J := two_frames) tt 8 = Ok (Some (str "LTask;^^^run"), 1%nat).
Proof. rewrite (create_stack_info_spec (J := two_frames) tt 8); [reflexivity|lia]. Defined.
End Caps.
