(* ===== verification/UwBase.v ===== *)
(** * libunwindstack: the Android base it brings along

    Models external/libunwindstack-ndk/android-base: printing into strings (stringprintf.cpp) and the
    owner of a file descriptor (unique_fd.h).

    [vsnprintf] is that of the C library: it is given the text the format produces, or [None] for an
    error, stores as much of it as fits and returns the whole length as an [int].  What [new char[]]
    returns is the parameter [junk]. *)

From S2P Require Import Prelude.

Module StringPrintf.
Section WithHeap.
Variable junk : Z -> list Z.                (* the block [new char[n]] returns *)

(** [vsnprintf(buf, n, format, ap)]: the result and the buffer. *)
Definition vsnprintf (buf : list Z) (n : Z) (text : option (list Z)) : outcome (Z * list Z) :=
  match text with
  | None => Ok (-1, buf)
  | Some t =>
      if 2 ^ 31 <=? blen t then Ok (-1, buf)
      else
        buf ← (if n =? 0 then Ok buf else mem_write buf 0 (take (Z.to_nat (n - 1)) t ++ [0]));
        Ok (blen t, buf)
  end.

(** [dst->append(s, n)] *)
Definition append (dst s : list Z) (n : Z) : outcome (list Z) :=
  if n <=? blen s then Ok (dst ++ take (Z.to_nat n) s) else Fault OutOfBounds.

Definition StringAppendV (space : list Z) (dst : list Z) (text : option (list Z)) : outcome (list Z) :=
  r ← vsnprintf space 1024 text;
  let '(result, space) := r in
  if result <? 1024 then
    if 0 <=? result then append dst space result else Ok dst
  else if result =? 2 ^ 31 - 1 then Fault SignedOverflow
  else
    let length := result + 1 in
    r ← vsnprintf (junk length) length text;
    let '(result, buf) := r in
    if (0 <=? result) && (result <? length) then append dst buf result else Ok dst.

Definition StringPrintf (space : list Z) (text : option (list Z)) : outcome (list Z) := StringAppendV space [] text.
Definition StringAppendF (space dst : list Z) (text : option (list Z)) : outcome (list Z) := StringAppendV space dst text.

(** A block that holds a text and its terminator. *)
Lemma vsnprintf_fits buf n t :
  blen t < n -> n <= blen buf -> blen t < 2 ^ 31 -> exists rest, vsnprintf buf n (Some t) = Ok (blen t, t ++ rest).
Proof.
  intros Hn Hb Ht. pose proof (blen_nonneg t). unfold vsnprintf. destruct (Z.leb_spec (2 ^ 31) (blen t)); [lia|].
  destruct (Z.eqb_spec n 0); [lia|]. rewrite take_ge by (unfold blen in *; lia).
  rewrite mem_write_Ok by (rewrite ?blen_app, ?blen_cons, ?blen_nil; lia). rewrite bind_Ok. unfold splice. cbn [Z.to_nat take app].
  eexists. by rewrite <- app_assoc.
Qed.

Lemma append_prefix dst t rest : append dst (t ++ rest) (blen t) = Ok (dst ++ t).
Proof.
  unfold append. rewrite blen_app. pose proof (blen_nonneg rest). destruct (Z.leb_spec (blen t) (blen t + blen rest)); [|lia].
  unfold blen. by rewrite Nat2Z.id, take_app_length.
Qed.

Lemma vsnprintf_long buf n t : 2 ^ 31 <= blen t -> vsnprintf buf n (Some t) = Ok (-1, buf).
Proof. intros Ht. unfold vsnprintf. destruct (Z.leb_spec (2 ^ 31) (blen t)); [done|lia]. Qed.

(** The first [vsnprintf] of a text that does not fit: its length. *)
Lemma vsnprintf_cut buf n t :
  0 < n -> n <= blen t -> n <= blen buf -> blen t < 2 ^ 31 -> exists buf', vsnprintf buf n (Some t) = Ok (blen t, buf').
Proof.
  intros H0 Hn Hb Ht. unfold vsnprintf. destruct (Z.leb_spec (2 ^ 31) (blen t)); [lia|]. destruct (Z.eqb_spec n 0); [lia|].
  rewrite mem_write_Ok; [by eexists|lia|].
  rewrite blen_app, blen_cons, blen_nil. unfold blen in *. rewrite length_take. lia.
Qed.

(** Printing into a string appends the whole text, in the array on the stack or, when it does not fit
    there, in one of the right size; with a text of the largest [int] the size overflows, and a longer
    text or an error of [vsnprintf] appends nothing. *)
Theorem string_append_exact space dst text :
  blen space = 1024 -> (forall n, 0 <= n -> blen (junk n) = n) ->
  StringAppendV space dst text =
    match text with
    | None => Ok dst
    | Some t => if 2 ^ 31 <=? blen t then Ok dst else if blen t =? 2 ^ 31 - 1 then Fault SignedOverflow else Ok (dst ++ t)
    end.
Proof.
  intros Hs Hj. unfold StringAppendV. destruct text as [t|]; [|done]. pose proof (blen_nonneg t).
  destruct (Z.leb_spec (2 ^ 31) (blen t)) as [Hl|Hl].
  { by rewrite vsnprintf_long. }
  destruct (Z.ltb_spec (blen t) 1024) as [Hf|Hf].
  - destruct (vsnprintf_fits space 1024 t) as [rest ->]; [lia..|]. rewrite bind_Ok. destruct (Z.ltb_spec (blen t) 1024); [|lia].
    destruct (Z.leb_spec 0 (blen t)); [|lia]. rewrite append_prefix. destruct (Z.eqb_spec (blen t) (2 ^ 31 - 1)); [lia|done].
  - destruct (vsnprintf_cut space 1024 t) as [buf ->]; [lia..|]. rewrite bind_Ok. destruct (Z.ltb_spec (blen t) 1024); [lia|].
    destruct (Z.eqb_spec (blen t) (2 ^ 31 - 1)); [done|]. cbv zeta.
    destruct (vsnprintf_fits (junk (blen t + 1)) (blen t + 1) t) as [rest ->]; [lia|rewrite Hj by lia; lia|lia|]. rewrite bind_Ok.
    destruct (Z.leb_spec 0 (blen t)); [|lia]. destruct (Z.ltb_spec (blen t) (blen t + 1)); [|lia]. cbn [andb].
    apply append_prefix.
Qed.
End WithHeap.

(** A text of 1500 bytes, behind the two characters of a prefix. *)
Lemma string_append_exact_witness :
  StringAppendV zeros (zeros 1024) (str "0x") (Some (replicate 1500 65)) = Ok (str "0x" ++ replicate 1500 65).
Proof.
  rewrite (string_append_exact zeros (zeros 1024) (str "0x") (Some (replicate 1500 65)));
    [vm_compute; reflexivity|vm_compute; reflexivity|exact blen_zeros].
Defined.
End StringPrintf.

(** ** unique_fd.h *)

Module UniqueFd.

(** The kernel's table of open descriptors; closing one that is not open is an error of the caller, who
    may have closed that of someone else. *)
Definition Close (fd : Z) (table : gset Z) : outcome (gset Z) :=
  if bool_decide (fd ∈ table) then Ok (table ∖ {[fd]}) else Fault UseAfterFree.

(** The methods, on [value_] and the table. *)
Definition reset (value_ new_value : Z) (table : gset Z) : outcome (Z * gset Z) :=
  table ← (if negb (value_ =? -1) then Close value_ table else Ok table);
  Ok (new_value, table).

Definition release (value_ : Z) : Z * Z := (value_, -1).

(** Named objects, the descriptors that code outside of them holds, and the table. *)
Record state : Type := mk { objects : gmap nat Z; loose : gset Z; table : gset Z }.

(** What a program does with descriptors: [Open] is a system call that returned [fd]; an object can be
    built around a descriptor that is held, from another object, be assigned another object, be reset,
    give up its descriptor and be destroyed. *)
Inductive op : Type :=
| Open (fd : Z) | New (i : nat) (value : Z) | MoveNew (i j : nat) | MoveAssign (i j : nat)
| Reset (i : nat) (new_value : Z) | Release (i : nat) | Destroy (i : nat).

Definition take_loose (v : Z) (s : state) : gset Z := loose s ∖ {[v]}.

Definition step (o : op) (s : state) : outcome state :=
  match o with
  | Open fd => Ok (mk (objects s) ({[fd]} ∪ loose s) ({[fd]} ∪ table s))
  | New i v => Ok (mk (<[i := v]> (objects s)) (take_loose v s) (table s))
  | MoveNew i j =>
      v ← of_option NullDeref (objects s !! j);
      let '(ret, v') := release v in
      Ok (mk (<[i := ret]> (<[j := v']> (objects s))) (loose s) (table s))
  | MoveAssign i j =>
      v ← of_option NullDeref (objects s !! j);
      let '(ret, v') := release v in
      let objs := <[j := v']> (objects s) in
      old ← of_option NullDeref (objs !! i);
      r ← reset old ret (table s);
      Ok (mk (<[i := r.1]> objs) (loose s) r.2)
  | Reset i v =>
      old ← of_option NullDeref (objects s !! i);
      r ← reset old v (table s);
      Ok (mk (<[i := r.1]> (objects s)) (take_loose v s) r.2)
  | Release i =>
      v ← of_option NullDeref (objects s !! i);
      let '(ret, v') := release v in
      Ok (mk (<[i := v']> (objects s)) (if ret =? -1 then loose s else {[ret]} ∪ loose s) (table s))
  | Destroy i =>
      old ← of_option NullDeref (objects s !! i);
      r ← reset old (-1) (table s);
      Ok (mk (delete i (objects s)) (loose s) r.2)
  end.

(** What a well-behaved caller does: only descriptors it holds are given away, only objects that exist
    are used, and [open] returns a descriptor that was not open. *)
Definition allowed (o : op) (s : state) : bool :=
  match o with
  | Open fd => bool_decide (fd ∉ table s) && (0 <=? fd)
  | New i v => bool_decide (objects s !! i = None) && ((v =? -1) || bool_decide (v ∈ loose s))
  | MoveNew i j => bool_decide (objects s !! i = None) && bool_decide (is_Some (objects s !! j))
  | MoveAssign i j => bool_decide (is_Some (objects s !! i)) && bool_decide (is_Some (objects s !! j))
  | Reset i v => bool_decide (is_Some (objects s !! i)) && ((v =? -1) || bool_decide (v ∈ loose s))
  | Release i | Destroy i => bool_decide (is_Some (objects s !! i))
  end.

(** Every open descriptor has exactly one owner: the caller or one object. *)
Record owned (s : state) : Prop := mkOwned {
  o_valid : -1 ∉ table s;
  o_loose : loose s ⊆ table s;
  o_object : forall i fd, objects s !! i = Some fd -> fd <> -1 -> fd ∈ table s /\ fd ∉ loose s;
  o_unique : forall i j fd, objects s !! i = Some fd -> objects s !! j = Some fd -> fd <> -1 -> i = j;
  o_all : forall fd, fd ∈ table s -> fd ∈ loose s \/ exists i, objects s !! i = Some fd
}.

(** *** Three moves of a descriptor *)

(** An object closes its descriptor. *)
Lemma owned_close i old new_value s :
  owned s -> objects s !! i = Some old -> exists t, reset old new_value (table s) = Ok (new_value, t) /\
    owned (mk (<[i := -1]> (objects s)) (loose s) t).
Proof.
  intros HO Hi. pose proof HO as [V L O U A]. unfold reset. destruct (Z.eqb_spec old (-1)) as [->|Hold]; cbn [negb].
  - exists (table s). rewrite insert_id by done. split; [done|]. by destruct s.
  - destruct (O i old Hi Hold) as [Ht Hl]. unfold Close. rewrite bool_decide_eq_true_2 by done. rewrite bind_Ok.
    eexists. split; [done|]. split; cbn.
    + set_solver.
    + set_solver.
    + intros j fd [[<- <-]|[Hj Hfd]]%lookup_insert_Some Hne; [done|]. destruct (O j fd Hfd Hne) as [H1 H2]. split; [|done].
      apply elem_of_difference. split; [done|]. intros ->%elem_of_singleton. by apply Hj, (U i j old).
    + intros j k fd [[<- <-]|[Hj Hfd]]%lookup_insert_Some [[<- ?]|[Hk Hfk]]%lookup_insert_Some Hne; try done. by apply (U j k fd).
    + intros fd [Hfd Hne]%elem_of_difference. destruct (A fd Hfd) as [|[j Hj]]; [by left|]. right. exists j.
      rewrite lookup_insert_ne; [done|]. intros <-. set_solver.
Qed.

(** An empty object, or one that is just built, gets a descriptor the caller holds. *)
Lemma owned_give i v s :
  owned s -> (objects s !! i = None \/ objects s !! i = Some (-1)) -> v = -1 \/ v ∈ loose s ->
  owned (mk (<[i := v]> (objects s)) (take_loose v s) (table s)).
Proof.
  intros [V L O U A] Hi Hv. assert (forall j fd, objects s !! j = Some fd -> fd <> -1 -> fd <> v) as Hn.
  { intros j fd Hj Hne ->. destruct Hv as [|Hv]; [done|]. by apply (O j v Hj Hne). }
  split; cbn; unfold take_loose.
  - done.
  - set_solver.
  - intros j fd [[<- <-]|[Hj Hfd]]%lookup_insert_Some Hne; [set_solver|]. destruct (O j fd Hfd Hne). set_solver.
  - intros j k fd [[<- <-]|[Hj Hfd]]%lookup_insert_Some [[<- E]|[Hk Hfk]]%lookup_insert_Some Hne; try done.
    + by destruct (Hn k v).
    + by destruct (Hn j fd).
    + by apply (U j k fd).
  - intros fd Hfd. destruct (decide (fd = v)) as [->|Hne]; [right; exists i; by rewrite lookup_insert_eq|].
    destruct (A fd Hfd) as [|[j Hj]]; [left; set_solver|]. right. exists j. rewrite lookup_insert_ne; [done|]. intros <-.
    destruct Hi as [Hi|Hi]; [congruence|]. by assert (fd = -1) as -> by congruence.
Qed.

(** What the caller holds after an object gave up [v]. *)
Definition hold (v : Z) (l : gset Z) : gset Z := if v =? -1 then l else {[v]} ∪ l.

(** An object gives its descriptor to the caller. *)
Lemma owned_release i v s :
  owned s -> objects s !! i = Some v -> owned (mk (<[i := -1]> (objects s)) (hold v (loose s)) (table s)).
Proof.
  intros HO Hi. pose proof HO as [V L O U A]. unfold hold. destruct (Z.eqb_spec v (-1)) as [->|Hv].
  { rewrite insert_id by done. by destruct s. }
  destruct (O i v Hi Hv) as [H1 H2]. split; cbn.
  - done.
  - set_solver.
  - intros j fd [[<- <-]|[Hj Hfd]]%lookup_insert_Some Hne; [done|]. destruct (O j fd Hfd Hne). split; [done|].
    rewrite elem_of_union, elem_of_singleton. intros [->|]; [|done]. by apply Hj, (U i j v).
  - intros j k fd [[<- <-]|[Hj Hfd]]%lookup_insert_Some [[<- ?]|[Hk Hfk]]%lookup_insert_Some Hne; try done. by apply (U j k fd).
  - intros fd Hfd. destruct (A fd Hfd) as [|[j Hj]]; [left; set_solver|]. destruct (decide (i = j)) as [<-|].
    + left. assert (fd = v) as -> by congruence. set_solver.
    + right. exists j. by rewrite lookup_insert_ne.
Qed.

(** Holding a descriptor for a moment. *)
Lemma hold_take i v s : owned s -> objects s !! i = Some v -> hold v (loose s) ∖ {[v]} = loose s.
Proof.
  intros [V L O _ _] Hi. unfold hold. apply leibniz_equiv. destruct (Z.eqb_spec v (-1)) as [->|Hv]; [set_solver|].
  destruct (O i v Hi Hv). set_solver.
Qed.

Lemma held v l : v = -1 \/ v ∈ hold v l.
Proof. unfold hold. destruct (Z.eqb_spec v (-1)); [by left|right; set_solver]. Qed.

(** *** The operations *)

Lemma owned_move_new i j v s :
  owned s -> objects s !! i = None -> objects s !! j = Some v ->
  owned (mk (<[i := v]> (<[j := -1]> (objects s))) (loose s) (table s)).
Proof.
  intros HO Hi Hj. assert (i <> j) by congruence. pose proof (owned_release j v s HO Hj) as HR.
  pose proof (owned_give i v _ HR) as HG. cbn in HG. unfold take_loose in HG. cbn [loose] in HG. rewrite (hold_take j v s) in HG by done.
  apply HG; [left; by rewrite lookup_insert_ne|apply held].
Qed.

Lemma step_move_assign i j old v s :
  owned s -> objects s !! i = Some old -> objects s !! j = Some v -> exists s', step (MoveAssign i j) s = Ok s' /\ owned s'.
Proof.
  intros HO Hi Hj. cbn [step]. rewrite Hj. cbn [of_option]. rewrite bind_Ok. cbn [release].
  pose proof (owned_release j v s HO Hj) as HR.
  assert (exists old', (<[j := -1]> (objects s)) !! i = Some old') as [old' Hi'].
  { destruct (decide (i = j)) as [->|]; [exists (-1); by rewrite lookup_insert_eq|exists old; by rewrite lookup_insert_ne]. }
  rewrite Hi'. cbn [of_option]. rewrite bind_Ok. destruct (owned_close i old' v _ HR Hi') as (t & Ht & HC). cbn in Ht, HC. rewrite Ht, bind_Ok.
  cbn [fst snd]. eexists. split; [done|]. pose proof (owned_give i v _ HC) as HG. cbn in HG. unfold take_loose in HG. cbn [loose] in HG.
  rewrite (hold_take j v s), insert_insert_eq in HG by done. apply HG; [right; by rewrite lookup_insert_eq|apply held].
Qed.

Lemma step_reset i old v s :
  owned s -> objects s !! i = Some old -> v = -1 \/ v ∈ loose s -> exists s', step (Reset i v) s = Ok s' /\ owned s'.
Proof.
  intros HO Hi Hv. cbn [step]. rewrite Hi. cbn [of_option]. rewrite bind_Ok.
  destruct (owned_close i old v s HO Hi) as (t & Ht & HC). rewrite Ht, bind_Ok. eexists. split; [done|].
  pose proof (owned_give i v _ HC) as HG. cbn in HG. rewrite insert_insert_eq in HG. unfold take_loose in *. cbn [loose] in HG.
  apply HG; [right; by rewrite lookup_insert_eq|done].
Qed.

Lemma owned_delete i s : owned s -> objects s !! i = Some (-1) -> owned (mk (delete i (objects s)) (loose s) (table s)).
Proof.
  intros [V L O U A] Hi. split; cbn; [done|done| | |].
  - intros j fd [_ Hj]%lookup_delete_Some. by apply (O j fd).
  - intros j k fd [_ Hj]%lookup_delete_Some [_ Hk]%lookup_delete_Some. by apply (U j k fd).
  - intros fd Hfd. destruct (A fd Hfd) as [|[j Hj]]; [by left|]. right. exists j. rewrite lookup_delete_ne; [done|].
    intros <-. by assert (fd = -1) as -> by congruence.
Qed.

Lemma step_destroy i old s : owned s -> objects s !! i = Some old -> exists s', step (Destroy i) s = Ok s' /\ owned s'.
Proof.
  intros HO Hi. cbn [step]. rewrite Hi. cbn [of_option]. rewrite bind_Ok. destruct (owned_close i old (-1) s HO Hi) as (t & Ht & HC).
  rewrite Ht, bind_Ok. eexists. split; [done|]. pose proof (owned_delete i _ HC) as HD. cbn in HD.
  rewrite delete_insert_eq in HD. apply HD. by rewrite lookup_insert_eq.
Qed.

Lemma owned_open fd s : owned s -> fd ∉ table s -> 0 <= fd -> owned (mk (objects s) ({[fd]} ∪ loose s) ({[fd]} ∪ table s)).
Proof.
  intros [V L O U A] Hf H0. split; cbn.
  - rewrite elem_of_union, elem_of_singleton. intros [<-|]; [lia|done].
  - set_solver.
  - intros i v Hi Hne. destruct (O i v Hi Hne) as [H1 H2]. split; [set_solver|]. rewrite elem_of_union, elem_of_singleton. intros [->|]; done.
  - done.
  - intros v [->%elem_of_singleton|Hv]%elem_of_union; [left; set_solver|]. destruct (A v Hv) as [|]; [left; set_solver|by right].
Qed.

Lemma step_owned o s : owned s -> allowed o s = true -> exists s', step o s = Ok s' /\ owned s'.
Proof.
  intros HO Ha. destruct o as [fd|i v|i j|i j|i v|i|i]; cbn [allowed] in Ha; rewrite ?andb_true_iff, ?orb_true_iff, ?bool_decide_eq_true, ?Z.eqb_eq, ?Z.leb_le in Ha.
  - destruct Ha. eexists. split; [done|]. by apply owned_open.
  - destruct Ha. eexists. split; [done|]. apply owned_give; auto.
  - destruct Ha as [Hi [v Hj]]. cbn [step]. rewrite Hj. cbn [of_option]. rewrite bind_Ok. eexists. split; [done|]. by apply owned_move_new.
  - destruct Ha as [[old Hi] [v Hj]]. by apply (step_move_assign i j old v).
  - destruct Ha as [[old Hi] Hv]. by apply (step_reset i old v).
  - destruct Ha as [v Hi]. cbn [step]. rewrite Hi. cbn [of_option]. rewrite bind_Ok. eexists. split; [done|]. by apply (owned_release i v).
  - destruct Ha as [old Hi]. by apply (step_destroy i old).
Qed.

(** A run of allowed operations; [None]: one that is not allowed. *)
Fixpoint run (ops : list op) (s : state) : outcome (option state) :=
  match ops with
  | [] => Ok (Some s)
  | o :: ops => if allowed o s then s ← step o s; run ops s else Ok None
  end.

Definition start : state := mk ∅ ∅ ∅.

Lemma start_owned : owned start.
Proof. split; cbn; set_solver. Qed.

(** Ownership is exact: whatever a caller does with descriptors it holds, no operation closes one that is
    not open, every open descriptor is held by the caller or by exactly one object, and when all objects
    are gone the descriptors left open are those the caller holds. *)
Theorem unique_fd_owns ops :
  exists r, run ops start = Ok r /\
    match r with
    | None => True
    | Some s => owned s /\ (objects s = ∅ -> table s = loose s)
    end.
Proof.
  generalize start start_owned. induction ops as [|o ops IH]; intros s HO; cbn [run].
  - exists (Some s). split; [done|]. split; [done|]. intros HE. destruct HO as [V L O U A]. apply leibniz_equiv. intros fd. split; [|apply L].
    intros Hfd. destruct (A fd Hfd) as [|[i Hi]]; [done|]. by rewrite HE, lookup_empty in Hi.
  - destruct (allowed o s) eqn:Ha; [|by exists None]. destruct (step_owned o s HO Ha) as (s' & -> & HO'). rewrite bind_Ok. by apply IH.
Qed.

(** A descriptor moved twice, also onto its own object, is closed once. *)
Example moved_descriptor :
  run [Open 7; New 0 7; MoveNew 1 0; MoveAssign 1 1; MoveAssign 0 1; Destroy 1; Destroy 0] start = Ok (Some start).
Proof. vm_compute. reflexivity. Qed.

End UniqueFd.
