(* ===== verification/UwDwarfMemory.v ===== *)
(** * libunwindstack: reading DWARF data

    Models external/libunwindstack-ndk/DwarfMemory.{h,cpp}: a cursor over a memory
    with the readers of fixed-size, LEB128 and encoded values, and the enumeration
    DwarfEncoding.h.

    A memory is its [Read] function: the bytes that can be read at an address, at
    most as many as asked for.  A reader returns [None] where the C++ returns false,
    with the cursor it leaves behind; shifting by 64 or more is a fault, so a LEB128
    loop runs at most eleven times. *)

From S2P Require Import Prelude.

(** The width of [AddressType] in bytes: 4 or 8. *)
Class AddressType : Type := {
  asz : Z;
  asz_cases : asz = 4 \/ asz = 8
}.

Definition Addr32 : AddressType := {| asz := 4; asz_cases := or_introl eq_refl |}.
Definition Addr64 : AddressType := {| asz := 8; asz_cases := or_intror eq_refl |}.

(** [Memory::Read(addr, dst, size)]: the bytes copied to [dst]. *)
Definition Memory : Type := Z -> Z -> list Z.

(** [Memory::ReadFully] *)
Definition ReadFully (m : Memory) (addr size : Z) : option (list Z) :=
  let d := m addr size in if blen d =? size then Some d else None.

(** ** DwarfEncoding.h *)

Definition DW_EH_PE_omit : Z := 255.
Definition DW_EH_PE_absptr : Z := 0.
Definition DW_EH_PE_uleb128 : Z := 1.
Definition DW_EH_PE_udata2 : Z := 2.
Definition DW_EH_PE_udata4 : Z := 3.
Definition DW_EH_PE_udata8 : Z := 4.
Definition DW_EH_PE_sleb128 : Z := 9.
Definition DW_EH_PE_sdata2 : Z := 10.
Definition DW_EH_PE_sdata4 : Z := 11.
Definition DW_EH_PE_sdata8 : Z := 12.
Definition DW_EH_PE_pcrel : Z := 16.
Definition DW_EH_PE_textrel : Z := 32.
Definition DW_EH_PE_datarel : Z := 48.
Definition DW_EH_PE_funcrel : Z := 64.
Definition DW_EH_PE_aligned : Z := 80.
Definition DW_EH_PE_udata1 : Z := 13.
Definition DW_EH_PE_sdata1 : Z := 14.
Definition DW_EH_PE_block : Z := 15.

(** [static_cast<uint64_t>(-1)]: an offset that is not set. *)
Definition NO_OFFSET : Z := 2 ^ 64 - 1.

Module DwarfMemory.
Record t : Type := mk {
  memory_ : Memory;
  cur_offset : Z;
  pc_offset : Z;
  data_offset : Z;
  func_offset : Z;
  text_offset : Z
}.

Definition new (m : Memory) : t := mk m 0 NO_OFFSET NO_OFFSET NO_OFFSET NO_OFFSET.

Definition set_cur_offset (o : Z) (d : t) : t :=
  mk (memory_ d) o (pc_offset d) (data_offset d) (func_offset d) (text_offset d).
Definition set_pc_offset (o : Z) (d : t) : t :=
  mk (memory_ d) (cur_offset d) o (data_offset d) (func_offset d) (text_offset d).
Definition clear_pc_offset (d : t) : t := set_pc_offset NO_OFFSET d.
Definition set_data_offset (o : Z) (d : t) : t :=
  mk (memory_ d) (cur_offset d) (pc_offset d) o (func_offset d) (text_offset d).
Definition clear_data_offset (d : t) : t := set_data_offset NO_OFFSET d.
Definition set_func_offset (o : Z) (d : t) : t :=
  mk (memory_ d) (cur_offset d) (pc_offset d) (data_offset d) o (text_offset d).
Definition clear_func_offset (d : t) : t := set_func_offset NO_OFFSET d.
Definition set_text_offset (o : Z) (d : t) : t :=
  mk (memory_ d) (cur_offset d) (pc_offset d) (data_offset d) (func_offset d) o.
Definition clear_text_offset (d : t) : t := set_text_offset NO_OFFSET d.

(** A reader: the value ([None] for false) and the cursor afterwards. *)
Definition reader (A : Type) : Type := t -> outcome (option A * t).

Definition rret {A} (a : A) : reader A := fun d => Ok (Some a, d).
Definition rfail {A} : reader A := fun d => Ok (None, d).

(** [if (!first) return false; ...] *)
Definition rbind {A B} (m : reader A) (k : A -> reader B) : reader B := fun d =>
  r ← m d;
  match r with
  | (Some a, d) => k a d
  | (None, d) => Ok (None, d)
  end.

Definition ReadBytes (num_bytes : Z) : reader (list Z) := fun d =>
  match ReadFully (memory_ d) (cur_offset d) num_bytes with
  | None => Ok (None, d)
  | Some bs => Ok (Some bs, set_cur_offset (u64 (cur_offset d + num_bytes)) d)
  end.

(** An unsigned little-endian value of [n] bytes. *)
Definition ReadUnsigned (n : Z) : reader Z := rbind (ReadBytes n) (fun bs => rret (le_val bs)).

(** [ReadSigned<intN_t>]: sign-extended to 64 bits. *)
Definition ReadSigned (n : Z) : reader Z :=
  rbind (ReadBytes n) (fun bs => rret (u64 (swrap (8 * n) (le_val bs)))).

(** The common loop of [ReadULEB128] and [ReadSLEB128]: the value, the final [shift] and
    the last byte.  The eleventh byte would be shifted by 70. *)
Fixpoint leb_loop (fuel : nat) (cur_value shift : Z) : reader (Z * Z * Z) :=
  match fuel with
  | O => fun _ => Fault BadShift
  | S fuel =>
      rbind (ReadBytes 1) (fun bs d =>
        let byte := le_val bs in
        if 64 <=? shift then Fault BadShift
        else
          let cur_value := u64 (cur_value + u64 (Z.shiftl (Z.land byte 127) shift)) in
          let shift := shift + 7 in
          if Z.land byte 128 =? 0 then Ok (Some (cur_value, shift, byte), d)
          else leb_loop fuel cur_value shift d)
  end.

Definition ReadULEB128 : reader Z := rbind (leb_loop 11 0 0) (fun r => rret r.1.1).

(** The result is the [int64_t]. *)
Definition ReadSLEB128 : reader Z :=
  rbind (leb_loop 11 0 0) (fun '(cur_value, shift, byte) d =>
    if Z.land byte 64 =? 0 then Ok (Some (swrap 64 cur_value), d)
    else if 64 <=? shift then Fault BadShift
    else Ok (Some (swrap 64 (Z.lor cur_value (u64 (Z.shiftl (2 ^ 64 - 1) shift)))), d)).

Section WithAddress.
Context {AT : AddressType}.

Definition GetEncodedSize (encoding : Z) : Z :=
  let e := Z.land encoding 15 in
  if e =? DW_EH_PE_absptr then asz
  else if (e =? DW_EH_PE_udata1) || (e =? DW_EH_PE_sdata1) then 1
  else if (e =? DW_EH_PE_udata2) || (e =? DW_EH_PE_sdata2) then 2
  else if (e =? DW_EH_PE_udata4) || (e =? DW_EH_PE_sdata4) then 4
  else if (e =? DW_EH_PE_udata8) || (e =? DW_EH_PE_sdata8) then 8
  else 0.

(** [value += offset], false when the offset is not set. *)
Definition add_offset (offset value : Z) : reader Z := fun d =>
  if offset =? NO_OFFSET then Ok (None, d) else Ok (Some (u64 (value + offset)), d).

Definition AdjustEncodedValue (encoding value : Z) : reader Z := fun d =>
  if negb (Z.land encoding 15 =? 0) then Fault CheckFailed
  else if encoding =? DW_EH_PE_aligned then Fault CheckFailed
  else if encoding =? DW_EH_PE_absptr then Ok (Some value, d)
  else if encoding =? DW_EH_PE_pcrel then add_offset (pc_offset d) value d
  else if encoding =? DW_EH_PE_textrel then add_offset (text_offset d) value d
  else if encoding =? DW_EH_PE_datarel then add_offset (data_offset d) value d
  else if encoding =? DW_EH_PE_funcrel then add_offset (func_offset d) value d
  else Ok (None, d).

(** The [switch] of [ReadEncodedValue]. *)
Definition read_encoded_data (encoding : Z) : reader Z :=
  let e := Z.land encoding 15 in
  if e =? DW_EH_PE_absptr then ReadUnsigned asz
  else if e =? DW_EH_PE_uleb128 then ReadULEB128
  else if e =? DW_EH_PE_sleb128 then rbind ReadSLEB128 (fun v => rret (u64 v))
  else if e =? DW_EH_PE_udata1 then ReadUnsigned 1
  else if e =? DW_EH_PE_sdata1 then ReadSigned 1
  else if e =? DW_EH_PE_udata2 then ReadUnsigned 2
  else if e =? DW_EH_PE_sdata2 then ReadSigned 2
  else if e =? DW_EH_PE_udata4 then ReadUnsigned 4
  else if e =? DW_EH_PE_sdata4 then ReadSigned 4
  else if e =? DW_EH_PE_udata8 then ReadUnsigned 8
  else if e =? DW_EH_PE_sdata8 then ReadSigned 8
  else rfail.

Definition ReadEncodedValue (encoding : Z) : reader Z := fun d =>
  if encoding =? DW_EH_PE_omit then Ok (Some 0, d)
  else if encoding =? DW_EH_PE_aligned then
    let sum := cur_offset d + (asz - 1) in
    (* the sum is stored even when it overflows *)
    if 2 ^ 64 <=? sum then Ok (None, set_cur_offset (u64 sum) d)
    else ReadUnsigned asz (set_cur_offset (Z.land sum (u64 (- asz))) d)
  else rbind (read_encoded_data encoding) (AdjustEncodedValue (Z.land encoding 112)) d.
End WithAddress.

(** ** LEB128 *)

(** The bytes [bs] can be read one by one from the cursor on. *)
Definition holds (d : t) (bs : list Z) : Prop :=
  forall (i : nat) b, bs !! i = Some b -> memory_ d (u64 (cur_offset d + Z.of_nat i)) 1 = [b].

Lemma read_byte d b bs :
  in_u 64 (cur_offset d) -> holds d (b :: bs) ->
  exists d', ReadBytes 1 d = Ok (Some [b], d') /\ d' = set_cur_offset (u64 (cur_offset d + 1)) d /\
    holds d' bs /\ in_u 64 (cur_offset d').
Proof.
  intros Hc Hh. eexists. unfold ReadBytes, ReadFully.
  pose proof (Hh O b eq_refl) as H0. cbn in H0. rewrite Z.add_0_r, uwrap_small in H0 by done.
  rewrite H0. split; [reflexivity|]. split; [done|]. split; [|apply uwrap_range; lia].
  intros j c Hj. cbn [set_cur_offset cur_offset memory_]. rewrite <- (Hh (S j) c Hj). f_equal.
  unfold uwrap. rewrite Zplus_mod_idemp_l. f_equal. lia.
Qed.

(** The value of a sequence of LEB128 bytes, and the encoding of [v] in [n + 1] bytes
    (padded if fewer would do; two's complement when [v] is negative). *)
Fixpoint leb_val (bs : list Z) : Z :=
  match bs with
  | [] => 0
  | b :: bs => b mod 128 + 128 * leb_val bs
  end.

Fixpoint leb_bytes (n : nat) (v : Z) : list Z :=
  match n with
  | O => [v mod 128]
  | S n => (v mod 128 + 128) :: leb_bytes n (v / 128)
  end.

Lemma length_leb_bytes n v : length (leb_bytes n v) = S n.
Proof. revert v. induction n; intros v; cbn; [done|]. by rewrite IHn. Qed.

Lemma leb_val_bytes n v : leb_val (leb_bytes n v) = v mod 2 ^ (7 * (Z.of_nat n + 1)).
Proof.
  revert v. induction n as [|n IH]; intros v; cbn [leb_bytes leb_val].
  - rewrite Zmod_mod. change (2 ^ (7 * (Z.of_nat 0 + 1))) with 128. lia.
  - rewrite IH. replace (v mod 128 + 128) with (v mod 128 + 1 * 128) by lia.
    rewrite Z.mod_add, Zmod_mod by lia.
    replace (7 * (Z.of_nat (S n) + 1)) with (7 + 7 * (Z.of_nat n + 1)) by lia.
    rewrite Z.pow_add_r by lia. change (2 ^ 7) with 128.
    rewrite (Z.rem_mul_r v 128) by lia. done.
Qed.

Lemma land_127 b : Z.land b 127 = b mod 128.
Proof. change 127 with (Z.ones 7). by rewrite Z.land_ones. Qed.

Lemma land_128_clear b : 0 <= b < 128 -> Z.land b 128 = 0.
Proof.
  intros Hb. apply Z.bits_inj'. intros n Hn. rewrite Z.land_spec, Z.bits_0.
  destruct (Z.eq_dec n 7) as [-> | Hne].
  - rewrite (Z.bits_above_log2 b); [done|lia|].
    destruct (Z.eq_dec b 0) as [-> | ?]; [cbn; lia|]. apply Z.log2_lt_pow2; lia.
  - change 128 with (2 ^ 7). rewrite Z.pow2_bits_false by lia. by rewrite andb_false_r.
Qed.

Lemma land_128_set b : 0 <= b < 128 -> Z.land (b + 128) 128 <> 0.
Proof.
  intros Hb H. assert (Z.testbit (Z.land (b + 128) 128) 7 = false) as HF by (rewrite H; apply Z.bits_0).
  rewrite Z.land_spec in HF. change (Z.testbit 128 7) with true in HF. rewrite andb_true_r in HF.
  rewrite Z.testbit_eqb in HF by lia. change (2 ^ 7) with 128 in HF.
  replace (b + 128) with (b + 1 * 128) in HF by lia.
  rewrite Z.div_add, Z.div_small in HF by lia. done.
Qed.

Lemma leb_result (a a' b b' c c' : Z) (d : t) :
  a = a' -> b = b' -> c = c' -> Ok (Some (a, b, c), d) = Ok (Some (a', b', c'), d).
Proof. by intros -> -> ->. Qed.

(** The loop on an encoding of [n + 1] bytes whose shifts all stay below 64. *)
Lemma leb_loop_bytes n fuel v acc shift d :
  in_u 64 (cur_offset d) -> holds d (leb_bytes n v) -> 0 <= shift ->
  shift + 7 * Z.of_nat n < 64 -> (n < fuel)%nat ->
  exists d', leb_loop fuel acc shift d =
      Ok (Some (u64 (acc + 2 ^ shift * leb_val (leb_bytes n v)), shift + 7 * (Z.of_nat n + 1),
                (v / 128 ^ Z.of_nat n) mod 128), d') /\
    d' = set_cur_offset (u64 (cur_offset d + Z.of_nat (S n))) d.
Proof.
  revert fuel v acc shift d. induction n as [|n IH]; intros fuel v acc shift d Hc Hh Hs Hlt Hf;
    (destruct fuel as [|fuel]; [lia|]); cbn [leb_loop leb_bytes leb_val] in *; unfold rbind.
  - destruct (read_byte d _ _ Hc Hh) as (d' & -> & Hd & _). rewrite bind_Ok. cbn [le_val].
    rewrite Z.mul_0_r, Z.add_0_r. destruct (Z.leb_spec 64 shift); [lia|].
    pose proof (Z.mod_pos_bound v 128 ltac:(lia)).
    rewrite land_128_clear, land_127, !Zmod_mod by lia. cbn [Z.eqb].
    exists d'. split; [|done]. rewrite Z.mul_0_r, Z.add_0_r, Z.pow_0_r, Z.div_1_r, Z.mul_1_r.
    apply leb_result; [|lia|done]. unfold uwrap. rewrite Zplus_mod_idemp_r, Z.shiftl_mul_pow2 by lia.
    f_equal. lia.
  - destruct (read_byte d _ _ Hc Hh) as (d' & -> & Hd & Hh' & Hc'). rewrite bind_Ok. cbn [le_val].
    rewrite Z.mul_0_r, Z.add_0_r. destruct (Z.leb_spec 64 shift); [lia|].
    pose proof (Z.mod_pos_bound v 128 ltac:(lia)).
    destruct (Z.eqb_spec (Z.land (v mod 128 + 128) 128) 0) as [HZ | _];
      [by apply land_128_set in HZ|].
    rewrite land_127. replace (v mod 128 + 128) with (v mod 128 + 1 * 128) by lia.
    rewrite Z.mod_add, Zmod_mod by lia.
    destruct (IH fuel (v / 128) (u64 (acc + u64 (Z.shiftl (v mod 128) shift))) (shift + 7) d' Hc' Hh')
      as (d2 & -> & Hd2); [lia|lia|lia|].
    exists d2. split.
    + replace (128 ^ Z.of_nat (S n)) with (128 * 128 ^ Z.of_nat n)
        by (rewrite Nat2Z.inj_succ, Z.pow_succ_r; lia).
      rewrite <- Z.div_div by lia. apply leb_result; [|lia|done].
      unfold uwrap. rewrite !Zplus_mod_idemp_r, !Zplus_mod_idemp_l, Z.shiftl_mul_pow2 by lia.
      f_equal. rewrite Z.pow_add_r by lia. change (2 ^ 7) with 128. lia.
    + rewrite Hd2, Hd. unfold set_cur_offset. cbn [memory_ cur_offset pc_offset data_offset func_offset text_offset].
      f_equal. unfold uwrap. rewrite Zplus_mod_idemp_l. f_equal. lia.
Qed.

(** The mask [ReadSLEB128] extends the sign with. *)
Lemma sign_mask s : 0 <= s <= 64 -> u64 (Z.shiftl (2 ^ 64 - 1) s) = 2 ^ 64 - 2 ^ s.
Proof.
  intros Hs. unfold uwrap. rewrite Z.shiftl_mul_pow2 by lia.
  replace ((2 ^ 64 - 1) * 2 ^ s) with (2 ^ 64 - 2 ^ s + (2 ^ s - 1) * 2 ^ 64) by lia.
  rewrite Z.mod_add by lia. apply Z.mod_small.
  assert (0 < 2 ^ s <= 2 ^ 64); [|lia]. split; [lia|]. apply Z.pow_le_mono_r; lia.
Qed.

Lemma lor_sign_mask c s : 0 <= s <= 64 -> 0 <= c < 2 ^ s -> Z.lor c (2 ^ 64 - 2 ^ s) = c + (2 ^ 64 - 2 ^ s).
Proof.
  intros Hs Hc. rewrite <- Z.lxor_lor; [rewrite <- Z.add_nocarry_lxor; [done|]|].
  all: apply Z.bits_inj'; intros n Hn; rewrite Z.land_spec, Z.bits_0;
    replace (2 ^ 64 - 2 ^ s) with (Z.shiftl (2 ^ (64 - s) - 1) s)
      by (rewrite Z.shiftl_mul_pow2, Z.mul_sub_distr_r, <- Z.pow_add_r by lia;
          replace (64 - s + s) with 64 by lia; lia);
    rewrite Z.shiftl_spec by lia;
    (destruct (Z.lt_ge_cases n s); [rewrite (Z.testbit_neg_r _ (n - s)) by lia; apply andb_false_r|]);
    rewrite <- (Z.mod_small c (2 ^ s)) by lia; rewrite Z.mod_pow2_bits_high by lia; done.
Qed.

Lemma land_64 b : 0 <= b < 128 -> (Z.land b 64 =? 0) = (b <? 64).
Proof.
  intros Hb. assert (forallb (fun b => eqb (Z.land b 64 =? 0) (b <? 64)) (map Z.of_nat (seq 0 128)) = true)
    as HF by (vm_compute; reflexivity).
  rewrite List.forallb_forall in HF. apply eqb_prop, HF. apply in_map_iff.
  exists (Z.to_nat b). split; [lia|]. apply in_seq. lia.
Qed.

(** The last byte of an encoding shows the sign in its bit 6. *)
Lemma leb_sign n v :
  - 64 * 128 ^ Z.of_nat n <= v < 64 * 128 ^ Z.of_nat n ->
  (Z.land ((v / 128 ^ Z.of_nat n) mod 128) 64 =? 0) = negb (v <? 0).
Proof.
  intros Hv. set (p := 128 ^ Z.of_nat n) in *. assert (0 < p) by (unfold p; lia).
  assert (-64 <= v / p < 64) as Hq.
  { split; [apply Z.div_le_lower_bound; lia|apply Z.div_lt_upper_bound; lia]. }
  rewrite land_64 by (apply Z.mod_pos_bound; lia).
  destruct (Z.ltb_spec v 0) as [Hn | Hn]; cbn [negb].
  - assert (v / p < 0) by (apply Z.div_lt_upper_bound; lia).
    replace ((v / p) mod 128) with (v / p + 128); [apply Z.ltb_ge; lia|].
    rewrite <- (Z.mod_small (v / p + 128) 128) by lia.
    replace (v / p + 128) with (v / p + 1 * 128) by lia. by rewrite Z.mod_add by lia.
  - assert (0 <= v / p) by (apply Z.div_pos; lia). rewrite Z.mod_small by lia. apply Z.ltb_lt. lia.
Qed.

Lemma pow128 n : 64 * 128 ^ Z.of_nat n = 2 ^ (7 * Z.of_nat n + 6).
Proof. rewrite Z.pow_add_r, Z.pow_mul_r by lia. change (2 ^ 7) with 128. lia. Qed.

(** ** Properties *)

(** [ReadULEB128] decodes every unsigned 64-bit value from any of its encodings of up
    to ten bytes (padded ones included) and leaves the cursor behind the last byte. *)
Theorem read_uleb128_decodes d n v :
  in_u 64 (cur_offset d) -> 0 <= v < 2 ^ (7 * (Z.of_nat n + 1)) -> in_u 64 v -> (n <= 9)%nat ->
  holds d (leb_bytes n v) ->
  ReadULEB128 d = Ok (Some v, set_cur_offset (u64 (cur_offset d + Z.of_nat (S n))) d).
Proof.
  intros Hc Hv Hu Hn Hh. unfold ReadULEB128, rbind.
  destruct (leb_loop_bytes n 11 v 0 0 d Hc Hh) as (d' & -> & ->); [lia|lia|lia|].
  rewrite bind_Ok. unfold rret. cbn [fst]. do 3 f_equal.
  rewrite leb_val_bytes, Z.mod_small by done. rewrite Z.pow_0_r, Z.mul_1_l. by apply uwrap_small.
Qed.

(** [ReadSLEB128] decodes every signed value from its encodings of up to nine bytes;
    for a ten-byte encoding of a negative value (which -2^63 needs) the sign
    extension shifts a 64-bit value by 70, which C++ leaves undefined. *)
Theorem read_sleb128_decodes d n v :
  in_u 64 (cur_offset d) -> - 64 * 128 ^ Z.of_nat n <= v < 64 * 128 ^ Z.of_nat n ->
  - 2 ^ 63 <= v < 2 ^ 63 -> (n <= 9)%nat -> holds d (leb_bytes n v) ->
  ReadSLEB128 d =
    if bool_decide (n = 9%nat /\ v < 0) then Fault BadShift
    else Ok (Some v, set_cur_offset (u64 (cur_offset d + Z.of_nat (S n))) d).
Proof.
  intros Hc Hv H64 Hn Hh. unfold ReadSLEB128, rbind.
  destruct (leb_loop_bytes n 11 v 0 0 d Hc Hh) as (d' & -> & ->); [lia|lia|lia|].
  rewrite bind_Ok, leb_sign, leb_val_bytes by done. rewrite Z.pow_0_r, Z.mul_1_l, !Z.add_0_l.
  rewrite pow128 in Hv. set (s := 7 * (Z.of_nat n + 1)) in *.
  assert (2 ^ s = 2 * 2 ^ (7 * Z.of_nat n + 6)) as Hp.
  { rewrite <- Z.pow_succ_r by lia. f_equal. unfold s. lia. }
  replace (- 64 * 128 ^ Z.of_nat n) with (- (64 * 128 ^ Z.of_nat n)) in Hv by lia.
  rewrite pow128 in Hv.
  destruct (Z.ltb_spec v 0) as [Hneg | Hpos]; cbn [negb].
  - destruct (Z.leb_spec 64 s).
    { rewrite bool_decide_eq_true_2; [done|]. split; [unfold s in *; lia|done]. }
    rewrite bool_decide_eq_false_2 by (unfold s in *; lia). do 3 f_equal.
    assert (v mod 2 ^ s = v + 2 ^ s) as Hm.
    { rewrite <- (Z.mod_small (v + 2 ^ s) (2 ^ s)) by lia.
      replace (v + 2 ^ s) with (v + 1 * 2 ^ s) by lia. by rewrite Z.mod_add by lia. }
    assert (2 ^ s <= 2 ^ 63) by (apply Z.pow_le_mono_r; lia).
    rewrite Hm, (uwrap_small 64 (v + 2 ^ s)) by (unfold in_u; lia).
    rewrite sign_mask, lor_sign_mask by (unfold s in *; lia).
    replace (v + 2 ^ s + (2 ^ 64 - 2 ^ s)) with (v + 2 ^ 64) by lia.
    rewrite <- swrap_uwrap by lia. unfold uwrap. replace (v + 2 ^ 64) with (v + 1 * 2 ^ 64) by lia.
    rewrite Z.mod_add by lia. change (v mod 2 ^ 64) with (u64 v). rewrite swrap_uwrap by lia.
    by apply swrap_small.
  - rewrite bool_decide_eq_false_2 by lia. rewrite (Z.mod_small v) by lia.
    rewrite uwrap_small by (unfold in_u; lia). by rewrite swrap_small by lia.
Qed.

(** [ReadEncodedValue] is not robust against its input: an encoding byte with the
    aligned application bits and a data format passes the test for DW_EH_PE_aligned
    and, once its data is read, runs into the CHECK of [AdjustEncodedValue], which
    aborts the process. *)
Theorem read_encoded_aligned_aborts {AT : AddressType} d encoding v d' :
  Z.land encoding 112 = DW_EH_PE_aligned -> encoding <> DW_EH_PE_aligned -> encoding <> DW_EH_PE_omit ->
  read_encoded_data encoding d = Ok (Some v, d') ->
  ReadEncodedValue encoding d = Fault CheckFailed.
Proof.
  intros Ha Hn Ho Hr. unfold ReadEncodedValue.
  destruct (Z.eqb_spec encoding DW_EH_PE_omit); [done|].
  destruct (Z.eqb_spec encoding DW_EH_PE_aligned); [done|].
  unfold rbind. rewrite Hr, bind_Ok. unfold AdjustEncodedValue. rewrite Ha. done.
Qed.

(** ** Witnesses *)

(** A memory that holds the bytes [bs] at address 0. *)
Definition buffer (bs : list Z) : Memory := fun a n => slice a n bs.

Lemma buffer_holds bs : (length bs < 16)%nat -> holds (new (buffer bs)) bs.
Proof.
  intros Hl i b Hi. cbn [new memory_ cur_offset]. rewrite Z.add_0_l.
  apply lookup_lt_Some in Hi as Hlt. rewrite uwrap_small by (unfold in_u; lia).
  unfold buffer, slice. rewrite Nat2Z.id. apply drop_S in Hi. by rewrite Hi.
Qed.

Lemma read_uleb128_decodes_witness :
  exists d, ReadULEB128 (new (buffer [229; 142; 38])) = Ok (Some 624485, d).
Proof.
  rewrite (read_uleb128_decodes (new (buffer [229; 142; 38])) 2 624485);
    [eauto|vm_compute; split; congruence|vm_compute; split; congruence|vm_compute; split; congruence|lia|].
  apply (buffer_holds [229; 142; 38]). cbn. lia.
Defined.

Lemma read_sleb128_decodes_witness :
  ReadSLEB128 (new (buffer (leb_bytes 9 (- 2 ^ 63)))) = Fault BadShift.
Proof.
  rewrite (read_sleb128_decodes (new (buffer (leb_bytes 9 (- 2 ^ 63)))) 9 (- 2 ^ 63));
    [reflexivity|vm_compute; split; congruence|vm_compute; split; congruence
    |vm_compute; split; congruence|lia|].
  apply (buffer_holds (leb_bytes 9 (- 2 ^ 63))). rewrite length_leb_bytes. lia.
Defined.

Lemma read_encoded_aligned_aborts_witness :
  ReadEncodedValue (AT := Addr64) 81 (new (buffer [1])) = Fault CheckFailed.
Proof.
  apply (read_encoded_aligned_aborts (AT := Addr64) (new (buffer [1])) 81 1
           (set_cur_offset 1 (new (buffer [1]))));
    [reflexivity|vm_compute; congruence|vm_compute; congruence|vm_compute; reflexivity].
Defined.
End DwarfMemory.
