(* ===== verification/UwMemory.v ===== *)
(** * libunwindstack: memories

    Models external/libunwindstack-ndk/Memory.cpp and include/unwindstack/Memory.h: the
    classes that implement the [Read] function of a [Memory].  [MemoryBuffer],
    [MemoryRange] and [MemoryOffline] read bytes that are at hand; [MemoryRemote] reads
    another process, through process_vm_readv or word by word through ptrace.

    The other process is its memory [image], the pages process_vm_readv accepts
    ([mapped]) and the words ptrace accepts ([peekable]). *)

From S2P Require Import Prelude UwDwarfMemory.

(** ** [Memory::ReadString] *)

(** The loop, with fuel; the string read so far is kept in reverse.  [None]: out of fuel. *)
Fixpoint read_string (m : Memory) (fuel : nat) (addr max_read bytes_read : Z) (string : list Z)
    : option (bool * list Z) :=
  match fuel with
  | O => None
  | S fuel =>
      if bytes_read <? max_read then
        match ReadFully m addr 1 with
        | None => Some (false, reverse string)
        | Some value =>
            if le_val value =? 0 then Some (true, reverse string)
            else read_string m fuel (u64 (addr + 1)) max_read (bytes_read + 1) (le_val value :: string)
        end
      else Some (false, reverse string)
  end.

Definition ReadString (m : Memory) (fuel : nat) (addr max_read : Z) : option (bool * list Z) :=
  read_string m fuel addr max_read 0 [].

Module MemoryBuffer.
Definition Read (raw : list Z) : Memory := fun addr size =>
  if blen raw <=? addr then []
  else
    let bytes_left := blen raw - addr in
    let actual_len := Z.min bytes_left size in
    slice addr actual_len raw.
End MemoryBuffer.

Module MemoryRange.
Record t : Type := mk { memory_ : Memory; begin_ : Z; length_ : Z; offset_ : Z }.

Definition Read (r : t) : Memory := fun addr size =>
  if addr <? offset_ r then []
  else
    let read_offset := addr - offset_ r in
    if length_ r <=? read_offset then []
    else
      let read_length := Z.min size (length_ r - read_offset) in
      let read_addr := read_offset + begin_ r in
      if 2 ^ 64 <=? read_addr then [] else memory_ r read_addr read_length.
End MemoryRange.

Module MemoryFileAtOffset.
Section WithArch.
Context {A : Arch}.

(** [data_] is the mapped file from the pointer on. *)
Record t : Type := mk { size_ : Z; offset_ : Z; data_ : option (list Z) }.
Definition new : t := mk 0 0 None.

Definition Clear (f : t) : t :=
  match data_ f with
  | Some _ => mk (size_ f) (offset_ f) None
  | None => f
  end.

(** [Init(file, offset, size)]: [content] is the file ([None]: it cannot be opened), and
    [mmap_ok] tells whether it can be mapped. *)
Definition Init (page_size : Z) (mmap_ok : bool) (content : option (list Z)) (offset size : Z)
    (f : t) : bool * t :=
  let f := Clear f in
  match content with
  | None => (false, f)
  | Some c =>
      if blen c <=? offset then (false, f)
      else
        let off := szw (Z.land offset (page_size - 1)) in
        let aligned_offset := Z.land offset (u64 (Z.lnot (page_size - 1))) in
        let f := mk (size_ f) off (data_ f) in
        if (blen c <? aligned_offset) || (blen c <? offset) then (false, f)
        else
          let sz := szw (blen c - aligned_offset) in
          let max_size := size + off in
          let sz := if (max_size <? 2 ^ 64) && (max_size <? sz) then szw max_size else sz in
          if mmap_ok then
            (true, mk (szw (sz - off)) off (Some (slice (aligned_offset + off) (sz - off) c)))
          else (false, mk sz off (data_ f))
  end.

Definition Read (f : t) (addr size : Z) : outcome (list Z) :=
  if size_ f <=? addr then Ok []
  else
    let bytes_left := size_ f - addr in
    let actual_len := Z.min bytes_left size in
    d ← of_option NullDeref (data_ f);
    mem_read d addr actual_len.

(** A successfully initialised file as a memory. *)
Definition memory (f : t) : Memory := fun addr size =>
  match Read f addr size with Ok d => d | Fault _ => [] end.
End WithArch.
End MemoryFileAtOffset.

Module MemoryOffline.
Section WithArch.
Context {A : Arch}.

(** [Init(file, offset)]: the file starts with the address of its first byte. *)
Definition Init (page_size : Z) (mmap_ok : bool) (content : option (list Z)) (offset : Z)
    (memory : option MemoryRange.t) : bool * option MemoryRange.t :=
  match MemoryFileAtOffset.Init page_size mmap_ok content offset (2 ^ 64 - 1)
          MemoryFileAtOffset.new with
  | (false, _) => (false, memory)
  | (true, f) =>
      match ReadFully (MemoryFileAtOffset.memory f) 0 8 with
      | None => (false, memory)
      | Some start =>
          let size := MemoryFileAtOffset.size_ f in
          if size <? 8 then (false, memory)
          else (true, Some (MemoryRange.mk (MemoryFileAtOffset.memory f) 8 (size - 8) (le_val start)))
      end
  end.

Definition Read (memory : option MemoryRange.t) : Memory := fun addr size =>
  match memory with None => [] | Some r => MemoryRange.Read r addr size end.
End WithArch.
End MemoryOffline.

Module MemoryOfflineParts.
(** The first part that gives a byte. *)
Fixpoint Read (memories : list (option MemoryRange.t)) (addr size : Z) : list Z :=
  match memories with
  | [] => []
  | m :: memories =>
      let d := MemoryOffline.Read m addr size in
      if negb (blen d =? 0) then d else Read memories addr size
  end.
End MemoryOfflineParts.

Module MemoryRemote.
Section WithArch.
Context {A : Arch}.
Variable image : Z -> Z.
Variable page_size : Z.
Variable mapped : Z -> bool.
Variable peekable : Z -> bool.

(** The bytes of the process from [a] on. *)
Definition range (a n : Z) : list Z := image <$> seqZ a n.

(** The system call copies the pieces in order up to the first page it cannot read. *)
Fixpoint process_vm_readv (iovs : list (Z * Z)) : list Z :=
  match iovs with
  | [] => []
  | (base, len) :: iovs =>
      if mapped (base / page_size) then range base len ++ process_vm_readv iovs else []
  end.

(** It fails when it can copy nothing. *)
Definition readv (iovs : list (Z * Z)) : option (list Z) :=
  match process_vm_readv iovs with [] => None | d => Some d end.

Definition kMaxIovecs : nat := 64.

(** The inner loop: the pieces, none of them across a page boundary, the address reached
    and what is left.  [None]: the early return. *)
Fixpoint build_iovs (room : nat) (cur len : Z) : option (list (Z * Z) * Z * Z) :=
  if len <=? 0 then Some ([], cur, len)
  else
    match room with
    | O => Some ([], cur, len)
    | S room =>
        if 2 ^ size_bits - 1 <=? cur then None
        else
          let misalignment := Z.land cur (page_size - 1) in
          let iov_len := Z.min (page_size - misalignment) len in
          if 2 ^ 64 <=? cur + iov_len then None
          else
            match build_iovs room (cur + iov_len) (len - iov_len) with
            | None => None
            | Some (iovs, cur', len') => Some ((cur, iov_len) :: iovs, cur', len')
            end
    end.

(** The outer loop; every round takes at least a byte off [len], which bounds it. *)
Fixpoint vm_loop (fuel : nat) (cur len : Z) (read : list Z) : list Z :=
  match fuel with
  | O => read
  | S fuel =>
      if len <=? 0 then read
      else
        match build_iovs kMaxIovecs cur len with
        | None => read
        | Some (iovs, cur, len) =>
            match readv iovs with
            | None => read
            | Some d => vm_loop fuel cur len (read ++ d)
            end
        end
  end.

Definition ProcessVmRead (remote_src len : Z) : list Z :=
  vm_loop (S (Z.to_nat len)) remote_src len [].

Definition PtraceReadLong (addr : Z) : option (list Z) :=
  if peekable (szw addr) then Some (range (szw addr) szc) else None.

(** The loop over whole words: what was read, and the address after it when all were. *)
Fixpoint peek_words (n : nat) (addr : Z) : list Z * option Z :=
  match n with
  | O => ([], Some addr)
  | S n =>
      match PtraceReadLong addr with
      | None => ([], None)
      | Some data => let r := peek_words n (addr + szc) in (data ++ r.1, r.2)
      end
  end.

(** From an aligned address on: the words and the left-over bytes. *)
Definition peek_aligned (addr bytes : Z) : list Z :=
  match peek_words (Z.to_nat (bytes / szc)) addr with
  | (d, None) => d
  | (d, Some addr) =>
      let left_over := Z.land bytes (szc - 1) in
      if left_over =? 0 then d
      else match PtraceReadLong addr with
           | None => d
           | Some data => d ++ take (Z.to_nat left_over) data
           end
  end.

Definition PtraceRead (addr bytes : Z) : list Z :=
  if 2 ^ 64 <=? addr + bytes then []
  else
    let align_bytes := Z.land addr (szc - 1) in
    if negb (align_bytes =? 0) then
      match PtraceReadLong (Z.land addr (szw (Z.lnot (szc - 1)))) with
      | None => []
      | Some data =>
          let copy_bytes := Z.min (szc - align_bytes) bytes in
          slice align_bytes copy_bytes data ++ peek_aligned (addr + copy_bytes) (bytes - copy_bytes)
      end
    else peek_aligned addr bytes.

(** [read_redirect_func_] *)
Inductive read_func : Type := UseVmRead | UsePtrace.

Definition Read (redirect : option read_func) (addr size : Z) : list Z * option read_func :=
  if (sizeof_size_t =? 4)%nat && (2 ^ 32 - 1 <? addr) then ([], redirect)
  else
    match redirect with
    | Some UseVmRead => (ProcessVmRead addr size, redirect)
    | Some UsePtrace => (PtraceRead addr size, redirect)
    | None =>
        let d := ProcessVmRead addr size in
        if 0 <? blen d then (d, Some UseVmRead)
        else
          let d := PtraceRead addr size in
          (d, if 0 <? blen d then Some UsePtrace else None)
    end.
End WithArch.
End MemoryRemote.

Module MemoryLocal.
Section WithArch.
Context {A : Arch}.
Variable image : Z -> Z.
Variable page_size : Z.
Variable mapped : Z -> bool.         (* the pages process_vm_readv can read *)
Variable loadable : Z -> bool.       (* the addresses the process itself can read *)

(** [Read]: process_vm_readv on the own process, else a copy, for which every byte must be readable. *)
Definition Read (addr size : Z) : outcome (list Z) :=
  let result := MemoryRemote.ProcessVmRead image page_size mapped addr size in
  if (blen result =? 0) && negb (size =? 0) then
    if forallb loadable (seqZ (szw addr) size) then Ok (MemoryRemote.range image (szw addr) size) else Fault OutOfBounds
  else Ok result.
End WithArch.
End MemoryLocal.

(** [Memory::CreateProcessMemory(pid)] *)
Inductive ProcessMemory : Type := LocalMemory | RemoteMemory (pid : Z).
Definition CreateProcessMemory (pid getpid : Z) : ProcessMemory := if pid =? getpid then LocalMemory else RemoteMemory pid.

(** ** Reading another process *)

Module RemoteFacts.
Import MemoryRemote.
Section Facts.
Context {A : Arch}.
Variable image : Z -> Z.

Lemma blen_range a n : 0 <= n -> blen (range image a n) = n.
Proof. intros. unfold blen, range. rewrite length_fmap, length_seqZ. lia. Qed.

Lemma range_app a n m :
  0 <= n -> 0 <= m -> range image a (n + m) = range image a n ++ range image (a + n) m.
Proof. intros. unfold range. by rewrite seqZ_app, fmap_app. Qed.

Lemma range_nil a : range image a 0 = [].
Proof. unfold range. by rewrite seqZ_nil. Qed.

Lemma range_take a n k : 0 <= k <= n -> take (Z.to_nat k) (range image a n) = range image a k.
Proof.
  intros. replace n with (k + (n - k)) by lia. rewrite range_app by lia.
  apply take_app_length'. rewrite <- (blen_range a k) at 1 by lia. unfold blen. lia.
Qed.

Lemma range_slice a n i k :
  0 <= i -> 0 <= k -> i + k <= n -> slice i k (range image a n) = range image (a + i) k.
Proof.
  intros. unfold slice. replace n with (i + (n - i)) by lia. rewrite range_app by lia.
  rewrite drop_app_length' by (rewrite <- (blen_range a i) at 1 by lia; unfold blen; lia).
  apply range_take. lia.
Qed.

Section Pages.
Variables (k : Z) (mapped : Z -> bool).
Hypothesis Hk : 0 <= k.
Let page_size := 2 ^ k.

Lemma page_mask a : Z.land a (page_size - 1) = a mod page_size.
Proof. unfold page_size. rewrite <- Z.land_ones by done. by rewrite Z.ones_equiv, Z.sub_1_r. Qed.

(** The pieces cover the range in order, all of them on readable pages. *)
Lemma build_iovs_spec room cur len :
  0 <= cur -> 0 <= len -> cur + len <= 2 ^ size_bits - 1 ->
  (forall a, cur <= a < cur + len -> mapped (a / page_size) = true) ->
  exists iovs n, build_iovs page_size room cur len = Some (iovs, cur + n, len - n) /\
    0 <= n <= len /\ (room <> O -> 0 < len -> 0 < n) /\
    process_vm_readv image page_size mapped iovs = range image cur n.
Proof.
  revert cur len. induction room as [|room IH]; intros cur len Hc Hl Hmax Hm.
  - exists [], 0. rewrite Z.add_0_r, Z.sub_0_r. cbn.
    split; [by destruct (len <=? 0)|]. split; [lia|]. split; [done|]. by rewrite range_nil.
  - cbn [build_iovs]. destruct (Z.leb_spec len 0).
    { exists [], 0. rewrite Z.add_0_r, Z.sub_0_r. split; [done|]. split; [lia|]. split; [lia|].
      by rewrite range_nil. }
    assert (2 ^ size_bits <= 2 ^ 64) as H64
      by (apply Z.pow_le_mono_r; [lia|]; unfold size_bits; destruct szc_cases; lia).
    assert (0 < page_size) as Hp by (apply Z.pow_pos_nonneg; lia).
    rewrite page_mask. pose proof (Z.mod_pos_bound cur page_size Hp).
    set (n1 := Z.min (page_size - cur mod page_size) len).
    destruct (Z.leb_spec (2 ^ size_bits - 1) cur); [lia|].
    destruct (Z.leb_spec (2 ^ 64) (cur + n1)); [lia|].
    destruct (IH (cur + n1) (len - n1)) as (iovs & n & HB & Hn & _ & HV); try lia.
    { intros a Ha. apply Hm. lia. }
    rewrite HB. exists ((cur, n1) :: iovs), (n1 + n).
    split; [do 2 f_equal; [f_equal|]; lia|]. split; [lia|]. split; [lia|].
    cbn [process_vm_readv]. rewrite Hm by lia. rewrite HV, range_app by lia. done.
Qed.

Lemma vm_loop_spec fuel cur len read :
  0 <= cur -> 0 <= len -> cur + len <= 2 ^ size_bits - 1 -> (Z.to_nat len < fuel)%nat ->
  (forall a, cur <= a < cur + len -> mapped (a / page_size) = true) ->
  vm_loop image page_size mapped fuel cur len read = read ++ range image cur len.
Proof.
  revert cur len read. induction fuel as [|fuel IH]; intros cur len read Hc Hl Hmax Hf Hm; [lia|].
  cbn [vm_loop]. destruct (Z.leb_spec len 0).
  { replace len with 0 by lia. by rewrite range_nil, app_nil_r. }
  destruct (build_iovs_spec kMaxIovecs cur len) as (iovs & n & HB & Hn & Hpos & HV); try done.
  rewrite HB. unfold readv. rewrite HV. specialize (Hpos ltac:(done) ltac:(lia)).
  destruct (range image cur n) as [|b d] eqn:E.
  { pose proof (blen_range cur n) as HL. rewrite E, blen_nil in HL. lia. }
  rewrite <- E. rewrite IH; try lia.
  - rewrite <- app_assoc, <- range_app by lia. do 2 f_equal. lia.
  - intros a Ha. apply Hm. lia.
Qed.

Lemma vm_read_exact addr len :
  0 <= addr -> 0 <= len -> addr + len <= 2 ^ size_bits - 1 ->
  (forall a, addr <= a < addr + len -> mapped (a / page_size) = true) ->
  ProcessVmRead image page_size mapped addr len = range image addr len.
Proof. intros. unfold ProcessVmRead. rewrite vm_loop_spec; try done. lia. Qed.

Lemma build_iovs_head room cur len iovs c l :
  0 < len -> build_iovs page_size (S room) cur len = Some (iovs, c, l) ->
  exists n r, iovs = (cur, n) :: r.
Proof.
  intros Hl. cbn [build_iovs]. destruct (Z.leb_spec len 0); [lia|]. destruct (_ <=? cur); [done|].
  destruct (2 ^ 64 <=? _); [done|]. destruct (build_iovs _ _ _ _) as [[[r c'] l']|]; [|done].
  intros [= <- _ _]. eauto.
Qed.

(** Nothing is read when the first page cannot be. *)
Lemma vm_read_unmapped addr len :
  0 < len -> mapped (addr / page_size) = false ->
  ProcessVmRead image page_size mapped addr len = [].
Proof.
  intros Hl Hm. unfold ProcessVmRead. cbn [vm_loop]. destruct (Z.leb_spec len 0); [lia|].
  destruct (build_iovs _ _ _ _) as [[[iovs c] l]|] eqn:E; [|done].
  apply (build_iovs_head 63) in E as (n & r & ->); [|done].
  unfold readv. cbn [process_vm_readv]. by rewrite Hm.
Qed.
End Pages.

(** Word by word: the words that overlap the range are readable. *)
Section Words.
Variable peekable : Z -> bool.

Definition words_ok (a n : Z) : Prop :=
  forall w, w mod szc = 0 -> a - szc < w < a + n -> peekable w = true.

Lemma szc_mask a : Z.land a (szc - 1) = a mod szc.
Proof.
  destruct szc_cases as [-> | ->].
  - change (4 - 1) with (Z.ones 2). by rewrite Z.land_ones.
  - change (8 - 1) with (Z.ones 3). by rewrite Z.land_ones.
Qed.

Lemma szc_floor a :
  in_size a -> Z.land a (szw (Z.lnot (szc - 1))) = a - a mod szc.
Proof.
  intros Ha. unfold in_size, in_u in Ha.
  assert (exists j, 0 <= j < size_bits /\ szc = 2 ^ j) as (j & Hj & HS).
  { unfold size_bits. destruct szc_cases as [-> | ->]; [exists 2|exists 3]; lia. }
  rewrite HS. rewrite Z.sub_1_r, <- Z.ones_equiv. unfold szw, uwrap. rewrite <- Z.land_ones by lia.
  rewrite (Z.land_comm (Z.lnot _)), Z.land_assoc, Z.land_ones by lia.
  rewrite (Z.mod_small a) by lia. rewrite <- Z.ldiff_land, Z.ldiff_ones_r by lia.
  rewrite Z.shiftl_mul_pow2, Z.shiftr_div_pow2 by lia. pose proof (Z.div_mod a (2 ^ j)). lia.
Qed.

Lemma read_long_exact a :
  in_size a -> peekable a = true -> PtraceReadLong image peekable a = Some (range image a szc).
Proof. intros Ha Hp. unfold PtraceReadLong. rewrite szw_small by done. by rewrite Hp. Qed.

Lemma peek_words_spec n a :
  0 <= a -> a mod szc = 0 -> a + Z.of_nat n * szc < 2 ^ size_bits ->
  words_ok a (Z.of_nat n * szc) ->
  peek_words image peekable n a = (range image a (Z.of_nat n * szc), Some (a + Z.of_nat n * szc)).
Proof.
  pose proof szc_cases as HS. revert a. induction n as [|n IH]; intros a Ha Hal Hmax Hw.
  { cbn [peek_words]. rewrite Z.mul_0_l, range_nil, Z.add_0_r. done. }
  rewrite Nat2Z.inj_succ, Z.mul_succ_l in *. assert (0 <= Z.of_nat n * szc) by (apply Z.mul_nonneg_nonneg; lia).
  cbn [peek_words]. rewrite read_long_exact; [|split; lia|apply Hw; [done|lia]].
  rewrite IH; [|lia|rewrite Z.add_mod, Hal, Z.mod_same by lia; done|lia|].
  - cbn [fst snd]. rewrite <- range_app by lia. f_equal; f_equal; lia.
  - intros w H1 H2. apply Hw; [done|lia].
Qed.

Lemma peek_aligned_spec a n :
  0 <= a -> a mod szc = 0 -> 0 <= n -> a + n <= 2 ^ size_bits - szc -> words_ok a n ->
  peek_aligned image peekable a n = range image a n.
Proof.
  pose proof szc_cases as HS. intros Ha Hal Hn Hmax Hw. unfold peek_aligned.
  assert (0 < szc) as Hz by lia. pose proof (Z.div_mod n szc (not_eq_sym (Z.lt_neq _ _ Hz))) as HD.
  pose proof (Z.mod_pos_bound n szc Hz). pose proof (Z.div_pos n szc Hn Hz).
  rewrite peek_words_spec; rewrite ?Z2Nat.id by lia; [|done|done|lia|intros w ? ?; apply Hw; [done|nia]].
  rewrite szc_mask. destruct (Z.eqb_spec (n mod szc) 0); [f_equal; lia|].
  rewrite read_long_exact; [|split; nia|].
  - rewrite range_take by lia. rewrite <- range_app by nia. f_equal. lia.
  - apply Hw; [|nia]. by rewrite Z.mod_add by lia.
Qed.

Lemma peek_aligned_nil a : peek_aligned image peekable a 0 = [].
Proof. unfold peek_aligned. by rewrite Z.div_0_l, szc_mask, Z.mod_0_l by (destruct szc_cases; lia). Qed.

Lemma ptrace_read_exact a n :
  0 <= a -> 0 <= n -> a + n <= 2 ^ size_bits - szc -> words_ok a n ->
  PtraceRead image peekable a n = range image a n.
Proof.
  pose proof szc_cases as HS. intros Ha Hn Hmax Hw. unfold PtraceRead.
  assert (2 ^ size_bits <= 2 ^ 64) as H64
    by (apply Z.pow_le_mono_r; [lia|]; unfold size_bits; destruct szc_cases; lia).
  destruct (Z.leb_spec (2 ^ 64) (a + n)); [lia|].
  assert (0 < szc) as Hz by lia. rewrite szc_mask. pose proof (Z.mod_pos_bound a szc Hz).
  pose proof (Z.div_mod a szc (not_eq_sym (Z.lt_neq _ _ Hz))) as HD. pose proof (Z.div_pos a szc Ha Hz).
  destruct (Z.eqb_spec (a mod szc) 0) as [E|E]; cbn [negb]; [by apply peek_aligned_spec|].
  rewrite szc_floor by (split; lia).
  rewrite read_long_exact; [|split; lia|apply Hw; [|lia]].
  2: { replace (a - a mod szc) with (a / szc * szc) by lia. by rewrite Z.mod_mul by lia. }
  rewrite range_slice by lia. replace (a - a mod szc + a mod szc) with a by lia.
  set (c := Z.min (szc - a mod szc) n).
  destruct (Z.leb_spec n (szc - a mod szc)).
  - replace c with n by lia. by rewrite Z.sub_diag, peek_aligned_nil, app_nil_r.
  - rewrite peek_aligned_spec; [|lia| |lia|lia|intros w ? ?; apply Hw; [done|lia]].
    + rewrite <- range_app by lia. f_equal. lia.
    + replace (a + c) with ((a / szc + 1) * szc) by lia. by rewrite Z.mod_mul by lia.
Qed.
End Words.
End Facts.
End RemoteFacts.

(** ** Properties *)

(** C32. [MemoryRemote::Read] returns exactly the bytes of the other process, whichever way it
    reads them: when the words of the range can be peeked and its pages can be read at
    once (or the first of them cannot, and the object is not bound to process_vm_readv),
    the result is the range of memory asked for, byte for byte, across page and word
    boundaries, and the reader that worked is kept. *)
Theorem remote_read_exact {A : Arch} image k mapped peekable redirect addr n :
  0 <= k -> 0 <= addr -> 0 < n -> addr + n <= 2 ^ size_bits - szc ->
  RemoteFacts.words_ok peekable addr n ->
  (forall a, addr <= a < addr + n -> mapped (a / 2 ^ k) = true) \/
    (mapped (addr / 2 ^ k) = false /\ redirect <> Some MemoryRemote.UseVmRead) ->
  exists f, MemoryRemote.Read image (2 ^ k) mapped peekable redirect addr n =
              (MemoryRemote.range image addr n, Some f) /\
            (redirect = None \/ redirect = Some f).
Proof.
  intros Hk Ha Hn Hmax Hw Hm. pose proof szc_cases as HS. unfold MemoryRemote.Read.
  rewrite (RemoteFacts.ptrace_read_exact image peekable addr n) by (done || lia).
  assert ((sizeof_size_t =? 4)%nat && (2 ^ 32 - 1 <? addr) = false) as ->.
  { destruct (Nat.eqb_spec sizeof_size_t 4) as [E|]; [|done]. cbn [andb]. apply Z.ltb_ge.
    unfold size_bits, szc in *. rewrite E in *. cbn in Hmax. lia. }
  pose proof (RemoteFacts.blen_range image addr n ltac:(lia)) as HB.
  destruct Hm as [Hm | [Hm Hr]].
  - rewrite (RemoteFacts.vm_read_exact image k mapped Hk addr n) by (done || lia). rewrite HB.
    destruct (Z.ltb_spec 0 n); [|lia]. destruct redirect as [[]|]; eauto.
  - rewrite (RemoteFacts.vm_read_unmapped image k mapped addr n) by done. rewrite blen_nil, HB.
    destruct (Z.ltb_spec 0 n); [|lia]. destruct redirect as [[]|]; eauto. done.
Qed.

Definition ramp (a : Z) : Z := a mod 256.

Lemma remote_read_exact_witness :
  RemoteFacts.words_ok (A := LP64) (fun _ => true) 4090 20 /\
  exists f, MemoryRemote.Read (A := LP64) ramp (2 ^ 12) (fun _ => true) (fun _ => true) None 4090 20 =
              (MemoryRemote.range ramp 4090 20, Some f) /\
            (@None MemoryRemote.read_func = None \/ None = Some f).
Proof.
  split; [by intros ? ? ?|].
  apply (remote_read_exact (A := LP64)); [lia|lia|lia|vm_compute; discriminate|by intros ? ? ?|].
  left. done.
Defined.

(** A read of more than 64 pieces goes on after a piece that could not be read: the bytes
    behind the hole are stored next to those before it.  (Pages of one byte; the page at
    address 1 is not readable.) *)
Example vm_read_closes_hole :
  MemoryRemote.ProcessVmRead (A := LP64) ramp (2 ^ 0) (fun p => negb (p =? 1)) 0 66 = [0; 64; 65].
Proof. vm_compute. reflexivity. Qed.

(** Reading the own memory where nothing is mapped does not fail: the process is killed. *)
Example local_read_unmapped :
  MemoryLocal.Read (A := LP64) ramp (2 ^ 12) (fun _ => false) (fun _ => false) 8192 4 = Fault OutOfBounds /\
  MemoryLocal.Read (A := LP64) ramp (2 ^ 12) (fun _ => true) (fun _ => false) 8192 4 = Ok (MemoryRemote.range ramp 8192 4).
Proof. split; vm_compute; reflexivity. Qed.

(** ** Memory read from a file *)

Section Offline.
Context {A : Arch}.
Variables (k : Z).
Hypothesis Hk : 0 <= k < size_bits.

Lemma file_aligned offset :
  0 <= offset < 2 ^ 64 ->
  Z.land offset (u64 (Z.lnot (2 ^ k - 1))) + Z.land offset (2 ^ k - 1) = offset /\
  0 <= Z.land offset (2 ^ k - 1) < 2 ^ k /\ Z.land offset (2 ^ k - 1) <= offset.
Proof.
  intros Ho. rewrite Z.sub_1_r, <- Z.ones_equiv.
  assert (size_bits <= 64) by (unfold size_bits; destruct szc_cases; lia).
  unfold uwrap. rewrite <- (Z.land_ones (Z.lnot _)) by lia.
  rewrite (Z.land_comm (Z.lnot _)), Z.land_assoc, (Z.land_ones _ 64) by lia.
  rewrite (Z.mod_small offset) by lia. rewrite <- Z.ldiff_land, Z.ldiff_ones_r by lia.
  rewrite Z.shiftl_mul_pow2, Z.shiftr_div_pow2, Z.land_ones by lia.
  assert (0 < 2 ^ k) by (apply Z.pow_pos_nonneg; lia).
  pose proof (Z.div_mod offset (2 ^ k)). pose proof (Z.mod_pos_bound offset (2 ^ k)).
  pose proof (Z.mod_le offset (2 ^ k)). lia.
Qed.

Lemma file_init_spec pre rest f :
  0 < blen rest -> blen pre + blen rest < 2 ^ size_bits ->
  exists off, MemoryFileAtOffset.Init (2 ^ k) true (Some (pre ++ rest)) (blen pre) (2 ^ 64 - 1) f =
    (true, MemoryFileAtOffset.mk (blen rest) off (Some rest)).
Proof.
  intros Hr Hmax. pose proof (blen_nonneg pre). unfold MemoryFileAtOffset.Init. rewrite blen_app.
  assert (2 ^ size_bits <= 2 ^ 64) as H64
    by (apply Z.pow_le_mono_r; [lia|]; unfold size_bits; destruct szc_cases; lia).
  destruct (file_aligned (blen pre)) as (H1 & H2 & H3); [lia|].
  set (off := Z.land (blen pre) (2 ^ k - 1)) in *.
  set (al := Z.land (blen pre) (u64 (Z.lnot (2 ^ k - 1)))) in *.
  assert (2 ^ k < 2 ^ size_bits) by (apply Z.pow_lt_mono_r; lia).
  destruct (Z.leb_spec (blen pre + blen rest) (blen pre)); [lia|].
  destruct (Z.ltb_spec (blen pre + blen rest) al), (Z.ltb_spec (blen pre + blen rest) (blen pre));
    try lia. cbn [orb].
  rewrite !(szw_small off) by (split; lia). rewrite (szw_small (_ - al)) by (split; lia).
  assert ((2 ^ 64 - 1 + off <? 2 ^ 64) && (2 ^ 64 - 1 + off <? blen pre + blen rest - al) = false) as ->.
  { destruct (Z.ltb_spec (2 ^ 64 - 1 + off) (blen pre + blen rest - al)); [lia|apply andb_false_r]. }
  replace (blen pre + blen rest - al - off) with (blen rest) by lia.
  rewrite szw_small by (split; lia). replace (al + off) with (blen pre) by lia.
  exists off. do 3 f_equal. unfold slice. rewrite drop_app_length' by (unfold blen; lia).
  apply take_blen.
Qed.

Lemma file_read_spec off d addr n :
  0 <= addr -> 0 <= n ->
  MemoryFileAtOffset.memory (MemoryFileAtOffset.mk (blen d) off (Some d)) addr n =
    take (Z.to_nat n) (drop (Z.to_nat addr) d).
Proof.
  intros Ha Hn. unfold MemoryFileAtOffset.memory, MemoryFileAtOffset.Read. cbn [MemoryFileAtOffset.size_
    MemoryFileAtOffset.data_ of_option].
  destruct (Z.leb_spec (blen d) addr).
  { rewrite drop_ge by (unfold blen in *; lia). by rewrite take_nil. }
  rewrite bind_Ok, mem_read_Ok by lia. unfold slice.
  destruct (Z.min_spec (blen d - addr) n) as [[? ->] | [? ->]]; [|done].
  rewrite !take_ge; [done| |]; rewrite length_drop; unfold blen in *; lia.
Qed.
End Offline.

(** What a file with a start address gives; shared with the tool that writes such files. *)
Lemma offline_file_read {A : Arch} k pre start data old :
  0 <= k < size_bits -> in_u 64 start -> blen pre + 8 + blen data < 2 ^ size_bits ->
  exists r, MemoryOffline.Init (2 ^ k) true (Some (pre ++ le_bytes 8 start ++ data)) (blen pre) old
              = (true, Some r) /\
    forall addr n, 0 <= n -> MemoryOffline.Read (Some r) addr n =
      if addr <? start then [] else take (Z.to_nat n) (drop (Z.to_nat (addr - start)) data).
Proof.
  intros Hk Hs Hmax. pose proof (blen_nonneg data). unfold MemoryOffline.Init.
  destruct (file_init_spec k Hk pre (le_bytes 8 start ++ data) MemoryFileAtOffset.new) as [off ->];
    [rewrite blen_app, blen_le_bytes; lia|rewrite blen_app, blen_le_bytes; lia|].
  unfold ReadFully. rewrite file_read_spec by lia. change (Z.to_nat 0) with O.
  rewrite drop_0, take_app_length' by (by rewrite length_le_bytes). cbn [MemoryFileAtOffset.size_].
  rewrite blen_app, blen_le_bytes. change (Z.of_nat 8 =? 8) with true. cbv iota.
  rewrite le_val_bytes. change (2 ^ (8 * Z.of_nat 8)) with (2 ^ 64). rewrite Z.mod_small by exact Hs.
  destruct (Z.ltb_spec (Z.of_nat 8 + blen data) 8); [lia|]. eexists. split; [done|].
  intros addr n Hn. unfold MemoryOffline.Read, MemoryRange.Read. cbn [MemoryRange.offset_
    MemoryRange.length_ MemoryRange.begin_ MemoryRange.memory_].
  destruct (Z.ltb_spec addr start); [done|]. change (Z.of_nat 8) with 8.
  replace (8 + blen data - 8) with (blen data) by lia.
  destruct (Z.leb_spec (blen data) (addr - start)).
  { rewrite drop_ge by (unfold blen in *; lia). by rewrite take_nil. }
  assert (2 ^ size_bits <= 2 ^ 64) as H64
    by (apply Z.pow_le_mono_r; [lia|]; unfold size_bits; destruct szc_cases; lia).
  pose proof (blen_nonneg pre). destruct (Z.leb_spec (2 ^ 64) (addr - start + 8)); [lia|].
  replace (8 + blen data) with (blen (le_bytes 8 start ++ data))
    by (rewrite blen_app, blen_le_bytes; lia).
  rewrite file_read_spec by lia. rewrite drop_app, length_le_bytes.
  rewrite (drop_ge (le_bytes 8 start)) by (rewrite length_le_bytes; lia).
  replace (Z.to_nat (addr - start + 8) - 8)%nat with (Z.to_nat (addr - start)) by lia. cbn [app].
  destruct (Z.min_spec n (blen data - (addr - start))) as [[? ->] | [? ->]]; [done|].
  rewrite !take_ge; [done| |]; rewrite length_drop; unfold blen in *; lia.
Qed.

(** An offline memory file is read back at the addresses it was taken from: a file that
    holds, from [offset] on (which need not be aligned to a page), a 64-bit start address
    and then the bytes of memory gives exactly these bytes at start and after it, and
    nothing before it or behind the last of them. *)
Theorem offline_read_exact {A : Arch} k pre start data old :
  0 <= k < size_bits -> in_u 64 start -> blen pre + 8 + blen data < 2 ^ size_bits ->
  exists r, MemoryOffline.Init (2 ^ k) true (Some (pre ++ le_bytes 8 start ++ data)) (blen pre) old
              = (true, Some r) /\
    forall addr n, 0 <= n -> MemoryOffline.Read (Some r) addr n =
      if addr <? start then [] else take (Z.to_nat n) (drop (Z.to_nat (addr - start)) data).
Proof. apply offline_file_read. Qed.

Lemma offline_read_exact_witness :
  in_u 64 4096 /\
  exists r, MemoryOffline.Init (A := LP64) (2 ^ 12) true
              (Some ([9; 9; 9] ++ le_bytes 8 4096 ++ [1; 2; 3])) (blen [9; 9; 9]) None = (true, Some r) /\
    forall addr n, 0 <= n -> MemoryOffline.Read (Some r) addr n =
      if addr <? 4096 then [] else take (Z.to_nat n) (drop (Z.to_nat (addr - 4096)) [1; 2; 3]).
Proof.
  split; [by split|].
  apply (offline_read_exact (A := LP64)); [by split|by split|vm_compute; reflexivity].
Defined.

(** ** Strings *)

Lemma read_one pre b post :
  is_byte b -> ReadFully (MemoryBuffer.Read (pre ++ b :: post)) (blen pre) 1 = Some [b].
Proof.
  intros Hb. unfold ReadFully, MemoryBuffer.Read. rewrite blen_app, blen_cons.
  pose proof (blen_nonneg post). destruct (Z.leb_spec (blen pre + (1 + blen post)) (blen pre)); [lia|].
  replace (Z.min _ 1) with 1 by lia. unfold slice. rewrite drop_app_length' by (unfold blen; lia). done.
Qed.

Lemma read_string_buffer pre s post fuel max_read n acc :
  bytes_ok s -> no_nul s -> blen pre + blen s < 2 ^ 64 -> n + blen s < max_read ->
  (length s < fuel)%nat ->
  read_string (MemoryBuffer.Read (pre ++ s ++ 0 :: post)) fuel (blen pre) max_read n acc =
    Some (true, reverse acc ++ s).
Proof.
  revert pre fuel n acc. induction s as [|b s IH]; intros pre fuel n acc Hb Hn Hmax Hr Hf;
    (destruct fuel as [|fuel]; [cbn in Hf; lia|]); cbn [read_string app]; pose proof (blen_nonneg pre).
  - rewrite blen_nil in *. destruct (Z.ltb_spec n max_read); [|lia].
    rewrite read_one by done. cbn. by rewrite app_nil_r.
  - apply Forall_cons in Hb as [Hb Hbs]. apply Forall_cons in Hn as [Hn Hns].
    rewrite blen_cons in *. pose proof (blen_nonneg s). destruct (Z.ltb_spec n max_read); [|lia].
    rewrite read_one by done. cbn [le_val]. replace (b + 256 * 0) with b by lia.
    destruct (Z.eqb_spec b 0); [done|]. rewrite uwrap_small by (split; lia).
    specialize (IH (pre ++ [b]) fuel (n + 1) (b :: acc)).
    rewrite blen_app, blen_cons, blen_nil, <- app_assoc in IH. cbn [app] in IH.
    rewrite Z.add_0_r in IH. rewrite IH by (try done; try lia; cbn in Hf; lia).
    by rewrite reverse_cons, <- app_assoc.
Qed.
