(* ===== verification/UwMaps.v ===== *)
(** * libunwindstack: the maps of a process

    Models external/libunwindstack-ndk/Maps.{h,cpp} and the data of MapInfo.h: finding the
    map of a pc, parsing a line of /proc/PID/maps, reading the file through a buffer of
    2048 bytes ([Maps::Parse], which the crash daemon uses) and parsing a text held in
    memory ([BufferMaps::Parse]).

    The file is read as in HawkDumper: [read] may return any part of what is asked for.
    Characters are unsigned. *)

From S2P Require Import Prelude HawkPrivate HawkDumper.

Definition PROT_READ : Z := 1.
Definition PROT_WRITE : Z := 2.
Definition PROT_EXEC : Z := 4.
Definition MAPS_FLAGS_DEVICE_MAP : Z := 32768.

(** [MapInfo], as far as the maps fill it in. *)
Record MapInfo : Type := mkMapInfo {
  start : Z; end_ : Z; offset : Z; flags : Z; name : list Z; load_bias : Z
}.

(** [MapInfo(start, end, offset, flags, name)] *)
Definition new_MapInfo (start end_ offset flags : Z) (name : list Z) : MapInfo :=
  mkMapInfo start end_ offset flags name (2 ^ 64 - 1).

(** ** [strtoull] *)

(** The value of a digit of any base up to 16. *)
Definition digit_val (c : Z) : option Z :=
  if (48 <=? c) && (c <=? 57) then Some (c - 48)
  else if (97 <=? c) && (c <=? 102) then Some (c - 87)
  else if (65 <=? c) && (c <=? 70) then Some (c - 55)
  else None.

Definition is_digit (base c : Z) : bool :=
  match digit_val c with Some d => d <? base | None => false end.

(** The digits a string starts with: their value and what follows. *)
Fixpoint read_digits (base : Z) (s : list Z) (acc : Z) : Z * list Z :=
  match s with
  | c :: s' => if is_digit base c then read_digits base s' (base * acc + default 0 (digit_val c))
               else (acc, s)
  | [] => (acc, [])
  end.

(** Past the prefix 0x, which counts when a digit follows. *)
Definition skip_0x (base : Z) (s : list Z) : list Z :=
  match s with
  | z :: x :: d :: _ =>
      if (base =? 16) && (z =? 48) && ((x =? 120) || (x =? 88)) && is_digit 16 d then drop 2 s else s
  | _ => s
  end.

Definition hd0 (s : list Z) : Z := default 0 (head s).

(** [strtoull(s, &end, base)]: the value and [end]; [None]: nothing was converted
    ([end == s]).  A value out of range saturates, a minus sign negates modulo 2^64. *)
Definition strtoull (base : Z) (s : list Z) : option (Z * list Z) :=
  let s := skip_space s in
  let '(neg, s) := if hd0 s =? 45 then (true, tail s)
                   else if hd0 s =? 43 then (false, tail s) else (false, s) in
  let s := skip_0x base s in
  if is_digit base (hd0 s) then
    let '(v, rest) := read_digits base s 0 in
    Some (if 2 ^ 64 <=? v then 2 ^ 64 - 1 else if neg : bool then u64 (- v) else v, rest)
  else None.

(** ** Parsing a line *)

(** An early return of [nullptr]. *)
Definition check (b : bool) : option unit := if b then Some () else None.

(** One permission character: its letter sets the flag, a dash does not. *)
Definition permission (c letter flag : Z) : option Z :=
  if c =? letter then Some flag else if c =? 45 then Some 0 else None.

Definition starts_with (p s : list Z) : bool := bool_decide (take (length p) s = p).

(** Device maps are in /dev/ but not in /dev/ashmem/. *)
Definition is_device (name : list Z) : bool :=
  starts_with (str "/dev/") name && negb (starts_with (str "ashmem/") (drop 5 name)).

(** [InternalParseLine(line)]; [line] is a C string without its terminator. *)
Definition InternalParseLine (line : list Z) : option MapInfo :=
  '(start, rest) ← strtoull 16 line;
  _ ← check (hd0 rest =? 45);
  '(end_, rest) ← strtoull 16 (tail rest);
  _ ← check (isspace (hd0 rest));
  let rest := skip_space (tail rest) in
  r ← permission (hd0 rest) 114 PROT_READ;
  let rest := tail rest in
  w ← permission (hd0 rest) 119 PROT_WRITE;
  let rest := tail rest in
  x ← permission (hd0 rest) 120 PROT_EXEC;
  let rest := tail rest in
  _ ← check ((hd0 rest =? 112) || (hd0 rest =? 115));
  let rest := tail rest in
  _ ← check (isspace (hd0 rest));
  '(offset, rest) ← strtoull 16 (tail rest);
  _ ← check (isspace (hd0 rest));
  '(_, rest) ← strtoull 16 rest;
  _ ← check (hd0 rest =? 58);
  let rest := tail rest in
  _ ← check (negb (isspace (hd0 rest)));
  '(_, rest) ← strtoull 16 rest;
  _ ← check (isspace (hd0 rest));
  '(_, rest) ← strtoull 10 (tail rest);
  _ ← check (isspace (hd0 rest) || (hd0 rest =? 0));
  let name := skip_space rest in
  let flags := Z.lor (Z.lor r w) x in
  let flags := if is_device name then Z.lor flags MAPS_FLAGS_DEVICE_MAP else flags in
  Some (new_MapInfo start end_ offset flags name).

Module Maps.

(** ** [Find] *)

Definition find_cmp (pc : Z) (cur : MapInfo) : comparison :=
  if (start cur <=? pc) && (pc <? end_ cur) then Eq else if pc <? start cur then Lt else Gt.

Definition Find (maps : list MapInfo) (pc : Z) : option MapInfo :=
  match maps with
  | [] => None
  | _ => bsearch (find_cmp pc) maps (S (length maps)) 0 (length maps)
  end.

(** ** [Parse] *)

(** [memchr(s, '\n', n)] as an offset. *)
Fixpoint find_newline (s : list Z) : option Z :=
  match s with
  | [] => None
  | c :: s => if c =? 10 then Some 0 else Z.succ <$> find_newline s
  end.

(** The inner loop over the lines in the buffer: the buffer, the bytes left in it, the
    maps and whether all lines could be parsed.  Every round uses up a byte. *)
Fixpoint parse_lines (fuel : nat) (buffer : list Z) (line bytes : Z) (maps : list MapInfo)
    : outcome (list Z * Z * list MapInfo * bool) :=
  match fuel with
  | O => Ok (buffer, bytes, maps, true)
  | S fuel =>
      if bytes <=? 0 then Ok (buffer, bytes, maps, true)
      else
        s ← mem_read buffer line bytes;
        match find_newline s with
        | None =>
            buffer ← mem_write buffer 0 s;
            Ok (buffer, bytes, maps, true)
        | Some n =>
            buffer ← mem_write buffer (line + n) [0];
            l ← of_option Unterminated (cstr (drop (Z.to_nat line) buffer));
            match InternalParseLine l with
            | None => Ok (buffer, bytes, maps, false)
            | Some m => parse_lines fuel buffer (line + n + 1) (bytes - (n + 1)) (maps ++ [m])
            end
        end
  end.

(** The outer loop; every [read] that does not end it returns a byte of the file. *)
Fixpoint parse_file (fuel : nat) (f : proc_file) (buffer : list Z) (leftover : Z)
    (maps : list MapInfo) (return_value : bool) : outcome (bool * list MapInfo) :=
  match fuel with
  | O => Ok (return_value, maps)
  | S fuel =>
      match DumperUtils.read (2048 - leftover) f with
      | (None, _) => Ok (false, maps)
      | (Some [], _) => Ok (return_value, maps)
      | (Some d, f) =>
          buffer ← mem_write buffer leftover d;
          let bytes := leftover + blen d in
          r ← parse_lines (S (Z.to_nat bytes)) buffer 0 bytes maps;
          let '(buffer, bytes, maps, good) := r in
          parse_file fuel f buffer bytes maps (return_value && good)
      end
  end.

(** [Maps::Parse]; [buffer] is the uninitialised local, [None]: the file cannot be opened. *)
Definition Parse (buffer : list Z) (f : option proc_file) (maps : list MapInfo)
    : outcome (bool * list MapInfo) :=
  match f with
  | None => Ok (false, maps)
  | Some f => parse_file (S (length (content f))) f buffer 0 maps true
  end.

Definition Add (start end_ offset flags : Z) (name : list Z) (load_bias : Z) (maps : list MapInfo)
    : list MapInfo :=
  maps ++ [mkMapInfo start end_ offset (u16 flags) name load_bias].

Definition by_start (a b : MapInfo) : Prop := start a <= start b.
#[global] Instance by_start_dec : RelDecision by_start.
Proof. intros a b. unfold by_start. apply _. Defined.

(** [std::sort] by the start; the order of equal starts is not specified. *)
Definition Sort (maps : list MapInfo) : list MapInfo :=
  merge_sort by_start maps.

(** [RemoteMaps::GetMapsFile] *)
Definition GetMapsFile (pid : Z) : list Z := str "/proc/" ++ dec pid ++ str "/maps".
End Maps.

Module BufferMaps.
(** The line a text starts with, and the text after its newline if it has one. *)
Fixpoint split_line (s : list Z) : list Z * option (list Z) :=
  match s with
  | [] => ([], None)
  | c :: s =>
      if c =? 10 then ([], Some s)
      else let '(l, r) := split_line s in (c :: l, r)
  end.

(** The loop; every round uses up a character or ends it. *)
Fixpoint parse_text (fuel : nat) (start_of_line : list Z) (maps : list MapInfo)
    : bool * list MapInfo :=
  match fuel with
  | O => (true, maps)
  | S fuel =>
      let '(line, end_of_line) := split_line start_of_line in
      match InternalParseLine line with
      | None => (false, maps)
      | Some m =>
          match end_of_line with
          | None | Some [] => (true, maps ++ [m])
          | Some rest => parse_text fuel rest (maps ++ [m])
          end
      end
  end.

(** [BufferMaps::Parse]; [buffer] is a C string without its terminator. *)
Definition Parse (buffer : list Z) (maps : list MapInfo) : bool * list MapInfo :=
  parse_text (S (length buffer)) buffer maps.
End BufferMaps.

(** ** The map of a pc *)

(** The maps as the kernel lists them: in order and apart from each other. *)
Definition apart (maps : list MapInfo) : Prop :=
  StronglySorted (fun a b => end_ a <= start b) maps /\ Forall (fun m => start m <= end_ m) maps.

Lemma apart_unique maps pc y z :
  apart maps -> y ∈ maps -> z ∈ maps -> start y <= pc < end_ y -> start z <= pc < end_ z -> y = z.
Proof.
  intros [Hs _] Hy Hz Py Pz.
  apply list_elem_of_lookup_1 in Hy as [i Hi]. apply list_elem_of_lookup_1 in Hz as [j Hj].
  destruct (Nat.lt_trichotomy i j) as [H | [<- | H]].
  - pose proof (sorted_lookup _ _ i j y z Hs H Hi Hj). cbn in *. lia.
  - congruence.
  - pose proof (sorted_lookup _ _ j i z y Hs H Hj Hi). cbn in *. lia.
Qed.

Lemma find_cmp_Eq pc m : Maps.find_cmp pc m = Eq <-> start m <= pc < end_ m.
Proof.
  unfold Maps.find_cmp. destruct (Z.leb_spec (start m) pc), (Z.ltb_spec pc (end_ m)); cbn [andb];
    try destruct (Z.ltb_spec pc (start m)); split; try done; lia.
Qed.

Lemma apart_ordered maps pc : apart maps -> ordered_by (Maps.find_cmp pc) maps.
Proof.
  intros [Hs Hf] i j x y Hij Hx Hy. pose proof (sorted_lookup _ _ i j x y Hs Hij Hx Hy) as H.
  rewrite Forall_lookup in Hf. pose proof (Hf i x Hx). pose proof (Hf j y Hy). cbn in *.
  unfold Maps.find_cmp.
  destruct (Z.leb_spec (start x) pc), (Z.ltb_spec pc (end_ x)), (Z.ltb_spec pc (start x)),
    (Z.leb_spec (start y) pc), (Z.ltb_spec pc (end_ y)), (Z.ltb_spec pc (start y)); cbn [andb];
    split; intros ?; try done; lia.
Qed.

(** ** Lines *)

(** A non-empty string of digits, and its value. *)
Definition digits (base : Z) (ds : list Z) : Prop :=
  ds <> [] /\ Forall (fun c => is_digit base c = true) ds.

Definition value (base : Z) (ds : list Z) : Z :=
  fold_left (fun acc c => base * acc + default 0 (digit_val c)) ds 0.

Lemma read_digits_app base ds rest acc :
  Forall (fun c => is_digit base c = true) ds -> is_digit base (hd0 rest) = false ->
  read_digits base (ds ++ rest) acc =
    (fold_left (fun acc c => base * acc + default 0 (digit_val c)) ds acc, rest).
Proof.
  intros Hd Hr. revert acc. induction Hd as [|c ds Hc _ IH]; intros acc; cbn.
  - destruct rest as [|c rest]; [done|]. cbn in Hr. cbn. by rewrite Hr.
  - by rewrite Hc.
Qed.

(** A digit is no white space and no sign, and not the x of a prefix. *)
Lemma digit_char base c :
  is_digit base c = true ->
  isspace c = false /\ (c =? 45) = false /\ (c =? 43) = false /\ (c =? 120) = false /\ (c =? 88) = false.
Proof.
  unfold is_digit, digit_val, isspace. intros H.
  destruct (Z.leb_spec 48 c), (Z.leb_spec c 57), (Z.leb_spec 97 c), (Z.leb_spec c 102),
    (Z.leb_spec 65 c), (Z.leb_spec c 70); cbn in H; try done; split_and!; lia.
Qed.

(** What may follow a number: no digit and no x. *)
Definition ends_number (base : Z) (rest : list Z) : Prop :=
  is_digit base (hd0 rest) = false /\ hd0 rest <> 120 /\ hd0 rest <> 88.

Lemma skip_0x_digits base ds rest :
  digits base ds -> ends_number base rest -> skip_0x base (ds ++ rest) = ds ++ rest.
Proof.
  intros [Hn Hd] (_ & Hx & HX). destruct Hd as [|z ds _ Hd]; [done|]. unfold skip_0x. cbn [app].
  destruct (ds ++ rest) as [|x [|d s]] eqn:E; [done|done|].
  assert (((x =? 120) || (x =? 88)) = false) as ->.
  { destruct Hd as [|c ds Hc _]; cbn in E.
    - subst rest. cbn in Hx, HX. lia.
    - injection E as <- _. destruct (digit_char base c Hc) as (_ & _ & _ & H1 & H2). by rewrite H1, H2. }
  by rewrite andb_false_r.
Qed.

(** [strtoull] reads a number after any white space. *)
Lemma strtoull_digits base sp ds rest :
  Forall (fun c => isspace c = true) sp -> digits base ds -> ends_number base rest ->
  0 <= value base ds < 2 ^ 64 ->
  strtoull base (sp ++ ds ++ rest) = Some (value base ds, rest).
Proof.
  intros Hsp Hds He Hv. pose proof Hds as [Hn Hd]. unfold strtoull.
  assert (skip_space (sp ++ ds ++ rest) = ds ++ rest) as ->.
  { induction Hsp as [|c sp Hc _ IH]; cbn [app skip_space]; [|by rewrite Hc].
    destruct Hd as [|c ds Hc _]; [done|]. cbn. by destruct (digit_char base c Hc) as (-> & _). }
  destruct Hd as [|c ds Hc Hd]; [done|]. change (hd0 ((c :: ds) ++ rest)) with c.
  destruct (digit_char base c Hc) as (_ & -> & -> & _).
  rewrite skip_0x_digits by done. change (hd0 ((c :: ds) ++ rest)) with c. rewrite Hc.
  rewrite read_digits_app by (first [by constructor | apply He]).
  change (fold_left _ (c :: ds) 0) with (value base (c :: ds)).
  destruct (Z.leb_spec (2 ^ 64) (value base (c :: ds))); [lia|done].
Qed.

Lemma strtoull_digits0 base ds rest :
  digits base ds -> ends_number base rest -> 0 <= value base ds < 2 ^ 64 ->
  strtoull base (ds ++ rest) = Some (value base ds, rest).
Proof. apply (strtoull_digits base []). constructor. Qed.

(** ** Printing numbers *)

Lemma hex_digit_spec d :
  0 <= d < 16 -> is_digit 16 (hex_digit d) = true /\ digit_val (hex_digit d) = Some d.
Proof.
  intros Hd. assert (digit_val (hex_digit d) = Some d) as H.
  { unfold hex_digit, digit_val. destruct (Z.ltb_spec d 10).
    - destruct (Z.leb_spec 48 (48 + d)), (Z.leb_spec (48 + d) 57); try lia. cbn. f_equal. lia.
    - destruct (Z.leb_spec 48 (87 + d)), (Z.leb_spec (87 + d) 57), (Z.leb_spec 97 (87 + d)),
        (Z.leb_spec (87 + d) 102); try lia. cbn. f_equal. lia. }
  split; [|done]. unfold is_digit. rewrite H. lia.
Qed.

Lemma value_snoc base ds c : value base (ds ++ [c]) = base * value base ds + default 0 (digit_val c).
Proof. unfold value. by rewrite fold_left_app. Qed.

Lemma hex_digits_spec fuel z acc :
  fuel <> O -> 0 <= z < 16 ^ Z.of_nat fuel ->
  exists ds, hex_digits fuel z acc = ds ++ acc /\ digits 16 ds /\ value 16 ds = z.
Proof.
  revert z acc. induction fuel as [|fuel IH]; intros z acc Hf Hz; [done|]. cbn [hex_digits].
  pose proof (Z.mod_pos_bound z 16 ltac:(lia)) as Hm. pose proof (Z.div_mod z 16 ltac:(lia)) as Hq.
  destruct (hex_digit_spec (z mod 16) Hm) as [H1 H2].
  destruct (Z.eqb_spec (z / 16) 0) as [E|E].
  - exists [hex_digit (z mod 16)]. split; [done|]. split; [by split; [|repeat constructor]|].
    unfold value. cbn [fold_left]. rewrite H2. cbn [from_option]. unfold id. lia.
  - rewrite Nat2Z.inj_succ, Z.pow_succ_r in Hz by lia.
    assert (z / 16 < 16 ^ Z.of_nat fuel) by (apply Z.div_lt_upper_bound; lia).
    assert (0 <= z / 16) by (apply Z.div_pos; lia).
    destruct (IH (z / 16) (hex_digit (z mod 16) :: acc)) as (ds & -> & [Hn Hd] & Hv); [|lia|].
    { intros ->. cbn in *. lia. }
    exists (ds ++ [hex_digit (z mod 16)]). split; [by rewrite <- app_assoc|].
    split; [split; [by destruct ds|by apply Forall_app_2; [|repeat constructor]]|].
    rewrite value_snoc, H2, Hv. cbn [from_option]. unfold id. lia.
Qed.

Lemma hex0_spec w z : 0 <= z < 2 ^ 64 -> digits 16 (hex0 w z) /\ value 16 (hex0 w z) = z.
Proof.
  intros Hz. destruct (hex_digits_spec 16 z []) as (ds & HE & [Hn Hd] & Hv); [done|exact Hz|].
  rewrite app_nil_r in HE. unfold hex0, pad_left, hex. rewrite HE. split; [split|].
  - intros [_ H]%app_eq_nil. done.
  - apply Forall_app_2; [|done]. apply Forall_replicate. done.
  - unfold value in *. rewrite fold_left_app.
    assert (forall n, fold_left (fun acc c => 16 * acc + default 0 (digit_val c)) (replicate n 48) 0 = 0)
      as -> by (induction n; done). done.
Qed.

(** A line as the kernel prints it; the inode is a numeral. *)
Definition print_line (start end_ offset major minor : Z) (r w x s : bool) (inode gap name : list Z)
    : list Z :=
  hex0 8 start ++ [45] ++ hex0 8 end_ ++ [32]
  ++ [if r then 114 else 45] ++ [if w then 119 else 45] ++ [if x then 120 else 45]
  ++ [if s then 115 else 112] ++ [32] ++ hex0 8 offset ++ [32] ++ hex0 2 major ++ [58] ++ hex0 2 minor ++ [32]
  ++ inode ++ gap ++ name.

Definition protection (r w x : bool) : Z :=
  (if r then PROT_READ else 0) + (if w then PROT_WRITE else 0) + (if x then PROT_EXEC else 0).

Lemma skip_spaces sp s :
  Forall (fun c => isspace c = true) sp -> isspace (hd0 s) = false -> skip_space (sp ++ s) = s.
Proof.
  intros Hsp Hs. induction Hsp as [|c sp Hc _ IH]; cbn [app skip_space]; [|by rewrite Hc].
  destruct s as [|c s]; [done|]. cbn in *. by rewrite Hs.
Qed.

(** The end of the inode: white space, or the end of the line. *)
Lemma ends_gap (gap name : list Z) :
  Forall (fun c => isspace c = true) gap -> (gap = [] -> name = []) ->
  ends_number 10 (gap ++ name) /\ (isspace (hd0 (gap ++ name)) || (hd0 (gap ++ name) =? 0)) = true.
Proof.
  intros Hg Hn. destruct Hg as [|c gap Hc _].
  - rewrite Hn by done. by repeat split.
  - cbn. rewrite Hc. split; [|done].
    assert (c = 32 \/ c = 9 \/ c = 10 \/ c = 11 \/ c = 12 \/ c = 13) as HC
      by (unfold isspace in Hc; lia).
    destruct HC as [-> | [-> | [-> | [-> | [-> | ->]]]]]; by repeat split.
Qed.

Lemma hd0_cons c l : hd0 ([c] ++ l) = c.
Proof. done. Qed.

Lemma tail_cons (c : Z) l : tail ([c] ++ l) = l.
Proof. done. Qed.

Lemma skip_permission (r : bool) l :
  skip_space ([if r then 114 else 45] ++ l) = [if r then 114 else 45] ++ l.
Proof. by destruct r. Qed.

Lemma ends_char c l : c = 32 \/ c = 45 \/ c = 58 -> ends_number 16 ([c] ++ l).
Proof. intros [-> | [-> | ->]]; by repeat split. Qed.

(** Past a check, and past a number whose value is given by [V]. *)
Ltac go := cbn [mbind option_bind check Z.eqb Pos.eqb isspace orb negb andb Z.leb Z.compare
  Pos.compare Pos.compare_cont]; rewrite ?tail_cons, ?hd0_cons.
Ltac num V :=
  rewrite strtoull_digits0 by (first [done | apply ends_char; lia | rewrite V; lia]); go.

Lemma digits_hd base ds l : digits base ds -> isspace (hd0 (ds ++ l)) = false.
Proof. intros [Hn Hd]. destruct Hd as [|c ds Hc _]; [done|]. by destruct (digit_char base c Hc). Qed.

(** ** A line field by field *)

(** The digits of a 64-bit number. *)
Record numeral (base : Z) (ds : list Z) (v : Z) : Prop := {
  n_digits : digits base ds;
  n_value : value base ds = v;
  n_range : 0 <= v < 2 ^ 64
}.

Lemma hex0_numeral w z : in_u 64 z -> numeral 16 (hex0 w z) z.
Proof. intros Hz. by destruct (hex0_spec w z Hz). Qed.

(** Whichever way the numbers are padded. *)
Lemma parse_fields dstart start dend end_ doffset offset dmajor major dminor minor (r w x s : bool) inode gap name :
  numeral 16 dstart start -> numeral 16 dend end_ -> numeral 16 doffset offset -> numeral 16 dmajor major ->
  numeral 16 dminor minor -> digits 10 inode -> 0 <= value 10 inode < 2 ^ 64 ->
  Forall (fun c => isspace c = true) gap -> (gap = [] -> name = []) -> isspace (hd0 name) = false ->
  InternalParseLine (dstart ++ [45] ++ dend ++ [32]
    ++ [if r then 114 else 45] ++ [if w then 119 else 45] ++ [if x then 120 else 45]
    ++ [if s then 115 else 112] ++ [32] ++ doffset ++ [32] ++ dmajor ++ [58] ++ dminor ++ [32] ++ inode ++ gap ++ name) =
    Some (new_MapInfo start end_ offset
            (Z.lor (protection r w x) (if is_device name then MAPS_FLAGS_DEVICE_MAP else 0)) name).
Proof.
  intros [D1 V1 R1] [D2 V2 R2] [D3 V3 R3] [D4 V4 R4] [D5 V5 R5] Hi Hiv Hg Hgn Hn. unfold InternalParseLine.
  destruct (ends_gap gap name Hg Hgn) as [G1 G2].
  num V1. num V2. rewrite skip_permission. rewrite ?tail_cons, ?hd0_cons.
  assert (permission (if r then 114 else 45) 114 PROT_READ = Some (if r then PROT_READ else 0)) as ->
    by by destruct r.
  assert (permission (if w then 119 else 45) 119 PROT_WRITE = Some (if w then PROT_WRITE else 0)) as ->
    by by destruct w.
  assert (permission (if x then 120 else 45) 120 PROT_EXEC = Some (if x then PROT_EXEC else 0)) as ->
    by by destruct x.
  assert (check (((if s then 115 else 112) =? 112) || ((if s then 115 else 112) =? 115)) = Some ()) as ->
    by by destruct s.
  go. num V3. rewrite (strtoull_digits 16 [32]) by (first [done | apply ends_char; lia | rewrite V4; lia | by repeat constructor]).
  go. rewrite (digits_hd 16) by done. num V5. rewrite strtoull_digits0 by done. go. rewrite G2. go.
  rewrite skip_spaces, V1, V2, V3 by done. do 2 f_equal. unfold protection.
  by destruct r, w, x, (is_device name).
Qed.

(** ** Reading the file in pieces *)

Definition flat (ls : list (list Z)) : list Z := concat (map (fun l => l ++ [10]) ls).

(** A line the buffer can hold, and the map it describes. *)
Record line_of (l : list Z) (m : MapInfo) : Prop := {
  l_newline : 10 ∉ l;
  l_nul : no_nul l;
  l_short : blen l <= 2047;
  l_parses : InternalParseLine l = Some m
}.

Lemma flat_app a b : flat (a ++ b) = flat a ++ flat b.
Proof. unfold flat. by rewrite map_app, concat_app. Qed.

(** A piece of a stream of lines: complete lines and a part of the next one. *)
Lemma split_stream ls s c t :
  s ++ c = flat ls ++ t -> Forall (fun l => 10 ∉ l) ls -> 10 ∉ take 2048 t -> blen s <= 2048 ->
  exists ls1 ls2 p, ls = ls1 ++ ls2 /\ s = flat ls1 ++ p /\ 10 ∉ p /\ p ++ c = flat ls2 ++ t.
Proof.
  intros HE Hls Ht. revert s HE. induction Hls as [|l ls Hl _ IH]; intros s HE Hs.
  - exists [], [], s. cbn in *. split_and!; try done.
    rewrite <- HE in Ht. rewrite take_app_ge in Ht by (unfold blen in *; lia). set_solver.
  - change (flat (l :: ls)) with ((l ++ [10]) ++ flat ls) in HE. rewrite <- !app_assoc in HE.
    cbn [app] in HE. destruct (Nat.le_gt_cases (length s) (length l)) as [Hle|Hgt].
    + exists [], (l :: ls), s. cbn [app]. split_and!; try done.
      * intros Hin. apply Hl. apply (f_equal (take (length s))) in HE.
        rewrite take_app_length, take_app_le in HE by done. rewrite HE in Hin.
        by apply elem_of_take in Hin as (i & Hi & _); eapply list_elem_of_lookup_2.
      * rewrite HE. change (flat (l :: ls)) with ((l ++ [10]) ++ flat ls). by rewrite <- !app_assoc.
    + assert (exists s', s = l ++ 10 :: s') as [s' ->].
      { exists (drop (S (length l)) s). rewrite <- (take_drop (S (length l)) s) at 1.
        apply (f_equal (take (S (length l)))) in HE. rewrite take_app_le in HE by lia. rewrite HE.
        rewrite cons_middle, app_assoc. rewrite take_app_length'; [by rewrite <- app_assoc|].
        rewrite length_app. cbn. lia. }
      rewrite <- app_assoc in HE. cbn [app] in HE. apply app_inv_head in HE. injection HE as HE.
      rewrite blen_app, blen_cons in Hs. pose proof (blen_nonneg l).
      destruct (IH s' HE ltac:(lia)) as (ls1 & ls2 & p & -> & -> & Hp & HR).
      exists (l :: ls1), ls2, p. split_and!; try done.
      change (flat (l :: ls1)) with ((l ++ [10]) ++ flat ls1). by rewrite <- !app_assoc.
Qed.

Lemma find_newline_None s : 10 ∉ s -> Maps.find_newline s = None.
Proof.
  induction s as [|c s IH]; [done|]. intros H. cbn. destruct (Z.eqb_spec c 10); [set_solver|].
  rewrite IH by set_solver. done.
Qed.

Lemma find_newline_Some l s : 10 ∉ l -> Maps.find_newline (l ++ 10 :: s) = Some (blen l).
Proof.
  induction l as [|c l IH]; intros H; cbn; [done|]. destruct (Z.eqb_spec c 10); [set_solver|].
  rewrite IH by set_solver. cbn. f_equal. rewrite blen_cons. lia.
Qed.

(** The lines in the buffer are parsed and the rest is moved to its start. *)
Lemma parse_lines_spec ls ms fuel pre p post maps :
  Forall2 line_of ls ms -> 10 ∉ p -> (length (flat ls ++ p) < fuel)%nat ->
  exists buffer, Maps.parse_lines fuel (pre ++ (flat ls ++ p) ++ post) (blen pre) (blen (flat ls ++ p)) maps
      = Ok (buffer, blen p, maps ++ ms, true) /\
    length buffer = length (pre ++ (flat ls ++ p) ++ post) /\ exists t, buffer = p ++ t.
Proof.
  intros Hls Hp. revert fuel pre maps. induction Hls as [|l m ls ms Hl _ IH]; intros fuel pre maps Hf;
    (destruct fuel as [|fuel]; [lia|]); cbn [Maps.parse_lines].
  - cbn [flat map concat app] in *. destruct (Z.leb_spec (blen p) 0) as [H0|H0].
    + assert (p = []) as -> by (destruct p; [done|]; rewrite blen_cons in H0; pose proof (blen_nonneg p); lia).
      eexists. split; [by rewrite app_nil_r|]. split; [done|]. by eexists.
    + rewrite (mem_read_app pre p post) by done. rewrite bind_Ok, find_newline_None by done.
      destruct (split_at (pre ++ p ++ post) (blen p)) as (b1 & b2 & HB & Hb1);
        [rewrite !blen_app; pose proof (blen_nonneg pre); pose proof (blen_nonneg post); lia|].
      rewrite HB, (mem_write_at [] b1 p b2) by done. rewrite bind_Ok. eexists.
      split; [by rewrite app_nil_r|]. cbn [app]. split; [|by eexists].
      rewrite !length_app. unfold blen in Hb1. lia.
  - assert (flat (l :: ls) ++ p = l ++ 10 :: (flat ls ++ p)) as E
      by (change (flat (l :: ls)) with ((l ++ [10]) ++ flat ls); by rewrite <- !app_assoc).
    rewrite E in *. set (s := flat ls ++ p) in *.
    rewrite blen_app, blen_cons. pose proof (blen_nonneg l). pose proof (blen_nonneg s).
    destruct (Z.leb_spec (blen l + (1 + blen s)) 0); [lia|].
    rewrite (mem_read_app pre (l ++ 10 :: s) post) by (rewrite ?blen_app, ?blen_cons; done || lia).
    rewrite bind_Ok, find_newline_Some by apply Hl.
    replace (pre ++ (l ++ 10 :: s) ++ post) with ((pre ++ l) ++ [10] ++ s ++ post)
      by (by rewrite <- !app_assoc).
    rewrite (mem_write_at (pre ++ l) [10] [0] (s ++ post)) by (rewrite ?blen_app; done || lia).
    rewrite bind_Ok. rewrite <- app_assoc, drop_app_length' by (unfold blen; lia). cbn [app].
    rewrite cstr_app by apply Hl. cbn [of_option]. rewrite bind_Ok, (l_parses l m Hl).
    replace (pre ++ l ++ 0 :: s ++ post) with ((pre ++ l ++ [0]) ++ s ++ post)
      by (by rewrite <- !app_assoc).
    replace (blen pre + blen l + 1) with (blen (pre ++ l ++ [0]))
      by (rewrite !blen_app, blen_cons, blen_nil; lia).
    replace (blen l + (1 + blen s) - (blen l + 1)) with (blen s) by lia.
    destruct (IH fuel (pre ++ l ++ [0]) (maps ++ [m])) as (buffer & -> & HL & HT).
    { rewrite length_app, length_cons in Hf. lia. }
    exists buffer. split; [by rewrite <- app_assoc|]. split; [|done].
    rewrite HL. repeat rewrite ?length_app, ?length_cons, ?length_nil. lia.
Qed.

(** Reading ends when no complete line is left. *)
Lemma no_line_left (ls : list (list Z)) ms p c t :
  Forall2 line_of ls ms -> p ++ c = flat ls ++ t -> 10 ∉ p -> (2048 <= blen p \/ c = []) ->
  ls = [] /\ ms = [].
Proof.
  intros Hls HE Hp Hc. destruct Hls as [|l m ls ms Hl _]; [done|]. exfalso. apply Hp.
  assert ((p ++ c) !! length l = Some 10) as H10.
  { rewrite HE. change (flat (l :: ls)) with ((l ++ [10]) ++ flat ls). rewrite <- !app_assoc.
    rewrite lookup_app_r, Nat.sub_diag by lia. done. }
  destruct Hc as [Hc | ->].
  - pose proof (l_short l m Hl). rewrite lookup_app_l in H10 by (unfold blen in *; lia).
    by eapply list_elem_of_lookup_2.
  - rewrite app_nil_r in H10. by eapply list_elem_of_lookup_2.
Qed.

Lemma parse_file_spec fuel f buffer p tl ls ms t maps :
  Forall2 line_of ls ms -> DumperUtils.error_free f -> blen buffer = 2048 -> buffer = p ++ tl ->
  10 ∉ p -> p ++ content f = flat ls ++ t -> 10 ∉ take 2048 t -> (length (content f) < fuel)%nat ->
  Maps.parse_file fuel f buffer (blen p) maps true = Ok (true, maps ++ ms).
Proof.
  intros Hls He HB -> Hp HE Ht. revert f p tl ls ms maps Hls He HB Hp HE.
  induction fuel as [|fuel IH]; intros f p tl ls ms maps Hls He HB Hp HE Hf; [lia|].
  cbn [Maps.parse_file]. rewrite blen_app in HB. pose proof (blen_nonneg tl).
  destruct (DumperUtils.read_prefix (2048 - blen p) f He) as (d & Hd & Hc & He' & Hl & Hnil); [lia|].
  destruct (DumperUtils.read (2048 - blen p) f) as [od f'] eqn:ER. cbn [fst snd] in *. subst od.
  destruct d as [|x d0] eqn:Ed.
  { destruct (no_line_left ls ms p (content f) t) as [-> ->]; try done.
    { destruct (Hnil eq_refl); [left; lia | by right]. } by rewrite app_nil_r. }
  rewrite <- Ed in *. assert (0 < blen d) by (subst d; rewrite blen_cons; pose proof (blen_nonneg d0); lia).
  clear Ed x d0 Hnil. destruct (split_at tl (blen d)) as (t1 & post & -> & Ht1); [lia|].
  rewrite (mem_write_at p t1 d post) by (done || lia). rewrite bind_Ok. cbv zeta.
  rewrite Hc, app_assoc in HE. rewrite blen_app in *.
  destruct (split_stream ls (p ++ d) (content f') t) as (ls1 & ls2 & p' & -> & HS & Hp' & HE');
    [done| |done|rewrite blen_app; lia|].
  { clear - Hls. induction Hls as [|l m ls ms Hl _ IHl]; constructor; [apply Hl|done]. }
  apply Forall2_app_inv_l in Hls as (ms1 & ms2 & Hls1 & Hls2 & ->).
  replace (p ++ d ++ post) with ([] ++ (flat ls1 ++ p') ++ post) by (cbn [app]; by rewrite <- HS, <- app_assoc).
  rewrite <- blen_app, HS. change 0 with (blen []) at 1.
  destruct (parse_lines_spec ls1 ms1 (S (Z.to_nat (blen (flat ls1 ++ p')))) [] p' post maps)
    as (b & HPL & HLb & t' & ->); [done|done|unfold blen; lia|].
  rewrite HPL, bind_Ok. cbv beta iota. rewrite andb_true_l, app_assoc. apply (IH f' p' t' ls2); try done.
  - cbn [app] in HLb. apply (f_equal Z.of_nat) in HLb.
    change (blen (p' ++ t') = blen ((flat ls1 ++ p') ++ post)) in HLb.
    rewrite HLb, <- HS, !blen_app. lia.
  - rewrite Hc, length_app in Hf. unfold blen in *. lia.
Qed.

Lemma split_line_newline l s : 10 ∉ l -> BufferMaps.split_line (l ++ 10 :: s) = (l, Some s).
Proof.
  induction l as [|c l IH]; intros H; cbn; [done|]. destruct (Z.eqb_spec c 10); [set_solver|].
  by rewrite IH by set_solver.
Qed.

(** A line of a text in memory, and its map. *)
Definition text_line (l : list Z) (m : MapInfo) : Prop := 10 ∉ l /\ InternalParseLine l = Some m.

Lemma line_of_text l m : line_of l m -> text_line l m.
Proof. intros H. split; apply H. Qed.

Lemma parse_text_spec ls ms fuel maps :
  Forall2 text_line ls ms -> ls <> [] -> (length (flat ls) < fuel)%nat ->
  BufferMaps.parse_text fuel (flat ls) maps = (true, maps ++ ms).
Proof.
  intros Hls. revert fuel maps. induction Hls as [|l m ls ms Hl Hls IH]; intros fuel maps Hn Hf; [done|].
  destruct fuel as [|fuel]; [lia|]. cbn [BufferMaps.parse_text].
  assert (flat (l :: ls) = l ++ 10 :: flat ls) as E
    by (change (flat (l :: ls)) with ((l ++ [10]) ++ flat ls); by rewrite <- !app_assoc).
  rewrite E, length_app, length_cons in *. destruct Hl as [Hl1 Hl2]. rewrite split_line_newline by done.
  rewrite Hl2. destruct Hls as [|l' m' ls ms Hl' Hls]; [done|].
  destruct (flat (l' :: ls)) as [|c r] eqn:E'.
  { change (flat (l' :: ls)) with ((l' ++ [10]) ++ flat ls) in E'.
    by rewrite <- app_assoc in E'; apply app_eq_nil in E' as [_ ?]. }
  rewrite IH by (done || lia). by rewrite <- app_assoc.
Qed.

(** ** Theorems *)

(** In a list of maps that is ordered and without overlaps, [Find] is exact: it returns
    a map if and only if the map is in the list and contains the pc, and so returns null
    exactly when no map contains it. *)
Theorem find_spec maps pc m :
  apart maps -> Maps.Find maps pc = Some m <-> m ∈ maps /\ start m <= pc < end_ m.
Proof.
  intros Ha. rewrite <- find_cmp_Eq. rewrite <- bsearch_spec.
  - by destruct maps.
  - by apply apart_ordered.
  - intros y z Hy Hz. rewrite !find_cmp_Eq. by apply apart_unique with maps.
Qed.


(** C34. However [read] splits the file, [Maps::Parse] stores nothing outside its buffer of
    2048 bytes, reports success and appends the map of every line, in order, up to the
    first line of 2048 or more bytes (or the end of an unterminated last line); what
    follows such a line is dropped, and the result is still success. *)
Theorem parse_maps_file ls ms t f buffer maps :
  Forall2 line_of ls ms -> DumperUtils.error_free f -> blen buffer = 2048 ->
  content f = flat ls ++ t -> 10 ∉ take 2048 t ->
  Maps.Parse buffer (Some f) maps = Ok (true, maps ++ ms).
Proof.
  intros Hls He HB HE Ht. apply (parse_file_spec _ f buffer [] buffer ls ms t maps); try done.
  - set_solver.
  - cbn. lia.
Qed.

(** A file of maps read in pieces and the same text parsed in memory by [BufferMaps]
    give the same maps, for every way [read] splits the file. *)
Theorem parse_file_is_parse_text ls ms f buffer maps :
  Forall2 line_of ls ms -> ls <> [] -> DumperUtils.error_free f -> blen buffer = 2048 ->
  content f = flat ls ->
  Maps.Parse buffer (Some f) maps = Ok (BufferMaps.Parse (content f) maps).
Proof.
  intros Hls Hn He HB HE. unfold BufferMaps.Parse, Maps.Parse.
  rewrite HE at 2 3. rewrite (parse_text_spec ls ms) by (done || lia || by eapply Forall2_impl, line_of_text).
  apply (parse_file_spec _ f buffer [] buffer ls ms [] maps); try done.
  - set_solver.
  - cbn [app]. by rewrite app_nil_r.
  - rewrite take_nil. set_solver.
  - lia.
Qed.

(** ** Witnesses *)

Definition sample_line : list Z := str "7000-8000 r-xp 00001000 fe:00 1234   /system/lib64/libc.so".
Definition sample_map : MapInfo := new_MapInfo 28672 32768 4096 5 (str "/system/lib64/libc.so").

Lemma sample_line_of : line_of sample_line sample_map.
Proof.
  split.
  - refine (bool_decide_unpack (10 ∉ sample_line) _). vm_compute. exact I.
  - refine (bool_decide_unpack (Forall (fun b => b <> 0) sample_line) _). vm_compute. exact I.
  - vm_compute. congruence.
  - reflexivity.
Qed.

Lemma find_spec_witness :
  Maps.Find [sample_map; new_MapInfo 40960 45056 0 1 []] 32767 = Some sample_map.
Proof.
  apply (find_spec [sample_map; new_MapInfo 40960 45056 0 1 []] 32767 sample_map).
  - split; repeat constructor; cbn; lia.
  - split; [constructor | cbn; lia].
Defined.


(** Two lines, and then one with a name of 3000 bytes: read in pieces of 1, 100 and what
    the buffer holds. *)
Definition long_tail : list Z := str "9000-a000 r-xp 00000000 fe:00 7 /" ++ replicate 3000 97 ++ [10].

Lemma parse_maps_file_witness :
  Maps.Parse (zeros 2048) (Some (mkFile (flat [sample_line; sample_line] ++ long_tail)
      [ReadUpTo 1; ReadUpTo 100])) [] = Ok (true, [sample_map; sample_map]).
Proof.
  apply (parse_maps_file [sample_line; sample_line] [sample_map; sample_map] long_tail); try done.
  - repeat apply Forall2_cons_2; [apply sample_line_of..|apply Forall2_nil_2].
  - unfold DumperUtils.error_free. cbn. rewrite !elem_of_cons, elem_of_nil. by intros [? | [? | ?]].
  - refine (bool_decide_unpack (10 ∉ take 2048 long_tail) _). vm_compute. exact I.
Defined.

Lemma parse_file_is_parse_text_witness :
  Maps.Parse (zeros 2048) (Some (mkFile (flat [sample_line; sample_line]) [ReadUpTo 60])) [] =
    Ok (BufferMaps.Parse (flat [sample_line; sample_line]) []).
Proof.
  apply (parse_file_is_parse_text [sample_line; sample_line] [sample_map; sample_map]); try done.
  - repeat apply Forall2_cons_2; [apply sample_line_of..|apply Forall2_nil_2].
  - unfold DumperUtils.error_free. cbn. rewrite elem_of_cons, elem_of_nil. by intros [? | ?].
Defined.

(** After a line that cannot be parsed the rest of the buffer is not moved to its start,
    and reading goes on: the file is three lines, the second of them malformed, and the
    third is read next.  [Parse] reports failure, but has added a map at 0x707000 for the
    line that says 7000. *)
Example parse_continues_after_bad_line :
  Maps.Parse (zeros 2048) (Some (mkFile (flat [sample_line; str "x"; sample_line])
      [ReadUpTo (length (flat [sample_line; str "x"]))])) [] =
    Ok (false, [sample_map; new_MapInfo 7368704 32768 4096 5 (str "/system/lib64/libc.so")]).
Proof. vm_compute. reflexivity. Qed.
