(* ===== verification/UwSymbols.v ===== *)
(** * libunwindstack: symbol tables

    Models external/libunwindstack-ndk/Symbols.{h,cpp}: finding the function an address
    belongs to, in a table that is read as far as needed and kept sorted in a cache, and
    finding a global variable by its name.

    The layout of an entry ([Elf32_Sym], [Elf64_Sym]) is the class [SymType].  The loops
    over the table and over the characters of a name take their fuel as an argument; the
    theorems give the fuel that is enough.  [std::sort] does not order equal elements; the
    model takes a stable sort, and the theorems are about tables whose functions begin at
    different addresses. *)

From S2P Require Import Prelude UwDwarfMemory UwMemory.

(** ** Entries of a symbol table *)

(** The fields of [Elf32_Sym] and [Elf64_Sym] as (offset, size) pairs. *)
Class SymType : Type := {
  sizeof_sym : Z;
  f_name : Z * Z;
  f_info : Z * Z;
  f_shndx : Z * Z;
  f_value : Z * Z;
  f_size : Z * Z
}.

Definition Elf32_Sym : SymType :=
  {| sizeof_sym := 16; f_name := (0, 4); f_value := (4, 4); f_size := (8, 4); f_info := (12, 1); f_shndx := (14, 2) |}.
Definition Elf64_Sym : SymType :=
  {| sizeof_sym := 24; f_name := (0, 4); f_info := (4, 1); f_shndx := (6, 2); f_value := (8, 8); f_size := (16, 8) |}.

Definition SHN_UNDEF : Z := 0.
Definition SHN_ABS : Z := 65521.
Definition STT_OBJECT : Z := 1.
Definition STT_FUNC : Z := 2.
Definition STB_GLOBAL : Z := 1.

Record Sym : Type := mkSym { st_name : Z; st_info : Z; st_shndx : Z; st_value : Z; st_size : Z }.

Definition field (f : Z * Z) (bs : list Z) : Z := le_val (slice f.1 f.2 bs).

Definition decode_sym {ST : SymType} (bs : list Z) : Sym :=
  mkSym (field f_name bs) (field f_info bs) (field f_shndx bs) (field f_value bs) (field f_size bs).

(** [ELF32_ST_TYPE], [ELF32_ST_BIND] *)
Definition st_type (e : Sym) : Z := Z.land (st_info e) 15.
Definition st_bind (e : Sym) : Z := Z.shiftr (st_info e) 4.

Module Symbols.
Record Info : Type := mkInfo { start_offset : Z; end_offset : Z; str_offset : Z }.

#[global] Instance Info_eq_dec : EqDecision Info.
Proof. solve_decision. Defined.

Record t : Type := mk {
  cur_offset_ : Z;
  offset_ : Z;
  end_ : Z;
  entry_size_ : Z;
  str_offset_ : Z;
  str_end_ : Z;
  symbols_ : list Info
}.

Definition new (offset size entry_size str_offset str_size : Z) : t :=
  mk offset offset (u64 (offset + size)) entry_size str_offset (u64 (str_offset + str_size)) [].

Definition set_cur (o : Z) (s : t) : t :=
  mk o (offset_ s) (end_ s) (entry_size_ s) (str_offset_ s) (str_end_ s) (symbols_ s).
Definition set_symbols (l : list Info) (s : t) : t :=
  mk (cur_offset_ s) (offset_ s) (end_ s) (entry_size_ s) (str_offset_ s) (str_end_ s) l.

Definition ClearCache (s : t) : t := set_cur (offset_ s) (set_symbols [] s).

(** Where the search goes on: [Eq] when the symbol contains the address. *)
Definition info_cmp (addr : Z) (info : Info) : comparison :=
  if addr <? start_offset info then Lt else if addr <? end_offset info then Eq else Gt.

Definition GetInfoFromCache (addr : Z) (s : t) : option Info :=
  bsearch (info_cmp addr) (symbols_ s) (S (length (symbols_ s))) 0 (length (symbols_ s)).

Definition by_start (a b : Info) : Prop := start_offset a <= start_offset b.
#[global] Instance by_start_dec : RelDecision by_start.
Proof. intros a b. unfold by_start. apply _. Defined.

Section Names.
Context {ST : SymType}.
Variable elf_memory : Memory.
Variable fuel : nat.

(** [ReadString]: the name, [None] for false. *)
Definition read_name (addr max_read : Z) : outcome (option (list Z)) :=
  match ReadString elf_memory fuel addr max_read with
  | None => Fault OutOfFuel
  | Some (true, name) => Ok (Some name)
  | Some (false, _) => Ok None
  end.

Definition read_entry (offset : Z) : option Sym := decode_sym <$> ReadFully elf_memory offset sizeof_sym.

Definition is_func (e : Sym) : bool := negb (st_shndx e =? SHN_UNDEF) && (st_type e =? STT_FUNC).
Definition is_global (e : Sym) : bool :=
  negb (st_shndx e =? SHN_UNDEF) && (st_type e =? STT_OBJECT) && (st_bind e =? STB_GLOBAL).

(** The [Info] of an entry. *)
Definition info_of (load_bias str_offset : Z) (e : Sym) : Info :=
  let start := if negb (st_shndx e =? SHN_ABS) then u64 (st_value e + load_bias) else st_value e in
  mkInfo start (u64 (start + st_size e)) (u64 (str_offset + st_name e)).

(** How the loop of [GetName] ended. *)
Inductive scanned : Type :=
| Corrupted                                         (** an entry could not be read: return at once *)
| Matched (func_offset : Z) (name : option (list Z)) (** break *)
| Exhausted.                                        (** the table has ended *)

(** The loop of [GetName]; new symbols go to the end of [symbols_]. *)
Fixpoint scan (n : nat) (addr load_bias : Z) (s : t) : outcome (scanned * t) :=
  match n with
  | O => Fault OutOfFuel
  | S n =>
      if u64 (cur_offset_ s + entry_size_ s) <=? end_ s then
        match read_entry (cur_offset_ s) with
        | None => Ok (Corrupted, set_cur (2 ^ 64 - 1) s)
        | Some entry =>
            let s := set_cur (u64 (cur_offset_ s + entry_size_ s)) s in
            if is_func entry then
              let info := info_of load_bias (str_offset_ s) entry in
              let s := set_symbols (symbols_ s ++ [info]) s in
              if (start_offset info <=? addr) && (addr <? end_offset info) then
                let offset := str_offset info in
                name ← (if offset <? str_end_ s then read_name offset (str_end_ s - offset) else Ok None);
                Ok (Matched (addr - start_offset info) name, s)
              else scan n addr load_bias s
            else scan n addr load_bias s
        end
      else Ok (Exhausted, s)
  end.

(** Sorting changes nothing unless a symbol was added. *)
Definition sort_added (before : nat) (s : t) : t :=
  if (before =? length (symbols_ s))%nat then s else set_symbols (merge_sort by_start (symbols_ s)) s.

(** [GetName]: the name and the offset in the function, [None] for false.  When it fails, the
    callers drop what was stored in the two output parameters. *)
Definition GetName (addr load_bias : Z) (s : t) : outcome (option (list Z * Z) * t) :=
  let addr := u64 (addr + load_bias) in
  match (if negb (length (symbols_ s) =? 0)%nat then GetInfoFromCache addr s else None) with
  | Some info =>
      if (start_offset info <=? addr) && (addr <=? end_offset info) then
        name ← read_name (str_offset info) (u64 (str_end_ s - str_offset info));
        Ok (option_map (fun name => (name, addr - start_offset info)) name, s)
      else Fault CheckFailed
  | None =>
      r ← scan fuel addr load_bias s;
      match r with
      | (Corrupted, s') => Ok (None, s')
      | (Matched func_offset name, s') =>
          Ok (option_map (fun name => (name, func_offset)) name, sort_added (length (symbols_ s)) s')
      | (Exhausted, s') => Ok (None, sort_added (length (symbols_ s)) s')
      end
  end.

(** The loop of [GetGlobal]. *)
Fixpoint global_loop (n : nat) (name : list Z) (cur_offset : Z) (s : t) : outcome (option Z) :=
  match n with
  | O => Fault OutOfFuel
  | S n =>
      if u64 (cur_offset + entry_size_ s) <=? end_ s then
        match read_entry cur_offset with
        | None => Ok None
        | Some entry =>
            let cur_offset := u64 (cur_offset + entry_size_ s) in
            if is_global entry then
              let str_offset := u64 (str_offset_ s + st_name entry) in
              if str_offset <? str_end_ s then
                symbol ← read_name str_offset (str_end_ s - str_offset);
                if bool_decide (symbol = Some name) then Ok (Some (st_value entry))
                else global_loop n name cur_offset s
              else global_loop n name cur_offset s
            else global_loop n name cur_offset s
        end
      else Ok None
  end.

Definition GetGlobal (name : list Z) (s : t) : outcome (option Z) := global_loop fuel name (offset_ s) s.
End Names.
End Symbols.

(** ** A table in memory *)

Module SymbolFacts.
Import Symbols.

Definition contains (addr : Z) (i : Info) : bool := (start_offset i <=? addr) && (addr <? end_offset i).

(** The functions of a table. *)
Definition funcs (load_bias strtab : Z) (es : list Sym) : list Info := info_of load_bias strtab <$> filter is_func es.

(** Functions that begin at different addresses and do not overlap. *)
Definition functions_apart (l : list Info) : Prop :=
  NoDup (start_offset <$> l) /\ Forall (fun i => start_offset i <= end_offset i) l /\
  forall a b, a ∈ l -> b ∈ l -> a <> b -> end_offset a <= start_offset b \/ end_offset b <= start_offset a.

#[global] Instance by_start_trans : Transitive by_start.
Proof. intros a b c. unfold by_start. lia. Qed.
#[global] Instance by_start_total : Total by_start.
Proof. intros a b. unfold by_start. lia. Qed.

Lemma info_cmp_Eq addr i : info_cmp addr i = Eq <-> contains addr i = true.
Proof.
  unfold info_cmp, contains. destruct (Z.ltb_spec addr (start_offset i)), (Z.leb_spec (start_offset i) addr),
    (Z.ltb_spec addr (end_offset i)); cbn; split; try done; lia.
Qed.

Lemma contains_unique addr l a b :
  functions_apart l -> a ∈ l -> b ∈ l -> contains addr a = true -> contains addr b = true -> a = b.
Proof.
  intros (_ & _ & Hap) Ha Hb Ca Cb. destruct (decide (a = b)) as [|Hne]; [done|].
  unfold contains in *. pose proof (Hap a b Ha Hb Hne). lia.
Qed.

Lemma apart_perm l l' : l ≡ₚ l' -> functions_apart l -> functions_apart l'.
Proof.
  intros HP (H1 & H2 & H3). split_and!; [by rewrite <- HP|by rewrite <- HP|].
  intros a b. rewrite <- HP. apply H3.
Qed.

Lemma apart_prefix l l' : functions_apart (l ++ l') -> functions_apart l.
Proof.
  intros (H1 & H2 & H3). rewrite fmap_app in H1. apply NoDup_app in H1 as (H1 & _). apply Forall_app in H2 as [H2 _].
  split_and!; [done|done|]. intros a b Ha Hb. apply H3; apply elem_of_app; by left.
Qed.

Lemma infos_ordered addr l : functions_apart l -> StronglySorted by_start l -> ordered_by (info_cmp addr) l.
Proof.
  intros (Hnd & Hse & Hap) Hs i j x y Hij Hx Hy.
  pose proof (sorted_lookup _ _ i j x y Hs Hij Hx Hy) as Hle. unfold by_start in Hle.
  assert (x ∈ l /\ y ∈ l) as [Hxl Hyl] by (split; by eapply list_elem_of_lookup_2).
  assert (start_offset x <> start_offset y) as Hne.
  { intros E. enough (i = j) by lia. eapply (NoDup_lookup _ i j (start_offset x) Hnd); rewrite list_lookup_fmap;
      [by rewrite Hx|by rewrite Hy, E]. }
  rewrite Forall_forall in Hse. pose proof (Hse x Hxl). pose proof (Hse y Hyl). cbn in *.
  assert (x <> y) as Hxy by congruence. pose proof (Hap x y Hxl Hyl Hxy). unfold info_cmp.
  destruct (Z.ltb_spec addr (start_offset x)), (Z.ltb_spec addr (start_offset y)), (Z.ltb_spec addr (end_offset x)),
    (Z.ltb_spec addr (end_offset y)); split; intros ?; try done; lia.
Qed.

(** The search in the cache finds the function that contains the address. *)
Lemma cache_spec addr s i :
  functions_apart (symbols_ s) -> StronglySorted by_start (symbols_ s) ->
  GetInfoFromCache addr s = Some i <-> i ∈ symbols_ s /\ contains addr i = true.
Proof.
  intros Ha Hs. unfold GetInfoFromCache. rewrite bsearch_spec, info_cmp_Eq; [done|by apply infos_ordered|].
  intros y z Hy Hz. rewrite !info_cmp_Eq. by apply (contains_unique addr (symbols_ s)).
Qed.

Lemma read_string_total m fuel addr max n acc :
  0 <= n -> (Z.to_nat (max - n) < fuel)%nat -> is_Some (read_string m fuel addr max n acc).
Proof.
  revert addr n acc. induction fuel as [|fuel IH]; intros addr n acc Hn Hf; [lia|]. cbn [read_string].
  destruct (Z.ltb_spec n max); [|done]. destruct (ReadFully m addr 1) as [v|]; [|done].
  destruct (_ =? 0); [done|]. apply IH; lia.
Qed.

Section Table.
Context {ST : SymType}.
Variables (m : Memory) (fuel : nat) (load_bias offset esz strtab str_end : Z) (es : list Sym).

(** The table lies at [offset], in entries of [esz] bytes. *)
Record stored_table : Prop := {
  st_entries : forall i e, es !! i = Some e -> read_entry m (offset + Z.of_nat i * esz) = Some e;
  st_esz : 0 < esz;
  st_offset : 0 <= offset;
  st_room : offset + (Z.of_nat (length es) + 1) * esz < 2 ^ 64
}.

(** The state when [k] entries have been read. *)
Definition at_entry (k : nat) (l : list Info) : t :=
  mk (offset + Z.of_nat k * esz) offset (offset + Z.of_nat (length es) * esz) esz strtab str_end l.

(** [ReadString] of a name. *)
Definition name_at (i : Info) : option (list Z) :=
  match ReadString m fuel (str_offset i) (str_end - str_offset i) with
  | Some (true, name) => Some name
  | _ => None
  end.

(** What [GetName] promises, with no cache. *)
Definition function_at (addr : Z) : option (list Z * Z) :=
  let addr := u64 (addr + load_bias) in
  i ← find (contains addr) (funcs load_bias strtab es);
  option_map (fun name => (name, addr - start_offset i)) (name_at i).

Definition names_ok (i : Info) : Prop := 0 <= str_offset i < str_end.

Lemma read_name_ok i : names_ok i -> (Z.to_nat str_end < fuel)%nat ->
  read_name m fuel (str_offset i) (str_end - str_offset i) = Ok (name_at i).
Proof.
  intros [H1 H2] Hf. unfold read_name, name_at, ReadString.
  destruct (read_string_total m fuel (str_offset i) (str_end - str_offset i) 0 []) as [[[] name] ->]; [lia|lia|done..].
Qed.

Definition hit (addr : Z) (e : Sym) : bool := is_func e && contains addr (info_of load_bias strtab e).

Lemma find_hit addr (l : list Sym) :
  Forall (fun e => hit addr e = false) l \/
  exists pre e post, l = pre ++ e :: post /\ Forall (fun e => hit addr e = false) pre /\ hit addr e = true.
Proof.
  induction l as [|e l [IH|(pre & e' & post & -> & IH & He)]]; [by left|..];
    destruct (hit addr e) eqn:E; try (right; by exists [], e, l); try (by left; constructor).
  - right. by exists [], e, (pre ++ e' :: post).
  - right. exists (e :: pre), e', post. split; [done|]. by split; [constructor|].
Qed.

Hypothesis Hst : stored_table.

(** One round of the loop. *)
Lemma scan_step n addr k l e :
  es !! k = Some e ->
  scan m fuel (S n) addr load_bias (at_entry k l) =
    let s := at_entry (S k) (l ++ funcs load_bias strtab [e]) in
    if hit addr e then
      name ← (if str_offset (info_of load_bias strtab e) <? str_end
              then read_name m fuel (str_offset (info_of load_bias strtab e)) (str_end - str_offset (info_of load_bias strtab e))
              else Ok None);
      Ok (Matched (addr - start_offset (info_of load_bias strtab e)) name, s)
    else scan m fuel n addr load_bias s.
Proof.
  intros He. destruct Hst as [H1 H2 H3 H4]. pose proof (lookup_lt_Some _ _ _ He).
  assert (u64 (cur_offset_ (at_entry k l) + entry_size_ (at_entry k l)) = offset + Z.of_nat (S k) * esz) as Hk.
  { cbn [at_entry cur_offset_ entry_size_]. rewrite uwrap_small; [|unfold in_u]; nia. }
  cbn [scan]. rewrite Hk. change (end_ (at_entry k l)) with (offset + Z.of_nat (length es) * esz).
  destruct (Z.leb_spec (offset + Z.of_nat (S k) * esz) (offset + Z.of_nat (length es) * esz)); [|nia].
  change (cur_offset_ (at_entry k l)) with (offset + Z.of_nat k * esz).
  rewrite (H1 k e He). unfold hit, funcs, contains. rewrite filter_cons. cbn [filter list_filter].
  destruct (is_func e) eqn:EF.
  - rewrite decide_True by done. reflexivity.
  - rewrite decide_False by (intros []). cbn [fmap list_fmap andb]. rewrite app_nil_r. reflexivity.
Qed.

Lemma funcs_app a b : funcs load_bias strtab (a ++ b) = funcs load_bias strtab a ++ funcs load_bias strtab b.
Proof. unfold funcs. by rewrite filter_app, fmap_app. Qed.

(** The loop when no function of the rest of the table contains the address. *)
Lemma scan_all n addr k l :
  (k <= length es)%nat -> (length es - k < n)%nat -> Forall (fun e => hit addr e = false) (drop k es) ->
  scan m fuel n addr load_bias (at_entry k l) =
    Ok (Exhausted, at_entry (length es) (l ++ funcs load_bias strtab (drop k es))).
Proof.
  revert k l. induction n as [|n IH]; intros k l Hk Hn Hf; [lia|].
  destruct (decide (k = length es)) as [->|].
  - destruct Hst as [_ H2 H3 H4]. cbn [scan at_entry cur_offset_ entry_size_ end_].
    rewrite uwrap_small by (unfold in_u; nia).
    destruct (Z.leb_spec (offset + Z.of_nat (length es) * esz + esz) (offset + Z.of_nat (length es) * esz)); [lia|].
    rewrite drop_all. cbn. by rewrite app_nil_r.
  - destruct (lookup_lt_is_Some_2 es k) as [e He]; [lia|]. rewrite (scan_step n addr k l e He). cbv zeta.
    rewrite (drop_S _ _ _ He) in Hf |- *. apply Forall_cons in Hf as [H1 H2]. rewrite H1.
    rewrite IH by (done || lia). rewrite <- app_assoc, <- funcs_app. done.
Qed.

(** The loop when there is one. *)
Lemma scan_hit n addr k l pre e post :
  drop k es = pre ++ e :: post -> (length pre < n)%nat -> Forall (fun e => hit addr e = false) pre -> hit addr e = true ->
  names_ok (info_of load_bias strtab e) -> (Z.to_nat str_end < fuel)%nat ->
  scan m fuel n addr load_bias (at_entry k l) =
    Ok (Matched (addr - start_offset (info_of load_bias strtab e)) (name_at (info_of load_bias strtab e)),
        at_entry (k + S (length pre)) (l ++ funcs load_bias strtab (pre ++ [e]))).
Proof.
  revert k l pre. induction n as [|n IH]; intros k l pre Hd Hn Hf He Hno Hfu; [lia|].
  assert (is_Some (es !! k)) as [e0 Hk].
  { apply lookup_lt_is_Some. apply (f_equal length) in Hd. rewrite length_drop, length_app in Hd. cbn in Hd. lia. }
  rewrite (scan_step n addr k l e0 Hk). cbv zeta. rewrite (drop_S _ _ _ Hk) in Hd. destruct pre as [|p pre].
  - injection Hd as -> _. rewrite He. destruct Hno as [N1 N2].
    destruct (Z.ltb_spec (str_offset (info_of load_bias strtab e)) str_end); [|lia].
    rewrite read_name_ok, bind_Ok by done. cbn [length app]. by rewrite Nat.add_1_r.
  - injection Hd as -> Hd. apply Forall_cons in Hf as [H1 H2]. rewrite H1. cbn in Hn.
    rewrite (IH (S k) _ pre) by (done || lia). rewrite <- app_assoc, <- funcs_app. cbn [length app].
    by replace (S k + S (length pre))%nat with (k + S (S (length pre)))%nat by lia.
Qed.
End Table.
End SymbolFacts.

(** ** Theorems *)

Module SymbolTheorems.
Import Symbols SymbolFacts.

Section Theorems.
Context {ST : SymType}.
Variables (m : Memory) (fuel : nat) (load_bias offset esz strtab str_end : Z) (es : list Sym).

Notation state k l := (at_entry offset esz strtab str_end es k l).

(** The table has been read up to entry [k], and the cache has its functions in order. *)
Definition cached (k : nat) (s : t) : Prop :=
  (k <= length es)%nat /\ StronglySorted by_start (symbols_ s) /\
  symbols_ s ≡ₚ funcs load_bias strtab (take k es) /\ s = state k (symbols_ s).

Lemma sort_added_sorted before k l :
  StronglySorted by_start (take before l) -> (before <= length l)%nat -> (k <= length es)%nat ->
  l ≡ₚ funcs load_bias strtab (take k es) -> cached k (sort_added before (state k l)).
Proof.
  intros Hs Hb Hk HP. unfold sort_added. cbn [at_entry symbols_]. destruct (Nat.eqb_spec before (length l)) as [->|].
  - rewrite take_ge in Hs by lia. done.
  - split_and!; [done|apply StronglySorted_merge_sort; apply _| |done].
    cbn [set_symbols symbols_]. by rewrite merge_sort_Permutation.
Qed.

Lemma find_contains addr l i :
  functions_apart l -> i ∈ l -> contains addr i = true -> find (contains addr) l = Some i.
Proof.
  intros Ha Hi Hc. destruct (find (contains addr) l) as [j|] eqn:E.
  - apply List.find_some in E as [Hj Cj]. f_equal. apply (contains_unique addr l); try done. by apply list_elem_of_In.
  - apply list_elem_of_In in Hi. by rewrite (List.find_none _ _ E i Hi) in Hc.
Qed.

Lemma hits_none addr l : Forall (fun e => hit load_bias strtab addr e = false) l ->
  find (contains addr) (funcs load_bias strtab l) = None.
Proof.
  induction 1 as [|e l He _ IH]; [done|]. unfold funcs. rewrite filter_cons. unfold hit in He.
  destruct (is_func e) eqn:EF; cbn in He.
  - rewrite decide_True by done. cbn [fmap list_fmap find]. by rewrite He.
  - by rewrite decide_False by (intros []).
Qed.

Lemma find_app {A} (f : A -> bool) a b : find f (a ++ b) = match find f a with Some x => Some x | None => find f b end.
Proof. induction a as [|x a IH]; cbn; [done|]. by destruct (f x). Qed.

Hypothesis Hst : stored_table m offset esz es.
Hypothesis Hap : functions_apart (funcs load_bias strtab es).
Hypothesis Hnames : Forall (names_ok str_end) (funcs load_bias strtab es).
Hypothesis Hfuel : (length es < fuel)%nat /\ (Z.to_nat str_end < fuel)%nat.
Hypothesis Hend : str_end < 2 ^ 64.

Lemma funcs_split k : funcs load_bias strtab es = funcs load_bias strtab (take k es) ++ funcs load_bias strtab (drop k es).
Proof. by rewrite <- funcs_app, take_drop. Qed.

Lemma cached_next k k' l :
  StronglySorted by_start l -> l ≡ₚ funcs load_bias strtab (take k es) -> (k <= k' <= length es)%nat ->
  cached k' (sort_added (length l) (state k' (l ++ funcs load_bias strtab (drop k (take k' es))))).
Proof.
  intros Hs HP Hk. apply sort_added_sorted; [by rewrite take_app_length|rewrite length_app; lia|lia|].
  rewrite HP, <- funcs_app. replace (take k es) with (take k (take k' es)) by (rewrite take_take; f_equal; lia).
  by rewrite take_drop.
Qed.

(** The scan of the rest of the table, when no cached function contains the address. *)
Lemma scan_finds a k l :
  StronglySorted by_start l -> l ≡ₚ funcs load_bias strtab (take k es) -> (k <= length es)%nat ->
  exists k' r s', scan m fuel fuel a load_bias (state k l) = Ok (r, s') /\ cached k' (sort_added (length l) s') /\
    match find (contains a) (funcs load_bias strtab (drop k es)) with
    | None => r = Exhausted
    | Some i => r = Matched (a - start_offset i) (name_at m fuel str_end i)
    end.
Proof.
  intros Hs HP Hk.
  destruct (find_hit load_bias strtab a (drop k es)) as [Hall|(pre & e & post & Hd & Hpre & Hhit)].
  - rewrite (scan_all m fuel load_bias offset esz strtab str_end es Hst) by (done || lia).
    rewrite hits_none by done. eexists (length es), _, _. split_and!; [done| |done].
    pose proof (cached_next k (length es) l Hs HP) as Hnext. rewrite firstn_all in Hnext. apply Hnext. lia.
  - assert (length es = k + length pre + S (length post))%nat as HL.
    { apply (f_equal length) in Hd. rewrite length_drop, length_app in Hd. cbn in Hd. lia. }
    assert (is_func e = true /\ contains a (info_of load_bias strtab e) = true) as [Fe Ci]
      by (unfold hit in Hhit; by apply andb_prop in Hhit).
    assert (funcs load_bias strtab (e :: post) = info_of load_bias strtab e :: funcs load_bias strtab post) as Hfe.
    { unfold funcs. rewrite filter_cons, decide_True by by rewrite Fe. done. }
    assert (info_of load_bias strtab e ∈ funcs load_bias strtab es) as Hin.
    { rewrite (funcs_split k), Hd, funcs_app, Hfe. rewrite !elem_of_app. right. right. apply list_elem_of_here. }
    rewrite Forall_forall in Hnames.
    rewrite (scan_hit m fuel load_bias offset esz strtab str_end es Hst _ a k l pre e post Hd);
      [|lia|done|done|by apply Hnames|apply Hfuel].
    assert (find (contains a) (funcs load_bias strtab (drop k es)) = Some (info_of load_bias strtab e)) as ->.
    { rewrite Hd, funcs_app, find_app, hits_none, Hfe by done. cbn [find]. by rewrite Ci. }
    eexists (k + S (length pre))%nat, _, _. split_and!; [done| |done].
    pose proof (cached_next k (k + S (length pre)) l Hs HP) as Hnext.
    replace (drop k (take (k + S (length pre)) es)) with (pre ++ [e]) in Hnext; [apply Hnext; lia|].
    rewrite <- take_drop_commute, Hd, (cons_middle e pre post), app_assoc.
    replace (S (length pre)) with (length (pre ++ [e])) by (rewrite length_app; cbn; lia). by rewrite take_app_length.
Qed.

Lemma get_name_cached addr k s :
  cached k s ->
  exists k' s', GetName m fuel addr load_bias s =
    Ok (function_at m fuel load_bias strtab str_end es addr, s') /\ cached k' s'.
Proof.
  intros (Hk & Hs & HP & He). set (l := symbols_ s) in *. unfold GetName, function_at.
  set (a := u64 (addr + load_bias)). pose proof (funcs_split k) as Hsplit.
  assert (functions_apart l) as Hal.
  { eapply apart_perm; [symmetry; exact HP|]. eapply apart_prefix. by rewrite <- Hsplit. }
  assert (forall i, (if negb (length l =? 0)%nat then GetInfoFromCache a s else None) = Some i <->
            i ∈ l /\ contains a i = true) as HC.
  { intros i. destruct (Nat.eqb_spec (length l) 0) as [E|]; cbn [negb].
    - apply nil_length_inv in E. rewrite E. split; [done|]. intros [Hi _]. by apply elem_of_nil in Hi.
    - by apply cache_spec. }
  fold l. destruct (if negb _ then _ else _) as [i|].
  - destruct (proj1 (HC i) eq_refl) as [Hi Ci].
    assert (i ∈ funcs load_bias strtab es) as Hin by (rewrite Hsplit, <- HP; apply elem_of_app; by left).
    rewrite (find_contains a _ i Hap Hin Ci). unfold contains in Ci. apply andb_prop in Ci as [C1 C2].
    rewrite C1. destruct (Z.leb_spec a (end_offset i)); [|lia]. cbn [andb].
    rewrite Forall_forall in Hnames. pose proof (Hnames i Hin) as Hno.
    replace (str_end_ s) with str_end by (rewrite He; done). rewrite uwrap_small by (unfold in_u; destruct Hno; lia).
    rewrite read_name_ok, bind_Ok by (done || apply Hfuel). by exists k, s.
  - assert (find (contains a) (funcs load_bias strtab (take k es)) = None) as Hnone.
    { destruct (find _ _) as [i|] eqn:E; [|done]. apply List.find_some in E as [Hi Ci].
      apply list_elem_of_In in Hi. rewrite <- HP in Hi. by destruct (proj2 (HC i) (conj Hi Ci)). }
    rewrite Hsplit, find_app, Hnone, He.
    destruct (scan_finds a k l Hs HP Hk) as (k' & r & s' & -> & Hc & Hr). rewrite bind_Ok.
    destruct (find (contains a) (funcs load_bias strtab (drop k es))) as [i|]; rewrite Hr; by eexists k', _.
Qed.

(** Calls one after the other, each with the cache the one before left. *)
Fixpoint names (addrs : list Z) (s : t) : outcome (list (option (list Z * Z)) * t) :=
  match addrs with
  | [] => Ok ([], s)
  | addr :: addrs =>
      r ← GetName m fuel addr load_bias s;
      rest ← names addrs r.2;
      Ok (r.1 :: rest.1, rest.2)
  end.

Lemma names_cached addrs k s :
  cached k s -> exists s', names addrs s = Ok (function_at m fuel load_bias strtab str_end es <$> addrs, s').
Proof.
  revert k s. induction addrs as [|addr addrs IH]; intros k s Hc; [by exists s|]. cbn [names fmap list_fmap].
  destruct (get_name_cached addr k s Hc) as (k' & s' & -> & Hc'). rewrite bind_Ok. cbn [fst snd].
  destruct (IH k' s' Hc') as [s2 ->]. rewrite bind_Ok. by exists s2.
Qed.
End Theorems.

End SymbolTheorems.

(** ** Witnesses and concrete tables *)

Module SymbolExamples.
Import Symbols SymbolFacts SymbolTheorems.

(** An entry of an [Elf64_Sym] table: a function ([info] 18: global, function) of section 1. *)
Definition func64 (name value size : Z) : list Z :=
  le_bytes 4 name ++ [18; 0] ++ le_bytes 2 1 ++ le_bytes 8 value ++ le_bytes 8 size.

(** A global variable (17: global, object). *)
Definition object64 (name value size : Z) : list Z :=
  le_bytes 4 name ++ [17; 0] ++ le_bytes 2 1 ++ le_bytes 8 value ++ le_bytes 8 size.

(** Two functions f (at 4096, 32 bytes) and g (at 4160, 16 bytes) and a variable v at 8192,
    with the names behind the table. *)
Definition sample : list Z := func64 3 4160 16 ++ object64 5 8192 8 ++ func64 1 4096 32 ++ [0; 102; 0; 103; 0; 118; 0].
Definition sample_memory : Memory := MemoryBuffer.Read sample.
Definition sample_syms : list Sym := [mkSym 3 18 1 4160 16; mkSym 5 17 1 8192 8; mkSym 1 18 1 4096 32].

#[local] Existing Instance Elf64_Sym.


Example sample_global :
  GetGlobal sample_memory 100 [118] (new 0 72 24 72 7) = Ok (Some 8192) /\
  GetGlobal sample_memory 100 [102] (new 0 72 24 72 7) = Ok None.
Proof. split; vm_compute; reflexivity. Qed.

(** A function of size 0 inside another one: f from 4096 to 4128, and a label g at 4100. *)
Definition nested : list Z := func64 1 4096 32 ++ func64 3 4100 0 ++ [0; 102; 0; 103; 0].

Definition nested_names (addrs : list Z) : outcome (list (option (list Z * Z))) :=
  r ← names (MemoryBuffer.Read nested) 100 0 addrs (new 0 48 24 48 5); Ok r.1.

(** The answer for an address depends on what was asked before: once the label is in the
    cache, the search goes past the function that contains the address. *)
Example nested_symbol_hides :
  nested_names [4110; 4200; 4110] = Ok [Some ([102], 14); None; None].
Proof. vm_compute. reflexivity. Qed.

(** A name outside of the string table: the first call rejects it, the second, from the
    cache, reads behind the string table (here up to the next zero byte). *)
Definition stray : list Z := func64 7 4096 32 ++ [0; 102; 0; 65; 65; 65; 65; 83; 0].

Example cached_name_unchecked :
  (r ← names (MemoryBuffer.Read stray) 100 0 [4096; 4096] (new 0 24 24 24 3); Ok r.1) = Ok [None; Some ([83], 0)].
Proof. vm_compute. reflexivity. Qed.

(** With an entry size of 0 the scan never ends: no amount of fuel is enough. *)
Lemma zero_entry_size_scans_forever m fuel n addr load_bias s e :
  entry_size_ s = 0 -> 0 <= cur_offset_ s <= end_ s -> cur_offset_ s < 2 ^ 64 ->
  read_entry m (cur_offset_ s) = Some e -> is_func e = false ->
  scan m fuel n addr load_bias s = Fault OutOfFuel.
Proof.
  intros Hz Hr H64 He Hf. induction n as [|n IH]; [done|]. cbn [scan].
  rewrite Hz, Z.add_0_r, uwrap_small by (unfold in_u; lia).
  destruct (Z.leb_spec (cur_offset_ s) (end_ s)); [|lia]. rewrite He, Hf. by destruct s.
Qed.
End SymbolExamples.
