(* ===== verification/UwDwarfOp.v ===== *)
(** * libunwindstack: the DWARF expression machine

    Models external/libunwindstack-ndk/DwarfOp.{h,cpp} ([DwarfOp<AddressType>]: the
    table of operations, [Decode] and [Eval]), RegsInfo.h and the error codes of
    DwarfError.h.  The operand stack is a list, front first.  An operation returns
    the C++ result and the new state; reading outside the stack, shifting too far
    and signed overflow are faults.

    [Eval] stops by itself after a thousand operations, so the model recurses on
    the number of operations left and needs no fuel of its own. *)

From S2P Require Import Prelude UwDwarfMemory.

(** [DwarfErrorCode] *)
Inductive DwarfErrorCode : Type :=
| DWARF_ERROR_NONE
| DWARF_ERROR_MEMORY_INVALID
| DWARF_ERROR_ILLEGAL_VALUE
| DWARF_ERROR_ILLEGAL_STATE
| DWARF_ERROR_STACK_INDEX_NOT_VALID
| DWARF_ERROR_NOT_IMPLEMENTED
| DWARF_ERROR_TOO_MANY_ITERATIONS
| DWARF_ERROR_CFA_NOT_DEFINED
| DWARF_ERROR_UNSUPPORTED_VERSION
| DWARF_ERROR_NO_FDES.

#[global] Instance DwarfErrorCode_eq_dec : EqDecision DwarfErrorCode.
Proof. solve_decision. Defined.

(** [AddressType] arithmetic. *)
Definition abits {AT : AddressType} : Z := 8 * asz.
Definition aw {AT : AddressType} (z : Z) : Z := uwrap abits z.
Definition as_signed {AT : AddressType} (z : Z) : Z := swrap abits z.

(** ** RegsInfo.h *)

Module RegsInfo.
(** The registers, and those saved before they were overwritten (64 slots). *)
Record t : Type := mk { regs : list Z; saved_reg_map : Z; saved_regs : list Z }.

Definition new (regs : list Z) : t := mk regs 0 (zeros 64).

(** [1 << reg] on an [int], converted to 64 bits. *)
Definition reg_bit (reg : Z) : outcome Z :=
  if reg <? 31 then Ok (2 ^ reg)
  else if reg =? 31 then Ok (2 ^ 64 - 2 ^ 31)
  else Fault BadShift.

Definition IsSaved (i : t) (reg : Z) : outcome bool :=
  if 64 <? reg then Fault CheckFailed
  else b ← reg_bit reg; Ok (negb (Z.land (saved_reg_map i) b =? 0)).

(** An element of an array or vector, unchecked in C++. *)
Definition at_ (l : list Z) (reg : Z) : outcome Z :=
  of_option OutOfBounds (if 0 <=? reg then l !! Z.to_nat reg else None).

Definition Get (i : t) (reg : Z) : outcome Z :=
  s ← IsSaved i reg;
  if s : bool then at_ (saved_regs i) reg else at_ (regs i) reg.

(** [Save(reg)]; the pointer it returns is the register [reg] itself. *)
Definition Save (i : t) (reg : Z) : outcome t :=
  if 64 <? reg then Fault CheckFailed
  else
    b ← reg_bit reg;
    v ← at_ (regs i) reg;
    if 64 <=? reg then Fault OutOfBounds
    else Ok (mk (regs i) (Z.lor (saved_reg_map i) b) (<[Z.to_nat reg := v]> (saved_regs i))).

Definition Total (i : t) : Z := Z.of_nat (length (regs i)).
End RegsInfo.

Module DwarfOp.
(** The member functions an entry of the table can point to. *)
Inductive handler : Type :=
| h_push
| h_deref
| h_dup
| h_drop
| h_over
| h_pick
| h_swap
| h_rot
| h_not_implemented
| h_abs
| h_and
| h_div
| h_minus
| h_mod
| h_mul
| h_neg
| h_not
| h_or
| h_plus
| h_plus_uconst
| h_shl
| h_shr
| h_shra
| h_xor
| h_bra
| h_eq
| h_ge
| h_gt
| h_le
| h_lt
| h_ne
| h_skip
| h_lit
| h_reg
| h_breg
| h_regx
| h_bregx
| h_deref_size
| h_nop.

#[global] Instance handler_eq_dec : EqDecision handler.
Proof. solve_decision. Defined.

(** [struct OpCallback]; entries without a handler are [None]. *)
Record OpCallback : Type := mkOp {
  op_name : string;
  handle_func : handler;
  num_required_stack_values : nat;
  num_operands : nat;
  op_operands : list Z
}.

Local Abbreviation op n h r k os := (Some (mkOp n%string h r k os)).

(** [kCallbackTable], operations 0x00 to 0x0f *)
Definition kCallbackTable_0 : list (option OpCallback) :=
  [None; None; None;
   op "DW_OP_addr" h_push 0 1 [DW_EH_PE_absptr];
   None; None;
   op "DW_OP_deref" h_deref 1 0 [];
   None;
   op "DW_OP_const1u" h_push 0 1 [DW_EH_PE_udata1];
   op "DW_OP_const1s" h_push 0 1 [DW_EH_PE_sdata1];
   op "DW_OP_const2u" h_push 0 1 [DW_EH_PE_udata2];
   op "DW_OP_const2s" h_push 0 1 [DW_EH_PE_sdata2];
   op "DW_OP_const4u" h_push 0 1 [DW_EH_PE_udata4];
   op "DW_OP_const4s" h_push 0 1 [DW_EH_PE_sdata4];
   op "DW_OP_const8u" h_push 0 1 [DW_EH_PE_udata8];
   op "DW_OP_const8s" h_push 0 1 [DW_EH_PE_sdata8]].

(** [kCallbackTable], operations 0x10 to 0x1f *)
Definition kCallbackTable_1 : list (option OpCallback) :=
  [op "DW_OP_constu" h_push 0 1 [DW_EH_PE_uleb128];
   op "DW_OP_consts" h_push 0 1 [DW_EH_PE_sleb128];
   op "DW_OP_dup" h_dup 1 0 [];
   op "DW_OP_drop" h_drop 1 0 [];
   op "DW_OP_over" h_over 2 0 [];
   op "DW_OP_pick" h_pick 0 1 [DW_EH_PE_udata1];
   op "DW_OP_swap" h_swap 2 0 [];
   op "DW_OP_rot" h_rot 3 0 [];
   op "DW_OP_xderef" h_not_implemented 2 0 [];
   op "DW_OP_abs" h_abs 1 0 [];
   op "DW_OP_and" h_and 2 0 [];
   op "DW_OP_div" h_div 2 0 [];
   op "DW_OP_minus" h_minus 2 0 [];
   op "DW_OP_mod" h_mod 2 0 [];
   op "DW_OP_mul" h_mul 2 0 [];
   op "DW_OP_neg" h_neg 1 0 []].

(** [kCallbackTable], operations 0x20 to 0x2f *)
Definition kCallbackTable_2 : list (option OpCallback) :=
  [op "DW_OP_not" h_not 1 0 [];
   op "DW_OP_or" h_or 2 0 [];
   op "DW_OP_plus" h_plus 2 0 [];
   op "DW_OP_plus_uconst" h_plus_uconst 1 1 [DW_EH_PE_uleb128];
   op "DW_OP_shl" h_shl 2 0 [];
   op "DW_OP_shr" h_shr 2 0 [];
   op "DW_OP_shra" h_shra 2 0 [];
   op "DW_OP_xor" h_xor 2 0 [];
   op "DW_OP_bra" h_bra 1 1 [DW_EH_PE_sdata2];
   op "DW_OP_eq" h_eq 2 0 [];
   op "DW_OP_ge" h_ge 2 0 [];
   op "DW_OP_gt" h_gt 2 0 [];
   op "DW_OP_le" h_le 2 0 [];
   op "DW_OP_lt" h_lt 2 0 [];
   op "DW_OP_ne" h_ne 2 0 [];
   op "DW_OP_skip" h_skip 0 1 [DW_EH_PE_sdata2]].

(** [kCallbackTable], operations 0x30 to 0x3f *)
Definition kCallbackTable_3 : list (option OpCallback) :=
  [op "DW_OP_lit0" h_lit 0 0 [];
   op "DW_OP_lit1" h_lit 0 0 [];
   op "DW_OP_lit2" h_lit 0 0 [];
   op "DW_OP_lit3" h_lit 0 0 [];
   op "DW_OP_lit4" h_lit 0 0 [];
   op "DW_OP_lit5" h_lit 0 0 [];
   op "DW_OP_lit6" h_lit 0 0 [];
   op "DW_OP_lit7" h_lit 0 0 [];
   op "DW_OP_lit8" h_lit 0 0 [];
   op "DW_OP_lit9" h_lit 0 0 [];
   op "DW_OP_lit10" h_lit 0 0 [];
   op "DW_OP_lit11" h_lit 0 0 [];
   op "DW_OP_lit12" h_lit 0 0 [];
   op "DW_OP_lit13" h_lit 0 0 [];
   op "DW_OP_lit14" h_lit 0 0 [];
   op "DW_OP_lit15" h_lit 0 0 []].

(** [kCallbackTable], operations 0x40 to 0x4f *)
Definition kCallbackTable_4 : list (option OpCallback) :=
  [op "DW_OP_lit16" h_lit 0 0 [];
   op "DW_OP_lit17" h_lit 0 0 [];
   op "DW_OP_lit18" h_lit 0 0 [];
   op "DW_OP_lit19" h_lit 0 0 [];
   op "DW_OP_lit20" h_lit 0 0 [];
   op "DW_OP_lit21" h_lit 0 0 [];
   op "DW_OP_lit22" h_lit 0 0 [];
   op "DW_OP_lit23" h_lit 0 0 [];
   op "DW_OP_lit24" h_lit 0 0 [];
   op "DW_OP_lit25" h_lit 0 0 [];
   op "DW_OP_lit26" h_lit 0 0 [];
   op "DW_OP_lit27" h_lit 0 0 [];
   op "DW_OP_lit28" h_lit 0 0 [];
   op "DW_OP_lit29" h_lit 0 0 [];
   op "DW_OP_lit30" h_lit 0 0 [];
   op "DW_OP_lit31" h_lit 0 0 []].

(** [kCallbackTable], operations 0x50 to 0x5f *)
Definition kCallbackTable_5 : list (option OpCallback) :=
  [op "DW_OP_reg0" h_reg 0 0 [];
   op "DW_OP_reg1" h_reg 0 0 [];
   op "DW_OP_reg2" h_reg 0 0 [];
   op "DW_OP_reg3" h_reg 0 0 [];
   op "DW_OP_reg4" h_reg 0 0 [];
   op "DW_OP_reg5" h_reg 0 0 [];
   op "DW_OP_reg6" h_reg 0 0 [];
   op "DW_OP_reg7" h_reg 0 0 [];
   op "DW_OP_reg8" h_reg 0 0 [];
   op "DW_OP_reg9" h_reg 0 0 [];
   op "DW_OP_reg10" h_reg 0 0 [];
   op "DW_OP_reg11" h_reg 0 0 [];
   op "DW_OP_reg12" h_reg 0 0 [];
   op "DW_OP_reg13" h_reg 0 0 [];
   op "DW_OP_reg14" h_reg 0 0 [];
   op "DW_OP_reg15" h_reg 0 0 []].

(** [kCallbackTable], operations 0x60 to 0x6f *)
Definition kCallbackTable_6 : list (option OpCallback) :=
  [op "DW_OP_reg16" h_reg 0 0 [];
   op "DW_OP_reg17" h_reg 0 0 [];
   op "DW_OP_reg18" h_reg 0 0 [];
   op "DW_OP_reg19" h_reg 0 0 [];
   op "DW_OP_reg20" h_reg 0 0 [];
   op "DW_OP_reg21" h_reg 0 0 [];
   op "DW_OP_reg22" h_reg 0 0 [];
   op "DW_OP_reg23" h_reg 0 0 [];
   op "DW_OP_reg24" h_reg 0 0 [];
   op "DW_OP_reg25" h_reg 0 0 [];
   op "DW_OP_reg26" h_reg 0 0 [];
   op "DW_OP_reg27" h_reg 0 0 [];
   op "DW_OP_reg28" h_reg 0 0 [];
   op "DW_OP_reg29" h_reg 0 0 [];
   op "DW_OP_reg30" h_reg 0 0 [];
   op "DW_OP_reg31" h_reg 0 0 []].

(** [kCallbackTable], operations 0x70 to 0x7f *)
Definition kCallbackTable_7 : list (option OpCallback) :=
  [op "DW_OP_breg0" h_breg 0 1 [DW_EH_PE_sleb128];
   op "DW_OP_breg1" h_breg 0 1 [DW_EH_PE_sleb128];
   op "DW_OP_breg2" h_breg 0 1 [DW_EH_PE_sleb128];
   op "DW_OP_breg3" h_breg 0 1 [DW_EH_PE_sleb128];
   op "DW_OP_breg4" h_breg 0 1 [DW_EH_PE_sleb128];
   op "DW_OP_breg5" h_breg 0 1 [DW_EH_PE_sleb128];
   op "DW_OP_breg6" h_breg 0 1 [DW_EH_PE_sleb128];
   op "DW_OP_breg7" h_breg 0 1 [DW_EH_PE_sleb128];
   op "DW_OP_breg8" h_breg 0 1 [DW_EH_PE_sleb128];
   op "DW_OP_breg9" h_breg 0 1 [DW_EH_PE_sleb128];
   op "DW_OP_breg10" h_breg 0 1 [DW_EH_PE_sleb128];
   op "DW_OP_breg11" h_breg 0 1 [DW_EH_PE_sleb128];
   op "DW_OP_breg12" h_breg 0 1 [DW_EH_PE_sleb128];
   op "DW_OP_breg13" h_breg 0 1 [DW_EH_PE_sleb128];
   op "DW_OP_breg14" h_breg 0 1 [DW_EH_PE_sleb128];
   op "DW_OP_breg15" h_breg 0 1 [DW_EH_PE_sleb128]].

(** [kCallbackTable], operations 0x80 to 0x8f *)
Definition kCallbackTable_8 : list (option OpCallback) :=
  [op "DW_OP_breg16" h_breg 0 1 [DW_EH_PE_sleb128];
   op "DW_OP_breg17" h_breg 0 1 [DW_EH_PE_sleb128];
   op "DW_OP_breg18" h_breg 0 1 [DW_EH_PE_sleb128];
   op "DW_OP_breg19" h_breg 0 1 [DW_EH_PE_sleb128];
   op "DW_OP_breg20" h_breg 0 1 [DW_EH_PE_sleb128];
   op "DW_OP_breg21" h_breg 0 1 [DW_EH_PE_sleb128];
   op "DW_OP_breg22" h_breg 0 1 [DW_EH_PE_sleb128];
   op "DW_OP_breg23" h_breg 0 1 [DW_EH_PE_sleb128];
   op "DW_OP_breg24" h_breg 0 1 [DW_EH_PE_sleb128];
   op "DW_OP_breg25" h_breg 0 1 [DW_EH_PE_sleb128];
   op "DW_OP_breg26" h_breg 0 1 [DW_EH_PE_sleb128];
   op "DW_OP_breg27" h_breg 0 1 [DW_EH_PE_sleb128];
   op "DW_OP_breg28" h_breg 0 1 [DW_EH_PE_sleb128];
   op "DW_OP_breg29" h_breg 0 1 [DW_EH_PE_sleb128];
   op "DW_OP_breg30" h_breg 0 1 [DW_EH_PE_sleb128];
   op "DW_OP_breg31" h_breg 0 1 [DW_EH_PE_sleb128]].

(** [kCallbackTable], operations 0x90 to 0x9f *)
Definition kCallbackTable_9 : list (option OpCallback) :=
  [op "DW_OP_regx" h_regx 0 1 [DW_EH_PE_uleb128];
   op "DW_OP_fbreg" h_not_implemented 0 1 [DW_EH_PE_sleb128];
   op "DW_OP_bregx" h_bregx 0 2 [DW_EH_PE_uleb128; DW_EH_PE_sleb128];
   op "DW_OP_piece" h_not_implemented 0 1 [DW_EH_PE_uleb128];
   op "DW_OP_deref_size" h_deref_size 1 1 [DW_EH_PE_udata1];
   op "DW_OP_xderef_size" h_not_implemented 0 1 [DW_EH_PE_udata1];
   op "DW_OP_nop" h_nop 0 0 [];
   op "DW_OP_push_object_address" h_not_implemented 0 0 [];
   op "DW_OP_call2" h_not_implemented 0 1 [DW_EH_PE_udata2];
   op "DW_OP_call4" h_not_implemented 0 1 [DW_EH_PE_udata4];
   op "DW_OP_call_ref" h_not_implemented 0 0 [];
   op "DW_OP_form_tls_address" h_not_implemented 0 0 [];
   op "DW_OP_call_frame_cfa" h_not_implemented 0 0 [];
   op "DW_OP_bit_piece" h_not_implemented 0 2 [DW_EH_PE_uleb128; DW_EH_PE_uleb128];
   op "DW_OP_implicit_value" h_not_implemented 0 1 [DW_EH_PE_uleb128];
   op "DW_OP_stack_value" h_not_implemented 1 0 []].

(** [kCallbackTable], operations 0xa0 to 0xaf *)
Definition kCallbackTable_a : list (option OpCallback) :=
  [None; None; None; None; None; None; None; None; None; None; None; None; None; None; None; None].

(** [kCallbackTable], operations 0xb0 to 0xbf *)
Definition kCallbackTable_b : list (option OpCallback) :=
  [None; None; None; None; None; None; None; None; None; None; None; None; None; None; None; None].

(** [kCallbackTable], operations 0xc0 to 0xcf *)
Definition kCallbackTable_c : list (option OpCallback) :=
  [None; None; None; None; None; None; None; None; None; None; None; None; None; None; None; None].

(** [kCallbackTable], operations 0xd0 to 0xdf *)
Definition kCallbackTable_d : list (option OpCallback) :=
  [None; None; None; None; None; None; None; None; None; None; None; None; None; None; None; None].

(** [kCallbackTable], operations 0xe0 to 0xef *)
Definition kCallbackTable_e : list (option OpCallback) :=
  [None; None; None; None; None; None; None; None; None; None; None; None; None; None; None; None].

(** [kCallbackTable], operations 0xf0 to 0xff *)
Definition kCallbackTable_f : list (option OpCallback) :=
  [None; None; None; None; None; None; None; None; None; None; None; None; None; None; None; None].

Definition kCallbackTable : list (option OpCallback) :=
  kCallbackTable_0 ++ kCallbackTable_1 ++ kCallbackTable_2 ++ kCallbackTable_3 ++ kCallbackTable_4 ++ kCallbackTable_5 ++ kCallbackTable_6 ++ kCallbackTable_7
  ++ kCallbackTable_8 ++ kCallbackTable_9 ++ kCallbackTable_a ++ kCallbackTable_b ++ kCallbackTable_c ++ kCallbackTable_d ++ kCallbackTable_e ++ kCallbackTable_f.

(** ** The machine *)

Record t : Type := mk {
  dm : DwarfMemory.t;
  dex_pc_set : bool;
  is_register : bool;
  err_code : DwarfErrorCode;
  err_address : Z;
  cur_op : Z;
  operands : list Z;
  stack : list Z
}.

Definition new (m : DwarfMemory.t) : t := mk m false false DWARF_ERROR_NONE 0 0 [] [].

Definition set_dm (m : DwarfMemory.t) (s : t) : t :=
  mk m (dex_pc_set s) (is_register s) (err_code s) (err_address s) (cur_op s) (operands s) (stack s).
Definition set_dex (b : bool) (s : t) : t :=
  mk (dm s) b (is_register s) (err_code s) (err_address s) (cur_op s) (operands s) (stack s).
Definition set_register (b : bool) (s : t) : t :=
  mk (dm s) (dex_pc_set s) b (err_code s) (err_address s) (cur_op s) (operands s) (stack s).
Definition set_error (c : DwarfErrorCode) (a : Z) (s : t) : t :=
  mk (dm s) (dex_pc_set s) (is_register s) c a (cur_op s) (operands s) (stack s).
Definition set_op (o : Z) (s : t) : t :=
  mk (dm s) (dex_pc_set s) (is_register s) (err_code s) (err_address s) o (operands s) (stack s).
Definition set_operands (os : list Z) (s : t) : t :=
  mk (dm s) (dex_pc_set s) (is_register s) (err_code s) (err_address s) (cur_op s) os (stack s).
Definition set_stack (st : list Z) (s : t) : t :=
  mk (dm s) (dex_pc_set s) (is_register s) (err_code s) (err_address s) (cur_op s) (operands s) st.

(** An operation: its result and the state after it. *)
Definition result : Type := outcome (bool * t).

Definition succeed (s : t) : result := Ok (true, s).
Definition fail (c : DwarfErrorCode) (s : t) : result := Ok (false, set_error c (err_address s) s).
Definition fail_at (c : DwarfErrorCode) (a : Z) (s : t) : result := Ok (false, set_error c a s).

Definition OperandAt (s : t) (i : nat) : outcome Z := of_option OutOfBounds (operands s !! i).
Definition StackAt (s : t) (i : nat) : outcome Z := of_option OutOfBounds (stack s !! i).
Definition StackSize (s : t) : Z := Z.of_nat (length (stack s)).

Definition StackPop (s : t) : outcome (Z * t) :=
  match stack s with
  | [] => Fault OutOfBounds
  | v :: st => Ok (v, set_stack st s)
  end.

Definition push (v : Z) (s : t) : t := set_stack (v :: stack s) s.

(** [stack_[0] = f(stack_[0])] *)
Definition on_top (f : Z -> outcome Z) (s : t) : result :=
  match stack s with
  | [] => Fault OutOfBounds
  | v :: st => r ← f v; succeed (set_stack (r :: st) s)
  end.

(** [top = StackPop(); stack_[0] = f(stack_[0], top)] *)
Definition binary (f : Z -> Z -> outcome Z) (s : t) : result :=
  p ← StackPop s; on_top (fun x => f x p.1) p.2.

Definition bool_to_dwarf_bool (b : bool) : Z := if b then 1 else 0.

Section Ops.
Context {AT : AddressType}.
Variable regular_memory : Memory.
Variable regs_info : RegsInfo.t.

(** A signed result, which must fit [SignedType]. *)
Definition signed_result (z : Z) : outcome Z :=
  if (- 2 ^ (abits - 1) <=? z) && (z <? 2 ^ (abits - 1)) then Ok (aw z) else Fault SignedOverflow.

(** A shift count, which must be below the width. *)
Definition shift_count (top : Z) : outcome Z := if top <? abits then Ok top else Fault BadShift.

Definition op_deref (s : t) : result :=
  p ← StackPop s;
  match ReadFully regular_memory p.1 asz with
  | None => fail_at DWARF_ERROR_MEMORY_INVALID p.1 p.2
  | Some bs => succeed (push (le_val bs) p.2)
  end.

Definition op_deref_size (s : t) : result :=
  bytes_to_read ← OperandAt s 0;
  if (asz <? bytes_to_read) || (bytes_to_read =? 0) then fail DWARF_ERROR_ILLEGAL_VALUE s
  else
    p ← StackPop s;
    match ReadFully regular_memory p.1 bytes_to_read with
    | None => fail_at DWARF_ERROR_MEMORY_INVALID p.1 p.2
    | Some bs => succeed (push (le_val bs) p.2)
    end.

Definition op_push (s : t) : result := succeed (set_stack (rev (operands s) ++ stack s) s).
Definition op_dup (s : t) : result := v ← StackAt s 0; succeed (push v s).
Definition op_drop (s : t) : result := p ← StackPop s; succeed p.2.
Definition op_over (s : t) : result := v ← StackAt s 1; succeed (push v s).

Definition op_pick (s : t) : result :=
  index ← OperandAt s 0;
  if StackSize s <? index then fail DWARF_ERROR_STACK_INDEX_NOT_VALID s
  else v ← StackAt s (Z.to_nat index); succeed (push v s).

Definition op_swap (s : t) : result :=
  match stack s with
  | a :: b :: st => succeed (set_stack (b :: a :: st) s)
  | _ => Fault OutOfBounds
  end.

Definition op_rot (s : t) : result :=
  match stack s with
  | a :: b :: c :: st => succeed (set_stack (b :: c :: a :: st) s)
  | _ => Fault OutOfBounds
  end.

Definition op_abs : t -> result := on_top (fun v =>
  let x := as_signed v in signed_result (if x <? 0 then - x else x)).

Definition op_and : t -> result := binary (fun x top => Ok (Z.land x top)).

Definition op_div (s : t) : result :=
  p ← StackPop s;
  if p.1 =? 0 then fail DWARF_ERROR_ILLEGAL_VALUE p.2
  else on_top (fun x => signed_result (Z.quot (as_signed x) (as_signed p.1))) p.2.

Definition op_minus : t -> result := binary (fun x top => Ok (aw (x - top))).

Definition op_mod (s : t) : result :=
  p ← StackPop s;
  if p.1 =? 0 then fail DWARF_ERROR_ILLEGAL_VALUE p.2
  else on_top (fun x => Ok (x mod p.1)) p.2.

Definition op_mul : t -> result := binary (fun x top => Ok (aw (x * top))).
Definition op_neg : t -> result := on_top (fun x => signed_result (- as_signed x)).
Definition op_not : t -> result := on_top (fun x => Ok (aw (Z.lnot x))).
Definition op_or : t -> result := binary (fun x top => Ok (Z.lor x top)).
Definition op_plus : t -> result := binary (fun x top => Ok (aw (x + top))).
Definition op_plus_uconst (s : t) : result := o ← OperandAt s 0; on_top (fun x => Ok (aw (x + o))) s.
Definition op_shl : t -> result :=
  binary (fun x top => n ← shift_count top; Ok (aw (Z.shiftl x n))).
Definition op_shr : t -> result :=
  binary (fun x top => n ← shift_count top; Ok (Z.shiftr x n)).
Definition op_shra : t -> result :=
  binary (fun x top => n ← shift_count top; Ok (aw (Z.shiftr (as_signed x) n))).
Definition op_xor : t -> result := binary (fun x top => Ok (Z.lxor x top)).

Definition op_bra (s : t) : result :=
  p ← StackPop s;
  o ← OperandAt p.2 0;
  let offset := swrap 16 o in
  let here := DwarfMemory.cur_offset (dm p.2) in
  let cur_offset := if negb (p.1 =? 0) then u64 (here + offset) else u64 (here - offset) in
  succeed (set_dm (DwarfMemory.set_cur_offset cur_offset (dm p.2)) p.2).

Definition compare (c : Z -> Z -> bool) : t -> result :=
  binary (fun x top => Ok (bool_to_dwarf_bool (c x top))).
Definition op_eq : t -> result := compare (fun x top => x =? top).
Definition op_ge : t -> result := compare (fun x top => top <=? x).
Definition op_gt : t -> result := compare (fun x top => top <? x).
Definition op_le : t -> result := compare (fun x top => x <=? top).
Definition op_lt : t -> result := compare (fun x top => x <? top).
Definition op_ne : t -> result := compare (fun x top => negb (x =? top)).

Definition op_skip (s : t) : result :=
  o ← OperandAt s 0;
  let cur_offset := u64 (DwarfMemory.cur_offset (dm s) + swrap 16 o) in
  succeed (set_dm (DwarfMemory.set_cur_offset cur_offset (dm s)) s).

Definition op_lit (s : t) : result := succeed (push (aw (cur_op s - 48)) s).
Definition op_reg (s : t) : result := succeed (push (aw (cur_op s - 80)) (set_register true s)).
Definition op_regx (s : t) : result := o ← OperandAt s 0; succeed (push o (set_register true s)).

Definition op_breg (s : t) : result :=
  let reg := u16 (cur_op s - 112) in
  if RegsInfo.Total regs_info <=? reg then fail DWARF_ERROR_ILLEGAL_VALUE s
  else
    v ← RegsInfo.Get regs_info reg;
    o ← OperandAt s 0;
    succeed (push (aw (v + o)) s).

Definition op_bregx (s : t) : result :=
  reg ← OperandAt s 0;
  if RegsInfo.Total regs_info <=? reg then fail DWARF_ERROR_ILLEGAL_VALUE s
  else
    v ← RegsInfo.Get regs_info reg;
    o ← OperandAt s 1;
    succeed (push (aw (v + o)) s).

Definition op_nop (s : t) : result := succeed s.
Definition op_not_implemented (s : t) : result := fail DWARF_ERROR_NOT_IMPLEMENTED s.

(** [(this->*handle_func)()] *)
Definition handle (h : handler) : t -> result :=
  match h with
  | h_push => op_push | h_deref => op_deref | h_dup => op_dup | h_drop => op_drop
  | h_over => op_over | h_pick => op_pick | h_swap => op_swap | h_rot => op_rot
  | h_not_implemented => op_not_implemented | h_abs => op_abs | h_and => op_and
  | h_div => op_div | h_minus => op_minus | h_mod => op_mod | h_mul => op_mul
  | h_neg => op_neg | h_not => op_not | h_or => op_or | h_plus => op_plus
  | h_plus_uconst => op_plus_uconst | h_shl => op_shl | h_shr => op_shr | h_shra => op_shra
  | h_xor => op_xor | h_bra => op_bra | h_eq => op_eq | h_ge => op_ge | h_gt => op_gt
  | h_le => op_le | h_lt => op_lt | h_ne => op_ne | h_skip => op_skip | h_lit => op_lit
  | h_reg => op_reg | h_breg => op_breg | h_regx => op_regx | h_bregx => op_bregx
  | h_deref_size => op_deref_size | h_nop => op_nop
  end.

(** The operands of [Decode], read one after the other; [None] when a read fails. *)
Fixpoint read_operands (n : nat) (encodings : list Z) (s : t) : outcome (bool * t) :=
  match n with
  | O => Ok (true, s)
  | S n =>
      r ← DwarfMemory.ReadEncodedValue (hd 0 encodings) (dm s);
      let s := set_dm r.2 s in
      match r.1 with
      | None => fail_at DWARF_ERROR_MEMORY_INVALID (DwarfMemory.cur_offset (dm s)) s
      | Some value => read_operands n (tl encodings) (set_operands (operands s ++ [aw value]) s)
      end
  end.

Definition Decode (s : t) : result :=
  let s := set_error DWARF_ERROR_NONE (err_address s) s in
  r ← DwarfMemory.ReadBytes 1 (dm s);
  match r with
  | (None, m) => fail_at DWARF_ERROR_MEMORY_INVALID (DwarfMemory.cur_offset m) (set_dm m s)
  | (Some b, m) =>
      let s := set_op (le_val b) (set_dm m s) in
      match kCallbackTable !! Z.to_nat (cur_op s) with
      | None => Fault OutOfBounds
      | Some None => fail DWARF_ERROR_ILLEGAL_VALUE s
      | Some (Some cb) =>
          if (length (stack s) <? num_required_stack_values cb)%nat
          then fail DWARF_ERROR_STACK_INDEX_NOT_VALID s
          else
            r ← read_operands (num_operands cb) (op_operands cb) (set_operands [] s);
            if r.1 : bool then handle (handle_func cb) r.2 else Ok r
      end
  end.

Definition at_end (e : Z) (s : t) : bool := negb (DwarfMemory.cur_offset (dm s) <? e).

(** The loop of [Eval] with [k = 1000 - iterations]. *)
Fixpoint eval_loop (k : nat) (e : Z) (s : t) : result :=
  if at_end e s then succeed s
  else
    r ← Decode s;
    if negb r.1 then Ok r
    else match k with
         | O => fail DWARF_ERROR_TOO_MANY_ITERATIONS r.2
         | S k => eval_loop k e r.2
         end.

Definition starts_dex (s : t) : bool :=
  (cur_op s =? 12) && bool_decide (last (operands s) = Some 827868484).

Definition Eval (start e : Z) (s : t) : result :=
  let s := set_dex false (set_dm (DwarfMemory.set_cur_offset start (dm s))
             (set_stack [] (set_register false s))) in
  if at_end e s then succeed s
  else
    r ← Decode s;
    if negb r.1 then Ok r
    else
      let check_for_drop := starts_dex r.2 in
      if at_end e r.2 then succeed r.2
      else
        r ← Decode r.2;
        if negb r.1 then Ok r
        else
          let s := if check_for_drop && (cur_op r.2 =? 19) then set_dex true r.2 else r.2 in
          eval_loop 998 e s.
End Ops.

Lemma abits_pos {AT : AddressType} : 0 < abits.
Proof. unfold abits. destruct asz_cases; lia. Qed.

Lemma aw_range {AT : AddressType} z : in_u abits (aw z).
Proof. apply uwrap_range. pose proof abits_pos; lia. Qed.

(** ** The table protects the stack *)

(** How many stack elements and operands a handler uses without checking. *)
Definition needs (h : handler) : nat :=
  match h with
  | h_deref | h_deref_size | h_dup | h_drop | h_abs | h_neg | h_not | h_plus_uconst | h_bra => 1
  | h_over | h_swap | h_and | h_div | h_minus | h_mod | h_mul | h_or | h_plus | h_shl | h_shr
  | h_shra | h_xor | h_eq | h_ge | h_gt | h_le | h_lt | h_ne => 2
  | h_rot => 3
  | _ => 0
  end%nat.

Definition arity (h : handler) : nat :=
  match h with
  | h_pick | h_deref_size | h_plus_uconst | h_bra | h_skip | h_regx | h_breg => 1
  | h_bregx => 2
  | _ => 0
  end%nat.

Definition entry_ok (o : option OpCallback) : bool :=
  match o with
  | None => true
  | Some cb => (needs (handle_func cb) <=? num_required_stack_values cb)%nat
               && (arity (handle_func cb) <=? num_operands cb)%nat
  end.

Lemma table_ok : forallb entry_ok kCallbackTable = true.
Proof. vm_compute. reflexivity. Qed.

Lemma table_length : length kCallbackTable = 256%nat.
Proof. vm_compute. reflexivity. Qed.

Lemma table_entry i cb :
  kCallbackTable !! i = Some (Some cb) ->
  (needs (handle_func cb) <= num_required_stack_values cb)%nat /\
  (arity (handle_func cb) <= num_operands cb)%nat.
Proof.
  intros Hi. pose proof (forallb_lookup _ _ _ _ table_ok Hi) as HT.
  unfold entry_ok in HT. by rewrite andb_true_iff, !Nat.leb_le in HT.
Qed.

(** *** Readers do not touch the stack *)

Definition no_oob {A} (m : DwarfMemory.reader A) : Prop := forall d, m d <> Fault OutOfBounds.

Lemma rbind_no_oob {A B} (m : DwarfMemory.reader A) (k : A -> DwarfMemory.reader B) :
  no_oob m -> (forall a, no_oob (k a)) -> no_oob (DwarfMemory.rbind m k).
Proof.
  intros Hm Hk d. unfold DwarfMemory.rbind. specialize (Hm d).
  destruct (m d) as [[[a|] d']|f]; cbn; [apply Hk|done|congruence].
Qed.

Lemma ReadBytes_no_oob n : no_oob (DwarfMemory.ReadBytes n).
Proof. intros d. unfold DwarfMemory.ReadBytes. by destruct (ReadFully _ _ _). Qed.

Lemma rret_no_oob {A} (a : A) : no_oob (DwarfMemory.rret a).
Proof. done. Qed.

Lemma leb_loop_no_oob fuel v sh : no_oob (DwarfMemory.leb_loop fuel v sh).
Proof.
  revert v sh. induction fuel as [|fuel IH]; intros v sh; [done|]. cbn [DwarfMemory.leb_loop].
  apply rbind_no_oob; [apply ReadBytes_no_oob|]. intros bs d. destruct (64 <=? sh); [done|].
  destruct (_ =? 0); [done|apply IH].
Qed.

Lemma ReadSLEB128_no_oob : no_oob DwarfMemory.ReadSLEB128.
Proof.
  apply rbind_no_oob; [apply leb_loop_no_oob|]. intros [[v sh] b] d.
  destruct (_ =? 0); [done|]. by destruct (64 <=? sh).
Qed.

Lemma ReadEncodedValue_no_oob {AT : AddressType} e : no_oob (DwarfMemory.ReadEncodedValue e).
Proof.
  assert (forall n, no_oob (DwarfMemory.ReadUnsigned n)) as HU
    by (intros n; apply rbind_no_oob; [apply ReadBytes_no_oob|done]).
  assert (forall n, no_oob (DwarfMemory.ReadSigned n)) as HS
    by (intros n; apply rbind_no_oob; [apply ReadBytes_no_oob|done]).
  intros d. unfold DwarfMemory.ReadEncodedValue.
  destruct (e =? DW_EH_PE_omit); [done|]. destruct (e =? DW_EH_PE_aligned).
  { destruct (2 ^ 64 <=? _); [done|apply HU]. }
  apply rbind_no_oob.
  - unfold DwarfMemory.read_encoded_data. repeat (case_match; [apply HU || apply HS ||
      (apply rbind_no_oob; [apply leb_loop_no_oob|done]) ||
      (apply rbind_no_oob; [apply ReadSLEB128_no_oob|done])|]). done.
  - intros v d'. unfold DwarfMemory.AdjustEncodedValue, DwarfMemory.add_offset.
    repeat (case_match; try discriminate); done.
Qed.

Lemma ReadBytes_one d b m :
  (forall a n, bytes_ok (DwarfMemory.memory_ d a n)) ->
  DwarfMemory.ReadBytes 1 d = Ok (Some b, m) -> exists x, b = [x] /\ 0 <= x < 256.
Proof.
  intros Hm. unfold DwarfMemory.ReadBytes, ReadFully.
  specialize (Hm (DwarfMemory.cur_offset d) 1).
  destruct (Z.eqb_spec (blen (DwarfMemory.memory_ d (DwarfMemory.cur_offset d) 1)) 1) as [E|]; [|done].
  intros [= <- <-]. destruct (DwarfMemory.memory_ d (DwarfMemory.cur_offset d) 1) as [|x [|y l]].
  - done.
  - exists x. split; [done|]. by inversion Hm.
  - rewrite !blen_cons in E. pose proof (blen_nonneg l). lia.
Qed.

(** Only operation 0x15 picks. *)
Lemma pick_only_21 i cb :
  kCallbackTable !! i = Some (Some cb) -> handle_func cb = h_pick -> i = 21%nat.
Proof.
  intros Hi Hh.
  assert (forallb (fun '(k, o) => match o : option OpCallback with
      | Some cb => negb (bool_decide (handle_func cb = h_pick)) || (k =? 21)%nat
      | None => true end) (zip (seq 0 256) kCallbackTable) = true) as HT by (vm_compute; reflexivity).
  assert (zip (seq 0 256) kCallbackTable !! i = Some (i, Some cb)) as Hz.
  { apply lookup_zip_with_Some. exists i, (Some cb). split_and!; [done| |done].
    apply lookup_seq. apply lookup_lt_Some in Hi. rewrite table_length in Hi. lia. }
  pose proof (forallb_lookup _ _ _ _ HT Hz) as HL. cbn beta iota in HL.
  rewrite Hh, bool_decide_eq_true_2 in HL by done. by apply Nat.eqb_eq in HL.
Qed.

Section Operands.
Context {AT : AddressType}.

(** After [read_operands]: the operands are there, in range; nothing else changed. *)
Lemma read_operands_ok n es s b s' :
  read_operands n es s = Ok (b, s') ->
  Forall (in_u abits) (operands s) ->
  stack s' = stack s /\ cur_op s' = cur_op s /\ Forall (in_u abits) (operands s') /\
  (b = true -> length (operands s') = (length (operands s) + n)%nat).
Proof.
  revert es s. induction n as [|n IH]; intros es s H HF; cbn [read_operands] in H.
  { injection H as <- <-. split_and!; [done|done|done|]. intros _. lia. }
  apply bind_Ok_inv in H as ([[v|] m] & _ & H); cbn [fst snd] in H.
  - apply IH in H; cbn [operands set_operands set_dm stack cur_op] in *.
    + destruct H as (H1 & H2 & H3 & H4). split_and!; [done|done|done|].
      intros Hb. rewrite H4 by done. rewrite length_app. cbn. lia.
    + apply Forall_app_2; [done|]. constructor; [|constructor].
      apply uwrap_range. pose proof abits_pos; lia.
  - injection H as <- <-. split_and!; done.
Qed.

Lemma read_operands_no_oob n es s : read_operands n es s <> Fault OutOfBounds.
Proof.
  revert es s. induction n as [|n IH]; intros es s; cbn [read_operands]; [done|].
  pose proof (ReadEncodedValue_no_oob (hd 0 es) (dm s)) as HR.
  destruct (DwarfMemory.ReadEncodedValue (hd 0 es) (dm s)) as [[[v|] m]|f]; cbn; [apply IH|done|].
  congruence.
Qed.
End Operands.

Section Safety.
Context {AT : AddressType}.
Variable regular_memory : Memory.
Variable regs_info : RegsInfo.t.

(** [saved_regs] is an array of 64 elements. *)
Hypothesis saved_size : length (RegsInfo.saved_regs regs_info) = 64%nat.

Lemma Get_no_oob reg :
  0 <= reg < RegsInfo.Total regs_info -> RegsInfo.Get regs_info reg <> Fault OutOfBounds.
Proof.
  intros Hr. unfold RegsInfo.Get, RegsInfo.IsSaved, RegsInfo.reg_bit, RegsInfo.Total in *.
  destruct (Z.ltb_spec 64 reg); [done|].
  assert (forall l, (Z.to_nat reg < length l)%nat -> RegsInfo.at_ l reg <> Fault OutOfBounds) as HA.
  { intros l Hl. unfold RegsInfo.at_. destruct (Z.leb_spec 0 reg); [|lia].
    by destruct (lookup_lt_is_Some_2 l _ Hl) as [v ->]. }
  destruct (Z.ltb_spec reg 31), (Z.eqb_spec reg 31); cbn; try done;
    destruct (negb _); apply HA; rewrite ?saved_size; lia.
Qed.

Lemma signed_result_no_oob z : signed_result z <> Fault OutOfBounds.
Proof. unfold signed_result. by destruct (_ && _). Qed.

Lemma shift_count_no_oob z : shift_count z <> Fault OutOfBounds.
Proof. unfold shift_count. by destruct (_ <? _). Qed.

Lemma on_top_no_oob f s :
  (1 <= length (stack s))%nat -> (forall x, f x <> Fault OutOfBounds) -> on_top f s <> Fault OutOfBounds.
Proof.
  intros Hl Hf. unfold on_top. destruct (stack s) as [|x st]; [cbn in Hl; lia|].
  specialize (Hf x). destruct (f x); cbn; [done|congruence].
Qed.

Lemma binary_no_oob f s :
  (2 <= length (stack s))%nat -> (forall x y, f x y <> Fault OutOfBounds) -> binary f s <> Fault OutOfBounds.
Proof.
  intros Hl Hf. unfold binary, StackPop. destruct (stack s) as [|x st]; [cbn in Hl; lia|].
  rewrite bind_Ok. apply on_top_no_oob; cbn in *; [lia|]. intros y. apply Hf.
Qed.

Lemma operand_at s i :
  (i < length (operands s))%nat -> exists v, operands s !! i = Some v /\ OperandAt s i = Ok v.
Proof.
  intros Hi. destruct (lookup_lt_is_Some_2 _ _ Hi) as [v Hv]. exists v. unfold OperandAt. by rewrite Hv.
Qed.

Lemma bind_no_oob {A B} (m : outcome A) (k : A -> outcome B) :
  m <> Fault OutOfBounds -> (forall a, m = Ok a -> k a <> Fault OutOfBounds) ->
  m ≫= k <> Fault OutOfBounds.
Proof. destruct m; cbn; [auto|congruence]. Qed.

Lemma pop_no_oob {B} s (k : Z * t -> outcome B) :
  (1 <= length (stack s))%nat ->
  (forall x st, stack s = x :: st -> k (x, set_stack st s) <> Fault OutOfBounds) ->
  StackPop s ≫= k <> Fault OutOfBounds.
Proof. unfold StackPop. destruct (stack s) as [|x st]; cbn; [lia|auto]. Qed.

Lemma operand_no_oob {B} s i (k : Z -> outcome B) :
  (i < length (operands s))%nat -> Forall (in_u abits) (operands s) ->
  (forall o, in_u abits o -> k o <> Fault OutOfBounds) ->
  OperandAt s i ≫= k <> Fault OutOfBounds.
Proof.
  intros Hi HF Hk. destruct (lookup_lt_is_Some_2 _ _ Hi) as [v Hv]. unfold OperandAt. rewrite Hv.
  apply Hk. rewrite Forall_lookup in HF. by apply (HF i).
Qed.

Lemma stack_at_no_oob s i : (i < length (stack s))%nat -> StackAt s i <> Fault OutOfBounds.
Proof. intros Hi. unfold StackAt. by destruct (lookup_lt_is_Some_2 _ _ Hi) as [v ->]. Qed.

Lemma deref_no_oob a n s : match ReadFully regular_memory a n with
    | None => fail_at DWARF_ERROR_MEMORY_INVALID a s
    | Some bs => succeed (push (le_val bs) s) end <> Fault OutOfBounds.
Proof. by destruct (ReadFully _ _ _). Qed.

(** Every handler but [op_pick] stays inside the stack and its operands. *)
Lemma handle_no_oob h s :
  (needs h <= length (stack s))%nat -> (arity h <= length (operands s))%nat ->
  Forall (in_u abits) (operands s) -> h <> h_pick ->
  handle regular_memory regs_info h s <> Fault OutOfBounds.
Proof.
  intros Hn Ha HF Hp.
  destruct h; try done; cbn [needs arity] in *; cbn [handle];
    try (apply binary_no_oob; [lia|]; intros x y; cbn beta;
         first [discriminate | apply bind_no_oob; [apply shift_count_no_oob|discriminate]]);
    try (apply on_top_no_oob; [lia|]; intros x; cbn beta;
         first [discriminate | apply signed_result_no_oob]).
  - apply pop_no_oob; [lia|]. intros. apply deref_no_oob.
  - apply bind_no_oob; [apply stack_at_no_oob; lia|done].
  - apply pop_no_oob; [lia|done].
  - apply bind_no_oob; [apply stack_at_no_oob; lia|done].
  - unfold op_swap. destruct (stack s) as [|x [|y st]]; cbn in Hn; [lia|lia|done].
  - unfold op_rot. destruct (stack s) as [|x [|y [|z st]]]; cbn in Hn; [lia|lia|lia|done].
  - apply pop_no_oob; [lia|]. intros x st E. cbn [fst snd]. case_match; [done|].
    apply on_top_no_oob; [rewrite E in Hn; cbn in *; lia|]. intros. apply signed_result_no_oob.
  - apply pop_no_oob; [lia|]. intros x st E. cbn [fst snd]. case_match; [done|].
    apply on_top_no_oob; [rewrite E in Hn; cbn in *; lia|done].
  - apply operand_no_oob; [lia|done|]. intros o _. apply on_top_no_oob; [lia|done].
  - apply pop_no_oob; [lia|]. intros x st E. cbn [fst snd]. by apply operand_no_oob; [cbn; lia|..].
  - by apply operand_no_oob; [lia|..].
  - unfold op_breg. destruct (Z.leb_spec (RegsInfo.Total regs_info) (u16 (cur_op s - 112))); [done|].
    pose proof (uwrap_range 16 (cur_op s - 112) ltac:(lia)) as [? _].
    apply bind_no_oob; [apply Get_no_oob; lia|]. intros. by apply operand_no_oob; [lia|..].
  - by apply operand_no_oob; [lia|..].
  - apply operand_no_oob; [lia|done|]. intros o [Ho _].
    destruct (Z.leb_spec (RegsInfo.Total regs_info) o); [done|].
    apply bind_no_oob; [apply Get_no_oob; lia|]. intros. by apply operand_no_oob; [lia|..].
  - apply operand_no_oob; [lia|done|]. intros o _. case_match; [done|].
    apply pop_no_oob; [lia|]. intros. apply deref_no_oob.
Qed.

(** ** Properties *)

(** [DW_OP_pick] with operand [idx] can be read at the cursor of [s]. *)
Definition picks (s : t) (idx : Z) : Prop :=
  exists m1 m2, DwarfMemory.ReadBytes 1 (dm s) = Ok (Some [21], m1) /\
    DwarfMemory.ReadEncodedValue DW_EH_PE_udata1 m1 = Ok (Some idx, m2).

Lemma Decode_pick s idx :
  picks s idx ->
  Decode regular_memory regs_info s = Fault OutOfBounds <-> aw idx = StackSize s.
Proof.
  intros (m1 & m2 & H1 & H2). unfold Decode. cbn [set_error dm]. rewrite H1, bind_Ok.
  cbn [le_val set_op set_dm cur_op]. change (Z.to_nat (21 + 256 * 0)) with 21%nat.
  change (kCallbackTable !! 21%nat) with (Some (Some (mkOp "DW_OP_pick" h_pick 0 1 [DW_EH_PE_udata1]))).
  cbn [num_required_stack_values num_operands op_operands handle_func].
  cbn [Nat.ltb Nat.leb read_operands hd tl dm set_operands set_op set_dm].
  rewrite H2, bind_Ok. cbn [fst snd read_operands]. rewrite bind_Ok. cbn [handle fst snd].
  unfold op_pick, OperandAt, StackAt, StackSize.
  cbn [operands stack set_operands set_dm set_op set_error app lookup list_lookup of_option].
  rewrite bind_Ok. destruct (aw_range idx) as [Hi _].
  destruct (Z.ltb_spec (Z.of_nat (length (stack s))) (aw idx)) as [Hlt | Hge];
    [split; [done|intros; exfalso; lia]|].
  destruct (stack s !! Z.to_nat (aw idx)) eqn:E; cbn [of_option].
  - apply lookup_lt_Some in E. rewrite bind_Ok. split; [done|intros; exfalso; lia].
  - apply lookup_ge_None in E. split; [lia|done].
Qed.

(** C11. The stack requirements in the operation table are exactly right but for one
    entry: [Decode] reads outside the operand stack if and only if the operation is
    DW_OP_pick and its index equals the stack size (its test is off by one). *)
Theorem decode_stack_safe s :
  (forall a n, bytes_ok (DwarfMemory.memory_ (dm s) a n)) ->
  Decode regular_memory regs_info s = Fault OutOfBounds <->
  exists idx, picks s idx /\ aw idx = StackSize s.
Proof.
  intros Hm. split; [|intros (idx & Hp & Hi); by apply (Decode_pick s idx)].
  intros HD. assert (forall idx, picks s idx -> aw idx = StackSize s) as HP
    by (intros idx Hp; by apply (Decode_pick s idx)).
  unfold Decode in HD. cbn [set_error dm] in HD.
  destruct (DwarfMemory.ReadBytes 1 (dm s)) as [[[b|] m]|f] eqn:ER.
  2: { by rewrite bind_Ok in HD. }
  2: { cbn in HD. injection HD as ->. by apply ReadBytes_no_oob in ER. }
  rewrite bind_Ok in HD. destruct (ReadBytes_one (dm s) b m Hm ER) as (x & -> & Hx).
  cbn [le_val set_op set_dm cur_op] in HD. replace (x + 256 * 0) with x in HD by lia.
  destruct (kCallbackTable !! Z.to_nat x) as [[cb|]|] eqn:ET; [|done|].
  2: { apply lookup_ge_None in ET. rewrite table_length in ET. lia. }
  destruct (table_entry _ _ ET) as [Hs Ha]. cbn [stack set_op set_dm set_error] in HD.
  destruct (Nat.ltb_spec (length (stack s)) (num_required_stack_values cb)) as [? | Hge]; [done|].
  destruct (read_operands _ _ _) as [[ok s']|f] eqn:EO; cbn [mbind outcome_bind] in HD.
  2: { injection HD as ->. by apply read_operands_no_oob in EO. }
  destruct (read_operands_ok _ _ _ _ _ EO) as (H1 & H2 & H3 & H4); [constructor|].
  cbn [fst snd] in HD. destruct ok; [|done]. specialize (H4 eq_refl).
  cbn [operands set_operands length stack set_op set_dm set_error Nat.add] in *.
  destruct (decide (handle_func cb = h_pick)) as [Hp | Hp].
  2: { exfalso. apply (handle_no_oob (handle_func cb) s'); try done; rewrite ?H1; lia. }
  assert (x = 21) as ->.
  { apply (pick_only_21 (Z.to_nat x) cb) in ET; [lia|done]. }
  assert (exists idx, picks s idx) as [idx Hidx]; [|eauto].
  change (kCallbackTable !! Z.to_nat 21)
    with (Some (Some (mkOp "DW_OP_pick" h_pick 0 1 [DW_EH_PE_udata1]))) in ET. injection ET as <-.
  cbn [num_operands op_operands read_operands hd dm set_operands set_op set_dm] in EO.
  destruct (DwarfMemory.ReadEncodedValue DW_EH_PE_udata1 m) as [[[idx|] m2]|f] eqn:EV; cbn in EO.
  - exists idx, m, m2. done.
  - discriminate EO.
  - discriminate EO.
Qed.
End Safety.

(** ** [Eval] and unbounded execution *)

Section Runs.
Context {AT : AddressType}.
Variable regular_memory : Memory.
Variable regs_info : RegsInfo.t.
Abbreviation Decode := (Decode regular_memory regs_info).

(** [run e n s s']: [n] successful operations lead from [s] to [s'], each started
    before the end of the expression. *)
Inductive run (e : Z) : nat -> t -> t -> Prop :=
| run_O s : run e O s s
| run_S n s s1 s2 :
    at_end e s = false -> Decode s = Ok (true, s1) -> run e n s1 s2 -> run e (S n) s s2.

Lemma run_O_inv e a b : run e O a b -> a = b.
Proof. by inversion 1. Qed.

Lemma run_S_inv e n a b :
  run e (S n) a b -> exists s1, at_end e a = false /\ Decode a = Ok (true, s1) /\ run e n s1 b.
Proof. inversion 1; subst. eauto. Qed.

Lemma eval_loop_run k e s s' :
  eval_loop regular_memory regs_info k e s = Ok (true, s') <->
  exists n, (n <= k)%nat /\ run e n s s' /\ at_end e s' = true.
Proof.
  revert s. induction k as [|k IH]; intros s; cbn [eval_loop]; destruct (at_end e s) eqn:E.
  1, 3: split; [intros [= <-]; exists O; split_and!; [lia|constructor|done]|];
    intros (n & _ & HR & _); destruct HR as [|? ? ? ? E']; [done|congruence].
  - split.
    + intros H. apply bind_Ok_inv in H as ([[] s1] & _ & H); discriminate H.
    + intros (n & Hn & HR & HE). assert (n = O) as -> by lia. inversion HR; subst. congruence.
  - split.
    + intros H. apply bind_Ok_inv in H as ([[] s1] & HD & H); [|discriminate H].
      cbn [fst snd negb] in H. apply IH in H as (n & Hn & HR & HE).
      exists (S n). split_and!; [lia|by econstructor|done].
    + intros (n & Hn & HR & HE). destruct HR as [|n s s1 s2 _ HD HR]; [congruence|].
      rewrite HD, bind_Ok. cbn [fst snd negb]. apply IH. exists n. split_and!; [lia|done|done].
Qed.

(** Operations neither look at nor change the dex flag. *)
Definition redex (b : bool) (r : result) : result := (fun r => (r.1, set_dex b r.2)) <$> r.

Lemma bind_dex {A} b (m : outcome A) (k k' : A -> result) :
  (forall a, k' a = redex b (k a)) -> m ≫= k' = redex b (m ≫= k).
Proof. destruct m; cbn; auto. Qed.

Lemma on_top_dex f b s : on_top f (set_dex b s) = redex b (on_top f s).
Proof. unfold on_top. cbn [stack set_dex]. destruct (stack s); [done|]. by apply bind_dex. Qed.

Lemma pop_dex b s (k : Z * t -> result) :
  (forall x st, k (x, set_dex b (set_stack st s)) = redex b (k (x, set_stack st s))) ->
  StackPop (set_dex b s) ≫= k = redex b (StackPop s ≫= k).
Proof. intros Hk. unfold StackPop. cbn [stack set_dex]. destruct (stack s); [done|]. apply Hk. Qed.

Lemma binary_dex f b s : binary f (set_dex b s) = redex b (binary f s).
Proof. apply pop_dex. intros x st. apply on_top_dex. Qed.

Lemma handle_dex h b s :
  handle regular_memory regs_info h (set_dex b s) = redex b (handle regular_memory regs_info h s).
Proof.
  destruct h; cbn [handle]; try apply binary_dex; try apply on_top_dex; try done;
    try (apply pop_dex; intros x st; cbn [fst snd]);
    try done; try (by apply bind_dex); try (by destruct (ReadFully _ _ _)).
  - apply (bind_dex b (OperandAt s 0)). intros idx. unfold StackSize, StackAt. cbn [stack set_dex].
    case_match; [done|]. by apply bind_dex.
  - unfold op_swap. cbn [stack set_dex]. by destruct (stack s) as [|? [|? ?]].
  - unfold op_rot. cbn [stack set_dex]. by destruct (stack s) as [|? [|? [|? ?]]].
  - case_match; [done|]. apply on_top_dex.
  - case_match; [done|]. apply on_top_dex.
  - apply (bind_dex b (OperandAt s 0)). intros o. apply on_top_dex.
  - unfold op_breg. cbn [cur_op set_dex]. case_match; [done|]. apply bind_dex. intros v.
    by apply (bind_dex b (OperandAt s 0)).
  - apply (bind_dex b (OperandAt s 0)). intros o. case_match; [done|]. apply bind_dex. intros v.
    by apply (bind_dex b (OperandAt s 1)).
  - apply (bind_dex b (OperandAt s 0)). intros o. case_match; [done|].
    apply pop_dex. intros x st. cbn [fst snd]. by destruct (ReadFully _ _ _).
Qed.

Lemma read_operands_dex n es b s : read_operands n es (set_dex b s) = redex b (read_operands n es s).
Proof.
  revert es s. induction n as [|n IH]; intros es s; cbn [read_operands]; [done|].
  apply (bind_dex b (DwarfMemory.ReadEncodedValue (hd 0 es) (dm s))). intros [[v|] m]; [|done].
  apply (IH (tl es) (set_operands (operands s ++ [aw v]) (set_dm m s))).
Qed.

Lemma Decode_dex b s : Decode (set_dex b s) = redex b (Decode s).
Proof.
  unfold DwarfOp.Decode. apply (bind_dex b (DwarfMemory.ReadBytes 1 (dm s))). intros [[bs|] m]; [|done].
  cbn [cur_op set_op set_dex set_dm set_error stack].
  destruct (kCallbackTable !! _) as [[cb|]|]; [|done|done]. case_match; [done|].
  set (s0 := set_operands [] (set_op (le_val bs) (set_dm m (set_error DWARF_ERROR_NONE (err_address s) s)))).
  pose proof (read_operands_dex (num_operands cb) (op_operands cb) b s0) as HR.
  change (set_operands [] _) with (set_dex b s0). rewrite HR.
  destruct (read_operands _ _ s0) as [[[] s1]|f]; cbn; [|done|done]. apply handle_dex.
Qed.

Lemma run_dex b e n s s' : run e n s s' -> run e n (set_dex b s) (set_dex b s').
Proof.
  induction 1 as [s | n s s1 s2 HE HD _ IH]; [constructor|].
  apply (run_S _ _ _ (set_dex b s1)); [done| |done]. by rewrite Decode_dex, HD.
Qed.

Lemma eval_loop_cut k e s s' :
  run e (S k) s s' ->
  eval_loop regular_memory regs_info k e s = fail DWARF_ERROR_TOO_MANY_ITERATIONS s'.
Proof.
  revert s. induction k as [|k IH]; intros s HR; inversion HR as [|? ? s1 ? HE HD HR']; subst;
    cbn [eval_loop]; rewrite HE, HD, bind_Ok; cbn [fst snd negb].
  - inversion HR'; subst. done.
  - by apply IH.
Qed.

Lemma succeed_inj a b : succeed a = Ok (true, b) -> a = b.
Proof. by intros [= ->]. Qed.

(** The state [Eval] starts from. *)
Definition init (start : Z) (s : t) : t :=
  set_dex false (set_dm (DwarfMemory.set_cur_offset start (dm s)) (set_stack [] (set_register false s))).

Lemma Eval_loop start e s n s' :
  run e (S (S n)) (init start s) s' ->
  exists b s2, Eval regular_memory regs_info start e s =
      eval_loop regular_memory regs_info 998 e (set_dex b s2) /\
    run e n (set_dex b s2) (set_dex b s').
Proof.
  intros (s1 & HE1 & HD1 & HR1)%run_S_inv. apply run_S_inv in HR1 as (s2 & HE2 & HD2 & HR2).
  unfold Eval. fold (init start s). rewrite HE1, HD1, bind_Ok. cbn [fst snd negb].
  rewrite HE2, HD2, bind_Ok. cbn [fst snd negb].
  destruct (starts_dex s1 && (cur_op s2 =? 19)).
  - exists true, s2. split; [done|]. by apply run_dex.
  - exists (dex_pc_set s2), s2. split; [by destruct s2|]. by apply run_dex.
Qed.

(** C12. [Eval] implements unbounded execution cut off after a thousand operations: it
    succeeds exactly when some run of at most 1000 operations reaches the end of the
    expression (with that run's final state, the dex flag apart), and a run of 1001
    operations makes it report too many iterations. *)
Theorem eval_refines_run start e s s' :
  ((exists b, Eval regular_memory regs_info start e s = Ok (true, set_dex b s')) <->
   exists n b, (n <= 1000)%nat /\ run e n (init start s) (set_dex b s') /\ at_end e s' = true) /\
  (run e 1001 (init start s) s' ->
   exists s1, Eval regular_memory regs_info start e s = Ok (false, s1) /\
     err_code s1 = DWARF_ERROR_TOO_MANY_ITERATIONS).
Proof.
  split; [split|].
  - intros [b H]. unfold Eval in H. fold (init start s) in H.
    destruct (at_end e (init start s)) eqn:E0.
    { apply succeed_inj in H. exists O, b. rewrite <- H. split_and!; [lia|constructor|].
      change (at_end e (set_dex b s') = true). by rewrite <- H. }
    apply bind_Ok_inv in H as ([[] s1] & HD1 & H); [|discriminate H]. cbn [fst snd negb] in H.
    destruct (at_end e s1) eqn:E1.
    { apply succeed_inj in H. exists 1%nat, b. rewrite <- H. split_and!; [lia| |].
      - eapply run_S; [done|done|constructor].
      - change (at_end e (set_dex b s') = true). by rewrite <- H. }
    apply bind_Ok_inv in H as ([[] s2] & HD2 & H); [|discriminate H]. cbn [fst snd negb] in H.
    apply eval_loop_run in H as (n & Hn & HR & HE). exists (S (S n)), (dex_pc_set s2).
    split_and!; [lia| |done]. eapply run_S; [done|done|]. eapply run_S; [done|done|].
    apply (run_dex (dex_pc_set s2)) in HR. destruct (_ && _) in HR; by destruct s2.
  - intros (n & b & Hn & HR & HE). destruct n as [|[|n]].
    + apply run_O_inv in HR. exists b. unfold Eval. fold (init start s).
      assert (at_end e (init start s) = true) as -> by (rewrite HR; exact HE). by rewrite HR.
    + apply run_S_inv in HR as (s1 & HE1 & HD1 & HR1). apply run_O_inv in HR1. subst s1.
      exists b. unfold Eval. fold (init start s). rewrite HE1, HD1, bind_Ok. cbn [fst snd negb].
      change (at_end e (set_dex b s')) with (at_end e s'). by rewrite HE.
    + destruct (Eval_loop start e s n (set_dex b s') HR) as (b' & s2 & HV & HR').
      exists b'. rewrite HV. apply eval_loop_run. exists n. split_and!; [lia|exact HR'|exact HE].
  - intros HR. destruct (Eval_loop start e s 999 s' HR) as (b & s2 & HV & HR').
    apply eval_loop_cut in HR'. rewrite HV, HR'. eexists. split; [reflexivity|done].
Qed.
End Runs.

(** ** Values stay in range *)

Lemma in_u_ones w z : 0 <= w -> in_u w z <-> Z.land z (Z.ones w) = z.
Proof.
  intros Hw. rewrite Z.land_ones by done. unfold in_u. split; intros H; [by apply Z.mod_small|].
  rewrite <- H. by apply Z.mod_pos_bound; lia.
Qed.

Lemma in_u_land w x y : 0 <= w -> in_u w x -> in_u w y -> in_u w (Z.land x y).
Proof.
  intros Hw _ Hy. apply in_u_ones; [done|]. apply in_u_ones in Hy; [|done]. by rewrite <- Z.land_assoc, Hy.
Qed.

Lemma in_u_lor w x y : 0 <= w -> in_u w x -> in_u w y -> in_u w (Z.lor x y).
Proof.
  intros Hw Hx Hy. apply in_u_ones in Hx, Hy; [|done|done]. apply in_u_ones; [done|].
  by rewrite Z.land_lor_distr_l, Hx, Hy.
Qed.

Lemma in_u_lxor w x y : 0 <= w -> in_u w x -> in_u w y -> in_u w (Z.lxor x y).
Proof.
  intros Hw Hx Hy. apply in_u_ones in Hx, Hy; [|done|done]. apply in_u_ones; [done|].
  rewrite <- Hx at 2. rewrite <- Hy at 2. apply Z.bits_inj'. intros n Hn.
  rewrite !Z.land_spec, !Z.lxor_spec, !Z.land_spec.
  destruct (Z.testbit x n), (Z.testbit y n), (Z.testbit (Z.ones w) n); done.
Qed.

Section Range.
Context {AT : AddressType}.
Variable regular_memory : Memory.
Variable regs_info : RegsInfo.t.
Hypothesis memory_bytes : forall a n, bytes_ok (regular_memory a n).

Definition all_in (l : list Z) : Prop := Forall (in_u abits) l.

Definition in_range (s : t) : Prop := all_in (stack s) /\ all_in (operands s).

(** A result that, when it is a state, is in range. *)
Definition ranged (r : result) : Prop := forall b s, r = Ok (b, s) -> in_range s.

Lemma ranged_fault f : ranged (Fault f).
Proof. done. Qed.

Lemma ranged_bind {A} (m : outcome A) (k : A -> result) :
  (forall a, m = Ok a -> ranged (k a)) -> ranged (m ≫= k).
Proof. intros H. destruct m; cbn; [auto|apply ranged_fault]. Qed.

Lemma ranged_ok b s : in_range s -> ranged (Ok (b, s)).
Proof. intros H b' s' [= <- <-]. done. Qed.

Lemma ranged_succeed s : in_range s -> ranged (succeed s).
Proof. apply ranged_ok. Qed.

Lemma ranged_fail c s : in_range s -> ranged (fail c s).
Proof. intros H. by apply ranged_ok. Qed.

Lemma ranged_fail_at c a s : in_range s -> ranged (fail_at c a s).
Proof. intros H. by apply ranged_ok. Qed.

Lemma ranged_push v s : in_u abits v -> in_range s -> ranged (succeed (push v s)).
Proof. intros Hv [H1 H2]. apply ranged_ok. split; [by constructor|done]. Qed.

Lemma ranged_on_top f s :
  in_range s -> (forall x r, in_u abits x -> f x = Ok r -> in_u abits r) -> ranged (on_top f s).
Proof.
  intros [H1 H2] Hf. unfold on_top. destruct (stack s) as [|x st]; [apply ranged_fault|].
  inversion H1; subst. apply ranged_bind. intros r Hr. apply ranged_ok.
  split; [|done]. constructor; [by apply (Hf x)|done].
Qed.

Lemma ranged_pop s (k : Z * t -> result) :
  in_range s -> (forall x s', in_u abits x -> in_range s' -> ranged (k (x, s'))) ->
  ranged (StackPop s ≫= k).
Proof.
  intros [H1 H2] Hk. apply ranged_bind. unfold StackPop. destruct (stack s) as [|x st]; [done|].
  intros [v s'] [= <- <-]. inversion H1; subst. by apply Hk.
Qed.

Lemma ranged_binary f s :
  in_range s -> (forall x y r, in_u abits x -> in_u abits y -> f x y = Ok r -> in_u abits r) ->
  ranged (binary f s).
Proof.
  intros H Hf. apply ranged_pop; [done|]. intros y s' Hy Hs. cbn [fst snd].
  apply ranged_on_top; [done|]. intros x r Hx Hr. by apply (Hf x y).
Qed.

Lemma ranged_operand s i (k : Z -> result) :
  in_range s -> (forall o, in_u abits o -> ranged (k o)) -> ranged (OperandAt s i ≫= k).
Proof.
  intros [_ H] Hk. apply ranged_bind. intros o Ho. apply Hk. unfold OperandAt in Ho.
  destruct (operands s !! i) eqn:E; [|done]. injection Ho as <-.
  unfold all_in in H. rewrite Forall_lookup in H. by apply (H i).
Qed.

Lemma ranged_stack_at s i (k : Z -> result) :
  in_range s -> (forall v, in_u abits v -> ranged (k v)) -> ranged (StackAt s i ≫= k).
Proof.
  intros [H _] Hk. apply ranged_bind. intros v Hv. apply Hk. unfold StackAt in Hv.
  destruct (stack s !! i) eqn:E; [|done]. injection Hv as <-.
  unfold all_in in H. rewrite Forall_lookup in H. by apply (H i).
Qed.

Lemma ranged_read a n s :
  n <= asz -> in_range s ->
  ranged (match ReadFully regular_memory a n with
          | None => fail_at DWARF_ERROR_MEMORY_INVALID a s
          | Some bs => succeed (push (le_val bs) s) end).
Proof.
  intros Hn Hs. unfold ReadFully. destruct (Z.eqb_spec (blen (regular_memory a n)) n) as [E|].
  - apply ranged_push; [|done]. pose proof (le_val_bound _ (memory_bytes a n)) as [H1 H2].
    split; [done|]. unfold blen in E. rewrite E in H2.
    apply (Z.lt_le_trans _ _ _ H2), Z.pow_le_mono_r; [lia|]. unfold abits. lia.
  - by apply ranged_fail_at.
Qed.

Lemma bool_range b : in_u abits (bool_to_dwarf_bool b).
Proof. unfold in_u, abits. destruct b, asz_cases as [-> | ->]; cbn; lia. Qed.

Lemma signed_result_range z r : signed_result z = Ok r -> in_u abits r.
Proof. unfold signed_result. destruct (_ && _); [|done]. intros [= <-]. apply aw_range. Qed.

Lemma in_u_shiftr x n : in_u abits x -> 0 <= n -> in_u abits (Z.shiftr x n).
Proof.
  intros [H1 H2] Hn. rewrite Z.shiftr_div_pow2 by done. split; [apply Z.div_pos; lia|].
  apply (Z.le_lt_trans _ x); [|done]. apply Z.div_le_upper_bound; [lia|]. nia.
Qed.

Lemma op_swap_ranged s : in_range s -> ranged (op_swap s).
Proof.
  intros [H1 H2]. unfold op_swap. unfold all_in in H1.
  destruct (stack s) as [|a [|b st]]; try apply ranged_fault. apply ranged_ok. split; [|done].
  apply Forall_cons in H1 as [? [? ?]%Forall_cons]. by repeat apply Forall_cons_2.
Qed.

Lemma op_rot_ranged s : in_range s -> ranged (op_rot s).
Proof.
  intros [H1 H2]. unfold op_rot. unfold all_in in H1.
  destruct (stack s) as [|a [|b [|c st]]]; try apply ranged_fault. apply ranged_ok. split; [|done].
  apply Forall_cons in H1 as [? [? [? ?]%Forall_cons]%Forall_cons]. by repeat apply Forall_cons_2.
Qed.

Lemma op_mod_ranged s : in_range s -> ranged (op_mod s).
Proof.
  intros Hs. apply ranged_pop; [done|]. intros x s' Hx Hs'. cbn [fst snd].
  destruct (Z.eqb_spec x 0); [by apply ranged_fail|].
  apply ranged_on_top; [done|]. intros y r Hy [= <-]. unfold in_u in *.
  pose proof (Z.mod_pos_bound y x ltac:(lia)). lia.
Qed.

Lemma handle_ranged h s : in_range s -> ranged (handle regular_memory regs_info h s).
Proof.
  intros Hs. pose proof Hs as [H1 H2]. pose proof abits_pos as Hp.
  destruct h; cbn [handle];
    try (apply ranged_binary; [done|]; intros x y r Hx Hy; cbn beta;
         first [ intros [= <-]; first [apply aw_range | apply bool_range
                   | apply in_u_land; by try lia | apply in_u_lor; by try lia
                   | apply in_u_lxor; by try lia ]
               | intros (n & Hn & [= <-])%bind_Ok_inv;
                 first [apply aw_range
                   | apply in_u_shiftr; [done|]; unfold shift_count in Hn;
                     destruct (y <? abits); [|done]; injection Hn as <-; by destruct Hy ]]);
    try (apply ranged_on_top; [done|]; intros x r Hx; cbn beta;
         first [apply signed_result_range | intros [= <-]; apply aw_range]).
  - apply ranged_ok. split; [|done]. apply Forall_app_2; [|done].
    unfold all_in in H2. by apply Forall_rev.
  - apply ranged_pop; [done|]. intros x s' Hx Hs'. apply ranged_read; [lia|done].
  - apply ranged_stack_at; [done|]. intros v Hv. by apply ranged_push.
  - apply ranged_pop; [done|]. intros x s' Hx Hs'. by apply ranged_succeed.
  - apply ranged_stack_at; [done|]. intros v Hv. by apply ranged_push.
  - apply ranged_operand; [done|]. intros o Ho. case_match; [by apply ranged_fail|].
    apply ranged_stack_at; [done|]. intros v Hv. by apply ranged_push.
  - by apply op_swap_ranged.
  - by apply op_rot_ranged.
  - by apply ranged_fail.
  - apply ranged_pop; [done|]. intros x s' Hx Hs'. cbn [fst snd]. case_match; [by apply ranged_fail|].
    apply ranged_on_top; [done|]. intros y r Hy. apply signed_result_range.
  - by apply op_mod_ranged.
  - apply ranged_operand; [done|]. intros o Ho. apply ranged_on_top; [done|].
    intros x r Hx [= <-]. apply aw_range.
  - apply ranged_pop; [done|]. intros x s' Hx Hs'. apply ranged_operand; [done|]. intros o Ho.
    by apply ranged_succeed.
  - apply ranged_operand; [done|]. intros o Ho. by apply ranged_succeed.
  - apply ranged_push; [apply aw_range|done].
  - apply ranged_push; [apply aw_range|done].
  - unfold op_breg. case_match; [by apply ranged_fail|]. apply ranged_bind. intros v _.
    apply ranged_operand; [done|]. intros o Ho. apply ranged_push; [apply aw_range|done].
  - apply ranged_operand; [done|]. intros o Ho. by apply ranged_push.
  - apply ranged_operand; [done|]. intros r Hr. case_match; [by apply ranged_fail|].
    apply ranged_bind. intros v _. apply ranged_operand; [done|]. intros o Ho.
    apply ranged_push; [apply aw_range|done].
  - apply ranged_operand; [done|]. intros o Ho.
    destruct (Z.ltb_spec asz o); [by apply ranged_fail|]. destruct (o =? 0); [by apply ranged_fail|].
    apply ranged_pop; [done|]. intros x s' Hx Hs'. by apply ranged_read.
  - by apply ranged_succeed.
Qed.

End Range.

(** ** Witnesses *)

Definition no_regs : RegsInfo.t := RegsInfo.new [].
Definition program (bs : list Z) : t := new (DwarfMemory.new (DwarfMemory.buffer bs)).

Lemma buffer_bytes bs a n : bytes_ok bs -> bytes_ok (DwarfMemory.buffer bs a n).
Proof. intros H. unfold DwarfMemory.buffer, slice. by apply Forall_take, Forall_drop. Qed.

Lemma decode_stack_safe_witness :
  Decode (AT := Addr64) (DwarfMemory.buffer []) no_regs (program [21; 0]) = Fault OutOfBounds.
Proof.
  apply (decode_stack_safe (AT := Addr64) (DwarfMemory.buffer []) no_regs eq_refl (program [21; 0])).
  - intros a n. apply (buffer_bytes [21; 0]). repeat constructor; unfold is_byte; lia.
  - exists 0. split; [|reflexivity].
    exists (DwarfMemory.set_cur_offset 1 (dm (program [21; 0]))),
      (DwarfMemory.set_cur_offset 2 (dm (program [21; 0]))). split; reflexivity.
Defined.

Definition after_const1s : t :=
  mk (DwarfMemory.set_cur_offset 2 (dm (program [9; 255]))) false false DWARF_ERROR_NONE 0 9
    [2 ^ 32 - 1] [2 ^ 32 - 1].


(** A branch to itself is stopped: DW_OP_skip by -3. *)
Example eval_self_loop :
  (fun r => (r.1, err_code r.2)) <$>
    Eval (AT := Addr64) (DwarfMemory.buffer []) no_regs 0 3 (program [47; 253; 255])
  = Ok (false, DWARF_ERROR_TOO_MANY_ITERATIONS).
Proof. vm_compute. reflexivity. Qed.
End DwarfOp.
