(* ===== verification/UwDwarfCfa.v ===== *)
(** * libunwindstack: call frame instructions

    Models external/libunwindstack-ndk/DwarfCfa.{h,cpp} ([DwarfCfa::GetLocationInfo]
    and the handlers of the instructions) with the structures of DwarfStructs.h and
    DwarfLocation.h: which rule recovers each register at a program counter.

    [GetLocationInfo] is an unbounded loop over instructions; the model takes fuel
    and returns [None] when it is used up, and the theorems say when it is not.
    The logging functions are in UwDwarfLog. *)

From S2P Require Import Prelude UwDwarfMemory UwDwarfOp.

(** ** DwarfLocation.h and DwarfStructs.h *)

Inductive DwarfLocationEnum : Type :=
| DWARF_LOCATION_INVALID
| DWARF_LOCATION_UNDEFINED
| DWARF_LOCATION_OFFSET
| DWARF_LOCATION_VAL_OFFSET
| DWARF_LOCATION_REGISTER
| DWARF_LOCATION_EXPRESSION
| DWARF_LOCATION_VAL_EXPRESSION.

#[global] Instance DwarfLocationEnum_eq_dec : EqDecision DwarfLocationEnum.
Proof. solve_decision. Defined.

(** [struct DwarfLocation]: the type and the two values. *)
Record DwarfLocation : Type := mkLoc { loc_type : DwarfLocationEnum; value0 : Z; value1 : Z }.

(** [struct DwarfLocations]: the rules by register and the range they hold for. *)
Record DwarfLocations : Type := mkLocs {
  rules : gmap Z DwarfLocation;
  pc_start : Z;
  pc_end : Z
}.

(** [struct DwarfCie] and [struct DwarfFde]; the members they share have a prefix. *)
Record DwarfCie : Type := mkCie {
  version : Z;
  fde_address_encoding : Z;
  lsda_encoding : Z;
  segment_size : Z;
  augmentation_string : list Z;
  personality_handler : Z;
  cie_instructions_offset : Z;
  cie_instructions_end : Z;
  code_alignment_factor : Z;
  data_alignment_factor : Z;
  return_address_register : Z
}.

Record DwarfFde : Type := mkFde {
  cie_offset : Z;
  fde_instructions_offset : Z;
  fde_instructions_end : Z;
  fde_pc_start : Z;
  fde_pc_end : Z;
  lsda_address : Z;
  fde_cie : DwarfCie
}.

Definition CFA_REG : Z := 2 ^ 16 - 1.

Module DwarfCfa.
(** The member functions of the callback table. *)
Inductive handler : Type :=
| h_nop | h_set_loc | h_advance_loc | h_offset | h_restore | h_undefined | h_same_value
| h_register | h_remember_state | h_restore_state | h_def_cfa | h_def_cfa_register
| h_def_cfa_offset | h_def_cfa_expression | h_expression | h_offset_extended_sf | h_def_cfa_sf
| h_def_cfa_offset_sf | h_val_offset | h_val_offset_sf | h_val_expression
| h_gnu_negative_offset_extended.

(** [kCallbackTable] of DwarfCfa.h. *)
Definition kCallbackTable : list (option handler) :=
  [Some h_nop; Some h_set_loc; Some h_advance_loc; Some h_advance_loc; Some h_advance_loc;
   Some h_offset; Some h_restore; Some h_undefined; Some h_same_value; Some h_register;
   Some h_remember_state; Some h_restore_state; Some h_def_cfa; Some h_def_cfa_register;
   Some h_def_cfa_offset; Some h_def_cfa_expression; Some h_expression;
   Some h_offset_extended_sf; Some h_def_cfa_sf; Some h_def_cfa_offset_sf; Some h_val_offset;
   Some h_val_offset_sf; Some h_val_expression]
  ++ replicate 23 None ++ [Some h_nop; Some h_gnu_negative_offset_extended] ++ replicate 16 None.

(** [DwarfCfaInfo::kTable], the columns num_operands and operands: the first part. *)
Definition kTable_low : list (list Z) :=
  [[]; [DW_EH_PE_absptr]; [DW_EH_PE_udata1]; [DW_EH_PE_udata2]; [DW_EH_PE_udata4];
   [DW_EH_PE_uleb128; DW_EH_PE_uleb128]; [DW_EH_PE_uleb128]; [DW_EH_PE_uleb128];
   [DW_EH_PE_uleb128]; [DW_EH_PE_uleb128; DW_EH_PE_uleb128]; []; [];
   [DW_EH_PE_uleb128; DW_EH_PE_uleb128]; [DW_EH_PE_uleb128]; [DW_EH_PE_uleb128];
   [DW_EH_PE_block]; [DW_EH_PE_uleb128; DW_EH_PE_block]].

Definition kTable_high : list (list Z) :=
  [[DW_EH_PE_uleb128; DW_EH_PE_sleb128]; [DW_EH_PE_uleb128; DW_EH_PE_sleb128];
   [DW_EH_PE_sleb128]; [DW_EH_PE_uleb128; DW_EH_PE_uleb128];
   [DW_EH_PE_uleb128; DW_EH_PE_sleb128]; [DW_EH_PE_uleb128; DW_EH_PE_block]]
  ++ replicate 23 [] ++ [[DW_EH_PE_uleb128]; [DW_EH_PE_uleb128; DW_EH_PE_uleb128]]
  ++ replicate 16 [].

Definition kTable : list (list Z) := kTable_low ++ kTable_high.

(** ** The machine *)

Record t : Type := mk {
  dm : DwarfMemory.t;
  cur_pc : Z;
  operands : list Z;
  loc_reg_state : list DwarfLocations;
  err_code : DwarfErrorCode;
  err_address : Z;
  loc_regs : DwarfLocations
}.

Definition set_dm (m : DwarfMemory.t) (s : t) : t :=
  mk m (cur_pc s) (operands s) (loc_reg_state s) (err_code s) (err_address s) (loc_regs s).
Definition set_pc (pc : Z) (s : t) : t :=
  mk (dm s) pc (operands s) (loc_reg_state s) (err_code s) (err_address s) (loc_regs s).
Definition set_operands (os : list Z) (s : t) : t :=
  mk (dm s) (cur_pc s) os (loc_reg_state s) (err_code s) (err_address s) (loc_regs s).
Definition set_state (st : list DwarfLocations) (s : t) : t :=
  mk (dm s) (cur_pc s) (operands s) st (err_code s) (err_address s) (loc_regs s).
Definition set_error (c : DwarfErrorCode) (a : Z) (s : t) : t :=
  mk (dm s) (cur_pc s) (operands s) (loc_reg_state s) c a (loc_regs s).
Definition set_locs (l : DwarfLocations) (s : t) : t :=
  mk (dm s) (cur_pc s) (operands s) (loc_reg_state s) (err_code s) (err_address s) l.

Definition cursor (s : t) : Z := DwarfMemory.cur_offset (dm s).

(** Assigning the rule of a register, under the 32-bit key of the map. *)
Definition set_rule (reg : Z) (loc : DwarfLocation) (s : t) : t :=
  set_locs (mkLocs (<[u32 reg := loc]> (rules (loc_regs s))) (pc_start (loc_regs s))
              (pc_end (loc_regs s))) s.
(** [loc_regs->erase(reg)] *)
Definition erase_rule (reg : Z) (s : t) : t :=
  set_locs (mkLocs (delete (u32 reg) (rules (loc_regs s))) (pc_start (loc_regs s))
              (pc_end (loc_regs s))) s.
Definition set_start (pc : Z) (s : t) : t :=
  set_locs (mkLocs (rules (loc_regs s)) pc (pc_end (loc_regs s))) s.
Definition set_end (pc : Z) (s : t) : t :=
  set_locs (mkLocs (rules (loc_regs s)) (pc_start (loc_regs s)) pc) s.

Definition result : Type := outcome (bool * t).
Definition succeed (s : t) : result := Ok (true, s).
Definition fail (c : DwarfErrorCode) (s : t) : result := Ok (false, set_error c (err_address s) s).
Definition fail_memory (s : t) : result :=
  Ok (false, set_error DWARF_ERROR_MEMORY_INVALID (cursor s) s).

Definition operand (s : t) (i : nat) : outcome Z := of_option OutOfBounds (operands s !! i).

Section Instructions.
Context {AT : AddressType}.
Variable fde : DwarfFde.
Variable cie_loc_regs : option (gmap Z DwarfLocation).

(** [static_cast<uint64_t>(SignedType(x * factor))]; the product is an [int64_t]. *)
Definition scaled (x : Z) : outcome Z :=
  let p := as_signed x * data_alignment_factor (fde_cie fde) in
  if (- 2 ^ 63 <=? p) && (p <? 2 ^ 63) then Ok (u64 (swrap abits p)) else Fault SignedOverflow.

Definition restore_rule (reg : Z) (s : t) : result :=
  match cie_loc_regs with
  | None => fail DWARF_ERROR_ILLEGAL_STATE s
  | Some cie =>
      match cie !! u32 reg with
      | None => succeed (erase_rule reg s)
      | Some loc => succeed (set_rule reg loc s)
      end
  end.

Definition cfa_nop (s : t) : result := succeed s.
Definition cfa_set_loc (s : t) : result := pc ← operand s 0; succeed (set_pc pc s).
Definition cfa_advance_loc (s : t) : result :=
  o ← operand s 0;
  succeed (set_pc (aw (cur_pc s + u64 (o * code_alignment_factor (fde_cie fde)))) s).
Definition cfa_offset (s : t) : result :=
  reg ← operand s 0; o ← operand s 1; succeed (set_rule reg (mkLoc DWARF_LOCATION_OFFSET o 0) s).
Definition cfa_restore (s : t) : result := reg ← operand s 0; restore_rule reg s.
Definition cfa_undefined (s : t) : result :=
  reg ← operand s 0; succeed (set_rule reg (mkLoc DWARF_LOCATION_UNDEFINED 0 0) s).
Definition cfa_same_value (s : t) : result := reg ← operand s 0; succeed (erase_rule reg s).
Definition cfa_register (s : t) : result :=
  reg ← operand s 0; d ← operand s 1; succeed (set_rule reg (mkLoc DWARF_LOCATION_REGISTER d 0) s).
Definition cfa_remember_state (s : t) : result :=
  succeed (set_state (loc_regs s :: loc_reg_state s) s).
Definition cfa_restore_state (s : t) : result :=
  match loc_reg_state s with
  | [] => succeed s
  | l :: st => succeed (set_state st (set_locs l s))
  end.
Definition cfa_def_cfa (s : t) : result :=
  r ← operand s 0; o ← operand s 1;
  succeed (set_rule CFA_REG (mkLoc DWARF_LOCATION_REGISTER r o) s).

(** The CFA rule when it is a register rule. *)
Definition cfa_register_rule (s : t) : option DwarfLocation :=
  match rules (loc_regs s) !! CFA_REG with
  | Some loc => if bool_decide (loc_type loc = DWARF_LOCATION_REGISTER) then Some loc else None
  | None => None
  end.

Definition cfa_def_cfa_register (s : t) : result :=
  match cfa_register_rule s with
  | None => fail DWARF_ERROR_ILLEGAL_STATE s
  | Some loc =>
      r ← operand s 0; succeed (set_rule CFA_REG (mkLoc (loc_type loc) r (value1 loc)) s)
  end.
Definition cfa_def_cfa_offset (s : t) : result :=
  match cfa_register_rule s with
  | None => fail DWARF_ERROR_ILLEGAL_STATE s
  | Some loc =>
      o ← operand s 0; succeed (set_rule CFA_REG (mkLoc (loc_type loc) (value0 loc) o) s)
  end.
Definition cfa_def_cfa_expression (s : t) : result :=
  n ← operand s 0;
  succeed (set_rule CFA_REG (mkLoc DWARF_LOCATION_VAL_EXPRESSION n (cursor s)) s).
Definition cfa_expression (s : t) : result :=
  reg ← operand s 0; n ← operand s 1;
  succeed (set_rule reg (mkLoc DWARF_LOCATION_EXPRESSION n (cursor s)) s).
Definition cfa_offset_extended_sf (s : t) : result :=
  reg ← operand s 0; o ← operand s 1; v ← scaled o;
  succeed (set_rule reg (mkLoc DWARF_LOCATION_OFFSET v 0) s).
Definition cfa_def_cfa_sf (s : t) : result :=
  r ← operand s 0; o ← operand s 1; v ← scaled o;
  succeed (set_rule CFA_REG (mkLoc DWARF_LOCATION_REGISTER r v) s).
Definition cfa_def_cfa_offset_sf (s : t) : result :=
  match cfa_register_rule s with
  | None => fail DWARF_ERROR_ILLEGAL_STATE s
  | Some loc =>
      o ← operand s 0; v ← scaled o;
      succeed (set_rule CFA_REG (mkLoc (loc_type loc) (value0 loc) v) s)
  end.
Definition cfa_val_offset (s : t) : result :=
  reg ← operand s 0; o ← operand s 1; v ← scaled o;
  succeed (set_rule reg (mkLoc DWARF_LOCATION_VAL_OFFSET v 0) s).
Definition cfa_val_offset_sf (s : t) : result :=
  reg ← operand s 0; o ← operand s 1; v ← scaled o;
  succeed (set_rule reg (mkLoc DWARF_LOCATION_VAL_OFFSET v 0) s).
Definition cfa_val_expression (s : t) : result :=
  reg ← operand s 0; n ← operand s 1;
  succeed (set_rule reg (mkLoc DWARF_LOCATION_VAL_EXPRESSION n (cursor s)) s).
Definition cfa_gnu_negative_offset_extended (s : t) : result :=
  reg ← operand s 0; o ← operand s 1;
  v ← (if as_signed o =? - 2 ^ (abits - 1) then Fault SignedOverflow else Ok (u64 (- as_signed o)));
  succeed (set_rule reg (mkLoc DWARF_LOCATION_OFFSET v 0) s).

Definition handle (h : handler) : t -> result :=
  match h with
  | h_nop => cfa_nop | h_set_loc => cfa_set_loc | h_advance_loc => cfa_advance_loc
  | h_offset => cfa_offset | h_restore => cfa_restore | h_undefined => cfa_undefined
  | h_same_value => cfa_same_value | h_register => cfa_register
  | h_remember_state => cfa_remember_state | h_restore_state => cfa_restore_state
  | h_def_cfa => cfa_def_cfa | h_def_cfa_register => cfa_def_cfa_register
  | h_def_cfa_offset => cfa_def_cfa_offset | h_def_cfa_expression => cfa_def_cfa_expression
  | h_expression => cfa_expression | h_offset_extended_sf => cfa_offset_extended_sf
  | h_def_cfa_sf => cfa_def_cfa_sf | h_def_cfa_offset_sf => cfa_def_cfa_offset_sf
  | h_val_offset => cfa_val_offset | h_val_offset_sf => cfa_val_offset_sf
  | h_val_expression => cfa_val_expression
  | h_gnu_negative_offset_extended => cfa_gnu_negative_offset_extended
  end.

(** The operands of an instruction; the bytes of a block are skipped. *)
Fixpoint read_operands (encodings : list Z) (s : t) : result :=
  match encodings with
  | [] => succeed s
  | e :: encodings =>
      if e =? DW_EH_PE_block then
        r ← DwarfMemory.ReadULEB128 (dm s);
        let s := set_dm r.2 s in
        match r.1 with
        | None => fail_memory s
        | Some block_length =>
            let m := DwarfMemory.set_cur_offset (u64 (cursor s + block_length)) (dm s) in
            read_operands encodings (set_operands (operands s ++ [aw block_length]) (set_dm m s))
        end
      else
        r ← DwarfMemory.ReadEncodedValue e (dm s);
        let s := set_dm r.2 s in
        match r.1 with
        | None => fail_memory s
        | Some value => read_operands encodings (set_operands (operands s ++ [aw value]) s)
        end
  end.

(** One instruction: the body of the loop of [GetLocationInfo] after its two tests. *)
Definition instruction (s : t) : result :=
  let s := set_operands [] (set_start (cur_pc s) s) in
  r ← DwarfMemory.ReadBytes 1 (dm s);
  let s := set_dm r.2 s in
  match r.1 with
  | None => fail_memory s
  | Some b =>
      let cfa_value := le_val b in
      let cfa_low := Z.land cfa_value 63 in
      let high := Z.shiftr cfa_value 6 in
      if high =? 1 then
        succeed (set_pc (aw (cur_pc s + u64 (cfa_low * code_alignment_factor (fde_cie fde)))) s)
      else if high =? 2 then
        r ← DwarfMemory.ReadULEB128 (dm s);
        let s := set_dm r.2 s in
        match r.1 with
        | None => fail_memory s
        | Some offset =>
            v ← scaled (aw offset);
            succeed (set_rule cfa_low (mkLoc DWARF_LOCATION_OFFSET v 0) s)
        end
      else if high =? 3 then restore_rule cfa_low s
      else
        match kCallbackTable !! Z.to_nat cfa_low, kTable !! Z.to_nat cfa_low with
        | Some (Some h), Some encodings =>
            r ← read_operands encodings s;
            if negb r.1 then Ok r else handle h r.2
        | Some None, _ => fail DWARF_ERROR_ILLEGAL_VALUE s
        | _, _ => Fault OutOfBounds
        end
  end.

(** The loop; [None]: out of fuel. *)
Fixpoint location_loop (fuel : nat) (pc end_offset : Z) (s : t) : outcome (option (bool * t)) :=
  match fuel with
  | O => Ok None
  | S fuel =>
      if pc <? cur_pc s then Ok (Some (true, set_end (cur_pc s) s))
      else if end_offset <=? cursor s then Ok (Some (true, set_end (fde_pc_end fde) s))
      else
        r ← instruction s;
        if negb r.1 then Ok (Some r) else location_loop fuel pc end_offset r.2
  end.

(** [GetLocationInfo(pc, start_offset, end_offset, loc_regs)] *)
Definition GetLocationInfo (fuel : nat) (pc start_offset end_offset : Z) (s : t)
    : outcome (option (bool * t)) :=
  let copied := match cie_loc_regs with
                | Some cie => cie ∪ rules (loc_regs s)
                | None => rules (loc_regs s)
                end in
  let s := set_locs (mkLocs copied (pc_start (loc_regs s)) (pc_end (loc_regs s))) s in
  let s := set_error DWARF_ERROR_NONE 0 s in
  let s := set_dm (DwarfMemory.set_cur_offset start_offset (dm s)) s in
  let s := set_pc (aw (fde_pc_start fde)) s in
  location_loop fuel pc end_offset (set_start (cur_pc s) s).
End Instructions.

(** ** The range of the result *)

Section Covers.
Context {AT : AddressType}.
Variable fde : DwarfFde.
Variable cie_loc_regs : option (gmap Z DwarfLocation).
Variable pc : Z.

(** The current and all remembered rows start at or before [pc]. *)
Definition starts_before (s : t) : Prop :=
  pc_start (loc_regs s) <= pc /\ Forall (fun l => pc_start l <= pc) (loc_reg_state s).

Definition keeps (r : result) : Prop := forall b s, r = Ok (b, s) -> starts_before s.

Lemma keeps_Ok b s : starts_before s -> keeps (Ok (b, s)).
Proof. intros H b' s' [= <- <-]. done. Qed.

Lemma keeps_bind {A} (m : outcome A) (k : A -> result) :
  (forall a, m = Ok a -> keeps (k a)) -> keeps (m ≫= k).
Proof. intros H. destruct m; cbn; [auto|]. intros b s HF. discriminate HF. Qed.

Lemma keeps_restore reg s : starts_before s -> keeps (restore_rule cie_loc_regs reg s).
Proof.
  intros H. unfold restore_rule. destruct cie_loc_regs as [cie|]; [|by apply keeps_Ok].
  destruct (cie !! u32 reg); by apply keeps_Ok.
Qed.

Lemma handle_keeps h s : starts_before s -> keeps (handle fde cie_loc_regs h s).
Proof.
  intros H. pose proof H as [H1 H2].
  destruct h; cbn [handle];
    unfold cfa_def_cfa_register, cfa_def_cfa_offset, cfa_def_cfa_offset_sf;
    try (case_match; [|by apply keeps_Ok]);
    repeat (apply keeps_bind; intros ? _);
    try (by apply keeps_Ok); try (by apply keeps_restore).
  - apply keeps_Ok. split; [done|]. cbn [loc_reg_state set_state]. by constructor.
  - unfold cfa_restore_state. destruct (loc_reg_state s) as [|l st] eqn:E; [by apply keeps_Ok|].
    apply keeps_Ok. apply Forall_cons in H2 as [? H2]. by split.
Qed.

Lemma read_operands_keeps es s : starts_before s -> keeps (read_operands es s).
Proof.
  revert s. induction es as [|e es IH]; intros s H; cbn [read_operands]; [by apply keeps_Ok|].
  destruct (e =? DW_EH_PE_block); apply keeps_bind; intros [[v|] m] _; cbn [fst snd];
    first [by apply IH | by apply keeps_Ok].
Qed.

Lemma instruction_keeps s :
  cur_pc s <= pc -> starts_before s -> keeps (instruction fde cie_loc_regs s).
Proof.
  intros Hc [_ H2]. unfold instruction. set (s0 := set_operands [] (set_start (cur_pc s) s)).
  assert (starts_before s0) as H0 by by split.
  apply keeps_bind. intros [[b|] m] _; cbn [fst snd]; [|by apply keeps_Ok].
  assert (starts_before (set_dm m s0)) as H0' by done.
  repeat case_match; try (by apply keeps_Ok); try (by apply keeps_restore);
    try (intros ? ? HF; discriminate HF).
  - apply keeps_bind. intros [[o|] m'] _; cbn [fst snd]; [|by apply keeps_Ok].
    apply keeps_bind. intros v _. by apply keeps_Ok.
  - apply keeps_bind. intros [ok s1] HR. apply read_operands_keeps in HR; [|done].
    cbn [fst snd]. destruct ok; [by apply handle_keeps|by apply keeps_Ok].
Qed.

Lemma location_loop_keeps fuel e s s' :
  pc < fde_pc_end fde -> starts_before s ->
  location_loop fde cie_loc_regs fuel pc e s = Ok (Some (true, s')) ->
  pc_start (loc_regs s') <= pc < pc_end (loc_regs s').
Proof.
  intros He. revert s. induction fuel as [|fuel IH]; intros s H; cbn [location_loop]; [done|].
  destruct (Z.ltb_spec pc (cur_pc s)) as [Hlt | Hge].
  { intros [= <-]. destruct H as [H _]. cbn. lia. }
  destruct (e <=? cursor s). { intros [= <-]. destruct H as [H _]. cbn. lia. }
  intros HL. apply bind_Ok_inv in HL as ([ok s1] & HI & HL). cbn [fst snd] in HL.
  apply instruction_keeps in HI; [|lia|done]. destruct ok; [by apply IH in HL|done].
Qed.

(** C14. A successful [GetLocationInfo] for a pc of the function returns a range that
    contains the pc, whatever the instructions do (jumps backwards and restored
    states included). *)
Theorem location_info_covers_pc fuel start e s s' :
  aw (fde_pc_start fde) <= pc < fde_pc_end fde ->
  Forall (fun l => pc_start l <= pc) (loc_reg_state s) ->
  GetLocationInfo fde cie_loc_regs fuel pc start e s = Ok (Some (true, s')) ->
  pc_start (loc_regs s') <= pc < pc_end (loc_regs s').
Proof.
  intros [H1 H2] H3 HG. apply location_loop_keeps in HG; [done|done|]. split; [done|exact H3].
Qed.
End Covers.

(** ** Termination *)

Section Progress.
Context {AT : AddressType}.
Variable fde : DwarfFde.
Variable cie_loc_regs : option (gmap Z DwarfLocation).

(** An instruction that does not move the cursor forwards. *)
Definition stalls : Prop :=
  exists s1 s2, instruction fde cie_loc_regs s1 = Ok (true, s2) /\ cursor s2 <= cursor s1.

Lemma location_loop_progress fuel pc e s :
  (Z.to_nat (e - cursor s) < fuel)%nat ->
  location_loop fde cie_loc_regs fuel pc e s = Ok None -> stalls.
Proof.
  revert s. induction fuel as [|fuel IH]; intros s Hf; [lia|]. cbn [location_loop].
  destruct (pc <? cur_pc s); [done|]. destruct (Z.leb_spec e (cursor s)); [done|].
  intros HL. apply bind_Ok_inv in HL as ([ok s1] & HI & HL). cbn [fst snd] in HL.
  destruct ok; [|done]. cbn [negb] in HL.
  destruct (Z.le_gt_cases (cursor s1) (cursor s)); [by exists s, s1|].
  apply (IH s1); [lia|done].
Qed.

End Progress.

(** ** Two consequences for concrete programs *)

Definition machine (bs : list Z) : t :=
  mk (DwarfMemory.new (DwarfMemory.buffer bs)) 0 [] [] DWARF_ERROR_NONE 0 (mkLocs ∅ 0 0).

Definition sample_cie : DwarfCie := mkCie 1 0 255 0 [0] 0 0 0 1 (-8) 16.
Definition sample_fde : DwarfFde := mkFde 0 0 0 0 100 0 sample_cie.

(** DW_CFA_def_cfa_expression with the block length 2^64 - 11. *)
Definition looping : list Z := 15 :: DwarfMemory.leb_bytes 9 (2 ^ 64 - 11).

Definition looping_state : t :=
  set_rule CFA_REG (mkLoc DWARF_LOCATION_VAL_EXPRESSION (2 ^ 64 - 11) 0)
    (set_operands [2 ^ 64 - 11] (machine looping)).

Lemma looping_first :
  instruction (AT := Addr64) sample_fde None (machine looping) = Ok (true, looping_state).
Proof. reflexivity. Qed.

Lemma looping_again :
  instruction (AT := Addr64) sample_fde None looping_state = Ok (true, looping_state).
Proof. reflexivity. Qed.

(** The length of a block is added to the cursor without a bound: an expression length of
    2^64 - 11 brings it back to its own instruction, and [GetLocationInfo] never
    returns on these eleven bytes. *)
Theorem block_length_hangs fuel :
  GetLocationInfo (AT := Addr64) sample_fde None fuel 50 0 11 (machine looping) = Ok None.
Proof.
  assert (forall fuel, location_loop (AT := Addr64) sample_fde None fuel 50 11 looping_state = Ok None) as HL.
  { clear. induction fuel as [|fuel IH]; [done|]. cbn [location_loop].
    change (50 <? cur_pc looping_state) with false. change (11 <=? cursor looping_state) with false.
    cbn [andb]. rewrite looping_again, bind_Ok. exact IH. }
  change (location_loop (AT := Addr64) sample_fde None fuel 50 11 (machine looping) = Ok None).
  destruct fuel as [|fuel]; [done|]. cbn [location_loop].
  change (50 <? cur_pc (machine looping)) with false.
  change (11 <=? cursor (machine looping)) with false.
  rewrite looping_first, bind_Ok. apply HL.
Qed.

(** DW_CFA_restore_state restores the range together with the rules: as the last
    instruction it leaves the start of the remembered row (0 here, where the current
    row starts at 8). *)
Example restore_state_stale_start :
  (fun r => match r with
            | Some (ok, s) => Some (ok, cur_pc s, pc_start (loc_regs s), pc_end (loc_regs s))
            | None => None
            end) <$>
    GetLocationInfo (AT := Addr64) sample_fde None 10 50 0 3 (machine [10; 72; 11])
  = Ok (Some (true, 8, 0, 100)).
Proof. vm_compute. reflexivity. Qed.

(** ** Witnesses *)

Definition advanced : t :=
  set_end 58 (set_start 0 (set_pc 58 (set_dm
    (DwarfMemory.set_cur_offset 2 (dm (machine [2; 58]))) (set_operands [58] (machine [2; 58]))))).

Lemma location_info_covers_pc_witness :
  GetLocationInfo (AT := Addr64) sample_fde None 5 50 0 2 (machine [2; 58]) = Ok (Some (true, advanced)) /\
  pc_start (loc_regs advanced) <= 50 < pc_end (loc_regs advanced).
Proof.
  assert (GetLocationInfo (AT := Addr64) sample_fde None 5 50 0 2 (machine [2; 58])
          = Ok (Some (true, advanced))) as HG by reflexivity.
  split; [exact HG|].
  apply (location_info_covers_pc (AT := Addr64) sample_fde None 50 5 0 2 (machine [2; 58]) advanced);
    [vm_compute; split; congruence|constructor|exact HG].
Defined.

End DwarfCfa.
