(* ===== verification/UwDwarfEval.v ===== *)
(** * libunwindstack: applying the rules of a frame to the registers

    Models the evaluation half of external/libunwindstack-ndk/DwarfSection.cpp
    ([EvalExpression], [EvalRegister] and [Eval]) and the members of Regs.h and of the
    four RegsArch classes it uses: from the rules found by UwDwarfCfa and the registers of
    a frame to the registers of its caller.

    The rules are an [unordered_map], whose iteration order C++ leaves open: the class
    [IterationOrder] is any order, and the theorems say that it does not matter. *)

From S2P Require Import Prelude UwDwarfMemory UwDwarfOp UwDwarfCfa.

(** ** Registers *)

(** What [Eval] uses of a class derived from [RegsImpl]: how many registers it has and
    which of them [set_pc] and [set_sp] assign. *)
Class RegsArch : Type := {
  total_regs : Z;
  pc_reg : Z;
  sp_reg : Z;
  pc_reg_range : 0 <= pc_reg < total_regs;
  sp_reg_range : 0 <= sp_reg < total_regs;
  pc_sp_differ : pc_reg <> sp_reg;
  total_regs_small : total_regs <= 64
}.

Definition RegsArm : RegsArch.
Proof. refine {| total_regs := 16; pc_reg := 15; sp_reg := 13 |}; lia. Defined.
Definition RegsArm64 : RegsArch.
Proof. refine {| total_regs := 33; pc_reg := 32; sp_reg := 31 |}; lia. Defined.
Definition RegsX86 : RegsArch.
Proof. refine {| total_regs := 16; pc_reg := 8; sp_reg := 4 |}; lia. Defined.
Definition RegsX86_64 : RegsArch.
Proof. refine {| total_regs := 17; pc_reg := 16; sp_reg := 7 |}; lia. Defined.

(** The order in which a loop visits the elements of an [unordered_map]. *)
Class IterationOrder : Type := {
  in_order : gmap Z DwarfLocation -> list (Z * DwarfLocation);
  in_order_perm m : in_order m ≡ₚ map_to_list m
}.

Module DwarfSection.
(** [memory_] and [last_error_] *)
Record core : Type := mkCore {
  memory_ : DwarfMemory.t;
  err_code : DwarfErrorCode;
  err_address : Z
}.

Definition set_code (c : DwarfErrorCode) (s : core) : core := mkCore (memory_ s) c (err_address s).
Definition set_error (c : DwarfErrorCode) (a : Z) (s : core) : core := mkCore (memory_ s) c a.

(** [Regs]: [regs_] and [dex_pc_]. *)
Record Regs : Type := mkRegs { regs_ : list Z; dex_pc : Z }.

(** [EvalInfo], with the [dex_pc_] of the registers it points to. *)
Record EvalInfo : Type := mkInfo {
  cfa : Z;
  return_address_undefined : bool;
  regs_info : RegsInfo.t;
  info_dex_pc : Z
}.

(** [*reg_ptr = v] *)
Definition assign (reg v : Z) (i : EvalInfo) : EvalInfo :=
  mkInfo (cfa i) (return_address_undefined i)
    (RegsInfo.mk (<[Z.to_nat reg := v]> (RegsInfo.regs (regs_info i)))
       (RegsInfo.saved_reg_map (regs_info i)) (RegsInfo.saved_regs (regs_info i)))
    (info_dex_pc i).

Section Eval.
Context {AT : AddressType} {RA : RegsArch} {IO : IterationOrder}.
Variable regular_memory : Memory.

(** [EvalExpression]: the value and whether it is a dex pc; [None] for false. *)
Definition EvalExpression (loc : DwarfLocation) (ri : RegsInfo.t) (s : core)
    : outcome (option (Z * bool) * core) :=
  let e := value1 loc in
  let start := u64 (e - value0 loc) in
  r ← DwarfOp.Eval regular_memory ri start e (DwarfOp.new (memory_ s));
  let '(ok, op) := r in
  let s := mkCore (DwarfOp.dm op) (err_code s) (err_address s) in
  if negb ok then Ok (None, set_error (DwarfOp.err_code op) (DwarfOp.err_address op) s)
  else if DwarfOp.StackSize op =? 0 then Ok (None, set_code DWARF_ERROR_ILLEGAL_STATE s)
  else if DwarfOp.is_register op then Ok (None, set_code DWARF_ERROR_NOT_IMPLEMENTED s)
  else v ← DwarfOp.StackAt op 0; Ok (Some (v, DwarfOp.dex_pc_set op), s).

(** A short read has copied [bs] over the first bytes of the register. *)
Definition copy_part (reg : Z) (bs : list Z) (i : EvalInfo) : EvalInfo :=
  match RegsInfo.regs (regs_info i) !! Z.to_nat reg with
  | None => i
  | Some old => assign reg (le_val (bs ++ drop (length bs) (le_bytes (Z.to_nat asz) old))) i
  end.

(** [ReadFully(addr, reg_ptr, sizeof(AddressType))] *)
Definition load (addr reg : Z) (i : EvalInfo) (s : core) : outcome (bool * EvalInfo * core) :=
  match ReadFully regular_memory addr asz with
  | None => Ok (false, copy_part reg (regular_memory addr asz) i, set_error DWARF_ERROR_MEMORY_INVALID addr s)
  | Some bs => Ok (true, assign reg (le_val bs) i, s)
  end.

Definition EvalRegister (cie : DwarfCie) (loc : DwarfLocation) (reg : Z) (i : EvalInfo) (s : core)
    : outcome (bool * EvalInfo * core) :=
  match loc_type loc with
  | DWARF_LOCATION_OFFSET => load (u64 (cfa i + value0 loc)) reg i s
  | DWARF_LOCATION_VAL_OFFSET => Ok (true, assign reg (aw (cfa i + value0 loc)) i, s)
  | DWARF_LOCATION_REGISTER =>
      let cur_reg := u32 (value0 loc) in
      if RegsInfo.Total (regs_info i) <=? cur_reg
      then Ok (false, i, set_code DWARF_ERROR_ILLEGAL_VALUE s)
      else v ← RegsInfo.Get (regs_info i) cur_reg; Ok (true, assign reg (aw (v + value1 loc)) i, s)
  | DWARF_LOCATION_EXPRESSION =>
      r ← EvalExpression loc (regs_info i) s;
      match r with
      | (None, s) => Ok (false, i, s)
      | (Some (value, _), s) => load value reg i s
      end
  | DWARF_LOCATION_VAL_EXPRESSION =>
      r ← EvalExpression loc (regs_info i) s;
      match r with
      | (None, s) => Ok (false, i, s)
      | (Some (value, is_dex_pc), s) =>
          let i := assign reg value i in
          Ok (true, mkInfo (cfa i) (return_address_undefined i) (regs_info i)
                      (if is_dex_pc : bool then value else info_dex_pc i), s)
      end
  | DWARF_LOCATION_UNDEFINED =>
      Ok (true, mkInfo (cfa i)
                  (if reg =? return_address_register cie then true else return_address_undefined i)
                  (regs_info i) (info_dex_pc i), s)
  | DWARF_LOCATION_INVALID => Ok (true, i, s)
  end.

(** The loop over the rules. *)
Fixpoint eval_rules (cie : DwarfCie) (entries : list (Z * DwarfLocation)) (i : EvalInfo) (s : core)
    : outcome (bool * EvalInfo * core) :=
  match entries with
  | [] => Ok (true, i, s)
  | (reg, loc) :: entries =>
      if reg =? CFA_REG then eval_rules cie entries i s
      else if total_regs <=? reg then eval_rules cie entries i s
      else
        ri ← RegsInfo.Save (regs_info i) reg;
        r ← EvalRegister cie loc reg
              (mkInfo (cfa i) (return_address_undefined i) ri (info_dex_pc i)) s;
        let '(ok, i, s) := r in
        if negb ok then Ok (false, i, s) else eval_rules cie entries i s
  end.

(** The [switch] on the CFA rule. *)
Definition eval_cfa (loc : DwarfLocation) (regs : list Z) (s : core) : outcome (option Z * core) :=
  match loc_type loc with
  | DWARF_LOCATION_REGISTER =>
      if total_regs <=? value0 loc then Ok (None, set_code DWARF_ERROR_ILLEGAL_VALUE s)
      else v ← RegsInfo.at_ regs (value0 loc); Ok (Some (aw (v + value1 loc)), s)
  | DWARF_LOCATION_VAL_EXPRESSION =>
      r ← EvalExpression loc (RegsInfo.new regs) s;
      Ok (option_map fst r.1, r.2)
  | _ => Ok (None, set_code DWARF_ERROR_ILLEGAL_VALUE s)
  end.

(** [Eval]: [*finished], or [None] for false; the registers and the section afterwards. *)
Definition Eval (cie : DwarfCie) (loc_regs : gmap Z DwarfLocation) (regs : Regs) (s : core)
    : outcome (option bool * Regs * core) :=
  if total_regs <=? return_address_register cie
  then Ok (None, regs, set_code DWARF_ERROR_ILLEGAL_VALUE s)
  else
    match loc_regs !! CFA_REG with
    | None => Ok (None, regs, set_code DWARF_ERROR_CFA_NOT_DEFINED s)
    | Some loc =>
        let regs := mkRegs (regs_ regs) 0 in
        r ← eval_cfa loc (regs_ regs) s;
        match r with
        | (None, s) => Ok (None, regs, s)
        | (Some cfa, s) =>
            r ← eval_rules cie (in_order loc_regs) (mkInfo cfa false (RegsInfo.new (regs_ regs)) 0) s;
            let '(ok, i, s) := r in
            let rs := RegsInfo.regs (regs_info i) in
            if negb ok then Ok (None, mkRegs rs (info_dex_pc i), s)
            else
              pc ← (if return_address_undefined i then Ok 0
                    else RegsInfo.at_ rs (return_address_register cie));
              let rs := <[Z.to_nat pc_reg := aw pc]> rs in
              let finished := aw pc =? 0 in
              let rs := <[Z.to_nat sp_reg := aw (DwarfSection.cfa i)]> rs in
              Ok (Some finished, mkRegs rs (info_dex_pc i), s)
        end
    end.
End Eval.
End DwarfSection.

(** ** Expressions depend on the memory and the registers only *)

Module EvalFacts.
Import DwarfSection.

(** A cursor without its position. *)
Definition base (d : DwarfMemory.t) : DwarfMemory.t := DwarfMemory.set_cur_offset 0 d.

Definition steady {A} (m : DwarfMemory.reader A) : Prop :=
  forall d r d', m d = Ok (r, d') -> base d' = base d.

Lemma rbind_steady {A B} (m : DwarfMemory.reader A) (k : A -> DwarfMemory.reader B) :
  steady m -> (forall a, steady (k a)) -> steady (DwarfMemory.rbind m k).
Proof.
  intros Hm Hk d r d' H. unfold DwarfMemory.rbind in H.
  apply bind_Ok_inv in H as ([[a|] d1] & H1 & H2).
  - by rewrite (Hk a _ _ _ H2), (Hm _ _ _ H1).
  - injection H2 as <- <-. by apply Hm in H1.
Qed.

Lemma rret_steady {A} (a : A) : steady (DwarfMemory.rret a).
Proof. by intros d r d' [= _ <-]. Qed.

Lemma ReadBytes_steady n : steady (DwarfMemory.ReadBytes n).
Proof. intros d r d'. unfold DwarfMemory.ReadBytes. destruct (ReadFully _ _ _); by intros [= _ <-]. Qed.

Lemma leb_loop_steady fuel v sh : steady (DwarfMemory.leb_loop fuel v sh).
Proof.
  revert v sh. induction fuel as [|fuel IH]; intros v sh; [done|]. cbn [DwarfMemory.leb_loop].
  apply rbind_steady; [apply ReadBytes_steady|]. intros bs d r d'. destruct (64 <=? sh); [done|].
  destruct (_ =? 0); [by intros [= _ <-]|apply IH].
Qed.

Lemma ReadULEB128_steady : steady DwarfMemory.ReadULEB128.
Proof. apply rbind_steady; [apply leb_loop_steady|intros; apply rret_steady]. Qed.

Lemma ReadSLEB128_steady : steady DwarfMemory.ReadSLEB128.
Proof.
  apply rbind_steady; [apply leb_loop_steady|]. intros [[v sh] b] d r d'.
  destruct (_ =? 0); [by intros [= _ <-]|]. destruct (64 <=? sh); by intros [= _ <-].
Qed.

Lemma ReadUnsigned_steady n : steady (DwarfMemory.ReadUnsigned n).
Proof. apply rbind_steady; [apply ReadBytes_steady|intros; apply rret_steady]. Qed.

Lemma ReadSigned_steady n : steady (DwarfMemory.ReadSigned n).
Proof. apply rbind_steady; [apply ReadBytes_steady|intros; apply rret_steady]. Qed.

Create HintDb steady discriminated.
#[export] Hint Resolve rret_steady ReadULEB128_steady ReadUnsigned_steady ReadSigned_steady : steady.

Lemma ReadEncodedValue_steady {AT : AddressType} e : steady (DwarfMemory.ReadEncodedValue e).
Proof.
  intros d. unfold DwarfMemory.ReadEncodedValue.
  destruct (e =? DW_EH_PE_omit); [by intros r d' [= _ <-]|]. destruct (e =? DW_EH_PE_aligned).
  { destruct (2 ^ 64 <=? _); [by intros r d' [= _ <-]|].
    intros r d' H. by apply ReadUnsigned_steady in H. }
  apply rbind_steady.
  - unfold DwarfMemory.read_encoded_data. repeat (case_match; [auto with steady;
      try (apply rbind_steady; [apply ReadSLEB128_steady|auto with steady])|]).
    by intros d' r d'' [= _ <-].
  - intros v d' r d''. unfold DwarfMemory.AdjustEncodedValue, DwarfMemory.add_offset.
    repeat (case_match; try discriminate); by intros [= _ <-].
Qed.

Section Expr.
Context {AT : AddressType}.
Variable regular_memory : Memory.

(** *** The cursor *)

Lemma StackPop_dm s p : DwarfOp.StackPop s = Ok p -> DwarfOp.dm p.2 = DwarfOp.dm s.
Proof. unfold DwarfOp.StackPop. destruct (DwarfOp.stack s); [done|]. by intros [= <-]. Qed.

Lemma on_top_dm f s b s' : DwarfOp.on_top f s = Ok (b, s') -> DwarfOp.dm s' = DwarfOp.dm s.
Proof.
  unfold DwarfOp.on_top. destruct (DwarfOp.stack s); [done|]. intros H.
  by apply bind_Ok_inv in H as (r & _ & [= _ <-]).
Qed.

Lemma binary_dm f s b s' : DwarfOp.binary f s = Ok (b, s') -> DwarfOp.dm s' = DwarfOp.dm s.
Proof.
  intros H. apply bind_Ok_inv in H as (p & Hp & H). apply on_top_dm in H. rewrite H.
  by apply StackPop_dm.
Qed.

Lemma handle_base ri h s b s' :
  DwarfOp.handle regular_memory ri h s = Ok (b, s') -> base (DwarfOp.dm s') = base (DwarfOp.dm s).
Proof.
  destruct h; cbn [DwarfOp.handle]; intros H;
    try (by apply binary_dm in H as ->); try (by apply on_top_dm in H as ->);
    unfold DwarfOp.op_push, DwarfOp.op_deref, DwarfOp.op_dup, DwarfOp.op_drop, DwarfOp.op_over,
      DwarfOp.op_pick, DwarfOp.op_swap, DwarfOp.op_rot, DwarfOp.op_div, DwarfOp.op_mod,
      DwarfOp.op_plus_uconst, DwarfOp.op_bra, DwarfOp.op_skip, DwarfOp.op_regx, DwarfOp.op_breg,
      DwarfOp.op_bregx, DwarfOp.op_deref_size, DwarfOp.op_not_implemented, DwarfOp.op_nop,
      DwarfOp.op_lit, DwarfOp.op_reg, DwarfOp.succeed, DwarfOp.fail, DwarfOp.fail_at in H.
  all: repeat match goal with
    | H : (_ ≫= _) = Ok _ |- _ =>
        let a := fresh "a" in let Ha := fresh "Ha" in apply bind_Ok_inv in H as (a & Ha & H)
    | H : context [if ?c then _ else _] |- _ => destruct c eqn:?
    | H : context [match ?x with _ => _ end] |- _ => destruct x eqn:?
    | H : Ok (_, _) = Ok (_, _) |- _ => injection H as <- <-
    | H : DwarfOp.StackPop _ = Ok _ |- _ => apply StackPop_dm in H
    | H : DwarfOp.on_top _ _ = Ok _ |- _ => apply on_top_dm in H
    | H : Fault _ = Ok _ |- _ => discriminate H
    end; cbn; try congruence.
  all: by rewrite ?Ha.
Qed.

Lemma read_operands_base n es s b s' :
  DwarfOp.read_operands n es s = Ok (b, s') -> base (DwarfOp.dm s') = base (DwarfOp.dm s).
Proof.
  revert es s. induction n as [|n IH]; intros es s H; cbn [DwarfOp.read_operands] in H.
  { by injection H as <- <-. }
  apply bind_Ok_inv in H as ([[v|] m] & HR & H); cbn [fst snd] in H;
    apply ReadEncodedValue_steady in HR.
  - apply IH in H. by rewrite H.
  - injection H as <- <-. done.
Qed.

Lemma Decode_base ri s b s' :
  DwarfOp.Decode regular_memory ri s = Ok (b, s') -> base (DwarfOp.dm s') = base (DwarfOp.dm s).
Proof.
  intros H. unfold DwarfOp.Decode in H. apply bind_Ok_inv in H as ([[bs|] m] & HR & H);
    apply ReadBytes_steady in HR; [|by injection H as <- <-].
  cbv zeta in H. destruct (DwarfOp.kCallbackTable !! _) as [[cb|]|]; [|by injection H as <- <-|done].
  destruct (_ <? _)%nat; [by injection H as <- <-|].
  apply bind_Ok_inv in H as ([ok s1] & H1 & H). apply read_operands_base in H1. cbn in H1.
  destruct ok; cbn [fst snd] in H.
  - apply handle_base in H. by rewrite H, H1.
  - injection H as <- <-. by rewrite H1.
Qed.

Lemma eval_loop_base ri k e s b s' :
  DwarfOp.eval_loop regular_memory ri k e s = Ok (b, s') -> base (DwarfOp.dm s') = base (DwarfOp.dm s).
Proof.
  revert s. induction k as [|k IH]; intros s H; cbn [DwarfOp.eval_loop] in H;
    (destruct (DwarfOp.at_end e s); [by injection H as <- <-|]);
    apply bind_Ok_inv in H as ([ok s1] & HD & H); apply Decode_base in HD; cbn [fst snd] in H;
    (destruct ok; [|by injection H as <- <-]); cbn [negb] in H.
  - injection H as <- <-. by rewrite <- HD.
  - apply IH in H. by rewrite H.
Qed.

Lemma Eval_base ri start e s b s' :
  DwarfOp.Eval regular_memory ri start e s = Ok (b, s') -> base (DwarfOp.dm s') = base (DwarfOp.dm s).
Proof.
  unfold DwarfOp.Eval. cbv zeta. set (s0 := DwarfOp.set_dex _ _). intros H.
  assert (base (DwarfOp.dm s0) = base (DwarfOp.dm s)) as <- by done.
  destruct (DwarfOp.at_end e s0); [by injection H as <- <-|].
  apply bind_Ok_inv in H as ([ok s1] & HD & H); apply Decode_base in HD; cbn [fst snd] in H.
  destruct ok; [|by injection H as <- <-]. cbn [negb] in H.
  destruct (DwarfOp.at_end e s1); [by injection H as <- <-|].
  apply bind_Ok_inv in H as ([ok s2] & HD2 & H); apply Decode_base in HD2; cbn [fst snd] in H.
  destruct ok; [|by injection H as <- <-; rewrite HD2]. cbn [negb] in H. apply eval_loop_base in H.
  rewrite H. destruct (_ && _); cbn; by rewrite HD2.
Qed.

(** *** The registers *)

(** Both give the same value to every register. *)
Definition same_regs (r1 r2 : RegsInfo.t) : Prop :=
  RegsInfo.Total r1 = RegsInfo.Total r2 /\ forall reg, RegsInfo.Get r1 reg = RegsInfo.Get r2 reg.

Lemma Decode_regs r1 r2 s :
  same_regs r1 r2 -> DwarfOp.Decode regular_memory r1 s = DwarfOp.Decode regular_memory r2 s.
Proof.
  intros [HT HG]. assert (forall h s, DwarfOp.handle regular_memory r1 h s = DwarfOp.handle regular_memory r2 h s) as HH.
  { intros h s'. destruct h; try done; cbn [DwarfOp.handle];
      unfold DwarfOp.op_breg, DwarfOp.op_bregx; rewrite HT.
    - by rewrite HG.
    - destruct (DwarfOp.OperandAt s' 0); [|done]. cbn. by rewrite HG. }
  unfold DwarfOp.Decode. cbv zeta. destruct (DwarfMemory.ReadBytes 1 _) as [[[bs|] m]|]; [|done..].
  rewrite !bind_Ok. destruct (DwarfOp.kCallbackTable !! _) as [[cb|]|]; [|done..].
  destruct (_ <? _)%nat; [done|]. destruct (DwarfOp.read_operands _ _ _) as [[[] s1]|]; [|done..].
  rewrite !bind_Ok. apply HH.
Qed.

Lemma eval_loop_regs r1 r2 k e s :
  same_regs r1 r2 ->
  DwarfOp.eval_loop regular_memory r1 k e s = DwarfOp.eval_loop regular_memory r2 k e s.
Proof.
  intros HS. revert s. induction k as [|k IH]; intros s; cbn [DwarfOp.eval_loop];
    (destruct (DwarfOp.at_end e s); [done|]); rewrite (Decode_regs r1 r2) by done;
    (destruct (DwarfOp.Decode _ _ _) as [[[] s1]|]; [|done..]); cbn; [done|apply IH].
Qed.

Lemma Eval_regs r1 r2 start e s :
  same_regs r1 r2 ->
  DwarfOp.Eval regular_memory r1 start e s = DwarfOp.Eval regular_memory r2 start e s.
Proof.
  intros HS. unfold DwarfOp.Eval. generalize 998%nat. intros k. cbv zeta.
  destruct (DwarfOp.at_end e _); [done|].
  rewrite (Decode_regs r1 r2) by done. destruct (DwarfOp.Decode _ _ _) as [[[] s1]|]; [|done..].
  cbn [mbind outcome_bind fst snd negb]. destruct (DwarfOp.at_end e _); [done|].
  rewrite (Decode_regs r1 r2) by done. destruct (DwarfOp.Decode _ _ _) as [[[] s2]|]; [|done..].
  cbn [mbind outcome_bind fst snd negb]. by apply eval_loop_regs.
Qed.

(** The value of an expression does not depend on where the cursor was or on which
    registers have been saved; the section it leaves differs in the cursor only. *)
Lemma EvalExpression_stable loc r1 r2 s1 s2 v s1' :
  same_regs r1 r2 -> base (memory_ s1) = base (memory_ s2) ->
  EvalExpression regular_memory loc r1 s1 = Ok (v, s1') ->
  exists s2', EvalExpression regular_memory loc r2 s2 = Ok (v, s2') /\
    base (memory_ s1') = base (memory_ s1) /\ base (memory_ s2') = base (memory_ s2).
Proof.
  intros HS HB. unfold EvalExpression. cbv zeta. rewrite (Eval_regs r1 r2) by done.
  assert (DwarfOp.Eval regular_memory r2 (u64 (value1 loc - value0 loc)) (value1 loc) (DwarfOp.new (memory_ s1))
        = DwarfOp.Eval regular_memory r2 (u64 (value1 loc - value0 loc)) (value1 loc) (DwarfOp.new (memory_ s2))) as ->.
  { unfold DwarfOp.Eval. cbn [DwarfOp.new DwarfOp.dm].
    assert (forall o, DwarfMemory.set_cur_offset o (memory_ s1) = DwarfMemory.set_cur_offset o (memory_ s2)) as HO.
    { intros o. apply (f_equal (DwarfMemory.set_cur_offset o)) in HB. exact HB. }
    unfold DwarfOp.set_register, DwarfOp.set_stack, DwarfOp.set_dm. cbn [DwarfOp.dm DwarfOp.dex_pc_set
      DwarfOp.is_register DwarfOp.err_code DwarfOp.err_address DwarfOp.cur_op DwarfOp.operands DwarfOp.stack].
    by rewrite HO. }
  intros H. apply bind_Ok_inv in H as ([ok op] & HE & H). rewrite HE, bind_Ok.
  apply Eval_base in HE. cbn [DwarfOp.new DwarfOp.dm] in HE.
  destruct ok; cbn [negb] in *.
  - destruct (_ =? 0); [injection H as <- <-; by eexists; split; [done|]; cbn; rewrite HE|].
    destruct (DwarfOp.is_register op); [injection H as <- <-; by eexists; split; [done|]; cbn; rewrite HE|].
    apply bind_Ok_inv in H as (x & Hx & H). injection H as <- <-. rewrite Hx. eexists.
    split; [done|]. cbn. by rewrite HE.
  - injection H as <- <-. eexists. split; [done|]. cbn. by rewrite HE.
Qed.
End Expr.
End EvalFacts.

(** ** Saved registers *)

Module SavedFacts.
Import DwarfSection EvalFacts.

(** The bits of different registers are different, although that of register 31 is
    sign-extended to bits 31 to 63. *)
Lemma reg_bits r q a b :
  0 <= r <= 31 -> 0 <= q <= 31 -> RegsInfo.reg_bit r = Ok a -> RegsInfo.reg_bit q = Ok b ->
  Z.land a b <> 0 <-> r = q.
Proof.
  intros Hr Hq Ha Hb.
  assert (forallb (fun r => forallb (fun q =>
    match RegsInfo.reg_bit r, RegsInfo.reg_bit q with
    | Ok a, Ok b => Bool.eqb (negb (Z.land a b =? 0)) (r =? q)
    | _, _ => false
    end) (seqZ 0 32)) (seqZ 0 32) = true) as HF by (vm_compute; reflexivity).
  rewrite forallb_forall in HF. specialize (HF r). rewrite <- list_elem_of_In, elem_of_seqZ in HF.
  specialize (HF ltac:(lia)). rewrite forallb_forall in HF. specialize (HF q).
  rewrite <- list_elem_of_In, elem_of_seqZ in HF. specialize (HF ltac:(lia)). rewrite Ha, Hb in HF.
  destruct (Z.eqb_spec (Z.land a b) 0), (Z.eqb_spec r q); try done; split; done || congruence.
Qed.

(** [saved] has been saved and the rest of the registers is as in [old]. *)
Record saved_ok (old saved : list Z) (ri : RegsInfo.t) : Prop := {
  so_length : length (RegsInfo.regs ri) = length old;
  so_size : length (RegsInfo.saved_regs ri) = 64%nat;
  so_range r : r ∈ saved -> 0 <= r <= 31 /\ r < Z.of_nat (length old);
  so_map r b : 0 <= r <= 31 -> RegsInfo.reg_bit r = Ok b ->
    Z.land (RegsInfo.saved_reg_map ri) b <> 0 <-> r ∈ saved;
  so_saved r : r ∈ saved -> RegsInfo.saved_regs ri !! Z.to_nat r = old !! Z.to_nat r;
  so_regs r : 0 <= r -> r ∉ saved -> RegsInfo.regs ri !! Z.to_nat r = old !! Z.to_nat r
}.

Lemma saved_ok_new old : saved_ok old [] (RegsInfo.new old).
Proof.
  split; try done; [set_solver| |set_solver]. intros r b Hr Hb. split; [|set_solver].
  cbn. by rewrite Z.land_0_l.
Qed.

(** Reading a register through [RegsInfo] gives its value in the frame, saved or not. *)
Lemma saved_ok_same old saved ri : saved_ok old saved ri -> same_regs ri (RegsInfo.new old).
Proof.
  intros H. split; [unfold RegsInfo.Total; by rewrite (so_length _ _ _ H)|]. intros reg.
  unfold RegsInfo.Get, RegsInfo.IsSaved. destruct (64 <? reg); [done|].
  destruct (RegsInfo.reg_bit reg) as [b|f] eqn:Eb; [|done]. rewrite !bind_Ok. cbn [RegsInfo.new
    RegsInfo.saved_reg_map RegsInfo.regs]. rewrite Z.land_0_l. cbn [Z.eqb negb].
  unfold RegsInfo.at_. destruct (Z.leb_spec 0 reg) as [Hp|Hp].
  - assert (reg <= 31).
    { unfold RegsInfo.reg_bit in Eb. destruct (Z.ltb_spec reg 31), (Z.eqb_spec reg 31); done || lia. }
    pose proof (so_map _ _ _ H reg b ltac:(lia) Eb) as HM.
    destruct (Z.eqb_spec (Z.land (RegsInfo.saved_reg_map ri) b) 0) as [E|E]; cbn [negb].
    + rewrite (so_regs _ _ _ H) by (try lia; intros Hin; by apply HM in Hin). done.
    + by rewrite (so_saved _ _ _ H) by by apply HM.
  - by destruct (negb _).
Qed.

(** [Save] succeeds for a register below 32 that was not saved. *)
Lemma Save_ok old saved ri reg ri' :
  saved_ok old saved ri -> reg ∉ saved -> RegsInfo.Save ri reg = Ok ri' ->
  saved_ok old (reg :: saved) ri' /\ RegsInfo.regs ri' = RegsInfo.regs ri.
Proof.
  intros H Hn HS. unfold RegsInfo.Save in HS. destruct (Z.ltb_spec 64 reg); [done|].
  apply bind_Ok_inv in HS as (b & Hb & HS). apply bind_Ok_inv in HS as (v & Hv & HS).
  destruct (Z.leb_spec 64 reg); [done|]. injection HS as <-. unfold RegsInfo.at_ in Hv.
  destruct (Z.leb_spec 0 reg) as [Hp|]; [|done].
  destruct (RegsInfo.regs ri !! Z.to_nat reg) eqn:Er; [|done]. injection Hv as ->.
  assert (reg <= 31).
  { unfold RegsInfo.reg_bit in Hb. destruct (Z.ltb_spec reg 31), (Z.eqb_spec reg 31); done || lia. }
  rewrite (so_regs _ _ _ H) in Er by done. split; [|done]. split; cbn.
  - apply H.
  - rewrite length_insert. apply H.
  - intros r [->|Hr]%elem_of_cons; [|by apply (so_range _ _ _ H)]. apply lookup_lt_Some in Er. lia.
  - intros r b' Hr Hb'. rewrite Z.land_lor_distr_l, elem_of_cons, <- (so_map _ _ _ H r b') by done.
    pose proof (reg_bits reg r b b' ltac:(lia) Hr Hb Hb') as HD.
    rewrite Z.lor_eq_0_iff. destruct (Z.eq_dec (Z.land b b') 0); naive_solver.
  - intros r [->|Hr]%elem_of_cons.
    + rewrite list_lookup_insert_eq by (rewrite (so_size _ _ _ H); lia). done.
    + rewrite list_lookup_insert_ne by (pose proof (so_range _ _ _ H r Hr); intros ?%Z2Nat.inj; try lia; congruence).
      by apply (so_saved _ _ _ H).
  - intros r Hr Hnin. apply (so_regs _ _ _ H); [done|set_solver].
Qed.

Lemma Save_defined old saved ri reg :
  saved_ok old saved ri -> 0 <= reg <= 31 -> reg < Z.of_nat (length old) ->
  exists ri', RegsInfo.Save ri reg = Ok ri'.
Proof.
  intros H Hr Hl. unfold RegsInfo.Save. destruct (Z.ltb_spec 64 reg); [lia|].
  assert (exists b, RegsInfo.reg_bit reg = Ok b) as [b ->].
  { unfold RegsInfo.reg_bit. destruct (Z.ltb_spec reg 31), (Z.eqb_spec reg 31); try lia; eauto. }
  rewrite bind_Ok. unfold RegsInfo.at_. destruct (Z.leb_spec 0 reg); [|lia].
  destruct (lookup_lt_is_Some_2 (RegsInfo.regs ri) (Z.to_nat reg)) as [v ->];
    [rewrite (so_length _ _ _ H); lia|]. destruct (Z.leb_spec 64 reg); [lia|]. by eexists.
Qed.
End SavedFacts.

(** ** The meaning of the rules *)

Module RuleFacts.
Import DwarfSection EvalFacts SavedFacts.

Section Rules.
Context {AT : AddressType} {RA : RegsArch}.
Variable regular_memory : Memory.
Variable cie : DwarfCie.

(** The value a rule gives to its register, computed from the registers [old] of the frame
    and its CFA: [Ok (Some (Some v))] is the value, [Ok (Some None)] leaves the register as
    it was, [Ok None] is an error. *)
Definition rule_value (old : list Z) (c : Z) (s : core) (loc : DwarfLocation)
    : outcome (option (option Z)) :=
  let stored addr := option_map (fun bs => Some (le_val bs)) (ReadFully regular_memory addr asz) in
  match loc_type loc with
  | DWARF_LOCATION_OFFSET => Ok (stored (u64 (c + value0 loc)))
  | DWARF_LOCATION_VAL_OFFSET => Ok (Some (Some (aw (c + value0 loc))))
  | DWARF_LOCATION_REGISTER =>
      if Z.of_nat (length old) <=? u32 (value0 loc) then Ok None
      else v ← RegsInfo.Get (RegsInfo.new old) (u32 (value0 loc)); Ok (Some (Some (aw (v + value1 loc))))
  | DWARF_LOCATION_EXPRESSION =>
      r ← EvalExpression regular_memory loc (RegsInfo.new old) s;
      Ok (match r.1 with None => None | Some (v, _) => stored v end)
  | DWARF_LOCATION_VAL_EXPRESSION =>
      r ← EvalExpression regular_memory loc (RegsInfo.new old) s;
      Ok (match r.1 with None => None | Some (v, _) => Some (Some v) end)
  | DWARF_LOCATION_UNDEFINED | DWARF_LOCATION_INVALID => Ok (Some None)
  end.

Definition undefines (reg : Z) (loc : DwarfLocation) : bool :=
  bool_decide (loc_type loc = DWARF_LOCATION_UNDEFINED) && (reg =? return_address_register cie).

(** What [EvalRegister] does when it succeeds. *)
Record applied (reg : Z) (loc : DwarfLocation) (o : option Z) (i i' : EvalInfo) : Prop := {
  ap_cfa : cfa i' = cfa i;
  ap_undefined : return_address_undefined i' = return_address_undefined i || undefines reg loc;
  ap_regs : RegsInfo.regs (regs_info i') =
    match o with
    | Some v => <[Z.to_nat reg := v]> (RegsInfo.regs (regs_info i))
    | None => RegsInfo.regs (regs_info i)
    end
}.

Lemma load_value addr reg i s b i' s' :
  load regular_memory addr reg i s = Ok (b, i', s') ->
  b = bool_decide (is_Some (ReadFully regular_memory addr asz)) /\ memory_ s' = memory_ s /\
  forall bs, ReadFully regular_memory addr asz = Some bs -> i' = assign reg (le_val bs) i.
Proof.
  unfold load. destruct (ReadFully regular_memory addr asz); intros [= <- <- <-]; split_and!; try done.
  by intros bs' [= ->].
Qed.

Lemma orb_false_undefines b reg loc :
  loc_type loc <> DWARF_LOCATION_UNDEFINED -> b = b || undefines reg loc.
Proof. intros H. unfold undefines. rewrite bool_decide_eq_false_2 by done. cbn. by rewrite orb_false_r. Qed.

Lemma applied_assign old saved reg loc v i :
  loc_type loc <> DWARF_LOCATION_UNDEFINED -> reg ∈ saved -> saved_ok old saved (regs_info i) ->
  applied reg loc (Some v) i (assign reg v i) /\ saved_ok old saved (regs_info (assign reg v i)).
Proof.
  intros H Hr [H1 H2 H3 H4 H5 H6]. split; [split; try done; by apply orb_false_undefines|].
  split; cbn; try done; [by rewrite length_insert|]. intros r Hp Hn.
  rewrite list_lookup_insert_ne; [by apply H6|]. pose proof (H3 reg Hr).
  intros E%Z2Nat.inj; [|lia|lia]. congruence.
Qed.

(** An expression has the same value here and at the start of [Eval]. *)
Lemma expr_value old saved loc i s s0 v :
  saved_ok old saved (regs_info i) -> base (memory_ s) = base (memory_ s0) ->
  (forall s', EvalExpression regular_memory loc (regs_info i) s = Ok (v, s') ->
     base (memory_ s') = base (memory_ s0) /\
     exists s0', EvalExpression regular_memory loc (RegsInfo.new old) s0 = Ok (v, s0')) /\
  (forall s0', EvalExpression regular_memory loc (RegsInfo.new old) s0 = Ok (v, s0') ->
     exists s', EvalExpression regular_memory loc (regs_info i) s = Ok (v, s')).
Proof.
  intros Hs Hb. pose proof (saved_ok_same _ _ _ Hs) as HR. split.
  - intros s' H. destruct (EvalExpression_stable _ _ _ _ _ s0 _ _ HR Hb H) as (s0' & H0 & H1 & _).
    split; [congruence|by exists s0'].
  - intros s0' H. destruct HR as [R1 R2].
    destruct (EvalExpression_stable regular_memory loc (RegsInfo.new old) (regs_info i) s0 s v s0')
      as (s' & H' & _); [by split|done|done|]. by exists s'.
Qed.

(** [EvalRegister] succeeds exactly when the rule has a value, and applies it. *)
Lemma EvalRegister_value old saved reg loc i s s0 :
  saved_ok old saved (regs_info i) -> base (memory_ s) = base (memory_ s0) -> reg ∈ saved ->
  (forall i' s', EvalRegister regular_memory cie loc reg i s = Ok (true, i', s') ->
     base (memory_ s') = base (memory_ s0) /\
     exists o, rule_value old (cfa i) s0 loc = Ok (Some o) /\ applied reg loc o i i' /\
       saved_ok old saved (regs_info i')) /\
  (forall o, rule_value old (cfa i) s0 loc = Ok (Some o) ->
     exists i' s', EvalRegister regular_memory cie loc reg i s = Ok (true, i', s')).
Proof.
  intros Hs Hb Hr. pose proof (saved_ok_same _ _ _ Hs) as [HT HG].
  unfold EvalRegister, rule_value. cbv zeta. destruct (loc_type loc) eqn:EL.
  - split; [|by eauto]. intros i' s' [= <- <-]. split; [done|]. exists None. split; [done|].
    split; [|done]. split; try done. apply orb_false_undefines. congruence.
  - split; [|by eauto]. intros i' s' [= <- <-]. split; [done|]. exists None. split; [done|].
    split; [|done]. split; try done. cbn. unfold undefines. rewrite EL. cbn.
    destruct (reg =? _), (return_address_undefined i); done.
  - split.
    + intros i' s' H. apply load_value in H as (HS & HM & HA).
      destruct (ReadFully _ _ _) as [bs|]; [|done]. rewrite (HA bs eq_refl). split; [congruence|].
      exists (Some (le_val bs)). split; [done|]. apply applied_assign; congruence.
    + intros o. unfold load. destruct (ReadFully _ _ _); [|done]. by eauto.
  - split; [|by eauto]. intros i' s' [= <- <-]. split; [done|]. eexists. split; [done|].
    apply applied_assign; congruence.
  - rewrite HT. unfold RegsInfo.Total. cbn [RegsInfo.new RegsInfo.regs]. rewrite HG.
    destruct (_ <=? _); [split; done|]. destruct (RegsInfo.Get _ _) as [v|]; [|split; done].
    rewrite !bind_Ok. split; [|by eauto]. intros i' s' [= <- <-]. split; [done|]. eexists.
    split; [done|]. apply applied_assign; congruence.
  - split.
    + intros i' s' H. apply bind_Ok_inv in H as ([[[v d]|] s1] & HE & H); [|done].
      destruct (expr_value old saved loc i s s0 (Some (v, d)) Hs Hb) as [HF _]. apply HF in HE as (HB & s0' & HE).
      rewrite HE, bind_Ok. cbn [fst]. apply load_value in H as (HS & HM & HA).
      destruct (ReadFully _ _ _) as [bs|]; [|done]. rewrite (HA bs eq_refl). split; [congruence|].
      exists (Some (le_val bs)). split; [done|]. apply applied_assign; congruence.
    + intros o H. apply bind_Ok_inv in H as ([[[v d]|] s0'] & HE & H); cbn [fst] in H; [|done].
      destruct (expr_value old saved loc i s s0 (Some (v, d)) Hs Hb) as [_ HF].
      apply HF in HE as [s' HE]. rewrite HE, bind_Ok. unfold load.
      destruct (ReadFully _ _ _); [|done]. by eauto.
  - split.
    + intros i' s' H. apply bind_Ok_inv in H as ([[[v d]|] s1] & HE & H); [|done].
      destruct (expr_value old saved loc i s s0 (Some (v, d)) Hs Hb) as [HF _]. apply HF in HE as (HB & s0' & HE).
      rewrite HE, bind_Ok. injection H as <- <-. split; [done|]. eexists. split; [done|].
      destruct (applied_assign old saved reg loc v i) as [[A1 A2 A3] HO]; try congruence.
      by split; [split|].
    + intros o H. apply bind_Ok_inv in H as ([[[v d]|] s0'] & HE & H); cbn [fst] in H; [|done].
      destruct (expr_value old saved loc i s s0 (Some (v, d)) Hs Hb) as [_ HF].
      apply HF in HE as [s' HE]. rewrite HE, bind_Ok. by eauto.
Qed.

(** The rules the loop does not skip. *)
Definition effective (reg : Z) : bool := negb (reg =? CFA_REG) && (reg <? total_regs).

Lemma eval_rules_cons reg loc entries i s :
  eval_rules regular_memory cie ((reg, loc) :: entries) i s =
  if effective reg then
    ri ← RegsInfo.Save (regs_info i) reg;
    r ← EvalRegister regular_memory cie loc reg
          (mkInfo (cfa i) (return_address_undefined i) ri (info_dex_pc i)) s;
    let '(ok, i, s) := r in
    if negb ok then Ok (false, i, s) else eval_rules regular_memory cie entries i s
  else eval_rules regular_memory cie entries i s.
Proof.
  cbn [eval_rules]. unfold effective. destruct (reg =? CFA_REG); [done|]. cbn [negb andb].
  by destruct (Z.leb_spec total_regs reg), (Z.ltb_spec reg total_regs); try lia.
Qed.

(** An effective rule that was applied: what it did, and that the saved registers are
    those before and its own. *)
Lemma eval_one old saved reg loc i s s0 ri i' s' :
  saved_ok old saved (regs_info i) -> base (memory_ s) = base (memory_ s0) -> reg ∉ saved ->
  RegsInfo.Save (regs_info i) reg = Ok ri ->
  EvalRegister regular_memory cie loc reg
    (mkInfo (cfa i) (return_address_undefined i) ri (info_dex_pc i)) s = Ok (true, i', s') ->
  saved_ok old (reg :: saved) (regs_info i') /\ base (memory_ s') = base (memory_ s0) /\
  exists o, rule_value old (cfa i) s0 loc = Ok (Some o) /\ applied reg loc o i i'.
Proof.
  intros Hs Hb Hn HS HE. destruct (Save_ok _ _ _ _ _ Hs Hn HS) as [Hs' HR].
  destruct (EvalRegister_value old (reg :: saved) reg loc
    (mkInfo (cfa i) (return_address_undefined i) ri (info_dex_pc i)) s s0 Hs' Hb) as [HF _]; [set_solver|].
  apply HF in HE as (HB & o & HV & [A1 A2 A3] & HO). cbn in *. rewrite HR in A3.
  split; [done|]. split; [done|]. exists o. by split; [|split].
Qed.

(** The value of a register after its rule. *)
Definition outcome_of (old : list Z) (reg : Z) (o : option Z) : option Z :=
  match o with Some v => Some v | None => old !! Z.to_nat reg end.

Lemma applied_lookup old reg loc o i i' :
  applied reg loc o i i' -> 0 <= reg < Z.of_nat (length (RegsInfo.regs (regs_info i))) ->
  RegsInfo.regs (regs_info i) !! Z.to_nat reg = old !! Z.to_nat reg ->
  RegsInfo.regs (regs_info i') !! Z.to_nat reg = outcome_of old reg o.
Proof.
  intros HA Hr Ho. rewrite (ap_regs _ _ _ _ _ HA). destruct o as [v|]; cbn; [|done].
  apply list_lookup_insert_eq. lia.
Qed.

Lemma applied_other reg loc o i i' (r : nat) :
  applied reg loc o i i' -> r <> Z.to_nat reg ->
  RegsInfo.regs (regs_info i') !! r = RegsInfo.regs (regs_info i) !! r.
Proof. intros HA Hr. rewrite (ap_regs _ _ _ _ _ HA). destruct o; [|done]. by apply list_lookup_insert_ne. Qed.

(** The loop, when it succeeds: every effective rule has been applied to the registers of the
    frame, whatever was assigned before it. *)
Lemma eval_rules_sound old s0 entries saved i s i' s' :
  saved_ok old saved (regs_info i) -> base (memory_ s) = base (memory_ s0) ->
  NoDup entries.*1 -> (forall reg, reg ∈ saved -> reg ∉ entries.*1) ->
  eval_rules regular_memory cie entries i s = Ok (true, i', s') ->
  cfa i' = cfa i /\
  return_address_undefined i' =
    return_address_undefined i || existsb (fun e => effective e.1 && undefines e.1 e.2) entries /\
  length (RegsInfo.regs (regs_info i')) = length old /\
  (forall reg loc, (reg, loc) ∈ entries -> effective reg = true ->
     0 <= reg <= 31 /\ exists o, rule_value old (cfa i) s0 loc = Ok (Some o) /\
       RegsInfo.regs (regs_info i') !! Z.to_nat reg = outcome_of old reg o) /\
  (forall r : nat, (forall loc, (Z.of_nat r, loc) ∈ entries -> effective (Z.of_nat r) = false) ->
     RegsInfo.regs (regs_info i') !! r = RegsInfo.regs (regs_info i) !! r).
Proof.
  revert saved i s. induction entries as [|[reg loc] entries IH]; intros saved i s Hs Hb Hnd Hdis H.
  { injection H as <- <-. split_and!; try done; [by rewrite orb_false_r|apply Hs|set_solver]. }
  rewrite eval_rules_cons in H. cbn [fmap list_fmap fst] in Hnd, Hdis. apply NoDup_cons in Hnd as [Hnin Hnd].
  assert (reg ∉ saved) as Hns by (intros Hin; apply (Hdis reg Hin); set_solver).
  cbn [existsb fst snd].
  destruct (effective reg) eqn:Ee; cbn [andb].
  2: { destruct (IH saved i s) as (I1 & I2 & I3 & I4 & I5); try done; [set_solver|].
       split_and!; try done.
       - intros r l [[= -> ->]|Hin]%elem_of_cons He; [congruence|]. by apply I4.
       - intros r Hr. apply I5. intros l Hl. apply (Hr l). set_solver. }
  apply bind_Ok_inv in H as (ri & HS & H). apply bind_Ok_inv in H as ([[ok i1] s1] & HE & H).
  destruct ok; [|done]. cbn [negb] in H.
  destruct (eval_one _ _ _ _ _ _ _ _ _ _ Hs Hb Hns HS HE) as (Hs1 & Hb1 & o & HV & HA).
  destruct (IH (reg :: saved) i1 s1) as (I1 & I2 & I3 & I4 & I5); try done; [set_solver|].
  pose proof (so_range _ _ _ Hs1 reg ltac:(set_solver)) as Hrange.
  rewrite (ap_cfa _ _ _ _ _ HA) in *. rewrite (ap_undefined _ _ _ _ _ HA), <- orb_assoc in I2.
  split_and!; try done.
  - intros r l [[= -> ->]|Hin]%elem_of_cons He; [|by apply I4]. split; [lia|]. exists o. split; [done|].
    rewrite I5.
    + apply (applied_lookup old reg loc o i i1); [done|rewrite (so_length _ _ _ Hs); lia|].
      apply (so_regs _ _ _ Hs); [lia|set_solver].
    + intros l' Hl'. rewrite Z2Nat.id in Hl' by lia. destruct Hnin. by apply list_elem_of_fmap_2 with (f := fst) in Hl'.
  - intros r Hr. rewrite I5 by (intros l Hl; apply (Hr l); set_solver).
    apply (applied_other reg loc o i i1 r HA). intros ->.
    specialize (Hr loc). rewrite Z2Nat.id in Hr by lia. rewrite Hr in Ee by set_solver. done.
Qed.

(** The loop succeeds when every effective rule has a value. *)
Lemma eval_rules_complete old s0 entries saved i s :
  saved_ok old saved (regs_info i) -> base (memory_ s) = base (memory_ s0) ->
  NoDup entries.*1 -> (forall reg, reg ∈ saved -> reg ∉ entries.*1) ->
  (forall reg loc, (reg, loc) ∈ entries -> effective reg = true ->
     0 <= reg <= 31 /\ reg < Z.of_nat (length old) /\
     exists o, rule_value old (cfa i) s0 loc = Ok (Some o)) ->
  exists i' s', eval_rules regular_memory cie entries i s = Ok (true, i', s').
Proof.
  revert saved i s. induction entries as [|[reg loc] entries IH]; intros saved i s Hs Hb Hnd Hdis HV.
  { by eexists _, _. }
  rewrite eval_rules_cons. cbn [fmap list_fmap fst] in Hnd, Hdis. apply NoDup_cons in Hnd as [Hnin Hnd].
  assert (reg ∉ saved) as Hns by (intros Hin; apply (Hdis reg Hin); set_solver).
  destruct (effective reg) eqn:Ee.
  2: { apply (IH saved); try done; [set_solver|]. intros r l Hl. apply HV. set_solver. }
  destruct (HV reg loc) as (Hr & Hl & o & Ho); [set_solver|done|].
  destruct (Save_defined old saved (regs_info i) reg) as [ri HS]; try done.
  rewrite HS, bind_Ok. destruct (Save_ok _ _ _ _ _ Hs Hns HS) as [Hs' _].
  destruct (EvalRegister_value old (reg :: saved) reg loc
    (mkInfo (cfa i) (return_address_undefined i) ri (info_dex_pc i)) s s0 Hs' Hb) as [_ HE]; [set_solver|].
  destruct (HE o Ho) as (i1 & s1 & HE1). rewrite HE1, bind_Ok. cbn [negb].
  destruct (eval_one _ _ _ _ _ _ _ _ _ _ Hs Hb Hns HS HE1) as (Hs1 & Hb1 & o' & _ & HA).
  apply (IH (reg :: saved)); try done; [set_solver|]. rewrite (ap_cfa _ _ _ _ _ HA).
  intros r l Hin. apply HV. set_solver.
Qed.
End Rules.
End RuleFacts.

(** ** The registers of the caller *)

Module EvalSpec.
Import DwarfSection EvalFacts SavedFacts RuleFacts.

Section Spec.
Context {AT : AddressType} {RA : RegsArch}.
Variable regular_memory : Memory.
Variable cie : DwarfCie.

(** The specification: every register with a rule has the value of the rule, computed from
    the registers [old] of the frame and its CFA [c]; every other one keeps its value. *)
Definition recovers (rules : gmap Z DwarfLocation) (old : list Z) (c : Z) (s : core) (vals : list Z)
    : Prop :=
  length vals = length old /\
  forall (r : nat) v, old !! r = Some v ->
    match rules !! Z.of_nat r with
    | Some loc => exists o, rule_value regular_memory old c s loc = Ok (Some o) /\
                            vals !! r = Some (default v o)
    | None => vals !! r = Some v
    end.

Definition ra_undefined (rules : gmap Z DwarfLocation) : bool :=
  match rules !! return_address_register cie with
  | Some loc => bool_decide (loc_type loc = DWARF_LOCATION_UNDEFINED)
  | None => false
  end.

Lemma recovers_unique rules old c s v1 v2 :
  recovers rules old c s v1 -> recovers rules old c s v2 -> v1 = v2.
Proof.
  intros [L1 R1] [L2 R2]. apply list_eq_same_length with (n := length old); [done..|].
  intros r x y Hr H1 H2. destruct (lookup_lt_is_Some_2 old r) as [v Hv]; [lia|].
  specialize (R1 r v Hv). specialize (R2 r v Hv). destruct (rules !! Z.of_nat r) as [loc|]; [|congruence].
  destruct R1 as (o1 & E1 & V1), R2 as (o2 & E2 & V2). congruence.
Qed.

Lemma effective_reg (r : nat) : Z.of_nat r < total_regs -> effective (Z.of_nat r) = true.
Proof.
  intros Hr. pose proof total_regs_small. unfold effective, CFA_REG.
  destruct (Z.eqb_spec (Z.of_nat r) (2 ^ 16 - 1)); [lia|]. cbn. lia.
Qed.

Lemma existsb_undefines (rules : gmap Z DwarfLocation) entries :
  entries ≡ₚ map_to_list rules -> effective (return_address_register cie) = true ->
  existsb (fun e => effective e.1 && undefines cie e.1 e.2) entries = ra_undefined rules.
Proof.
  intros Hp He. unfold ra_undefined. apply eq_true_iff_eq. rewrite existsb_exists. split.
  - intros ([r loc] & Hin & HU). apply list_elem_of_In in Hin. rewrite Hp in Hin.
    apply elem_of_map_to_list in Hin. cbn in HU. unfold undefines in HU.
    destruct (Z.eqb_spec r (return_address_register cie)) as [->|]; [|by rewrite !andb_false_r in HU].
    rewrite Hin. by destruct (effective _), (bool_decide _).
  - destruct (rules !! return_address_register cie) as [loc|] eqn:El; [|done]. intros HU.
    exists (return_address_register cie, loc). split.
    + apply list_elem_of_In. rewrite Hp. by apply elem_of_map_to_list.
    + cbn. unfold undefines. by rewrite He, HU, Z.eqb_refl.
Qed.

Lemma eval_cfa_base loc regs s v s' :
  eval_cfa regular_memory loc regs s = Ok (v, s') -> base (memory_ s') = base (memory_ s).
Proof.
  unfold eval_cfa. destruct (loc_type loc); try by intros [= _ <-].
  - destruct (_ <=? _); [by intros [= _ <-]|]. intros H. by apply bind_Ok_inv in H as (x & _ & [= _ <-]).
  - intros H. apply bind_Ok_inv in H as ([o s1] & HE & [= _ <-]).
    by destruct (EvalExpression_stable regular_memory loc _ (RegsInfo.new regs) s s o s1 (conj eq_refl (fun _ => eq_refl))
      eq_refl HE) as (_ & _ & H & _).
Qed.

Section Order.
Context {IO : IterationOrder}.

Lemma in_order_keys rules : NoDup (in_order rules).*1.
Proof. rewrite (in_order_perm rules). apply NoDup_fst_map_to_list. Qed.

Lemma in_order_elem rules r loc : (r, loc) ∈ in_order rules <-> rules !! r = Some loc.
Proof. rewrite (in_order_perm rules). apply elem_of_map_to_list. Qed.

Lemma eval_rules_recovers rules old c s s1 i' s' :
  Z.of_nat (length old) = total_regs -> base (memory_ s1) = base (memory_ s) ->
  effective (return_address_register cie) = true ->
  eval_rules regular_memory cie (in_order rules) (mkInfo c false (RegsInfo.new old) 0) s1 = Ok (true, i', s') ->
  cfa i' = c /\ return_address_undefined i' = ra_undefined rules /\
  recovers rules old c s (RegsInfo.regs (regs_info i')) /\
  (forall r loc, rules !! r = Some loc -> effective r = true -> 0 <= r <= 31).
Proof.
  intros Hl Hb He H.
  destruct (eval_rules_sound regular_memory cie old s (in_order rules) []
    (mkInfo c false (RegsInfo.new old) 0) s1 i' s' (saved_ok_new old) Hb
    (in_order_keys rules) ltac:(set_solver) H) as (I1 & I2 & I3 & I4 & I5).
  rewrite (existsb_undefines rules) in I2 by (done || apply in_order_perm). cbn in *.
  split_and!; [done|done| |intros r loc Hr Hf; by apply (I4 r loc); [apply in_order_elem|]].
  split; [done|]. intros r v Hv. pose proof (effective_reg r) as Hf. rewrite <- Hl in Hf.
  specialize (Hf ltac:(apply lookup_lt_Some in Hv; lia)).
  destruct (rules !! Z.of_nat r) as [loc|] eqn:Er.
  - destruct (I4 (Z.of_nat r) loc) as (_ & o & HV & HR); [by apply in_order_elem|done|].
    exists o. split; [done|]. rewrite Nat2Z.id in HR. rewrite HR. unfold outcome_of. rewrite Nat2Z.id.
    by destruct o.
  - rewrite I5; [done|]. intros loc Hin. apply in_order_elem in Hin. congruence.
Qed.
End Order.
End Spec.
End EvalSpec.

Module EvalTheorems.
Import DwarfSection EvalFacts SavedFacts RuleFacts EvalSpec.

(** C28. A successful [Eval] is a simultaneous assignment: with the CFA computed first, every
    register that has a rule gets the value the rule has in the registers of the frame,
    even if they have been overwritten by then; the others keep their value; then the
    program counter is the return address (0 when its rule is undefined), the stack
    pointer is the CFA, and the frame is the last one when the program counter is 0. *)
Theorem eval_simultaneous {AT : AddressType} {RA : RegsArch} {IO : IterationOrder}
    regular_memory cie rules regs s finished regs' s' :
  Z.of_nat (length (regs_ regs)) = total_regs -> 0 <= return_address_register cie ->
  Eval regular_memory cie rules regs s = Ok (Some finished, regs', s') ->
  exists loc c s1 vals pc,
    rules !! CFA_REG = Some loc /\ eval_cfa regular_memory loc (regs_ regs) s = Ok (Some c, s1) /\
    recovers regular_memory rules (regs_ regs) c s vals /\
    (if ra_undefined cie rules then pc = 0 else vals !! Z.to_nat (return_address_register cie) = Some pc) /\
    regs_ regs' = <[Z.to_nat sp_reg := aw c]> (<[Z.to_nat pc_reg := aw pc]> vals) /\
    finished = (aw pc =? 0).
Proof.
  intros Hl Hra H. unfold Eval in H. destruct (Z.leb_spec total_regs (return_address_register cie)); [done|].
  destruct (rules !! CFA_REG) as [loc|] eqn:EC; [|done]. cbv zeta in H. cbn [regs_] in H.
  apply bind_Ok_inv in H as ([[c|] s1] & HC & H); [|done].
  apply bind_Ok_inv in H as ([[ok i] s2] & HR & H). destruct ok; [|done]. cbn [negb] in H.
  apply bind_Ok_inv in H as (pc & HP & H). injection H as <- <- <-.
  pose proof (effective_reg (Z.to_nat (return_address_register cie))) as He.
  rewrite Z2Nat.id in He by done.
  destruct (eval_rules_recovers regular_memory cie rules (regs_ regs) c s s1 i s2 Hl
    (eval_cfa_base _ _ _ _ _ _ HC) (He ltac:(lia)) HR) as (H1 & H2 & H3 & _).
  exists loc, c, s1, (RegsInfo.regs (regs_info i)), pc. split_and!; try done; [|by rewrite H1].
  rewrite H2 in HP. destruct (ra_undefined cie rules); [by injection HP|].
  unfold RegsInfo.at_ in HP. destruct (Z.leb_spec 0 (return_address_register cie)); [|lia].
  destruct (RegsInfo.regs (regs_info i) !! _); [by injection HP as ->|done].
Qed.

(** The loop over the rules succeeds in one order exactly when it does in another. *)
Lemma eval_rules_any_order {AT : AddressType} {RA : RegsArch} (O1 O2 : IterationOrder)
    regular_memory cie rules old c s i s' :
  Z.of_nat (length old) = total_regs -> effective (return_address_register cie) = true ->
  eval_rules regular_memory cie (in_order (IterationOrder := O1) rules)
    (mkInfo c false (RegsInfo.new old) 0) s = Ok (true, i, s') ->
  exists i2 s2, eval_rules regular_memory cie (in_order (IterationOrder := O2) rules)
    (mkInfo c false (RegsInfo.new old) 0) s = Ok (true, i2, s2) /\
    cfa i2 = cfa i /\ return_address_undefined i2 = return_address_undefined i /\
    RegsInfo.regs (regs_info i2) = RegsInfo.regs (regs_info i).
Proof.
  intros Hl He H.
  destruct (eval_rules_recovers regular_memory cie rules old c s s i s' Hl eq_refl He H) as (C1 & U1 & [L1 R1] & K1).
  destruct (eval_rules_complete regular_memory cie old s (in_order (IterationOrder := O2) rules) []
    (mkInfo c false (RegsInfo.new old) 0) s (saved_ok_new old) eq_refl (in_order_keys rules)) as (i2 & s2 & H2).
  { set_solver. }
  { intros r loc Hin%in_order_elem Hf. pose proof (K1 r loc Hin Hf) as Hr.
    assert (r < Z.of_nat (length old)) as Hlt by (rewrite Hl; unfold effective in Hf; lia).
    split; [done|]. split; [done|]. destruct (lookup_lt_is_Some_2 old (Z.to_nat r)) as [v Hv]; [lia|].
    specialize (R1 _ v Hv). rewrite Z2Nat.id, Hin in R1 by lia. destruct R1 as (o & Ho & _). by exists o. }
  exists i2, s2. split; [done|].
  destruct (eval_rules_recovers regular_memory cie rules old c s s i2 s2 Hl eq_refl He H2) as (C2 & U2 & R2 & _).
  split_and!; [congruence|congruence|]. by eapply recovers_unique; [|split].
Qed.

(** The order in which the hash table of the rules is visited does not matter: when [Eval]
    succeeds in one order it succeeds in every other, with the same registers and the
    same [finished]. *)
Theorem eval_order_independent {AT : AddressType} {RA : RegsArch} (O1 O2 : IterationOrder)
    regular_memory cie rules regs s finished regs' s' :
  Z.of_nat (length (regs_ regs)) = total_regs -> 0 <= return_address_register cie ->
  Eval (IO := O1) regular_memory cie rules regs s = Ok (Some finished, regs', s') ->
  exists regs2 s2, Eval (IO := O2) regular_memory cie rules regs s = Ok (Some finished, regs2, s2) /\
    regs_ regs2 = regs_ regs'.
Proof.
  intros Hl Hra H. unfold Eval in *. destruct (Z.leb_spec total_regs (return_address_register cie)); [done|].
  destruct (rules !! CFA_REG) as [loc|]; [|done]. cbv zeta in *. cbn [regs_] in *.
  apply bind_Ok_inv in H as ([[c|] s1] & HC & H); [|done]. rewrite HC, bind_Ok.
  apply bind_Ok_inv in H as ([[ok i] s2] & HR & H). destruct ok; [|done]. cbn [negb] in H.
  pose proof (effective_reg (Z.to_nat (return_address_register cie))) as He. rewrite Z2Nat.id in He by done.
  destruct (eval_rules_any_order O1 O2 regular_memory cie rules (regs_ regs) c s1 i s2 Hl (He ltac:(lia)) HR)
    as (i2 & s3 & -> & E1 & E2 & E3). rewrite bind_Ok. cbv beta iota. cbn [negb].
  rewrite E1, E2, E3.
  apply bind_Ok_inv in H as (pc & -> & H). rewrite bind_Ok. injection H as <- <- <-. eauto.
Qed.

(** ** Witnesses *)

Definition listed : IterationOrder := {| in_order := map_to_list; in_order_perm m := reflexivity _ |}.

Lemma reversed_perm (m : gmap Z DwarfLocation) : rev (map_to_list m) ≡ₚ map_to_list m.
Proof. symmetry. apply Permutation_rev. Qed.

Definition reversed : IterationOrder := {| in_order m := rev (map_to_list m); in_order_perm := reversed_perm |}.

(** An x86-64 frame: the CFA is the stack pointer plus 16, the return address is at CFA - 8,
    register 3 is in register 6 and register 6 is saved at CFA - 16. *)
Definition sample_rules : gmap Z DwarfLocation :=
  <[CFA_REG := mkLoc DWARF_LOCATION_REGISTER 7 16]>
  (<[16 := mkLoc DWARF_LOCATION_OFFSET (2 ^ 64 - 8) 0]>
  (<[3 := mkLoc DWARF_LOCATION_REGISTER 6 0]>
  (<[6 := mkLoc DWARF_LOCATION_OFFSET (2 ^ 64 - 16) 0]> ∅))).

(** Every byte of the memory is 1. *)
Definition ones : Memory := fun _ n => replicate (Z.to_nat n) 1.

Definition sample_regs : Regs := mkRegs [0; 1; 2; 3; 4; 5; 600; 4096; 8; 9; 10; 11; 12; 13; 14; 15; 16] 0.
Definition sample_core : core := mkCore (DwarfMemory.new ones) DWARF_ERROR_NONE 0.

Definition word_of_ones : Z := le_val (replicate 8 1).

Definition caller_regs : Regs :=
  mkRegs [0; 1; 2; 600; 4; 5; word_of_ones; 4112; 8; 9; 10; 11; 12; 13; 14; 15; word_of_ones] 0.

Lemma eval_simultaneous_witness :
  exists loc c s1 vals pc,
    sample_rules !! CFA_REG = Some loc /\
    eval_cfa (AT := Addr64) (RA := RegsX86_64) ones loc (regs_ sample_regs) sample_core = Ok (Some c, s1) /\
    recovers (AT := Addr64) ones sample_rules (regs_ sample_regs) c sample_core vals /\
    (if ra_undefined DwarfCfa.sample_cie sample_rules then pc = 0 else vals !! 16%nat = Some pc) /\
    regs_ caller_regs = <[7%nat := aw (AT := Addr64) c]> (<[16%nat := aw (AT := Addr64) pc]> vals) /\
    false = (aw (AT := Addr64) pc =? 0).
Proof.
  apply (eval_simultaneous (AT := Addr64) (RA := RegsX86_64) (IO := listed) ones DwarfCfa.sample_cie sample_rules
           sample_regs sample_core false caller_regs sample_core);
    [reflexivity|vm_compute; congruence|vm_compute; reflexivity].
Defined.

Lemma eval_order_independent_witness :
  exists regs2 s2, Eval (AT := Addr64) (RA := RegsX86_64) (IO := reversed) ones DwarfCfa.sample_cie sample_rules
      sample_regs sample_core = Ok (Some false, regs2, s2) /\ regs_ regs2 = regs_ caller_regs.
Proof.
  apply (eval_order_independent (AT := Addr64) (RA := RegsX86_64) listed reversed ones DwarfCfa.sample_cie sample_rules
           sample_regs sample_core false caller_regs sample_core);
    [reflexivity|vm_compute; congruence|vm_compute; reflexivity].
Defined.

(** A rule for register 32 (the program counter of arm64) shifts an [int] by 32. *)
Example save_pc_of_arm64 :
  Eval (AT := Addr64) (RA := RegsArm64) (IO := listed) ones
    (mkCie 1 0 255 0 [0] 0 0 0 1 (-8) 30)
    (<[CFA_REG := mkLoc DWARF_LOCATION_REGISTER 31 0]> {[32 := mkLoc DWARF_LOCATION_OFFSET 0 0]})
    (mkRegs (replicate 33 4096) 0) sample_core = Fault BadShift.
Proof. vm_compute. reflexivity. Qed.
End EvalTheorems.
