(* ===== verification/UwDwarfSection.v ===== *)
(** * libunwindstack: the sections of unwind information

    Models external/libunwindstack-ndk/DwarfSection.{h,cpp} without its evaluation half
    (UwDwarfEval) and DwarfEhFrame.h: reading CIEs and FDEs, their caches, the sorted list
    of FDEs, the search for the FDE of a pc and [Step].

    An operation of the section returns its value ([None] where the C++ returns false or a
    null pointer) and the section afterwards.  The loops over the bytes of an entry have no
    bound of their own; the model gives them [fuel], a fault [OutOfFuel] tells that it was
    used up, and the theorems say how much is enough. *)

From S2P Require Import Prelude UwDwarfMemory UwDwarfOp UwDwarfCfa UwDwarfEval.

(** [DwarfSectionImpl::FdeInfo] *)
Record FdeInfo : Type := mkFdeInfo { info_offset : Z; info_start : Z; info_end : Z }.

#[global] Instance FdeInfo_eq_dec : EqDecision FdeInfo.
Proof. solve_decision. Defined.

(** What the virtual functions of a section compute from the cursor: the CIE an FDE points
    to, and the pc of an FDE. *)
Class SectionKind : Type := {
  GetCieOffsetFromFde32 : Z -> Z -> Z;
  GetCieOffsetFromFde64 : Z -> Z -> Z;
  AdjustPcFromFde : Z -> Z -> Z
}.

(** DwarfEhFrame.h *)
#[global] Instance DwarfEhFrame : SectionKind := {
  GetCieOffsetFromFde32 cur pointer := u64 (cur - pointer - 4);
  GetCieOffsetFromFde64 cur pointer := u64 (cur - pointer - 8);
  AdjustPcFromFde cur pc := u64 (pc + cur - 4)
}.

Module DwarfSectionImpl.
Definition cie32_value : Z := 0.
Definition cie64_value : Z := 0.

(** An entry of the binary search table of an .eh_frame_hdr section. *)
Record HdrInfo : Type := mkHdrInfo { hdr_pc : Z; hdr_offset : Z }.

(** The members [DwarfEhFrameWithHdr] adds (UwEhFrameHdr); 0 where it leaves them
    uninitialised. *)
Record Hdr : Type := mkHdr {
  version_ : Z;
  ptr_encoding_ : Z;
  table_encoding_ : Z;
  table_entry_size_ : Z;
  ptr_offset_ : Z;
  entries_data_offset_ : Z;
  cur_entries_offset_ : Z;
  fde_info_ : gmap Z HdrInfo
}.

(** The members of [DwarfSection] and [DwarfSectionImpl]; [loc_regs] is the [std::map] of
    rows by their pc_end, in order. *)
Record t : Type := mk {
  core : DwarfSection.core;
  cie_entries : gmap Z DwarfCie;
  fde_entries : gmap Z DwarfFde;
  cie_loc_regs : gmap Z (gmap Z DwarfLocation);
  loc_regs : list (Z * (DwarfLocations * DwarfCie));
  fdes : list FdeInfo;
  fde_count : Z;
  entries_offset : Z;
  entries_end : Z;
  hdr : Hdr
}.

Definition set_core (c : DwarfSection.core) (s : t) : t :=
  mk c (cie_entries s) (fde_entries s) (cie_loc_regs s) (loc_regs s) (fdes s) (fde_count s)
    (entries_offset s) (entries_end s) (hdr s).
Definition set_cies (m : gmap Z DwarfCie) (s : t) : t :=
  mk (core s) m (fde_entries s) (cie_loc_regs s) (loc_regs s) (fdes s) (fde_count s)
    (entries_offset s) (entries_end s) (hdr s).
Definition set_fde_entries (m : gmap Z DwarfFde) (s : t) : t :=
  mk (core s) (cie_entries s) m (cie_loc_regs s) (loc_regs s) (fdes s) (fde_count s)
    (entries_offset s) (entries_end s) (hdr s).
Definition set_cie_loc_regs (m : gmap Z (gmap Z DwarfLocation)) (s : t) : t :=
  mk (core s) (cie_entries s) (fde_entries s) m (loc_regs s) (fdes s) (fde_count s)
    (entries_offset s) (entries_end s) (hdr s).
Definition set_rows (m : list (Z * (DwarfLocations * DwarfCie))) (s : t) : t :=
  mk (core s) (cie_entries s) (fde_entries s) (cie_loc_regs s) m (fdes s) (fde_count s)
    (entries_offset s) (entries_end s) (hdr s).
Definition set_fdes (l : list FdeInfo) (n : Z) (s : t) : t :=
  mk (core s) (cie_entries s) (fde_entries s) (cie_loc_regs s) (loc_regs s) l n
    (entries_offset s) (entries_end s) (hdr s).
Definition set_entries (o e : Z) (s : t) : t :=
  mk (core s) (cie_entries s) (fde_entries s) (cie_loc_regs s) (loc_regs s) (fdes s) (fde_count s)
    o e (hdr s).
Definition set_hdr (h : Hdr) (s : t) : t :=
  mk (core s) (cie_entries s) (fde_entries s) (cie_loc_regs s) (loc_regs s) (fdes s) (fde_count s)
    (entries_offset s) (entries_end s) h.

Definition memory_ (s : t) : DwarfMemory.t := DwarfSection.memory_ (core s).
Definition set_memory (m : DwarfMemory.t) (s : t) : t :=
  set_core (DwarfSection.mkCore m (DwarfSection.err_code (core s)) (DwarfSection.err_address (core s))) s.

(** [DwarfSection(memory)] *)
Definition new (m : Memory) : t :=
  mk (DwarfSection.mkCore (DwarfMemory.new m) DWARF_ERROR_NONE 0) ∅ ∅ ∅ [] [] 0 0 0
    (mkHdr 0 0 0 0 0 0 0 ∅).

(** ** Operations *)

Definition op (A : Type) : Type := t -> outcome (option A * t).

#[global] Instance op_ret : MRet op := fun A a s => Ok (Some a, s).
#[global] Instance op_bind : MBind op := fun A B f m s =>
  match m s with
  | Ok (Some a, s) => f a s
  | Ok (None, s) => Ok (None, s)
  | Fault e => Fault e
  end.

Definition fault {A} (f : fault) : op A := fun _ => Fault f.

(** [last_error_.code = c; return false;] *)
Definition fail {A} (c : DwarfErrorCode) : op A := fun s =>
  Ok (None, set_core (DwarfSection.set_code c (core s)) s).

(** [return false], or null, with no error stored. *)
Definition none {A} : op A := fun s => Ok (None, s).

Definition gets {A} (f : t -> A) : op A := fun s => Ok (Some (f s), s).
Definition modify (f : t -> t) : op unit := fun s => Ok (Some (), f s).

Definition cur_offset : op Z := gets (fun s => DwarfMemory.cur_offset (memory_ s)).
Definition seek (o : Z) : op unit :=
  modify (fun s => set_memory (DwarfMemory.set_cur_offset o (memory_ s)) s).

(** A read that, when it fails, stores the error and the cursor and returns false. *)
Definition read {A} (m : DwarfMemory.reader A) : op A := fun s =>
  match m (memory_ s) with
  | Fault e => Fault e
  | Ok (Some a, d) => Ok (Some a, set_memory d s)
  | Ok (None, d) =>
      Ok (None, set_core (DwarfSection.mkCore d DWARF_ERROR_MEMORY_INVALID (DwarfMemory.cur_offset d)) s)
  end.

Definition read_u (n : Z) : op Z := read (DwarfMemory.ReadUnsigned n).

Section Ops.
Context {AT : AddressType} {SK : SectionKind}.
Variable fuel : nat.

(** ** CIEs *)

(** The loop that reads the augmentation string, terminator included. *)
Fixpoint read_augmentation (n : nat) (aug : list Z) : op (list Z) :=
  match n with
  | O => fault OutOfFuel
  | S n =>
      aug_value ← read_u 1;
      let aug := aug ++ [aug_value] in
      if aug_value =? 0 then mret aug else read_augmentation n aug
  end.

(** The length and the end of an entry, its 32 or 64-bit identifier and which of the two. *)
Definition read_entry : op (bool * Z * Z) :=
  length32 ← read_u 4;
  if length32 =? 2 ^ 32 - 1 then
    length64 ← read_u 8;
    cur ← cur_offset;
    id ← read_u 8;
    mret (true, u64 (cur + length64), id)
  else
    cur ← cur_offset;
    id ← read_u 4;
    mret (false, u64 (cur + length32), id).

(** The loop over the augmentation string after the z: the lsda encoding, the address
    encoding and the personality handler. *)
Fixpoint augmentation_data (aug : list Z) (lsda fde_encoding personality : Z) : op (Z * Z * Z) :=
  match aug with
  | [] => mret (lsda, fde_encoding, personality)
  | c :: aug =>
      if c =? 76 then
        lsda ← read_u 1; augmentation_data aug lsda fde_encoding personality
      else if c =? 80 then
        encoding ← read_u 1;
        personality ← read (DwarfMemory.ReadEncodedValue encoding);
        augmentation_data aug lsda fde_encoding personality
      else if c =? 82 then
        fde_encoding ← read_u 1; augmentation_data aug lsda fde_encoding personality
      else augmentation_data aug lsda fde_encoding personality
  end.

(** The segment size is there in version 4 only, after the address size. *)
Definition read_segment_size (version : Z) : op Z :=
  if version =? 4 then cur ← cur_offset; _ ← seek (u64 (cur + 1)); read_u 1 else mret 0.

(** [FillInCie] *)
Definition FillInCie : op DwarfCie :=
  '(is64, instructions_end, cie_id) ← read_entry;
  let fde_address_encoding := if is64 : bool then DW_EH_PE_sdata8 else DW_EH_PE_sdata4 in
  if negb (cie_id =? if is64 then cie64_value else cie32_value)
  then fail DWARF_ERROR_ILLEGAL_VALUE
  else
    version ← read_u 1;
    if negb (version =? 1) && negb (version =? 3) && negb (version =? 4)
    then fail DWARF_ERROR_UNSUPPORTED_VERSION
    else
      aug ← read_augmentation fuel [];
      segment_size ← read_segment_size version;
      code_alignment ← read DwarfMemory.ReadULEB128;
      data_alignment ← read DwarfMemory.ReadSLEB128;
      return_register ← (if version =? 1 then read_u 1 else read DwarfMemory.ReadULEB128);
      if negb (hd 0 aug =? 122) then
        cur ← cur_offset;
        mret (mkCie version fde_address_encoding DW_EH_PE_omit segment_size aug 0 cur instructions_end
                code_alignment data_alignment return_register)
      else
        aug_length ← read DwarfMemory.ReadULEB128;
        cur ← cur_offset;
        '(lsda, fde_encoding, personality) ←
          augmentation_data (tail aug) DW_EH_PE_omit fde_address_encoding 0;
        mret (mkCie version fde_encoding lsda segment_size aug personality (u64 (cur + aug_length))
                instructions_end code_alignment data_alignment return_register).

(** [GetCie]: an entry that cannot be filled in is not kept. *)
Definition GetCie (offset : Z) : op DwarfCie :=
  cies ← gets cie_entries;
  match cies !! offset with
  | Some cie => mret cie
  | None =>
      _ ← seek offset;
      cie ← FillInCie;
      _ ← modify (fun s => set_cies (<[offset := cie]> (cie_entries s)) s);
      mret cie
  end.

(** ** FDEs *)

(** The pc range, the LSDA address and the start of the instructions. *)
Definition fde_fields (cie : DwarfCie) : op (Z * Z * Z * Z) :=
  let encoding := Z.land (fde_address_encoding cie) 15 in
  pc_start ← read (DwarfMemory.ReadEncodedValue encoding);
  here ← cur_offset;
  let pc_start := AdjustPcFromFde here pc_start in
  pc_end ← read (DwarfMemory.ReadEncodedValue encoding);
  let pc_end := u64 (pc_end + pc_start) in
  lsda ← (if hd 0 (augmentation_string cie) =? 122 then
            aug_length ← read DwarfMemory.ReadULEB128;
            cur ← cur_offset;
            lsda ← read (DwarfMemory.ReadEncodedValue (lsda_encoding cie));
            _ ← seek (u64 (cur + aug_length));
            mret lsda
          else mret 0);
  instructions ← cur_offset;
  mret (pc_start, pc_end, lsda, instructions).

(** [FillInFde] *)
Definition FillInFde : op DwarfFde :=
  '(is64, instructions_end, value) ← read_entry;
  if value =? (if is64 : bool then cie64_value else cie32_value) then fail DWARF_ERROR_ILLEGAL_VALUE
  else
    cur ← cur_offset;
    let cie_offset := if is64 then GetCieOffsetFromFde64 cur value
                      else GetCieOffsetFromFde32 cur value in
    cie ← GetCie cie_offset;
    _ ← seek (u64 (cur + segment_size cie));
    '(pc_start, pc_end, lsda, instructions) ← fde_fields cie;
    mret (mkFde cie_offset instructions instructions_end pc_start pc_end lsda cie).

Definition GetFdeFromOffset (offset : Z) : op DwarfFde :=
  fdes ← gets fde_entries;
  match fdes !! offset with
  | Some fde => mret fde
  | None =>
      _ ← seek offset;
      fde ← FillInFde;
      _ ← modify (fun s => set_fde_entries (<[offset := fde]> (fde_entries s)) s);
      mret fde
  end.

(** ** The rows of a function *)

(** One [cfa.GetLocationInfo]; [last_error_ = cfa.last_error()] when it fails. *)
Definition location_info (fde : DwarfFde) (cie_rules : option (gmap Z DwarfLocation)) (pc start e : Z)
    (cfa : DwarfCfa.t) : op DwarfCfa.t := fun s =>
  match DwarfCfa.GetLocationInfo fde cie_rules fuel pc start e (DwarfCfa.set_dm (memory_ s) cfa) with
  | Fault f => Fault f
  | Ok None => Fault OutOfFuel
  | Ok (Some (ok, cfa)) =>
      let s := set_memory (DwarfCfa.dm cfa) s in
      if ok : bool then Ok (Some cfa, s)
      else Ok (None, set_core (DwarfSection.set_error (DwarfCfa.err_code cfa) (DwarfCfa.err_address cfa)
                                 (core s)) s)
  end.

(** [GetCfaLocationInfo]; the rules of the CIE are computed once and cached. *)
Definition GetCfaLocationInfo (pc : Z) (fde : DwarfFde) : op DwarfLocations :=
  m ← gets memory_;
  let cfa := DwarfCfa.mk m 0 [] [] DWARF_ERROR_NONE 0 (mkLocs ∅ 0 0) in
  cached ← gets (fun s => cie_loc_regs s !! cie_offset fde);
  cfa ← match cached with
        | Some _ => mret cfa
        | None =>
            cfa ← location_info fde None pc (cie_instructions_offset (fde_cie fde))
                    (cie_instructions_end (fde_cie fde)) cfa;
            _ ← modify (fun s => set_cie_loc_regs
                   (<[cie_offset fde := rules (DwarfCfa.loc_regs cfa)]> (cie_loc_regs s)) s);
            mret cfa
        end;
  cie_rules ← gets (fun s => cie_loc_regs s !! cie_offset fde);
  cfa ← location_info fde cie_rules pc (fde_instructions_offset fde) (fde_instructions_end fde) cfa;
  mret (DwarfCfa.loc_regs cfa).

(** ** The list of FDEs *)

(** [do { ReadBytes(&value, 1) } while (value & 0x80)] *)
Fixpoint skip_leb (n : nat) : op unit :=
  match n with
  | O => fault OutOfFuel
  | S n => value ← read_u 1; if Z.land value 128 =? 0 then mret () else skip_leb n
  end.

(** The loop that looks for the address encoding; falling out of it aborts. *)
Fixpoint find_encoding (aug : list Z) : op Z :=
  match aug with
  | [] => fault Aborted
  | c :: aug =>
      if c =? 82 then read_u 1
      else if c =? 76 then cur ← cur_offset; _ ← seek (u64 (cur + 1)); find_encoding aug
      else if c =? 80 then
        encoding ← read_u 1;
        _ ← read (DwarfMemory.ReadEncodedValue encoding);
        find_encoding aug
      else find_encoding aug
  end.

(** The address encoding of a CIE; the default unless the augmentation has an R. *)
Definition address_encoding (version : Z) (aug : list Z) (encoding : Z) : op Z :=
  if negb (hd 0 aug =? 122) || negb (bool_decide (82 ∈ aug)) then mret encoding
  else
    _ ← skip_leb fuel;
    _ ← skip_leb fuel;
    _ ← (if version =? 1 then cur ← cur_offset; seek (u64 (cur + 1)) else skip_leb fuel);
    _ ← skip_leb fuel;
    find_encoding (tail aug).

(** [GetCieInfo(&segment_size, &encoding)], where [encoding] has its default value. *)
Definition GetCieInfo (encoding : Z) : op (Z * Z) :=
  version ← read_u 1;
  aug ← read_augmentation fuel [];
  segment_size ← read_segment_size version;
  encoding ← address_encoding version aug encoding;
  mret (segment_size, encoding).

(** [AddFdeInfo] *)
Definition AddFdeInfo (entry_offset segment_size encoding : Z) : op unit :=
  _ ← (if negb (segment_size =? 0) then cur ← cur_offset; seek (u64 (cur + 1)) else mret ());
  start ← read (DwarfMemory.ReadEncodedValue (Z.land encoding 15));
  cur ← cur_offset;
  let start := AdjustPcFromFde cur start in
  length ← read (DwarfMemory.ReadEncodedValue (Z.land encoding 15));
  if negb (length =? 0) then
    modify (fun s => set_fdes (fdes s ++ [mkFdeInfo entry_offset (aw start) (aw (start + length))])
                       (fde_count s) s)
  else mret ().

(** The loop over the entries.  [encoding] and [segment_size] are uninitialised until the
    first CIE. *)
Fixpoint entries_loop (n : nat) (cie_offset encoding segment_size : Z) : op unit :=
  cur_entry_offset ← cur_offset;
  entries_end ← gets entries_end;
  if entries_end <=? cur_entry_offset then mret ()
  else
    match n with
    | O => fault OutOfFuel
    | S n =>
        '(is64, next_entry_offset, value) ← read_entry;
        cur ← cur_offset;
        '(cie_offset, encoding, segment_size) ←
          (if value =? (if is64 : bool then cie64_value else cie32_value) then
             '(segment_size, encoding) ← GetCieInfo (if is64 then DW_EH_PE_sdata8 else DW_EH_PE_sdata4);
             mret (cur_entry_offset, encoding, segment_size)
           else
             let last_cie_offset := if is64 then GetCieOffsetFromFde64 cur value
                                    else GetCieOffsetFromFde32 cur value in
             if negb (last_cie_offset =? cie_offset) then fail DWARF_ERROR_ILLEGAL_VALUE
             else
               _ ← AddFdeInfo cur_entry_offset segment_size encoding;
               mret (cie_offset, encoding, segment_size));
        cur ← cur_offset;
        if next_entry_offset <? cur then mret ()
        else _ ← seek next_entry_offset; entries_loop n cie_offset encoding segment_size
    end.

Definition by_start_end (a b : FdeInfo) : Prop :=
  if info_start a =? info_start b then info_end a <= info_end b else info_start a <= info_start b.
#[global] Instance by_start_end_dec : RelDecision by_start_end.
Proof. intros a b. unfold by_start_end. destruct (_ =? _); apply _. Defined.

(** [CreateSortedFdeList]; the order of equal elements is not specified. *)
Definition CreateSortedFdeList (encoding segment_size : Z) : op unit :=
  offset ← gets entries_offset;
  _ ← seek offset;
  _ ← entries_loop fuel 0 encoding segment_size;
  modify (fun s => let sorted := merge_sort by_start_end (fdes s) in
                   set_fdes sorted (Z.of_nat (length sorted)) s).

(** [DwarfSectionImpl::Init] *)
Definition Init (encoding segment_size offset size : Z) : op unit :=
  _ ← modify (fun s =>
    let m := DwarfMemory.clear_text_offset (DwarfMemory.clear_func_offset (memory_ s)) in
    let m := DwarfMemory.set_cur_offset offset (DwarfMemory.set_data_offset offset m) in
    set_memory (DwarfMemory.set_pc_offset offset m) (set_entries offset (u64 (offset + size)) s));
  CreateSortedFdeList encoding segment_size.

(** ** Finding an FDE *)

Definition fde_cmp (pc : Z) (info : FdeInfo) : comparison :=
  if (info_start info <=? pc) && (pc <=? info_end info) then Eq
  else if pc <? info_start info then Lt else Gt.

(** [DwarfSectionImpl::GetFdeOffsetFromPc] *)
Definition GetFdeOffsetFromPc (pc : Z) : op Z :=
  count ← gets fde_count;
  fdes ← gets fdes;
  if count =? 0 then none
  else
    let n := Z.to_nat count in
    match bsearch (fde_cmp pc) fdes (S n) 0 n with
    | Some info => mret (info_offset info)
    | None => none
    end.

(** [DwarfSectionImpl::GetFdeFromIndex] *)
Definition GetFdeFromIndex (index : nat) : op DwarfFde :=
  fdes ← gets fdes;
  match fdes !! index with
  | None => none
  | Some info => GetFdeFromOffset (info_offset info)
  end.

(** ** [Step] *)

Section Virtual.
(** The virtual [GetFdeOffsetFromPc]. *)
Variable fde_offset_from_pc : Z -> op Z.

Definition GetFdeFromPc (pc : Z) : op DwarfFde :=
  fde_offset ← fde_offset_from_pc pc;
  fde ← GetFdeFromOffset fde_offset;
  if pc <? fde_pc_end fde then mret fde else fail DWARF_ERROR_ILLEGAL_STATE.

(** [loc_regs_.upper_bound(pc)] *)
Definition upper_bound (rows : list (Z * (DwarfLocations * DwarfCie))) (pc : Z)
    : option (DwarfLocations * DwarfCie) :=
  snd <$> find (fun r => pc <? r.1) rows.

(** [loc_regs_.emplace(key, row).first]: an existing row is kept. *)
Fixpoint emplace (rows : list (Z * (DwarfLocations * DwarfCie))) (key : Z) (row : DwarfLocations * DwarfCie)
    : list (Z * (DwarfLocations * DwarfCie)) * (DwarfLocations * DwarfCie) :=
  match rows with
  | [] => ([(key, row)], row)
  | (k, r) :: rows' =>
      if key <? k then ((key, row) :: rows, row)
      else if key =? k then (rows, r)
      else let '(rows', r') := emplace rows' key row in ((k, r) :: rows', r')
  end.

(** The row of a pc that is not cached; any failure to find the FDE is an illegal state. *)
Definition find_row (pc : Z) : op (DwarfLocations * DwarfCie) := fun s =>
  match GetFdeFromPc pc (set_core (DwarfSection.set_code DWARF_ERROR_NONE (core s)) s) with
  | Fault f => Fault f
  | Ok (None, s) => fail DWARF_ERROR_ILLEGAL_STATE s
  | Ok (Some fde, s) =>
      match GetCfaLocationInfo pc fde s with
      | Fault f => Fault f
      | Ok (None, s) => Ok (None, s)
      | Ok (Some locs, s) =>
          let '(rows, row) := emplace (loc_regs s) (pc_end locs) (locs, fde_cie fde) in
          Ok (Some row, set_rows rows s)
      end
  end.

Definition row_of (pc : Z) : op (DwarfLocations * DwarfCie) :=
  rows ← gets loc_regs;
  match upper_bound rows pc with
  | Some row => if pc <? pc_start row.1 then find_row pc else mret row
  | None => find_row pc
  end.

Context {RA : RegsArch} {IO : IterationOrder}.

(** [Step]: [*finished], or [None] for false; the registers and the section afterwards. *)
Definition Step (process_memory : Memory) (pc : Z) (regs : DwarfSection.Regs) (s : t)
    : outcome (option bool * DwarfSection.Regs * t) :=
  match row_of pc s with
  | Fault f => Fault f
  | Ok (None, s) => Ok (None, regs, s)
  | Ok (Some (locs, cie), s) =>
      r ← DwarfSection.Eval process_memory cie (rules locs) regs (core s);
      let '(finished, regs, c) := r in
      Ok (finished, regs, set_core c s)
  end.
End Virtual.
End Ops.
End DwarfSectionImpl.

(** ** Facts about single operations *)

Module SectionFacts.
Import DwarfSectionImpl.

(** The faults a reader can have. *)
Definition reader_faults {A} (m : DwarfMemory.reader A) : Prop :=
  forall d f, m d = Fault f -> f = BadShift \/ f = CheckFailed.

Lemma rbind_faults {A B} (m : DwarfMemory.reader A) (k : A -> DwarfMemory.reader B) :
  reader_faults m -> (forall a, reader_faults (k a)) -> reader_faults (DwarfMemory.rbind m k).
Proof.
  intros Hm Hk d f. unfold DwarfMemory.rbind. specialize (Hm d).
  destruct (m d) as [[[a|] d']|e]; cbn; [apply Hk|done|]. intros [= <-]. by apply Hm.
Qed.

Lemma ReadBytes_faults n : reader_faults (DwarfMemory.ReadBytes n).
Proof. intros d f. unfold DwarfMemory.ReadBytes. by destruct (ReadFully _ _ _). Qed.

Lemma ReadUnsigned_faults n : reader_faults (DwarfMemory.ReadUnsigned n).
Proof. apply rbind_faults; [apply ReadBytes_faults|done]. Qed.

Lemma ReadSigned_faults n : reader_faults (DwarfMemory.ReadSigned n).
Proof. apply rbind_faults; [apply ReadBytes_faults|done]. Qed.

Lemma leb_loop_faults n v sh : reader_faults (DwarfMemory.leb_loop n v sh).
Proof.
  revert v sh. induction n as [|n IH]; intros v sh; cbn [DwarfMemory.leb_loop].
  { intros d f [= <-]. by left. }
  apply rbind_faults; [apply ReadBytes_faults|]. intros bs d f.
  destruct (64 <=? sh); [intros [= <-]; by left|]. destruct (_ =? 0); [done|apply IH].
Qed.

Lemma ReadULEB128_faults : reader_faults DwarfMemory.ReadULEB128.
Proof. apply rbind_faults; [apply leb_loop_faults|done]. Qed.

Lemma ReadSLEB128_faults : reader_faults DwarfMemory.ReadSLEB128.
Proof.
  apply rbind_faults; [apply leb_loop_faults|]. intros [[v sh] b] d f.
  destruct (_ =? 0); [done|]. destruct (64 <=? sh); [intros [= <-]; by left|done].
Qed.

Lemma ReadEncodedValue_faults {AT : AddressType} e : reader_faults (DwarfMemory.ReadEncodedValue e).
Proof.
  intros d. unfold DwarfMemory.ReadEncodedValue.
  destruct (e =? DW_EH_PE_omit); [done|]. destruct (e =? DW_EH_PE_aligned).
  { destruct (2 ^ 64 <=? _); [done|apply ReadUnsigned_faults]. }
  apply rbind_faults.
  - unfold DwarfMemory.read_encoded_data. repeat (case_match; [apply ReadUnsigned_faults ||
      apply ReadSigned_faults || apply ReadULEB128_faults ||
      (apply rbind_faults; [apply ReadSLEB128_faults|done])|]). done.
  - intros v d' f. unfold DwarfMemory.AdjustEncodedValue, DwarfMemory.add_offset.
    repeat (case_match; try done); intros [= <-]; by right.
Qed.

Create HintDb faults discriminated.
#[export] Hint Resolve ReadUnsigned_faults ReadULEB128_faults ReadSLEB128_faults ReadEncodedValue_faults : faults.

(** An operation that never calls [abort]. *)
Definition no_abort {A} (m : op A) : Prop := forall s, m s <> Fault Aborted.

Lemma bind_no_abort {A B} (m : op A) (k : A -> op B) :
  no_abort m -> (forall a s s', m s = Ok (Some a, s') -> k a s' <> Fault Aborted) -> no_abort (m ≫= k).
Proof.
  intros Hm Hk s. unfold mbind, op_bind. specialize (Hm s).
  destruct (m s) as [[[a|] s']|f] eqn:E; [by eapply Hk|done|congruence].
Qed.

Lemma read_no_abort {A} (m : DwarfMemory.reader A) : reader_faults m -> no_abort (read m).
Proof.
  intros Hm s. unfold read. specialize (Hm (memory_ s)). destruct (m (memory_ s)) as [[[a|] d]|f]; try done.
  intros [= ->]. destruct (Hm Aborted eq_refl); done.
Qed.

Lemma read_u_no_abort n : no_abort (read_u n).
Proof. apply read_no_abort. auto with faults. Qed.

#[export] Hint Resolve read_u_no_abort : faults.

Ltac no_abort :=
  repeat first
    [ done
    | apply read_u_no_abort | apply read_no_abort; auto with faults
    | apply bind_no_abort; [|intros]
    | match goal with |- (if ?b then _ else _) _ <> _ => destruct b eqn:? end
    | match goal with |- no_abort (if ?b then _ else _) => destruct b eqn:? end
    | match goal with |- ?m _ <> Fault Aborted => assert (no_abort m) as HA; [|apply HA] end ].

Lemma read_augmentation_no_abort n aug : no_abort (read_augmentation n aug).
Proof. revert aug. induction n as [|n IH]; intros aug; cbn [read_augmentation]; [done|]. no_abort. Qed.

Lemma skip_leb_no_abort n : no_abort (skip_leb n).
Proof. induction n as [|n IH]; cbn [skip_leb]; [done|]. no_abort. Qed.

Lemma find_encoding_no_abort {AT : AddressType} aug : 82 ∈ aug -> no_abort (find_encoding aug).
Proof.
  induction aug as [|c aug IH]; intros Hin; [by apply elem_of_nil in Hin|]. cbn [find_encoding].
  destruct (Z.eqb_spec c 82) as [|Hc]; [no_abort|].
  apply elem_of_cons in Hin as [|Hin]; [congruence|]. no_abort; by apply IH.
Qed.

Lemma address_encoding_no_abort {AT : AddressType} fuel version aug encoding :
  no_abort (address_encoding fuel version aug encoding).
Proof.
  unfold address_encoding. destruct (_ || _) eqn:E; [done|]. apply orb_false_iff in E as [HZ HR].
  apply negb_false_iff, bool_decide_eq_true in HR. apply negb_false_iff, Z.eqb_eq in HZ.
  destruct aug as [|c aug]; [by apply elem_of_nil in HR|]. cbn in HZ. subst c.
  apply elem_of_cons in HR as [|HR]; [done|].
  no_abort; first [apply skip_leb_no_abort | by apply find_encoding_no_abort].
Qed.
End SectionFacts.

(** ** Theorems on the section *)

Module SectionTheorems.
Import DwarfSectionImpl SectionFacts.

(** The [abort] at the end of [GetCieInfo] is never reached, as its comment says: for no
    section and no augmentation string. *)
Theorem get_cie_info_no_abort {AT : AddressType} fuel encoding s :
  GetCieInfo fuel encoding s <> Fault Aborted.
Proof.
  assert (no_abort (GetCieInfo fuel encoding)) as H; [|apply H]. unfold GetCieInfo, read_segment_size.
  no_abort; [apply read_augmentation_no_abort|apply address_encoding_no_abort].
Qed.
End SectionTheorems.
