(* ===== verification/UwDwarfLog.v ===== *)
(** * libunwindstack: the text of call frame instructions

    Models the logging half of external/libunwindstack-ndk/DwarfCfa.cpp ([Log], [LogInstruction],
    [LogOffsetRegisterString], [GetOperandString]), of DwarfOp.cpp ([GetLogInfo]) and of
    DwarfSection.cpp ([Log]), with Log.cpp: the dump the tools print for an entry.

    A function returns the lines it passes to [log], in order, each with its indentation; what a run
    that fails has logged before is part of the result.  The loops take fuel; [log_info_terminates]
    says how much is enough for an expression.  Offsets fit [size_t].

    [log_follows_instructions] relates the dump to the interpreter of UwDwarfCfa: on instructions
    without expressions both consume the same bytes. *)

From S2P Require Import Prelude HawkPrivate HawkDumper UwDwarfMemory UwDwarfOp UwDwarfCfa UwDwarfEval UwDwarfSection.

(** [DwarfCfaInfo::DisplayType] *)
Inductive DisplayType : Type :=
| DWARF_DISPLAY_NONE | DWARF_DISPLAY_REGISTER | DWARF_DISPLAY_NUMBER | DWARF_DISPLAY_SIGNED_NUMBER
| DWARF_DISPLAY_EVAL_BLOCK | DWARF_DISPLAY_ADDRESS | DWARF_DISPLAY_SET_LOC | DWARF_DISPLAY_ADVANCE_LOC.

Module DwarfLog.
Import DwarfMemory.

(** ** Log.cpp *)

(** A line as [log] prints it: two spaces for each step of the 8-bit indentation. *)
Definition log (indent : Z) (s : list Z) : list Z := replicate (Z.to_nat (2 * u8 indent)) 32 ++ s.

(** What [log_to_stdout] decides: a line of standard output, or a message of the Android log. *)
Definition vlog (print_to_stdout : bool) (line : list Z) : list Z := if print_to_stdout then line ++ [10] else line.

(** ** Names and display of the operands *)

(** The columns [name] and [display_operands] of [DwarfCfaInfo::kTable]; [None]: illegal. *)
Definition kTable_low : list (option (string * list DisplayType)) :=
  [Some ("DW_CFA_nop"%string, []);
   Some ("DW_CFA_set_loc"%string, [DWARF_DISPLAY_SET_LOC]);
   Some ("DW_CFA_advance_loc1"%string, [DWARF_DISPLAY_ADVANCE_LOC]);
   Some ("DW_CFA_advance_loc2"%string, [DWARF_DISPLAY_ADVANCE_LOC]);
   Some ("DW_CFA_advance_loc4"%string, [DWARF_DISPLAY_ADVANCE_LOC]);
   Some ("DW_CFA_offset_extended"%string, [DWARF_DISPLAY_REGISTER; DWARF_DISPLAY_NUMBER]);
   Some ("DW_CFA_restore_extended"%string, [DWARF_DISPLAY_REGISTER]);
   Some ("DW_CFA_undefined"%string, [DWARF_DISPLAY_REGISTER]);
   Some ("DW_CFA_same_value"%string, [DWARF_DISPLAY_REGISTER]);
   Some ("DW_CFA_register"%string, [DWARF_DISPLAY_REGISTER; DWARF_DISPLAY_REGISTER]);
   Some ("DW_CFA_remember_state"%string, []);
   Some ("DW_CFA_restore_state"%string, []);
   Some ("DW_CFA_def_cfa"%string, [DWARF_DISPLAY_REGISTER; DWARF_DISPLAY_NUMBER]);
   Some ("DW_CFA_def_cfa_register"%string, [DWARF_DISPLAY_REGISTER]);
   Some ("DW_CFA_def_cfa_offset"%string, [DWARF_DISPLAY_NUMBER]);
   Some ("DW_CFA_def_cfa_expression"%string, [DWARF_DISPLAY_EVAL_BLOCK]);
   Some ("DW_CFA_expression"%string, [DWARF_DISPLAY_REGISTER; DWARF_DISPLAY_EVAL_BLOCK])].

Definition kTable_high : list (option (string * list DisplayType)) :=
  [Some ("DW_CFA_offset_extended_sf"%string, [DWARF_DISPLAY_REGISTER; DWARF_DISPLAY_SIGNED_NUMBER]);
   Some ("DW_CFA_def_cfa_sf"%string, [DWARF_DISPLAY_REGISTER; DWARF_DISPLAY_SIGNED_NUMBER]);
   Some ("DW_CFA_def_cfa_offset_sf"%string, [DWARF_DISPLAY_SIGNED_NUMBER]);
   Some ("DW_CFA_val_offset"%string, [DWARF_DISPLAY_REGISTER; DWARF_DISPLAY_NUMBER]);
   Some ("DW_CFA_val_offset_sf"%string, [DWARF_DISPLAY_REGISTER; DWARF_DISPLAY_SIGNED_NUMBER]);
   Some ("DW_CFA_val_expression"%string, [DWARF_DISPLAY_REGISTER; DWARF_DISPLAY_EVAL_BLOCK])]
  ++ replicate 23 None ++
  [Some ("DW_CFA_GNU_args_size"%string, [DWARF_DISPLAY_NUMBER]);
   Some ("DW_CFA_GNU_negative_offset_extended"%string, [DWARF_DISPLAY_REGISTER; DWARF_DISPLAY_NUMBER])]
  ++ replicate 16 None.

Definition kTable : list (option (string * list DisplayType)) := kTable_low ++ kTable_high.

Definition illegal : list Z := str "Illegal".
Definition raw_byte (v : Z) : list Z := str " 0x" ++ hex0 2 v.

(** " 0x%02x" for each of the next [n] bytes. *)
Fixpoint raw_bytes (n : nat) (raw : list Z) : reader (list Z) :=
  match n with
  | O => rret raw
  | S n => rbind (ReadBytes 1) (fun b => raw_bytes n (raw ++ raw_byte (le_val b)))
  end.

Section WithAddress.
Context {AT : AddressType}.

(** [GetOperandString]: the text, and [*cur_pc]. *)
Definition GetOperandString (operand : DisplayType) (value cur_pc : Z) : list Z * Z :=
  match operand with
  | DWARF_DISPLAY_REGISTER => (str " register(" ++ dec value ++ str ")", cur_pc)
  | DWARF_DISPLAY_SIGNED_NUMBER => (str " " ++ dec (as_signed value), cur_pc)
  | DWARF_DISPLAY_ADVANCE_LOC => (str " " ++ dec value, u64 (cur_pc + value))
  | DWARF_DISPLAY_NUMBER => (str " " ++ dec value, cur_pc)
  | DWARF_DISPLAY_SET_LOC => (str " 0x" ++ hex (aw value), value)
  | DWARF_DISPLAY_ADDRESS => (str " 0x" ++ hex (aw value), cur_pc)
  | _ => (str " unknown", cur_pc)
  end.

(** ** DwarfOp: the operations of an expression *)

Fixpoint op_operands (n : nat) (encodings : list Z) (log_string : list Z) : reader (list Z) :=
  match n with
  | O => rret log_string
  | S n => rbind (ReadEncodedValue (hd 0 encodings)) (fun v => op_operands n (tl encodings) (log_string ++ [32] ++ dec v))
  end.

(** One operation: its name with the operands, and its bytes. *)
Definition log_op : reader (list Z * list Z) :=
  rbind (ReadBytes 1) (fun b d =>
    let cur_op := le_val b in
    let raw_string := str "Raw Data: 0x" ++ hex0 2 cur_op in
    match DwarfOp.kCallbackTable !! Z.to_nat cur_op with
    | None => Fault OutOfBounds
    | Some None => Ok (Some (illegal, raw_string), d)
    | Some (Some op) =>
        let start_offset := cur_offset d in
        rbind (op_operands (DwarfOp.num_operands op) (DwarfOp.op_operands op) (str (DwarfOp.op_name op))) (fun log_string d =>
          let end_offset := cur_offset d in
          rbind (raw_bytes (Z.to_nat (end_offset - start_offset)) raw_string) (fun raw_string d =>
            Ok (Some (log_string, raw_string), set_cur_offset end_offset d)) (set_cur_offset start_offset d)) d
    end).

Fixpoint op_lines (fuel : nat) (e : Z) (lines : list (list Z)) (d : t) : outcome (list (list Z) * t) :=
  if cur_offset d <? e then
    match fuel with
    | O => Fault OutOfFuel
    | S fuel =>
        r ← log_op d;
        match r with
        | (None, d) => Ok (lines, d)
        | (Some (log_string, raw_string), d) => op_lines fuel e (lines ++ [log_string; raw_string]) d
        end
    end
  else Ok (lines, d).

Definition GetLogInfo (fuel : nat) (start e : Z) (d : t) : outcome (list (list Z) * t) :=
  op_lines fuel e [] (set_cur_offset start d).

(** ** DwarfCfa: the instructions *)

(** Whether the function returned true, the lines it logged, [*cur_pc] and the cursor. *)
Definition logged : Type := outcome (bool * list (list Z) * Z * t).

Definition LogOffsetRegisterString (indent cfa_offset reg cur_pc : Z) (d : t) : logged :=
  r ← ReadULEB128 d;
  match r with
  | (None, d) => Ok (false, [], cur_pc, d)
  | (Some offset, d) =>
      let end_offset := cur_offset d in
      r ← raw_bytes (Z.to_nat (end_offset - cfa_offset)) (str "Raw Data:") (set_cur_offset cfa_offset d);
      match r with
      | (None, d) => Ok (false, [], cur_pc, d)
      | (Some raw_data, d) =>
          Ok (true, [log indent (str "DW_CFA_offset register(" ++ dec reg ++ str ") " ++ dec (swrap 64 offset)); log indent raw_data], cur_pc, d)
      end
  end.

(** The operands of an instruction: the text, the lines of its expressions and [*cur_pc]. *)
Fixpoint cfa_operands (fuel : nat) (operands : list (Z * DisplayType)) (log_string : list Z) (expression_lines : list (list Z))
    (cur_pc : Z) : reader (list Z * list (list Z) * Z) :=
  match operands with
  | [] => rret (log_string, expression_lines, cur_pc)
  | (encoding, display) :: operands =>
      if encoding =? DW_EH_PE_block then
        rbind ReadULEB128 (fun n d =>
          let end_offset := u64 (n + cur_offset d) in
          r ← GetLogInfo fuel (cur_offset d) end_offset d;
          cfa_operands fuel operands (log_string ++ str " " ++ dec n) (expression_lines ++ r.1) cur_pc (set_cur_offset end_offset r.2))
      else
        rbind (ReadEncodedValue encoding) (fun v =>
          let s := GetOperandString display v cur_pc in
          cfa_operands fuel operands (log_string ++ s.1) expression_lines s.2)
  end.

(** The raw bytes, ten to a line: the finished lines and the one begun. *)
Fixpoint raw_lines (n : nat) (i : Z) (lines : list (list Z)) (raw_data : list Z) (d : t) : outcome (bool * list (list Z) * list Z * t) :=
  match n with
  | O => Ok (true, lines, raw_data, d)
  | S n =>
      r ← ReadBytes 1 d;
      match r with
      | (None, d) => Ok (false, lines, raw_data, d)
      | (Some b, d) =>
          let full := (i mod 10 =? 0) && negb (i =? 0) in
          let lines := if full then lines ++ [raw_data] else lines in
          let raw_data := if full then str "Raw Data:" else raw_data in
          raw_lines n (i + 1) lines (raw_data ++ raw_byte (le_val b)) d
      end
  end.

Definition LogInstruction (fuel : nat) (indent cfa_offset op cur_pc : Z) (d : t) : logged :=
  match kTable !! Z.to_nat op, DwarfCfa.kTable !! Z.to_nat op with
  | Some (Some (name, display_operands)), Some operands =>
      r ← cfa_operands fuel (zip operands display_operands) (str name) [] cur_pc d;
      match r with
      | (None, d) => Ok (false, [], cur_pc, d)
      | (Some (log_string, expression_lines, cur_pc), d) =>
          let end_offset := cur_offset d in
          r ← raw_lines (Z.to_nat (u64 (end_offset - cfa_offset))) 0 [] (str "Raw Data:") (set_cur_offset cfa_offset d);
          let '(ok, lines, raw_data, d) := r in
          if ok : bool then
            Ok (true, (log indent <$> log_string :: lines ++ [raw_data]) ++ (log (u32 (indent + 1)) <$> expression_lines), cur_pc, d)
          else Ok (false, log indent <$> log_string :: lines, cur_pc, d)
      end
  | Some None, _ => Ok (true, [log indent illegal; log indent (str "Raw Data: 0x" ++ hex0 2 op)], cur_pc, d)
  | _, _ => Fault OutOfBounds
  end.

Section Entry.
Variable fde : DwarfFde.

(** One instruction of [Log], up to the line with the new pc. *)
Definition log_instruction (fuel : nat) (indent load_bias cur_pc : Z) (d : t) : logged :=
  let cfa_offset := cur_offset d in
  r ← ReadBytes 1 d;
  match r with
  | (None, d) => Ok (false, [], cur_pc, d)
  | (Some b, d) =>
      let cfa_value := le_val b in
      let cfa_low := Z.land cfa_value 63 in
      let high := Z.shiftr cfa_value 6 in
      let raw := log indent (str "Raw Data: 0x" ++ hex0 2 cfa_value) in
      r ← (if high =? 1 then
             Ok (true, [log indent (str "DW_CFA_advance_loc " ++ dec cfa_low); raw],
                 u64 (cur_pc + u64 (cfa_low * code_alignment_factor (fde_cie fde))), d)
           else if high =? 2 then LogOffsetRegisterString indent cfa_offset cfa_low cur_pc d
           else if high =? 3 then Ok (true, [log indent (str "DW_CFA_restore register(" ++ dec cfa_low ++ str ")"); raw], cur_pc, d)
           else LogInstruction fuel indent cfa_offset cfa_low cur_pc d);
      let '(ok, lines, new_pc, d) := r in
      if ok : bool then
        let moved := if new_pc =? cur_pc then [] else [log indent []; log indent (str "PC 0x" ++ hex (u64 (new_pc + load_bias)))] in
        Ok (true, lines ++ moved, new_pc, d)
      else Ok (false, lines, new_pc, d)
  end.

(** The loop; [ops] is the fuel for the expressions. *)
Fixpoint log_loop (fuel ops : nat) (indent pc load_bias e : Z) (lines : list (list Z)) (cur_pc : Z) (d : t) : outcome (bool * list (list Z) * t) :=
  if (cur_offset d <? e) && (cur_pc <=? pc) then
    match fuel with
    | O => Fault OutOfFuel
    | S fuel =>
        r ← log_instruction ops indent load_bias cur_pc d;
        let '(ok, more, cur_pc, d) := r in
        if ok : bool then log_loop fuel ops indent pc load_bias e (lines ++ more) cur_pc d
        else Ok (false, lines ++ more, d)
    end
  else Ok (true, lines, d).

(** [DwarfCfa::Log(indent, pc, load_bias, start_offset, end_offset)] *)
Definition Log (fuel : nat) (indent pc load_bias start e : Z) (d : t) : outcome (bool * list (list Z) * t) :=
  log_loop fuel fuel indent pc load_bias e [] (fde_pc_start fde) (set_cur_offset start d).
End Entry.

(** [DwarfSectionImpl::Log(indent, pc, load_bias, fde)]: the instructions of the CIE, then those of the
    FDE.  [last_error] is the error of a [DwarfCfa] that has computed nothing, which is not
    initialised. *)
Definition section_Log (last_error : DwarfErrorCode * Z) (fuel : nat) (indent pc load_bias : Z) (fde : DwarfFde)
    (s : DwarfSectionImpl.t) : outcome (bool * list (list Z) * DwarfSectionImpl.t) :=
  let cie := fde_cie fde in
  let failed d := DwarfSectionImpl.set_core (DwarfSection.mkCore d last_error.1 last_error.2) s in
  r ← Log fde fuel indent pc load_bias (cie_instructions_offset cie) (cie_instructions_end cie) (DwarfSectionImpl.memory_ s);
  let '(ok, lines, d) := r in
  if negb ok then Ok (false, lines, failed d)
  else
    r ← Log fde fuel indent pc load_bias (fde_instructions_offset fde) (fde_instructions_end fde) d;
    let '(ok, more, d) := r in
    if negb ok then Ok (false, lines ++ more, failed d) else Ok (true, lines ++ more, DwarfSectionImpl.set_memory d s).
End WithAddress.
End DwarfLog.

(** ** What a reader consumes *)

Module LogFacts.
Import DwarfMemory DwarfLog.

(** A memory of bytes that does not reach the last address, and whose bytes can be read one by one
    wherever they can be read together. *)
Definition tame (m : Memory) : Prop := forall a n d,
  in_u 64 a -> 0 < n -> ReadFully m a n = Some d ->
  bytes_ok d /\ a + n < 2 ^ 64 /\ forall i, 0 <= i < n -> exists b, ReadFully m (a + i) 1 = Some [b].

(** The next [k] bytes can be read one by one. *)
Definition readable (d : t) (k : Z) : Prop :=
  forall i, 0 <= i < k -> exists b, ReadFully (memory_ d) (cur_offset d + i) 1 = Some [b].

Definition moved (k : Z) (d : t) : t := set_cur_offset (cur_offset d + k) d.

(** A reader that succeeds has moved the cursor over [lo] or more bytes, which can be read again. *)
Definition advances {A} (lo : Z) (m : reader A) : Prop := forall d a d',
  tame (memory_ d) -> in_u 64 (cur_offset d) -> m d = Ok (Some a, d') ->
  exists k, lo <= k /\ 0 <= k /\ cur_offset d + k < 2 ^ 64 /\ d' = moved k d /\ readable d k.

Lemma moved_0 d : moved 0 d = d.
Proof. unfold moved. rewrite Z.add_0_r. by destruct d. Qed.

Lemma moved_moved k l d : moved k (moved l d) = moved (l + k) d.
Proof. unfold moved, set_cur_offset. cbn. by rewrite Z.add_assoc. Qed.

Lemma readable_app d k l : readable d k -> readable (moved k d) l -> 0 <= k -> readable d (k + l).
Proof.
  intros H1 H2 Hk i Hi. destruct (Z.lt_ge_cases i k) as [Hl|Hl]; [apply H1; lia|].
  destruct (H2 (i - k)) as [b Hb]; [lia|]. exists b. rewrite <- Hb. unfold moved. cbn. f_equal. lia.
Qed.

Lemma rbind_Some {A B} (m : reader A) (f : A -> reader B) d b d' :
  rbind m f d = Ok (Some b, d') -> exists a d1, m d = Ok (Some a, d1) /\ f a d1 = Ok (Some b, d').
Proof. unfold rbind. intros H. apply bind_Ok_inv in H as ([[a|] d1] & H1 & H); [by exists a, d1|done]. Qed.

Lemma advances_stay d : in_u 64 (cur_offset d) -> exists k, 0 <= k /\ 0 <= k /\ cur_offset d + k < 2 ^ 64 /\ d = moved k d /\ readable d k.
Proof. intros Hc. exists 0. rewrite moved_0. unfold in_u in Hc. split_and!; try lia; [done|]. intros i Hi. lia. Qed.

Lemma advances_pure {A} (m : reader A) : (forall d a d', m d = Ok (Some a, d') -> d' = d) -> advances 0 m.
Proof. intros H d a d' Ht Hc E. rewrite (H _ _ _ E). by apply advances_stay. Qed.

Lemma advances_rret {A} (a : A) : advances 0 (rret a).
Proof. apply advances_pure. by intros d x d' [= _ <-]. Qed.

Lemma advances_rbind {A B} lo lo' (m : reader A) (f : A -> reader B) :
  advances lo m -> (forall a, advances lo' (f a)) -> 0 <= lo -> 0 <= lo' -> advances (lo + lo') (rbind m f).
Proof.
  intros Hm Hf Hl Hl' d b d' Ht Hc H. apply rbind_Some in H as (a & d1 & H1 & H2).
  destruct (Hm d a d1 Ht Hc H1) as (k & K1 & K2 & K3 & -> & K4).
  destruct (Hf a (moved k d) b d') as (l & L1 & L2 & L3 & -> & L4); [done| |done|].
  { split; [unfold in_u in *; cbn; lia|exact K3]. }
  exists (k + l). rewrite moved_moved. cbn in L3. split_and!; [lia|lia|lia|done|]. by apply readable_app.
Qed.

Lemma advances_mono {A} lo lo' (m : reader A) : advances lo m -> lo' <= lo -> advances lo' m.
Proof. intros H Hl d a d' Ht Hc E. destruct (H d a d' Ht Hc E) as (k & ? & ?). exists k. split; [lia|done]. Qed.

Lemma ReadBytes_advances n : 0 < n -> advances n (ReadBytes n).
Proof.
  intros Hn d a d' Ht Hc. unfold ReadBytes. destruct (ReadFully _ _ _) as [bs|] eqn:E; [|done]. intros [= <- <-].
  destruct (Ht _ _ _ Hc Hn E) as (_ & H1 & H2). exists n. split_and!; [lia|lia|lia| |done].
  unfold moved. rewrite uwrap_small; [done|]. split; [unfold in_u in Hc; lia|done].
Qed.

Lemma leb_advances fuel : forall v sh, advances 1 (leb_loop fuel v sh).
Proof.
  induction fuel as [|fuel IH]; intros v sh; cbn [leb_loop]; [by intros d a d' _ _ H|].
  apply (advances_rbind 1 0); [by apply ReadBytes_advances| |lia|lia]. intros bs d a d' Ht Hc.
  destruct (64 <=? sh); [done|]. destruct (_ =? 0).
  - intros [= <- <-]. by apply advances_stay.
  - intros H. destruct (IH _ _ d a d' Ht Hc H) as (k & ? & ?). exists k. split; [lia|done].
Qed.

Lemma ReadULEB128_advances : advances 1 ReadULEB128.
Proof. apply (advances_rbind 1 0); [apply leb_advances| |lia|lia]. intros r. apply advances_rret. Qed.

Lemma ReadSLEB128_advances : advances 1 ReadSLEB128.
Proof.
  apply (advances_rbind 1 0); [apply leb_advances| |lia|lia]. intros [[v sh] b]. apply advances_pure.
  intros d a d'. destruct (_ =? 0); [by intros [= <- <-]|]. destruct (64 <=? sh); [done|by intros [= <- <-]].
Qed.

Lemma ReadUnsigned_advances n : 0 < n -> advances n (ReadUnsigned n).
Proof.
  intros Hn. eapply advances_mono; [apply (advances_rbind n 0); [by apply ReadBytes_advances|intros; apply advances_rret|lia|lia]|lia].
Qed.

Lemma ReadSigned_advances n : 0 < n -> advances n (ReadSigned n).
Proof.
  intros Hn. eapply advances_mono; [apply (advances_rbind n 0); [by apply ReadBytes_advances|intros; apply advances_rret|lia|lia]|lia].
Qed.

(** The encodings of the two tables of instructions. *)
Definition plain_encodings : list Z :=
  [DW_EH_PE_absptr; DW_EH_PE_uleb128; DW_EH_PE_sleb128; DW_EH_PE_udata1; DW_EH_PE_sdata1; DW_EH_PE_udata2; DW_EH_PE_sdata2;
   DW_EH_PE_udata4; DW_EH_PE_sdata4; DW_EH_PE_udata8; DW_EH_PE_sdata8].

Section WithAddress.
Context {AT : AddressType}.

Lemma ReadEncodedValue_advances e : e ∈ plain_encodings -> advances 0 (ReadEncodedValue e).
Proof.
  intros He. assert (advances 0 (rbind (read_encoded_data e) (AdjustEncodedValue (Z.land e 112)))) as H.
  { apply (advances_rbind 0 0); [| |lia|lia].
    - unfold plain_encodings in He. repeat (apply elem_of_cons in He as [-> | He]); [..|by apply not_elem_of_nil in He].
      all: cbn -[ReadUnsigned ReadSigned ReadULEB128 ReadSLEB128].
      1: eapply advances_mono; [apply ReadUnsigned_advances; destruct asz_cases; lia|destruct asz_cases; lia].
      1: eapply advances_mono; [apply ReadULEB128_advances|lia].
      1: apply (advances_rbind 0 0); [eapply advances_mono; [apply ReadSLEB128_advances|lia]|intros; apply advances_rret|lia|lia].
      all: eapply advances_mono; [first [by apply ReadUnsigned_advances|by apply ReadSigned_advances]|lia].
    - intros v. apply advances_pure. intros d a d'. unfold AdjustEncodedValue, add_offset.
      repeat (case_match; try discriminate); by intros [= _ <-]. }
  unfold plain_encodings in He. repeat (apply elem_of_cons in He as [-> | He]); [apply H..|by apply not_elem_of_nil in He].
Qed.

(** The values it reads fit 64 bits. *)
Lemma ReadUnsigned_range n d v d' :
  0 < n <= 8 -> tame (memory_ d) -> in_u 64 (cur_offset d) -> ReadUnsigned n d = Ok (Some v, d') -> in_u 64 v.
Proof.
  intros Hn Ht Hc H. apply rbind_Some in H as (bs & d1 & H1 & [= <- <-]). unfold ReadBytes in H1.
  destruct (ReadFully _ _ _) as [b|] eqn:E; [|done]. injection H1 as -> <-.
  assert (0 < n) as Hn0 by lia. destruct (Ht _ _ _ Hc Hn0 E) as (Hb & _). unfold ReadFully in E.
  destruct (Z.eqb_spec (blen (memory_ d (cur_offset d) n)) n) as [El|]; [|done]. injection E as <-.
  pose proof (le_val_bound _ Hb) as HL. unfold blen in El. rewrite El in HL.
  assert (2 ^ (8 * n) <= 2 ^ 64) by (apply Z.pow_le_mono_r; lia). split; lia.
Qed.

Lemma ReadEncodedValue_range e d v d' :
  e ∈ plain_encodings -> tame (memory_ d) -> in_u 64 (cur_offset d) -> ReadEncodedValue e d = Ok (Some v, d') -> in_u 64 v.
Proof.
  intros He Ht Hc H. assert (exists d1, read_encoded_data e d = Ok (Some v, d1)) as [d1 H1].
  { unfold plain_encodings in He. repeat (apply elem_of_cons in He as [-> | He]); [..|by apply not_elem_of_nil in He].
    all: apply rbind_Some in H as (w & d1 & H1 & H2); injection H2 as <- <-; by exists d1. }
  clear H. unfold plain_encodings in He. repeat (apply elem_of_cons in He as [-> | He]); [..|by apply not_elem_of_nil in He].
  all: cbn -[ReadUnsigned ReadSigned ReadULEB128 ReadSLEB128] in H1.
  1: apply (ReadUnsigned_range asz d v d1); try done; destruct asz_cases; lia.
  1: { apply rbind_Some in H1 as ([[a sh] lb] & d2 & H2 & H1). injection H1 as <- <-. cbn [fst].
       clear -H2. enough (forall fuel a sh acc s0 d, leb_loop fuel acc s0 d = Ok (Some (a, sh, lb), d2) -> in_u 64 a) as HH by by eapply HH.
       clear. induction fuel as [|fuel IH]; intros a sh acc s0 d H; cbn [leb_loop] in H; [done|].
       apply rbind_Some in H as (bs & d1 & _ & H). destruct (64 <=? s0); [done|]. destruct (_ =? 0); [|by eapply IH].
       injection H as <- _ _ _. apply uwrap_range. lia. }
  1: apply rbind_Some in H1 as (w & d2 & _ & H1); injection H1 as <- _; apply uwrap_range; lia.
  all: first [by (eapply ReadUnsigned_range; [|exact Ht|exact Hc|exact H1]; lia) |
    unfold ReadSigned in H1; apply rbind_Some in H1 as (w & d2 & _ & H1); injection H1 as <- _; apply uwrap_range; lia].
Qed.

(** ** The instructions and their text *)

Lemma readable_S d k :
  0 <= k -> in_u 64 (cur_offset d) -> cur_offset d + (k + 1) < 2 ^ 64 -> readable d (k + 1) ->
  exists b, ReadBytes 1 d = Ok (Some [b], moved 1 d) /\ readable (moved 1 d) k /\ in_u 64 (cur_offset (moved 1 d)).
Proof.
  intros Hk Hc Hm H. unfold in_u in *. destruct (H 0) as [b Hb]; [lia|]. rewrite Z.add_0_r in Hb. exists b. split; [|split].
  - unfold ReadBytes. rewrite Hb, uwrap_small by (split; lia). done.
  - intros i Hi. destruct (H (1 + i)) as [c Hc']; [lia|]. exists c. rewrite <- Hc'. unfold moved. cbn. f_equal. lia.
  - unfold moved. cbn [cur_offset set_cur_offset]. lia.
Qed.

Lemma raw_bytes_ok n : forall raw d,
  in_u 64 (cur_offset d) -> cur_offset d + Z.of_nat n < 2 ^ 64 -> readable d (Z.of_nat n) ->
  exists raw', raw_bytes n raw d = Ok (Some raw', moved (Z.of_nat n) d).
Proof.
  induction n as [|n IH]; intros raw d Hc Hm H; cbn [raw_bytes]; [exists raw; by rewrite moved_0|].
  rewrite Nat2Z.inj_succ, <- Z.add_1_r in *. destruct (readable_S d (Z.of_nat n)) as (b & Hb & Hr & Hi); [lia|done|lia|done|].
  unfold rbind. rewrite Hb, bind_Ok. destruct (IH (raw ++ raw_byte (le_val [b])) (moved 1 d) Hi) as [raw' ->]; [cbn; lia|done|].
  exists raw'. rewrite moved_moved. by rewrite Z.add_comm.
Qed.

Lemma raw_lines_ok n : forall i lines raw d,
  in_u 64 (cur_offset d) -> cur_offset d + Z.of_nat n < 2 ^ 64 -> readable d (Z.of_nat n) ->
  exists lines' raw', raw_lines n i lines raw d = Ok (true, lines', raw', moved (Z.of_nat n) d).
Proof.
  induction n as [|n IH]; intros i lines raw d Hc Hm H; cbn [raw_lines]; [exists lines, raw; by rewrite moved_0|].
  rewrite Nat2Z.inj_succ, <- Z.add_1_r in *. destruct (readable_S d (Z.of_nat n)) as (b & Hb & Hr & Hi); [lia|done|lia|done|].
  rewrite Hb, bind_Ok. match goal with |- context [raw_lines n ?j ?l ?r _] =>
    destruct (IH j l r (moved 1 d) Hi) as (lines' & raw' & ->); [cbn; lia|done|] end.
  exists lines', raw'. rewrite moved_moved. by rewrite Z.add_comm.
Qed.

Lemma plain_no_block : DW_EH_PE_block ∉ plain_encodings.
Proof. refine (bool_decide_unpack (DW_EH_PE_block ∉ plain_encodings) _). vm_compute. exact I. Qed.

(** What the text of the operands does to the pc. *)
Definition pc_effect (ds : list DisplayType) (vs : list Z) (pc : Z) : Z :=
  fold_left (fun pc dv => (GetOperandString dv.1 dv.2 pc).2) (zip ds vs) pc.

Lemma operands_follow es : forall ds s s' str0 ex pc ops,
  Forall (fun e => e ∈ plain_encodings) es -> length ds = length es ->
  tame (memory_ (DwarfCfa.dm s)) -> in_u 64 (DwarfCfa.cursor s) -> DwarfCfa.read_operands es s = Ok (true, s') ->
  exists vs str' k, length vs = length es /\ Forall (in_u 64) vs /\ DwarfCfa.operands s' = DwarfCfa.operands s ++ (aw <$> vs) /\
    cfa_operands ops (zip es ds) str0 ex pc (DwarfCfa.dm s) = Ok (Some (str', ex, pc_effect ds vs pc), DwarfCfa.dm s') /\
    0 <= k /\ DwarfCfa.cursor s + k < 2 ^ 64 /\ DwarfCfa.dm s' = moved k (DwarfCfa.dm s) /\ readable (DwarfCfa.dm s) k /\
    DwarfCfa.cur_pc s' = DwarfCfa.cur_pc s.
Proof.
  induction es as [|e es IH]; intros ds s s' str0 ex pc ops Hp Hl Ht Hc H.
  { destruct ds; [|done]. cbn in H. injection H as <-. exists [], str0, 0. cbn. rewrite app_nil_r, moved_0.
    unfold in_u, DwarfCfa.cursor in *. split_and!; try done; try lia. intros i Hi. lia. }
  destruct ds as [|disp ds]; [done|]. apply Forall_cons in Hp as [He Hp]. cbn [DwarfCfa.read_operands] in H.
  assert ((e =? DW_EH_PE_block) = false) as HB.
  { destruct (Z.eqb_spec e DW_EH_PE_block) as [->|]; [|done]. by apply plain_no_block in He. }
  rewrite HB in H. apply bind_Ok_inv in H as ([[v|] m] & H1 & H); cbn [fst snd] in H; [|done].
  destruct (ReadEncodedValue_advances e He _ _ _ Ht Hc H1) as (k & _ & K1 & K2 & -> & K3).
  destruct (IH ds (DwarfCfa.set_operands (DwarfCfa.operands (DwarfCfa.set_dm (moved k (DwarfCfa.dm s)) s) ++ [aw v]) (DwarfCfa.set_dm (moved k (DwarfCfa.dm s)) s)) s'
    (str0 ++ (GetOperandString disp v pc).1) ex (GetOperandString disp v pc).2 ops)
    as (vs & str' & l & V1 & VR & V2 & V3 & L1 & L2 & L3 & L4 & L5); [done|by injection Hl|done| |done|].
  { unfold DwarfCfa.cursor, in_u in *. cbn. lia. }
  exists (v :: vs), str', (k + l). unfold DwarfCfa.cursor in L2. cbn in V2, V3, L2, L3, L4, L5. split_and!.
  - cbn. by rewrite V1.
  - constructor; [by eapply ReadEncodedValue_range|done].
  - rewrite V2, <- app_assoc. done.
  - cbn [zip zip_with cfa_operands]. rewrite HB. unfold rbind. rewrite H1, bind_Ok. exact V3.
  - lia.
  - unfold DwarfCfa.cursor. lia.
  - rewrite L3, moved_moved. done.
  - by apply readable_app.
  - done.
Qed.

Lemma pc_effect_range ds : forall vs pc, Forall (in_u 64) vs -> in_u 64 pc -> in_u 64 (pc_effect ds vs pc).
Proof.
  induction ds as [|disp ds IH]; intros vs pc Hv Hp; [done|]. destruct Hv as [|v vs Hv Hvs]; [done|].
  apply (IH vs (GetOperandString disp v pc).2 Hvs). destruct disp; try done. apply uwrap_range. lia.
Qed.

(** The handlers leave the cursor, and all but two the pc. *)
Definition moves_pc (h : DwarfCfa.handler) : bool :=
  match h with DwarfCfa.h_set_loc | DwarfCfa.h_advance_loc => true | _ => false end.

Lemma restore_dm cie reg s b s' :
  DwarfCfa.restore_rule cie reg s = Ok (b, s') -> DwarfCfa.dm s' = DwarfCfa.dm s /\ DwarfCfa.cur_pc s' = DwarfCfa.cur_pc s.
Proof. unfold DwarfCfa.restore_rule. repeat case_match; by intros [= _ <-]. Qed.

Lemma handle_dm fde cie h s b s' :
  DwarfCfa.handle fde cie h s = Ok (b, s') ->
  DwarfCfa.dm s' = DwarfCfa.dm s /\ (moves_pc h = false -> DwarfCfa.cur_pc s' = DwarfCfa.cur_pc s).
Proof.
  destruct h; cbn [DwarfCfa.handle moves_pc];
    unfold DwarfCfa.cfa_def_cfa_register, DwarfCfa.cfa_def_cfa_offset, DwarfCfa.cfa_def_cfa_offset_sf, DwarfCfa.cfa_restore_state;
    try (case_match; [|by intros [= _ <-]]); intros HR;
    repeat (apply bind_Ok_inv in HR as (? & _ & HR)); try by injection HR as _ <-.
  by apply restore_dm in HR as [? ?].
Qed.

(** *** The tables *)

Definition block_free (es : list Z) : bool := negb (bool_decide (DW_EH_PE_block ∈ es)).

(** Instruction [i] has the same operands in the tables; its text moves the pc as its handler does. *)
Definition row_ok (i : nat) : bool :=
  match kTable !! i, DwarfCfa.kTable !! i, DwarfCfa.kCallbackTable !! i with
  | Some (Some (_, ds)), Some es, Some (Some h) =>
      (length ds =? length es)%nat && (negb (block_free es) || forallb (fun e => bool_decide (e ∈ plain_encodings)) es) &&
      match h with
      | DwarfCfa.h_set_loc => match ds with [DWARF_DISPLAY_SET_LOC] => true | _ => false end
      | DwarfCfa.h_advance_loc => match ds with [DWARF_DISPLAY_ADVANCE_LOC] => true | _ => false end
      | _ => forallb (fun d => match d with DWARF_DISPLAY_SET_LOC | DWARF_DISPLAY_ADVANCE_LOC => false | _ => true end) ds
      end
  | Some None, Some _, Some None => true
  | _, _, _ => false
  end.

Lemma rows_ok i : (i < 64)%nat -> row_ok i = true.
Proof.
  intros Hi. assert (forallb row_ok (seq 0 64) = true) as H by (vm_compute; reflexivity).
  rewrite List.forallb_forall in H. apply H. apply in_seq. lia.
Qed.

(** An instruction without an expression. *)
Definition plain_byte (v : Z) : bool :=
  (Z.shiftr v 6 =? 1) || (Z.shiftr v 6 =? 2) || (Z.shiftr v 6 =? 3) || from_option block_free true (DwarfCfa.kTable !! Z.to_nat (Z.land v 63)).

Definition plain (s : DwarfCfa.t) : Prop :=
  forall b, ReadFully (memory_ (DwarfCfa.dm s)) (DwarfCfa.cursor s) 1 = Some b -> plain_byte (le_val b) = true.

Lemma other_effect ds vs pc :
  forallb (fun d => match d with DWARF_DISPLAY_SET_LOC | DWARF_DISPLAY_ADVANCE_LOC => false | _ => true end) ds = true ->
  pc_effect ds vs pc = pc.
Proof.
  revert vs. induction ds as [|d ds IH]; intros vs H; [done|]. cbn in H. apply andb_true_iff in H as [Hd H].
  destruct vs as [|v vs]; [done|]. unfold pc_effect. cbn. destruct d; (done || by apply (IH vs)).
Qed.

Lemma land_63 v : (Z.to_nat (Z.land v 63) < 64)%nat.
Proof. change 63 with (Z.ones 6). rewrite Z.land_ones by lia. pose proof (Z.mod_pos_bound v (2 ^ 6)). lia. Qed.

(** The operand of DW_CFA_set_loc as the handler sees it. *)
Lemma aw_fmap (vs : list Z) i v : vs !! i = Some v -> (aw <$> vs) !! i = Some (aw v).
Proof. intros H. by rewrite list_lookup_fmap, H. Qed.

(** *** One instruction *)

Section Instruction.
Variable fde : DwarfFde.
Variable cie : option (gmap Z DwarfLocation).
Hypothesis Hfactor : code_alignment_factor (fde_cie fde) = 1.

Lemma aw_u64 z : aw (u64 z) = aw z.
Proof.
  unfold aw, uwrap. pose proof asz_cases as HA. assert (abits = 32 \/ abits = 64) as [-> | ->] by (unfold abits; lia).
  - rewrite <- Znumtheory.Zmod_div_mod; [done|lia|lia|]. exists (2 ^ 32). lia.
  - by rewrite Zmod_mod.
Qed.

Lemma aw_add a b : aw (aw a + b) = aw (a + b).
Proof. unfold aw, uwrap. by rewrite Zplus_mod_idemp_l. Qed.

Lemma aw_add_r a b : aw (a + aw b) = aw (a + b).
Proof. unfold aw, uwrap. by rewrite Zplus_mod_idemp_r. Qed.

(** The handler and the text move the pc alike. *)
Lemma handle_pc i h name ds es s s' vs pc :
  (i < 64)%nat -> kTable !! i = Some (Some (name, ds)) -> DwarfCfa.kTable !! i = Some es -> DwarfCfa.kCallbackTable !! i = Some (Some h) ->
  DwarfCfa.operands s = aw <$> vs -> length vs = length es -> DwarfCfa.cur_pc s = aw pc ->
  DwarfCfa.handle fde cie h s = Ok (true, s') -> DwarfCfa.cur_pc s' = aw (pc_effect ds vs pc).
Proof.
  intros Hi K1 K2 K3 Ho Hl Hpc HH. pose proof (rows_ok i Hi) as HR. unfold row_ok in HR. rewrite K1, K2, K3 in HR.
  apply andb_true_iff in HR as [HR HD]. apply andb_true_iff in HR as [HL _]. apply Nat.eqb_eq in HL.
  destruct (moves_pc h) eqn:EM.
  2: { destruct (handle_dm fde cie h s true s' HH) as [_ H2]. rewrite H2, Hpc by done. f_equal.
       destruct h; try done; by rewrite other_effect. }
  destruct h; try done.
  - destruct ds as [|[] [|]]; try done. destruct es as [|e [|]]; try done. destruct vs as [|v [|]]; try done.
    cbn in HH. unfold DwarfCfa.cfa_set_loc, DwarfCfa.operand in HH. rewrite Ho in HH. cbn in HH. injection HH as <-. done.
  - destruct ds as [|[] [|]]; try done. destruct es as [|e [|]]; try done. destruct vs as [|v [|]]; try done.
    cbn in HH. unfold DwarfCfa.cfa_advance_loc, DwarfCfa.operand in HH. rewrite Ho in HH. cbn in HH. injection HH as <-.
    cbn [DwarfCfa.set_pc DwarfCfa.cur_pc]. unfold pc_effect. cbn [zip zip_with fold_left GetOperandString fst snd].
    rewrite Hfactor, Z.mul_1_r, Hpc, aw_add, !aw_u64. rewrite <- (aw_add_r pc (u64 (aw v))), aw_u64.
    by rewrite !aw_add_r.
Qed.

Lemma instruction_logged s s' ops indent bias pc :
  tame (memory_ (DwarfCfa.dm s)) -> in_u 64 (DwarfCfa.cursor s) -> plain s -> DwarfCfa.cur_pc s = aw pc ->
  DwarfCfa.instruction fde cie s = Ok (true, s') ->
  exists lines pc', log_instruction fde ops indent bias pc (DwarfCfa.dm s) = Ok (true, lines, pc', DwarfCfa.dm s') /\
    DwarfCfa.cur_pc s' = aw pc' /\ (in_u 64 pc -> in_u 64 pc') /\ exists k, 1 <= k /\ DwarfCfa.cursor s + k < 2 ^ 64 /\ DwarfCfa.dm s' = moved k (DwarfCfa.dm s).
Proof.
  intros Ht Hc Hp Hpc H. unfold DwarfCfa.instruction in H. cbn [DwarfCfa.dm DwarfCfa.set_operands DwarfCfa.set_start DwarfCfa.set_locs] in H.
  apply bind_Ok_inv in H as ([[b|] m] & HB & H); cbn [fst snd] in H; [|done].
  destruct (ReadBytes_advances 1 ltac:(lia) _ _ _ Ht Hc HB) as (k & K1 & K2 & K3 & -> & K4).
  unfold log_instruction. rewrite HB, bind_Ok. cbv zeta. specialize (Hp b).
  assert (plain_byte (le_val b) = true) as Hpb.
  { apply Hp. unfold ReadBytes in HB. unfold DwarfCfa.cursor. destruct (ReadFully _ _ 1); [|done]. by injection HB as ->. }
  clear Hp. set (v := le_val b) in *. set (d1 := moved k (DwarfCfa.dm s)) in *.
  assert (in_u 64 (cur_offset d1)) as Hc1 by (unfold in_u, DwarfCfa.cursor in *; cbn; lia).
  destruct (Z.eqb_spec (Z.shiftr v 6) 1) as [E1|E1]; [|destruct (Z.eqb_spec (Z.shiftr v 6) 2) as [E2|E2];
    [|destruct (Z.eqb_spec (Z.shiftr v 6) 3) as [E3|E3]]].
  - injection H as <-. rewrite bind_Ok. do 2 eexists. split; [reflexivity|]. split; [|split; [intros _; apply uwrap_range; lia|by exists k]].
    cbn [DwarfCfa.cur_pc DwarfCfa.set_pc DwarfCfa.set_dm DwarfCfa.set_operands DwarfCfa.set_start DwarfCfa.set_locs].
    by rewrite Hpc, aw_add, aw_u64.
  - apply bind_Ok_inv in H as ([[o|] m2] & HO & H); cbn [fst snd DwarfCfa.dm DwarfCfa.set_dm] in HO, H; [|done].
    apply bind_Ok_inv in H as (w & _ & H). injection H as <-.
    destruct (ReadULEB128_advances d1 o m2 Ht Hc1 HO) as (l & L1 & L2 & L3 & -> & L4).
    unfold LogOffsetRegisterString. rewrite HO, bind_Ok. cbv zeta.
    assert (set_cur_offset (cur_offset (DwarfCfa.dm s)) (moved l d1) = DwarfCfa.dm s) as -> by (by destruct (DwarfCfa.dm s)).
    assert (cur_offset (moved l d1) - cur_offset (DwarfCfa.dm s) = k + l) as -> by (unfold d1; cbn; lia).
    destruct (raw_bytes_ok (Z.to_nat (k + l)) (str "Raw Data:") (DwarfCfa.dm s)) as [raw ->]; rewrite ?Z2Nat.id by lia.
    { done. } { unfold DwarfCfa.cursor in *. unfold d1 in L3. cbn in L3. lia. } { by apply readable_app. }
    rewrite !bind_Ok. rewrite <- moved_moved. do 2 eexists. split; [reflexivity|]. split; [exact Hpc|]. split; [done|].
    exists (k + l). split; [lia|]. split; [|change (moved l d1 = moved (k + l) (DwarfCfa.dm s)); apply moved_moved].
    unfold DwarfCfa.cursor, d1 in *. cbn in L3. lia.
  - rewrite bind_Ok. apply restore_dm in H as [-> ->]. do 2 eexists. split; [reflexivity|]. split; [exact Hpc|]. split; [done|]. by exists k.
  - pose proof (land_63 v) as Hi. pose proof (rows_ok _ Hi) as HR. unfold row_ok in HR. unfold LogInstruction.
    destruct (DwarfCfa.kCallbackTable !! Z.to_nat (Z.land v 63)) as [[h|]|] eqn:Kc; [|done|done].
    destruct (DwarfCfa.kTable !! Z.to_nat (Z.land v 63)) as [es|] eqn:Ko; [|done].
    destruct (kTable !! Z.to_nat (Z.land v 63)) as [[[nm ds]|]|] eqn:Kn; [|done|done].
    apply andb_true_iff in HR as [HR _]. apply andb_true_iff in HR as [HL HE]. apply Nat.eqb_eq in HL.
    unfold plain_byte in Hpb. rewrite Ko in Hpb. destruct (Z.eqb_spec (Z.shiftr v 6) 1); [done|].
    destruct (Z.eqb_spec (Z.shiftr v 6) 2); [done|]. destruct (Z.eqb_spec (Z.shiftr v 6) 3); [done|]. cbn in Hpb.
    rewrite Hpb in HE. cbn [negb orb] in HE.
    assert (Forall (fun e => e ∈ plain_encodings) es) as Hes.
    { apply Forall_forall. intros e He. rewrite List.forallb_forall in HE. apply list_elem_of_In in He. by apply HE, bool_decide_eq_true in He. }
    apply bind_Ok_inv in H as ([ok s1] & HO & H). cbn [fst snd] in H. destruct ok; [|done]. cbn [negb] in H.
    match type of HO with DwarfCfa.read_operands _ ?x = _ =>
    destruct (operands_follow es ds x s1 (str nm) [] pc ops Hes HL Ht Hc1 HO) as (vs & st' & l & V1 & VR & V2 & V3 & L1 & L2 & L3 & L4 & L5) end.
    cbn [DwarfCfa.dm DwarfCfa.set_dm DwarfCfa.operands DwarfCfa.set_operands DwarfCfa.set_start DwarfCfa.set_locs app] in V2, V3, L3, L4, L5.
    rewrite V3, bind_Ok. cbv zeta. destruct (handle_dm _ _ _ _ _ _ H) as [Hdm _]. rewrite Hdm, L3.
    assert (set_cur_offset (cur_offset (DwarfCfa.dm s)) (moved l d1) = DwarfCfa.dm s) as -> by (by destruct (DwarfCfa.dm s)).
    unfold DwarfCfa.cursor in L2. cbn [DwarfCfa.dm DwarfCfa.set_dm DwarfCfa.set_operands DwarfCfa.set_start DwarfCfa.set_locs] in L2.
    assert (DwarfCfa.cursor s + (k + l) < 2 ^ 64) by (unfold DwarfCfa.cursor, d1 in *; cbn in L2; lia).
    assert (u64 (cur_offset (moved l d1) - cur_offset (DwarfCfa.dm s)) = k + l) as ->.
    { unfold d1. cbn [moved cur_offset set_cur_offset]. rewrite uwrap_small; [lia|]. unfold in_u, DwarfCfa.cursor in *. lia. }
    destruct (raw_lines_ok (Z.to_nat (k + l)) 0 [] (str "Raw Data:") (DwarfCfa.dm s)) as (ls & raw & ->); rewrite ?Z2Nat.id by lia;
      [done|done|by apply readable_app|].
    rewrite !bind_Ok. do 2 eexists. split; [unfold d1; rewrite moved_moved; reflexivity|]. split; [|split].
    + eapply handle_pc; try done. by rewrite L5, Hpc.
    + by apply pc_effect_range.
    + exists (k + l). split; [lia|]. split; [done|]. apply moved_moved.
Qed.

(** *** A function *)

(** The instructions the interpreter executes for the pc [p], none of which has an expression. *)
Inductive plain_run (p e : Z) : DwarfCfa.t -> DwarfCfa.t -> Prop :=
| run_past s : p < DwarfCfa.cur_pc s -> plain_run p e s s
| run_end s : e <= DwarfCfa.cursor s -> plain_run p e s s
| run_step s s1 s2 :
    DwarfCfa.cur_pc s <= p -> DwarfCfa.cursor s < e -> plain s -> DwarfCfa.instruction fde cie s = Ok (true, s1) ->
    plain_run p e s1 s2 -> plain_run p e s s2.
End Instruction.

(** *** Expressions *)

Definition op_row_ok (o : option DwarfOp.OpCallback) : bool :=
  from_option (fun op => forallb (fun e => bool_decide (e ∈ plain_encodings)) (DwarfOp.op_operands op)) true o.

Lemma op_rows_ok i op :
  DwarfOp.kCallbackTable !! i = Some (Some op) -> Forall (fun e => e ∈ plain_encodings) (DwarfOp.op_operands op).
Proof.
  intros H. assert (forallb op_row_ok DwarfOp.kCallbackTable = true) as HT by (vm_compute; reflexivity).
  pose proof (forallb_lookup _ _ _ _ HT H) as HL. cbn in HL. apply Forall_forall. intros e He.
  rewrite List.forallb_forall in HL. apply list_elem_of_In in He. by apply HL, bool_decide_eq_true in He.
Qed.

Lemma op_operands_advances n : forall es str0, Forall (fun e => e ∈ plain_encodings) es -> advances 0 (op_operands n es str0).
Proof.
  induction n as [|n IH]; intros es str0 H; cbn [op_operands]; [apply advances_rret|].
  apply (advances_rbind 0 0); [| |lia|lia].
  - apply ReadEncodedValue_advances. destruct H; [by left|done].
  - intros v. apply IH. by destruct H.
Qed.

Lemma log_op_moves d x d' :
  tame (memory_ d) -> in_u 64 (cur_offset d) -> log_op d = Ok (Some x, d') ->
  exists k, 1 <= k /\ cur_offset d + k < 2 ^ 64 /\ d' = moved k d.
Proof.
  intros Ht Hc H. apply rbind_Some in H as (b & d1 & HB & H).
  destruct (ReadBytes_advances 1 ltac:(lia) _ _ _ Ht Hc HB) as (k & K1 & K2 & K3 & -> & K4).
  cbv zeta in H. destruct (DwarfOp.kCallbackTable !! Z.to_nat (le_val b)) as [[op|]|] eqn:EO; [|injection H as <- <-; by exists k|done].
  assert (in_u 64 (cur_offset (moved k d))) as Hc1 by (unfold in_u in *; cbn; lia).
  apply rbind_Some in H as (ls & d2 & H1 & H).
  destruct (op_operands_advances _ _ _ (op_rows_ok _ _ EO) (moved k d) _ _ Ht Hc1 H1) as (l & L1 & L2 & L3 & -> & L4).
  apply rbind_Some in H as (raw & d3 & H2 & H). injection H as <- <-.
  assert (set_cur_offset (cur_offset (moved k d)) (moved l (moved k d)) = moved k d) as E by (by destruct d). rewrite E in H2.
  assert (cur_offset (moved l (moved k d)) - cur_offset (moved k d) = l) as E2 by (cbn; lia). rewrite E2 in H2.
  destruct (raw_bytes_ok (Z.to_nat l) (str "Raw Data: 0x" ++ hex0 2 (le_val b)) (moved k d)) as [raw' E3];
    rewrite ?Z2Nat.id in * by lia; [done|done|done|]. rewrite E3 in H2. injection H2 as <- <-.
  exists (k + l). cbn in L3. split_and!; [lia|lia|]. unfold moved, set_cur_offset. cbn. f_equal. lia.
Qed.

Definition no_fuel {A} (m : reader A) : Prop := forall d, m d <> Fault OutOfFuel.

Lemma faults_no_fuel {A} (m : reader A) : SectionFacts.reader_faults m -> no_fuel m.
Proof. intros H d E. by apply H in E as []. Qed.

Lemma rbind_no_fuel {A B} (m : reader A) (f : A -> reader B) : no_fuel m -> (forall a, no_fuel (f a)) -> no_fuel (rbind m f).
Proof. intros Hm Hf d. unfold rbind. specialize (Hm d). destruct (m d) as [[[a|] d']|e]; cbn; [apply Hf|done|congruence]. Qed.

Lemma log_op_faults : no_fuel log_op.
Proof.
  assert (forall n raw, no_fuel (raw_bytes n raw)) as HR.
  { induction n as [|n IH]; intros raw; [done|]. apply rbind_no_fuel; [apply faults_no_fuel, SectionFacts.ReadBytes_faults|intros; apply IH]. }
  assert (forall n es raw, no_fuel (op_operands n es raw)) as HO.
  { induction n as [|n IH]; intros es raw; [done|]. apply rbind_no_fuel; [apply faults_no_fuel, SectionFacts.ReadEncodedValue_faults|intros; apply IH]. }
  apply rbind_no_fuel; [apply faults_no_fuel, SectionFacts.ReadBytes_faults|]. intros b d. cbv zeta.
  destruct (DwarfOp.kCallbackTable !! Z.to_nat (le_val b)) as [[op|]|]; [|done|done].
  apply rbind_no_fuel; [apply HO|]. intros ls d2. apply rbind_no_fuel; [apply HR|done].
Qed.

(** The dump of an expression ends. *)
Lemma op_lines_total fuel : forall e lines d,
  tame (memory_ d) -> in_u 64 (cur_offset d) -> (Z.to_nat (e - cur_offset d) <= fuel)%nat -> op_lines fuel e lines d <> Fault OutOfFuel.
Proof.
  induction fuel as [|fuel IH]; intros e lines d Ht Hc Hf; cbn [op_lines]; (destruct (Z.ltb_spec (cur_offset d) e); [|done]); [lia|].
  pose proof (log_op_faults d) as HF. destruct (log_op d) as [[[[a b]|] d']|f] eqn:E; cbn; [|done|congruence].
  destruct (log_op_moves d _ _ Ht Hc E) as (k & K1 & K2 & ->). apply IH; [done| |].
  - unfold in_u in *. cbn. lia.
  - cbn. lia.
Qed.
End WithAddress.

(** The dump of an expression always ends: [GetLogInfo] needs at most one round per byte between
    its bounds, whatever the bytes are. *)
Theorem log_info_terminates {AT : AddressType} fuel start e d :
  tame (memory_ d) -> in_u 64 start -> (Z.to_nat (e - start) <= fuel)%nat -> GetLogInfo fuel start e d <> Fault OutOfFuel.
Proof. intros Ht Hs Hf. by apply op_lines_total. Qed.

Lemma aw64 z : in_u 64 z -> aw (AT := Addr64) z = z.
Proof. intros H. by apply uwrap_small. Qed.

Lemma run_logged fde cie p e ops indent bias s s' :
  code_alignment_factor (fde_cie fde) = 1 -> plain_run (AT := Addr64) fde cie p e s s' ->
  tame (memory_ (DwarfCfa.dm s)) -> in_u 64 (DwarfCfa.cursor s) -> in_u 64 (DwarfCfa.cur_pc s) ->
  forall fuel lines, (Z.to_nat (e - DwarfCfa.cursor s) < fuel)%nat ->
  exists s'' lines', DwarfCfa.location_loop (AT := Addr64) fde cie fuel p e s = Ok (Some (true, s'')) /\ DwarfCfa.dm s'' = DwarfCfa.dm s' /\
    log_loop (AT := Addr64) fde fuel ops indent p bias e lines (DwarfCfa.cur_pc s) (DwarfCfa.dm s) = Ok (true, lines', DwarfCfa.dm s').
Proof.
  intros H1 HR. induction HR as [s Hp|s He|s s1 s2 Hp He Hpl HI HR IH]; intros Ht Hc Hpc fuel lines Hf;
    (destruct fuel as [|fuel]; [lia|]); cbn [DwarfCfa.location_loop log_loop].
  - destruct (Z.ltb_spec p (DwarfCfa.cur_pc s)); [|lia]. destruct (Z.leb_spec (DwarfCfa.cur_pc s) p); [lia|]. rewrite andb_false_r.
    by do 2 eexists.
  - fold (DwarfCfa.cursor s). destruct (Z.ltb_spec (DwarfCfa.cursor s) e); [lia|]. cbn [andb].
    destruct (p <? DwarfCfa.cur_pc s); [by do 2 eexists|]. destruct (Z.leb_spec e (DwarfCfa.cursor s)); [|lia]. by do 2 eexists.
  - fold (DwarfCfa.cursor s). destruct (Z.ltb_spec p (DwarfCfa.cur_pc s)); [lia|]. destruct (Z.leb_spec e (DwarfCfa.cursor s)); [lia|].
    destruct (Z.ltb_spec (DwarfCfa.cursor s) e); [|lia]. destruct (Z.leb_spec (DwarfCfa.cur_pc s) p); [|lia]. cbn [andb].
    destruct (instruction_logged (AT := Addr64) fde cie H1 s s1 ops indent bias (DwarfCfa.cur_pc s) Ht Hc Hpl) as (ls & pc' & -> & Hpc' & HU & k & K1 & K2 & K3);
      [by rewrite aw64|done|].
    specialize (HU Hpc). rewrite (aw64 pc' HU) in Hpc'. rewrite HI, !bind_Ok. cbn [fst snd negb].
    assert (DwarfCfa.cursor s1 = DwarfCfa.cursor s + k) as Hcur by (unfold DwarfCfa.cursor; by rewrite K3).
    destruct (IH) with (fuel := fuel) (lines := lines ++ ls) as (s'' & lines' & E1 & E2 & E3).
    + by rewrite K3.
    + rewrite Hcur. unfold in_u in *. lia.
    + by rewrite Hpc'.
    + lia.
    + exists s'', lines'. rewrite Hpc' in E3. done.
Qed.

End LogFacts.

(** ** Witnesses and concrete dumps *)

Module LogExamples.
Import DwarfMemory DwarfLog LogFacts.

Lemma buffer_tame bs : bytes_ok bs -> blen bs < 2 ^ 64 -> tame (buffer bs).
Proof.
  intros Hb Hl a n d Ha Hn H. unfold ReadFully, buffer in *. destruct (Z.eqb_spec (blen (slice a n bs)) n) as [E|]; [|done].
  injection H as <-. unfold in_u in Ha. unfold slice, blen in *. rewrite length_take, length_drop in E.
  split_and!.
  - by apply Forall_take, Forall_drop.
  - lia.
  - intros i Hi. destruct (lookup_lt_is_Some_2 bs (Z.to_nat (a + i))) as [b Hbi]; [lia|]. exists b.
    rewrite (drop_S _ _ _ Hbi). done.
Qed.

(** def_cfa r7 8; offset r16 -8; advance_loc 4; def_cfa_offset 16; nop. *)
Definition program : list Z := [12; 7; 8; 144; 1; 68; 14; 16; 0].


(** def of an expression: a constant, an unknown operation, and one whose operand is missing. *)
Lemma log_info_terminates_witness :
  GetLogInfo (AT := Addr64) 7 0 7 (new (buffer [10; 1; 2; 0; 18; 12; 1])) <> Fault OutOfFuel.
Proof.
  apply (log_info_terminates (AT := Addr64)); [|by split|cbn; lia]. apply buffer_tame; [|done]. repeat constructor; lia.
Defined.

Definition text (r : outcome (bool * list (list Z) * t)) : option (bool * list (list Z)) :=
  match r with Ok (b, ls, _) => Some (b, ls) | Fault _ => None end.

Example dump_text :
  text (Log (AT := Addr64) DwarfCfa.sample_fde 20 1 (2 ^ 64 - 1) 4096 0 9 (new (buffer program))) =
    Some (true, str <$> ["  DW_CFA_def_cfa register(7) 8"%string; "  Raw Data: 0x0c 0x07 0x08"%string;
      "  DW_CFA_offset register(16) 1"%string; "  Raw Data: 0x90 0x01"%string;
      "  DW_CFA_advance_loc 4"%string; "  Raw Data: 0x44"%string; "  "%string; "  PC 0x1004"%string;
      "  DW_CFA_def_cfa_offset 16"%string; "  Raw Data: 0x0e 0x10"%string;
      "  DW_CFA_nop"%string; "  Raw Data: 0x00"%string]).
Proof. vm_compute. reflexivity. Qed.

Example dump_expression :
  text (Log (AT := Addr64) DwarfCfa.sample_fde 20 0 (2 ^ 64 - 1) 0 0 6 (new (buffer [15; 4; 10; 1; 2; 6]))) =
    Some (true, str <$> ["DW_CFA_def_cfa_expression 4"%string; "Raw Data: 0x0f 0x04 0x0a 0x01 0x02 0x06"%string;
      "  DW_OP_const2u 513"%string; "  Raw Data: 0x0a 0x01 0x02"%string; "  DW_OP_deref"%string; "  Raw Data: 0x06"%string]).
Proof. vm_compute. reflexivity. Qed.

(** With a code alignment factor of 4, DW_CFA_advance_loc1 1 moves the pc of the interpreter by 4 and
    that of the dump by 1; the short form of the same instruction moves both by 4. *)
Definition scaled_fde : DwarfFde := mkFde 0 0 0 0 100 0 (mkCie 1 0 255 0 [0] 0 0 0 4 (-8) 16).

Example advance_not_scaled :
  text (Log (AT := Addr64) scaled_fde 20 0 (2 ^ 64 - 1) 0 0 2 (new (buffer [2; 1]))) =
    Some (true, str <$> ["DW_CFA_advance_loc1 1"%string; "Raw Data: 0x02 0x01"%string; EmptyString; "PC 0x1"%string]) /\
  text (Log (AT := Addr64) scaled_fde 20 0 (2 ^ 64 - 1) 0 0 1 (new (buffer [65]))) =
    Some (true, str <$> ["DW_CFA_advance_loc 1"%string; "Raw Data: 0x41"%string; EmptyString; "PC 0x4"%string]) /\
  (r ← DwarfCfa.GetLocationInfo (AT := Addr64) scaled_fde None 20 50 0 2 (DwarfCfa.machine [2; 1]); Ok (option_map (fun x => DwarfCfa.cur_pc x.2) r)) = Ok (Some 4).
Proof. split_and!; vm_compute; reflexivity. Qed.

(** The block length that stops the interpreter from returning sends the dump back to its own
    instruction as well. *)
Lemma dump_hangs fuel : Log (AT := Addr64) DwarfCfa.sample_fde fuel 0 (2 ^ 64 - 1) 0 0 11 (new (buffer DwarfCfa.looping)) = Fault OutOfFuel.
Proof.
  unfold Log. generalize fuel at 2. intros ops. change (set_cur_offset 0 (new ?m)) with (new m). generalize (@nil (list Z)).
  change (fde_pc_start DwarfCfa.sample_fde) with 0. induction fuel as [|fuel IH]; intros lines; [done|]. cbn [log_loop].
  change ((cur_offset (new (buffer DwarfCfa.looping)) <? 11) && (0 <=? 2 ^ 64 - 1)) with true. cbv iota.
  assert (exists ls, log_instruction (AT := Addr64) DwarfCfa.sample_fde ops 0 0 0 (new (buffer DwarfCfa.looping)) =
    Ok (true, ls, 0, new (buffer DwarfCfa.looping))) as [ls ->] by (eexists; destruct ops; reflexivity).
  rewrite bind_Ok. apply IH.
Qed.
End LogExamples.
