(* ===== verification/UwDwarfFormat.v ===== *)
(** * libunwindstack: the format of .eh_frame

    Proof support and theorems for UwDwarfSection: encoders for CIEs, FDEs and whole
    .eh_frame sections, and that the code reads back what they say.

    [parses c bs m a] is the working notion: started at the cursor [c] on a memory that
    holds the bytes [bs] there, the operation [m] returns [a], leaves the cursor behind
    [bs] and changes nothing else.  It composes over the bind of operations, so that the
    theorems follow the shape of the code. *)

From S2P Require Import Prelude UwDwarfMemory UwDwarfOp UwDwarfCfa UwDwarfEval UwDwarfSection.

Module Format.
Import DwarfSectionImpl.

(** The memory holds [bs] from address [a] on, and any part of it can be read. *)
Record stored (m : Memory) (a : Z) (bs : list Z) : Prop := {
  st_start : 0 <= a;
  st_end : a + blen bs < 2 ^ 64;
  st_read i n : 0 <= i -> 0 <= n -> i + n <= blen bs -> m (a + i) n = slice i n bs
}.

Lemma slice_app_l i n (x y : list Z) : 0 <= i -> 0 <= n -> i + n <= blen x -> slice i n (x ++ y) = slice i n x.
Proof.
  intros Hi Hn Hl. unfold slice, blen in *. rewrite drop_app_le by lia. rewrite take_app_le; [done|].
  rewrite length_drop. lia.
Qed.

Lemma slice_app_r i n (x y : list Z) : 0 <= i -> slice (blen x + i) n (x ++ y) = slice i n y.
Proof.
  intros Hi. unfold slice, blen. rewrite drop_app_ge by lia. do 2 f_equal. lia.
Qed.

Lemma stored_app m a x y : stored m a (x ++ y) <-> stored m a x /\ stored m (a + blen x) y /\
  (forall i n, 0 <= i -> 0 <= n -> i + n <= blen (x ++ y) -> m (a + i) n = slice i n (x ++ y)).
Proof.
  rewrite blen_app. pose proof (blen_nonneg x). pose proof (blen_nonneg y). split.
  - intros [H1 H2 H3]. rewrite blen_app in *. split_and!; [split; [lia..|]|split; [lia..|]|done].
    + intros i n Hi Hn Hl. rewrite H3 by lia. by rewrite slice_app_l by lia.
    + intros i n Hi Hn Hl. rewrite <- Z.add_assoc, H3 by lia. by rewrite slice_app_r by lia.
  - intros ([A1 A2 A3] & [B1 B2 B3] & HR). split; rewrite ?blen_app; [lia|lia|done].
Qed.

Lemma stored_prefix m a x y : stored m a (x ++ y) -> stored m a x.
Proof. by intros (H & _)%stored_app. Qed.

Lemma stored_suffix m a x y : stored m a (x ++ y) -> stored m (a + blen x) y.
Proof. by intros (_ & H & _)%stored_app. Qed.

Lemma stored_all m a bs : stored m a bs -> ReadFully m a (blen bs) = Some bs.
Proof.
  intros [H1 H2 H3]. unfold ReadFully. pose proof (blen_nonneg bs).
  rewrite <- (Z.add_0_r a), H3 by lia. unfold slice, blen. rewrite drop_0, Nat2Z.id, take_ge by lia.
  by rewrite Z.eqb_refl.
Qed.

(** A buffer holds its contents, and any part of them. *)
Lemma stored_buffer pre bs post :
  blen (pre ++ bs ++ post) < 2 ^ 64 -> stored (DwarfMemory.buffer (pre ++ bs ++ post)) (blen pre) bs.
Proof.
  intros Hl. rewrite !blen_app in Hl. pose proof (blen_nonneg pre). pose proof (blen_nonneg post).
  split; [lia|lia|]. intros i n Hi Hn Hle. unfold DwarfMemory.buffer.
  rewrite slice_app_r by lia. by rewrite slice_app_l by lia.
Qed.

(** ** Parsing *)

Definition raw (s : t) : Memory := DwarfMemory.memory_ (memory_ s).
Definition cursor (s : t) : Z := DwarfMemory.cur_offset (memory_ s).
Definition move_to (c : Z) (s : t) : t := set_memory (DwarfMemory.set_cur_offset c (memory_ s)) s.

Definition parses {A} (c : Z) (bs : list Z) (m : op A) (a : A) : Prop :=
  forall s, cursor s = c -> stored (raw s) c bs -> m s = Ok (Some a, move_to (c + blen bs) s).

Lemma move_to_move c c' s : move_to c (move_to c' s) = move_to c s.
Proof. done. Qed.

Lemma move_to_here s : move_to (cursor s) s = s.
Proof. by destruct s as [[[] ] ]. Qed.

Lemma parses_bind {A B} c x y (m : op A) (k : A -> op B) a b :
  parses c x m a -> parses (c + blen x) y (k a) b -> parses c (x ++ y) (m ≫= k) b.
Proof.
  intros Hm Hk s Hc Hs. unfold mbind, op_bind. rewrite (Hm s Hc) by by eapply stored_prefix.
  rewrite (Hk (move_to (c + blen x) s)); [|done|by eapply stored_suffix].
  rewrite move_to_move, blen_app, Z.add_assoc. done.
Qed.

(** The bind when the rest of the operation consumes nothing more. *)
Lemma parses_bind_l {A B} c x (m : op A) (k : A -> op B) a b :
  parses c x m a -> parses (c + blen x) [] (k a) b -> parses c x (m ≫= k) b.
Proof. intros Hm Hk. rewrite <- (app_nil_r x). by eapply parses_bind. Qed.

Lemma parses_bind_r {A B} c y (m : op A) (k : A -> op B) a b :
  parses c [] m a -> parses c y (k a) b -> parses c y (m ≫= k) b.
Proof.
  intros Hm Hk. change y with ([] ++ y). eapply parses_bind; [done|]. by rewrite blen_nil, Z.add_0_r.
Qed.

Lemma parses_ret {A} c (a : A) : parses c [] (mret a) a.
Proof. intros s <- _. rewrite blen_nil, Z.add_0_r, move_to_here. done. Qed.

Lemma parses_cur c : parses c [] cur_offset c.
Proof. intros s <- _. rewrite blen_nil, Z.add_0_r, move_to_here. done. Qed.

(** A reader on the cursor. *)
Definition reads {A} (c : Z) (bs : list Z) (m : DwarfMemory.reader A) (a : A) : Prop :=
  forall d, DwarfMemory.cur_offset d = c -> stored (DwarfMemory.memory_ d) c bs ->
    m d = Ok (Some a, DwarfMemory.set_cur_offset (c + blen bs) d).

Lemma parses_read {A} c bs (m : DwarfMemory.reader A) a : reads c bs m a -> parses c bs (read m) a.
Proof. intros H s Hc Hs. unfold read. by rewrite (H (memory_ s)). Qed.

Lemma reads_bytes c bs n : n = blen bs -> reads c bs (DwarfMemory.ReadBytes n) bs.
Proof.
  intros -> d <- Hs. unfold DwarfMemory.ReadBytes. rewrite (stored_all _ _ _ Hs).
  destruct Hs as [H1 H2 _]. pose proof (blen_nonneg bs). by rewrite uwrap_small by (unfold in_u; lia).
Qed.

Lemma reads_rbind {A B} c x y (m : DwarfMemory.reader A) (k : A -> DwarfMemory.reader B) a b :
  reads c x m a -> reads (c + blen x) y (k a) b -> reads c (x ++ y) (DwarfMemory.rbind m k) b.
Proof.
  intros Hm Hk d Hc Hs. unfold DwarfMemory.rbind. rewrite (Hm d Hc) by by eapply stored_prefix.
  rewrite bind_Ok, (Hk (DwarfMemory.set_cur_offset (c + blen x) d)); [|done|by eapply stored_suffix].
  rewrite blen_app, Z.add_assoc. done.
Qed.

Lemma reads_ret {A} c (a : A) : reads c [] (DwarfMemory.rret a) a.
Proof. intros d <- _. rewrite blen_nil, Z.add_0_r. unfold DwarfMemory.rret. by destruct d. Qed.

Lemma reads_map {A B} c bs (m : DwarfMemory.reader A) (f : A -> B) a :
  reads c bs m a -> reads c bs (DwarfMemory.rbind m (fun x => DwarfMemory.rret (f x))) (f a).
Proof. intros H. rewrite <- (app_nil_r bs). eapply reads_rbind; [done|apply reads_ret]. Qed.

Lemma reads_unsigned c n v :
  reads c (le_bytes n v) (DwarfMemory.ReadUnsigned (Z.of_nat n)) (v mod 2 ^ (8 * Z.of_nat n)).
Proof.
  rewrite <- le_val_bytes. apply (reads_map c _ _ le_val). apply reads_bytes. by rewrite blen_le_bytes.
Qed.

Lemma reads_signed c n v :
  reads c (le_bytes n v) (DwarfMemory.ReadSigned (Z.of_nat n))
    (u64 (swrap (8 * Z.of_nat n) (v mod 2 ^ (8 * Z.of_nat n)))).
Proof.
  rewrite <- le_val_bytes. apply (reads_map c _ _ (fun bs => u64 (swrap _ (le_val bs)))).
  apply reads_bytes. by rewrite blen_le_bytes.
Qed.

Lemma parses_u c n v : 0 <= v < 2 ^ (8 * Z.of_nat n) -> parses c (le_bytes n v) (read_u (Z.of_nat n)) v.
Proof. intros Hv. apply parses_read. rewrite <- (Z.mod_small v (2 ^ (8 * Z.of_nat n))) at 2 by done. apply reads_unsigned. Qed.

Lemma parses_byte c b : parses c [b] (read_u 1) b.
Proof.
  apply parses_read. intros d Hc Hs. unfold DwarfMemory.ReadUnsigned.
  rewrite (reads_map c [b] _ le_val [b] (reads_bytes c [b] 1 eq_refl) d Hc Hs). cbn. by rewrite Z.mul_0_r, Z.add_0_r.
Qed.
End Format.

(** ** Numbers and strings *)

Module Pieces.
Import DwarfSectionImpl Format.

Lemma stored_holds d bs :
  stored (DwarfMemory.memory_ d) (DwarfMemory.cur_offset d) bs -> DwarfMemory.holds d bs.
Proof.
  intros [H1 H2 H3] i b Hi. pose proof (lookup_lt_Some _ _ _ Hi) as Hl.
  rewrite uwrap_small by (unfold in_u, blen in *; lia). rewrite H3 by (unfold blen; lia).
  unfold slice. rewrite Nat2Z.id. apply drop_S in Hi. by rewrite Hi.
Qed.

Lemma blen_leb n v : blen (DwarfMemory.leb_bytes n v) = Z.of_nat (S n).
Proof. unfold blen. by rewrite DwarfMemory.length_leb_bytes. Qed.

(** An unsigned number in at most ten bytes, and a signed one in at most nine. *)
Record uleb (v : Z) (bs : list Z) : Prop := {
  ul_n : nat; ul_bytes : bs = DwarfMemory.leb_bytes ul_n v;
  ul_range : 0 <= v < 2 ^ (7 * (Z.of_nat ul_n + 1)); ul_64 : in_u 64 v; ul_short : (ul_n <= 9)%nat
}.
Record sleb (v : Z) (bs : list Z) : Prop := {
  sl_n : nat; sl_bytes : bs = DwarfMemory.leb_bytes sl_n v;
  sl_range : - 64 * 128 ^ Z.of_nat sl_n <= v < 64 * 128 ^ Z.of_nat sl_n;
  sl_64 : - 2 ^ 63 <= v < 2 ^ 63; sl_short : (sl_n <= 8)%nat
}.

Lemma uleb_nonempty v bs : uleb v bs -> 1 <= blen bs.
Proof. intros [n -> _ _ _]. rewrite blen_leb. lia. Qed.

Lemma reads_uleb c v bs : uleb v bs -> reads c bs DwarfMemory.ReadULEB128 v.
Proof.
  intros [n -> Hv Hu Hn] d <- Hs. pose proof (st_start _ _ _ Hs).
  pose proof (st_end _ _ _ Hs) as HE. rewrite blen_leb in HE.
  rewrite (DwarfMemory.read_uleb128_decodes d n v); try done.
  - by rewrite blen_leb, uwrap_small by (unfold in_u; lia).
  - unfold in_u. lia.
  - by apply stored_holds.
Qed.

Lemma reads_sleb c v bs : sleb v bs -> reads c bs DwarfMemory.ReadSLEB128 v.
Proof.
  intros [n -> Hv Hu Hn] d <- Hs. pose proof (st_start _ _ _ Hs).
  pose proof (st_end _ _ _ Hs) as HE. rewrite blen_leb in HE.
  rewrite (DwarfMemory.read_sleb128_decodes d n v); try done.
  - rewrite bool_decide_eq_false_2 by lia. by rewrite blen_leb, uwrap_small by (unfold in_u; lia).
  - unfold in_u. lia.
  - lia.
  - by apply stored_holds.
Qed.

(** Skipping a LEB128 number of at most eleven bytes. *)
Lemma parses_skip_leb c n v fuel : (n < fuel)%nat -> parses c (DwarfMemory.leb_bytes n v) (skip_leb fuel) ().
Proof.
  revert c v fuel. induction n as [|n IH]; intros c v fuel Hf; (destruct fuel as [|fuel]; [lia|]);
    cbn [skip_leb DwarfMemory.leb_bytes]; pose proof (Z.mod_pos_bound v 128 ltac:(lia)).
  - eapply parses_bind_l; [apply parses_byte|]. rewrite DwarfMemory.land_128_clear by done. apply parses_ret.
  - change (?b :: ?l) with ([b] ++ l). eapply parses_bind; [apply parses_byte|].
    destruct (Z.eqb_spec (Z.land (v mod 128 + 128) 128) 0) as [E|_]; [by apply DwarfMemory.land_128_set in E|].
    apply IH. lia.
Qed.

(** The augmentation string and its terminator. *)
Lemma parses_augmentation c aug acc fuel :
  0 ∉ aug -> (length aug < fuel)%nat ->
  parses c (aug ++ [0]) (read_augmentation fuel acc) (acc ++ aug ++ [0]).
Proof.
  revert c acc fuel. induction aug as [|b aug IH]; intros c acc fuel H0 Hf;
    (destruct fuel as [|fuel]; [cbn in Hf; lia|]); cbn [read_augmentation app].
  - eapply parses_bind_l; [apply parses_byte|]. apply parses_ret.
  - change (b :: aug ++ [0]) with ([b] ++ aug ++ [0]). eapply parses_bind; [apply parses_byte|].
    destruct (Z.eqb_spec b 0); [set_solver|]. rewrite app_assoc. apply IH; [set_solver|cbn in Hf; lia].
Qed.

(** The start of a 32-bit entry. *)
Lemma parses_entry c len id :
  0 <= c -> 0 <= len < 2 ^ 32 - 1 -> in_u 32 id -> c + 4 + len < 2 ^ 64 ->
  parses c (le_bytes 4 len ++ le_bytes 4 id) read_entry (false, c + 4 + len, id).
Proof.
  intros Hc Hlen Hid Hend. unfold read_entry.
  eapply parses_bind; [apply (parses_u c 4); change (8 * Z.of_nat 4) with 32; lia|].
  destruct (Z.eqb_spec len (2 ^ 32 - 1)); [lia|].
  eapply parses_bind_r; [apply parses_cur|]. eapply parses_bind_l; [by apply (parses_u _ 4)|].
  rewrite blen_le_bytes, uwrap_small by (unfold in_u; lia). apply parses_ret.
Qed.

Lemma parses_seek_1 c b : 0 <= c -> c + 1 < 2 ^ 64 -> parses c [b] (cur ← cur_offset; seek (u64 (cur + 1))) ().
Proof.
  intros Hc He s Hs _. unfold mbind, op_bind, cur_offset, seek, gets, modify.
  change (DwarfMemory.cur_offset (memory_ s)) with (cursor s). rewrite Hs, uwrap_small by (unfold in_u; lia). done.
Qed.
End Pieces.

(** ** CIEs *)

Module CieFormat.
Import DwarfSectionImpl Format Pieces.

(** What follows the z of an augmentation string: the encoding of the LSDA pointer, the
    address encoding, a personality routine given as four bytes, a signal frame. *)
Inductive aug_item : Type := AugL (encoding : Z) | AugR (encoding : Z) | AugP (handler : Z) | AugS.

Definition letter (a : aug_item) : Z :=
  match a with AugL _ => 76 | AugR _ => 82 | AugP _ => 80 | AugS => 83 end.

Definition item_bytes (a : aug_item) : list Z :=
  match a with
  | AugL e | AugR e => [e]
  | AugP v => DW_EH_PE_udata4 :: le_bytes 4 v
  | AugS => []
  end.

Definition item_ok (a : aug_item) : Prop := match a with AugP v => in_u 32 v | _ => True end.

(** The LSDA encoding, the address encoding and the personality handler. *)
Definition apply_item (r : Z * Z * Z) (a : aug_item) : Z * Z * Z :=
  let '(lsda, encoding, handler) := r in
  match a with
  | AugL e => (e, encoding, handler)
  | AugR e => (lsda, e, handler)
  | AugP v => (lsda, encoding, v)
  | AugS => r
  end.

Definition apply_items (items : list aug_item) (r : Z * Z * Z) : Z * Z * Z := fold_left apply_item items r.

(** A CIE with the encodings of its numbers: of any length, as the format allows. *)
Record cie_desc : Type := mkCieDesc {
  cd_version : Z;
  cd_items : option (list aug_item);        (* [None]: an empty augmentation string *)
  cd_address_size : Z;
  cd_segment : Z;                           (* version 4 *)
  cd_code : Z; cd_code_bytes : list Z;
  cd_data : Z; cd_data_bytes : list Z;
  cd_return : Z; cd_return_bytes : list Z;
  cd_aug_length : Z; cd_aug_length_bytes : list Z
}.

Record cie_ok (d : cie_desc) : Prop := {
  co_version : cd_version d = 1 \/ cd_version d = 3 \/ cd_version d = 4;
  co_items : forall items, cd_items d = Some items -> Forall item_ok items;
  co_code : uleb (cd_code d) (cd_code_bytes d);
  co_data : sleb (cd_data d) (cd_data_bytes d);
  co_return : if cd_version d =? 1 then cd_return_bytes d = [cd_return d] else uleb (cd_return d) (cd_return_bytes d);
  co_length : uleb (cd_aug_length d) (cd_aug_length_bytes d)
}.

Definition aug_string (d : cie_desc) : list Z :=
  match cd_items d with None => [] | Some items => 122 :: map letter items end.

Definition segment_bytes (d : cie_desc) : list Z :=
  if cd_version d =? 4 then [cd_address_size d; cd_segment d] else [].

(** The fixed part, up to the return address register, and the augmentation data. *)
Definition cie_fixed (d : cie_desc) : list Z :=
  [cd_version d] ++ (aug_string d ++ [0]) ++ segment_bytes d ++ cd_code_bytes d ++ cd_data_bytes d
  ++ cd_return_bytes d.

Definition cie_aug (d : cie_desc) : list Z :=
  match cd_items d with
  | None => []
  | Some items => cd_aug_length_bytes d ++ concat (map item_bytes items)
  end.

(** The bytes of a CIE, up to its instructions; [len] is the length of the entry. *)
Definition cie_bytes (len : Z) (d : cie_desc) : list Z :=
  (le_bytes 4 len ++ le_bytes 4 0) ++ cie_fixed d ++ cie_aug d.

(** The [DwarfCie] of a CIE at address [c]. *)
Definition cie_at (c len : Z) (d : cie_desc) : DwarfCie :=
  let fixed_end := c + 8 + blen (cie_fixed d) in
  let '(lsda, encoding, handler) :=
    apply_items (default [] (cd_items d)) (DW_EH_PE_omit, DW_EH_PE_sdata4, 0) in
  let instructions :=
    match cd_items d with
    | None => fixed_end
    | Some _ => u64 (fixed_end + blen (cd_aug_length_bytes d) + cd_aug_length d)
    end in
  mkCie (cd_version d) encoding lsda (if cd_version d =? 4 then cd_segment d else 0)
    (aug_string d ++ [0]) handler instructions (c + 4 + len) (cd_code d) (cd_data d) (cd_return d).

Lemma cons_app (b : Z) l : b :: l = [b] ++ l.
Proof. done. Qed.

Lemma parses_eq {A} c bs (m : op A) a a' : a = a' -> parses c bs m a -> parses c bs m a'.
Proof. by intros ->. Qed.

Lemma parses_personality {AT : AddressType} c v :
  in_u 32 v -> parses c (le_bytes 4 v) (read (DwarfMemory.ReadEncodedValue DW_EH_PE_udata4)) v.
Proof.
  intros Hv. apply parses_read. intros d Hc Hs. unfold DwarfMemory.ReadEncodedValue.
  change (DW_EH_PE_udata4 =? DW_EH_PE_omit) with false. change (DW_EH_PE_udata4 =? DW_EH_PE_aligned) with false.
  cbv iota. change (DwarfMemory.read_encoded_data DW_EH_PE_udata4) with (DwarfMemory.ReadUnsigned (Z.of_nat 4)).
  unfold DwarfMemory.rbind at 1. rewrite (reads_unsigned c 4 v d Hc Hs), bind_Ok.
  change (8 * Z.of_nat 4) with 32. rewrite Z.mod_small by done. done.
Qed.

Lemma parses_items {AT : AddressType} c items lsda encoding handler :
  Forall item_ok items ->
  parses c (concat (map item_bytes items)) (augmentation_data (map letter items ++ [0]) lsda encoding handler)
    (apply_items items (lsda, encoding, handler)).
Proof.
  intros Hok. revert c lsda encoding handler. induction Hok as [|a items Ha _ IH]; intros; [apply parses_ret|].
  destruct a; cbn [map letter app augmentation_data item_bytes concat Z.eqb Pos.eqb].
  - rewrite cons_app. eapply parses_bind; [apply parses_byte|]. apply IH.
  - rewrite cons_app. eapply parses_bind; [apply parses_byte|]. apply IH.
  - rewrite cons_app. eapply parses_bind; [apply parses_byte|].
    eapply parses_bind; [by apply parses_personality|]. apply IH.
  - apply IH.
Qed.

Lemma letters_no_nul items : 0 ∉ map letter items.
Proof.
  intros Hin. apply list_elem_of_fmap in Hin as ([] & ? & _); done.
Qed.

Lemma aug_string_no_nul d : 0 ∉ aug_string d.
Proof.
  unfold aug_string. destruct (cd_items d) as [items|]; [|set_solver].
  pose proof (letters_no_nul items). set_solver.
Qed.

Lemma parses_segment c d :
  0 <= c -> c + 1 < 2 ^ 64 ->
  parses c (segment_bytes d) (read_segment_size (cd_version d)) (if cd_version d =? 4 then cd_segment d else 0).
Proof.
  intros Hc He. unfold segment_bytes, read_segment_size. destruct (cd_version d =? 4); [|apply parses_ret].
  rewrite cons_app.
  change (parses c ([cd_address_size d] ++ [cd_segment d])
    ((cur ← cur_offset; seek (u64 (cur + 1))) ≫= fun _ => read_u 1) (cd_segment d)).
  eapply parses_bind; [by apply parses_seek_1|apply parses_byte].
Qed.

Lemma parses_return c d :
  cie_ok d ->
  parses c (cd_return_bytes d)
    (if cd_version d =? 1 then read_u 1 else read DwarfMemory.ReadULEB128) (cd_return d).
Proof.
  intros H. pose proof (co_return d H) as HR. destruct (cd_version d =? 1).
  - rewrite HR. apply parses_byte.
  - apply parses_read. by apply reads_uleb.
Qed.

(** After the fixed part: the instructions, or the augmentation data. *)
Lemma parses_cie_rest {AT : AddressType} c d (k : Z -> Z -> Z -> Z -> DwarfCie) :
  cie_ok d ->
  parses c (cie_aug d)
    (if negb (hd 0 (aug_string d ++ [0]) =? 122) then
       cur ← cur_offset; mret (k cur DW_EH_PE_omit DW_EH_PE_sdata4 0)
     else
       aug_length ← read DwarfMemory.ReadULEB128;
       cur ← cur_offset;
       '(lsda, encoding, handler) ←
         augmentation_data (tail (aug_string d ++ [0])) DW_EH_PE_omit DW_EH_PE_sdata4 0;
       mret (k (u64 (cur + aug_length)) lsda encoding handler))
    (let '(lsda, encoding, handler) :=
       apply_items (default [] (cd_items d)) (DW_EH_PE_omit, DW_EH_PE_sdata4, 0) in
     k (match cd_items d with
        | None => c
        | Some _ => u64 (c + blen (cd_aug_length_bytes d) + cd_aug_length d)
        end) lsda encoding handler).
Proof.
  intros H. pose proof (co_items d H) as HI. unfold cie_aug, aug_string. destruct (cd_items d) as [items|].
  - cbn [app hd tail]. change (122 =? 122) with true. cbn [negb].
    eapply parses_bind; [apply parses_read, reads_uleb, H|].
    eapply parses_bind_r; [apply parses_cur|].
    eapply parses_bind_l; [apply parses_items; by apply HI|].
    cbn [from_option]. unfold id. destruct (apply_items _ _) as [[lsda encoding] handler]. apply parses_ret.
  - cbn [app hd]. change (0 =? 122) with false. cbn [negb].
    eapply parses_bind_r; [apply parses_cur|]. apply parses_ret.
Qed.

Lemma parses_cie {AT : AddressType} fuel c len d :
  cie_ok d -> 0 <= c -> 0 <= len < 2 ^ 32 - 1 -> c + 4 + len < 2 ^ 64 ->
  blen (cie_bytes len d) <= 4 + len -> (length (aug_string d) < fuel)%nat ->
  parses c (cie_bytes len d) (FillInCie fuel) (cie_at c len d).
Proof.
  intros H Hc Hlen He Hl Hf. unfold FillInCie, cie_bytes in *. rewrite !blen_app, !blen_le_bytes in Hl.
  pose proof (blen_nonneg (cie_aug d)) as Ha.
  eapply parses_bind; [apply parses_entry; [done|done|by vm_compute|done]|]. rewrite blen_app, !blen_le_bytes.
  cbv beta iota. change (negb (0 =? cie32_value)) with false. cbv iota.
  unfold cie_fixed in *. rewrite !blen_app in Hl.
  pose proof (blen_nonneg (aug_string d)). pose proof (blen_nonneg (segment_bytes d)).
  pose proof (uleb_nonempty _ _ (co_code d H)). pose proof (blen_nonneg (cd_data_bytes d)).
  pose proof (blen_nonneg (cd_return_bytes d)). rewrite !blen_cons, !blen_nil in Hl.
  rewrite <- !(app_assoc _ _ (cie_aug d)).
  eapply parses_bind; [apply parses_byte|].
  assert (negb (cd_version d =? 1) && negb (cd_version d =? 3) && negb (cd_version d =? 4) = false) as ->.
  { by destruct (co_version d H) as [-> | [-> | ->]]. }
  eapply parses_bind; [apply parses_augmentation; [apply aug_string_no_nul|done]|].
  eapply parses_bind; [apply parses_segment; rewrite ?blen_app, ?blen_cons, ?blen_nil; lia|].
  eapply parses_bind; [apply parses_read, reads_uleb, H|].
  eapply parses_bind; [apply parses_read, reads_sleb, H|].
  eapply parses_bind; [by apply parses_return|].
  match goal with |- parses ?p _ _ _ => set (q := p) end.
  eapply parses_eq; [|apply (parses_cie_rest q d (fun i lsda encoding handler =>
    mkCie (cd_version d) encoding lsda (if cd_version d =? 4 then cd_segment d else 0) ([] ++ aug_string d ++ [0])
      handler i (c + 4 + len) (cd_code d) (cd_data d) (cd_return d)) H)].
  unfold cie_at. destruct (apply_items _ _) as [[lsda encoding] handler].
  assert (q = c + 8 + blen (cie_fixed d)) as ->; [|by destruct (cd_items d)].
  unfold q, cie_fixed. rewrite !blen_app, !blen_cons, !blen_nil. lia.
Qed.
End CieFormat.

(** ** The scan over the entries *)

Module SectionFormat.
Import DwarfSectionImpl Format Pieces CieFormat.

Definition not_R (a : aug_item) : Prop := match a with AugR _ => False | _ => True end.

(** The address encoding of a CIE: the default, or the one given after an R. *)
Inductive has_encoding : Z -> option (list aug_item) -> Prop :=
| enc_none : has_encoding DW_EH_PE_sdata4 None
| enc_default items : Forall not_R items -> has_encoding DW_EH_PE_sdata4 (Some items)
| enc_R pre e post : Forall not_R pre -> Forall not_R post -> has_encoding e (Some (pre ++ AugR e :: post)).

Lemma apply_not_R items l e h : Forall not_R items -> (apply_items items (l, e, h)).1.2 = e.
Proof.
  intros H. revert l h. induction H as [|a items Ha _ IH]; intros l h; [done|].
  destruct a; [apply IH|done|apply IH|apply IH].
Qed.

Lemma has_encoding_apply e items l h :
  has_encoding e items -> (apply_items (default [] items) (l, DW_EH_PE_sdata4, h)).1.2 = e.
Proof.
  intros [|items' H|pre e' post H1 H2]; cbn [from_option]; unfold id; [done|by apply apply_not_R|].
  unfold apply_items. rewrite fold_left_app. cbn [fold_left].
  destruct (fold_left apply_item pre _) as [[l' e''] h']. by apply apply_not_R.
Qed.

(** The data before the R is skipped. *)
Lemma parses_find {AT : AddressType} c pre e post :
  Forall not_R pre -> Forall item_ok pre -> 0 <= c -> c + blen (concat (map item_bytes pre)) < 2 ^ 64 ->
  parses c (concat (map item_bytes pre) ++ [e]) (find_encoding (map letter (pre ++ AugR e :: post) ++ [0])) e.
Proof.
  intros Hn. revert c. induction Hn as [|a pre Ha _ IH]; intros c Hok Hc He;
    [cbn; apply parses_byte|].
  inversion Hok as [|? ? Hi Hok']; subst. pose proof (blen_nonneg (concat (map item_bytes pre))).
  cbn [map concat] in He. rewrite blen_app in He.
  destruct a; try done; cbn [map letter app find_encoding item_bytes concat Z.eqb Pos.eqb] in *.
  - rewrite cons_app.
    change (parses c ([encoding] ++ (concat (map item_bytes pre) ++ [e]))
      ((cur ← cur_offset; seek (u64 (cur + 1))) ≫= fun _ => find_encoding (map letter (pre ++ AugR e :: post) ++ [0])) e).
    rewrite blen_cons, blen_nil in He. eapply parses_bind; [apply parses_seek_1; lia|].
    apply IH; rewrite ?blen_cons, ?blen_nil; done || lia.
  - rewrite blen_cons, blen_le_bytes in He. rewrite cons_app, <- app_assoc.
    eapply parses_bind; [apply parses_byte|].
    eapply parses_bind; [by apply parses_personality|].
    apply IH; rewrite ?blen_cons, ?blen_nil, ?blen_le_bytes; done || lia.
  - rewrite blen_nil in He. apply IH; done || lia.
Qed.

Lemma parses_skip_uleb c fuel v bs : uleb v bs -> (10 < fuel)%nat -> parses c bs (skip_leb fuel) ().
Proof. intros [n -> _ _ Hn] Hf. apply parses_skip_leb. lia. Qed.

Lemma parses_skip_sleb c fuel v bs : sleb v bs -> (10 < fuel)%nat -> parses c bs (skip_leb fuel) ().
Proof. intros [n -> _ _ Hn] Hf. apply parses_skip_leb. lia. Qed.

Lemma parses_skip_return c fuel d :
  cie_ok d -> (10 < fuel)%nat -> 0 <= c -> c + 1 < 2 ^ 64 ->
  parses c (cd_return_bytes d)
    (if cd_version d =? 1 then cur ← cur_offset; seek (u64 (cur + 1)) else skip_leb fuel) ().
Proof.
  intros H Hf Hc He. pose proof (co_return d H) as HR. destruct (cd_version d =? 1).
  - rewrite HR. by apply parses_seek_1.
  - by eapply parses_skip_uleb.
Qed.

(** The letters contain an R exactly when the items do. *)
Lemma no_R_letter items : Forall not_R items -> 82 ∉ 122 :: map letter items ++ [0].
Proof.
  intros H Hin. apply elem_of_cons in Hin as [|Hin]; [done|]. apply elem_of_app in Hin as [Hin|Hin].
  - apply list_elem_of_fmap in Hin as (a & Ha & Hin). rewrite Forall_forall in H. by destruct a; try apply H in Hin.
  - by apply list_elem_of_singleton in Hin.
Qed.

Lemma R_letter pre e post : 82 ∈ 122 :: map letter (pre ++ AugR e :: post) ++ [0].
Proof. rewrite map_app. cbn. set_solver. Qed.

(** After the augmentation string: what is read up to the address encoding. *)
Lemma parses_address {AT : AddressType} fuel c d e :
  cie_ok d -> has_encoding e (cd_items d) -> 0 <= c -> (10 < fuel)%nat ->
  c + blen (cd_code_bytes d ++ cd_data_bytes d ++ cd_return_bytes d ++ cie_aug d) < 2 ^ 64 ->
  exists x y, cd_code_bytes d ++ cd_data_bytes d ++ cd_return_bytes d ++ cie_aug d = x ++ y /\
    parses c x (address_encoding fuel (cd_version d) (aug_string d ++ [0]) DW_EH_PE_sdata4) e.
Proof.
  intros H He Hc Hf Hend. pose proof (co_items d H) as HI. unfold address_encoding, aug_string, cie_aug in *.
  destruct He as [|items Hn|pre e post Hn Hn'].
  - exists [], (cd_code_bytes d ++ cd_data_bytes d ++ cd_return_bytes d ++ []). split; [done|]. apply parses_ret.
  - exists []. eexists. split; [done|]. cbn [app hd]. rewrite bool_decide_eq_false_2 by by apply no_R_letter.
    rewrite orb_true_r. apply parses_ret.
  - specialize (HI _ eq_refl). apply Forall_app in HI as [HI _].
    exists (cd_code_bytes d ++ cd_data_bytes d ++ cd_return_bytes d ++ cd_aug_length_bytes d ++
      (concat (map item_bytes pre) ++ [e])), (concat (map item_bytes post)).
    rewrite map_app, concat_app in *. cbn [map concat item_bytes] in *. split; [by rewrite <- !app_assoc|].
    cbn [app hd]. rewrite bool_decide_eq_true_2 by apply R_letter. change (122 =? 122) with true. cbn [negb orb tail].
    rewrite !blen_app, blen_cons, blen_nil in Hend. pose proof (uleb_nonempty _ _ (co_length d H)).
    pose proof (blen_nonneg (cd_code_bytes d)). pose proof (blen_nonneg (cd_data_bytes d)).
    pose proof (blen_nonneg (cd_return_bytes d)). pose proof (blen_nonneg (concat (map item_bytes pre))).
    pose proof (blen_nonneg (concat (map item_bytes post))).
    eapply parses_bind; [by eapply parses_skip_uleb; [apply H|]|].
    eapply parses_bind; [by eapply parses_skip_sleb; [apply H|]|].
    eapply parses_bind; [apply parses_skip_return; done || lia|].
    eapply parses_bind; [by eapply parses_skip_uleb; [apply H|]|].
    apply parses_find; done || lia.
Qed.

(** What [GetCieInfo] reads of a CIE is a prefix of it. *)
Lemma parses_cie_info {AT : AddressType} fuel c d e :
  cie_ok d -> has_encoding e (cd_items d) -> 0 <= c -> c + blen (cie_fixed d ++ cie_aug d) < 2 ^ 64 ->
  (10 < fuel)%nat -> (length (aug_string d) < fuel)%nat ->
  exists x y, cie_fixed d ++ cie_aug d = x ++ y /\
    parses c x (GetCieInfo fuel DW_EH_PE_sdata4) (if cd_version d =? 4 then cd_segment d else 0, e).
Proof.
  intros H He Hc Hend Hf10 Hf. unfold GetCieInfo, cie_fixed in *.
  set (pre := [cd_version d] ++ (aug_string d ++ [0]) ++ segment_bytes d).
  destruct (parses_address fuel (c + blen pre) d e H He) as (x & y & HE & HP); [|done| |].
  { pose proof (blen_nonneg pre). lia. }
  { unfold pre. rewrite !blen_app in *. lia. }
  exists (pre ++ x), y. split.
  { rewrite <- (app_assoc pre x y), <- HE. unfold pre. by rewrite <- !app_assoc. }
  rewrite !blen_app, !blen_cons, !blen_nil in Hend.
  pose proof (blen_nonneg (aug_string d)). pose proof (blen_nonneg (segment_bytes d)).
  pose proof (uleb_nonempty _ _ (co_code d H)). pose proof (blen_nonneg (cd_data_bytes d)).
  pose proof (blen_nonneg (cd_return_bytes d)). pose proof (blen_nonneg (cie_aug d)).
  unfold pre in *. rewrite <- !(app_assoc _ _ x).
  eapply parses_bind; [apply parses_byte|].
  eapply parses_bind; [apply parses_augmentation; [apply aug_string_no_nul|done]|].
  eapply parses_bind; [apply parses_segment; rewrite ?blen_app, ?blen_cons, ?blen_nil; lia|].
  eapply parses_bind_l; [|apply parses_ret].
  match goal with |- parses ?p _ _ _ => replace p with (c + blen ([cd_version d] ++ (aug_string d ++ [0]) ++ segment_bytes d)) end.
  { exact HP. } rewrite !blen_app. lia.
Qed.

(** *** Whole sections *)

(** An FDE: the function it is for, the length of its augmentation data (when the CIE has
    any) and the bytes after that. *)
Record fde_desc : Type := mkFdeDesc {
  fd_start : Z; fd_length : Z; fd_aug_length : Z; fd_aug_length_bytes : list Z; fd_rest : list Z
}.

Definition has_z (d : cie_desc) : bool := match cd_items d with None => false | Some _ => true end.

(** An entry is its length, four bytes, and its body. *)
Definition entry_bytes (body : list Z) : list Z := le_bytes 4 (blen body) ++ body.

Definition cie_entry (d : cie_desc) (rest : list Z) : list Z :=
  entry_bytes (le_bytes 4 0 ++ cie_fixed d ++ cie_aug d ++ rest).

(** The FDE at address [c] of the CIE [d] at address [cie]: the pointer to the CIE and the
    start of the function are relative to their own position. *)
Definition fde_body (c cie : Z) (d : cie_desc) (f : fde_desc) : list Z :=
  le_bytes 4 (c + 4 - cie) ++ le_bytes 4 (fd_start f - (c + 8)) ++ le_bytes 4 (fd_length f)
  ++ (if has_z d then fd_aug_length_bytes f else []) ++ fd_rest f.

Definition fde_entry (c cie : Z) (d : cie_desc) (f : fde_desc) : list Z := entry_bytes (fde_body c cie d f).

Inductive entry : Type := ECie (d : cie_desc) (rest : list Z) | EFde (f : fde_desc).

(** The bytes of a section from address [c] on, and the functions it lists; [cie] is the
    address of the last CIE and [d] its description. *)
Fixpoint section_bytes (c cie : Z) (d : cie_desc) (es : list entry) : list Z :=
  match es with
  | [] => []
  | ECie d rest :: es =>
      let b := cie_entry d rest in b ++ section_bytes (c + blen b) c d es
  | EFde f :: es =>
      let b := fde_entry c cie d f in b ++ section_bytes (c + blen b) cie d es
  end.

Fixpoint section_infos (c cie : Z) (d : cie_desc) (es : list entry) : list FdeInfo :=
  match es with
  | [] => []
  | ECie d rest :: es => section_infos (c + blen (cie_entry d rest)) c d es
  | EFde f :: es =>
      mkFdeInfo c (fd_start f) (fd_start f + fd_length f)
      :: section_infos (c + blen (fde_entry c cie d f)) cie d es
  end.

(** A CIE whose FDEs give addresses as signed 32-bit offsets, without segments. *)
Record cie_entry_ok (d : cie_desc) (rest : list Z) : Prop := {
  ce_cie : cie_ok d;
  ce_encoding : exists e, has_encoding e (cd_items d) /\ Z.land e 15 = DW_EH_PE_sdata4;
  ce_segment : cd_version d = 4 -> cd_segment d = 0;
  ce_length : blen (cie_entry d rest) < 2 ^ 32 + 3
}.

Record fde_entry_ok {AT : AddressType} (c cie : Z) (d : cie_desc) (f : fde_desc) : Prop := {
  fe_start : 0 <= fd_start f;
  fe_offset : - 2 ^ 31 <= fd_start f - (c + 8) < 2 ^ 31;
  fe_length : 0 < fd_length f < 2 ^ 31;
  fe_end : fd_start f + fd_length f < 2 ^ abits;
  fe_cie : 0 <= cie <= c /\ c + 4 - cie < 2 ^ 32;
  fe_size : blen (fde_entry c cie d f) < 2 ^ 32 + 3
}.

Fixpoint section_ok {AT : AddressType} (c cie : Z) (d : option cie_desc) (es : list entry) : Prop :=
  match es with
  | [] => True
  | ECie d rest :: es => cie_entry_ok d rest /\ section_ok (c + blen (cie_entry d rest)) c (Some d) es
  | EFde f :: es =>
      match d with
      | None => False
      | Some d' => fde_entry_ok c cie d' f /\ section_ok (c + blen (fde_entry c cie d' f)) cie d es
      end
  end.

Lemma blen_entry body : blen (entry_bytes body) = 4 + blen body.
Proof. unfold entry_bytes. by rewrite blen_app, blen_le_bytes. Qed.

(** A signed 32-bit value. *)
Lemma parses_sdata4 {AT : AddressType} c v e :
  Z.land e 15 = DW_EH_PE_sdata4 -> - 2 ^ 31 <= v < 2 ^ 31 ->
  parses c (le_bytes 4 v) (read (DwarfMemory.ReadEncodedValue (Z.land e 15))) (u64 v).
Proof.
  intros -> Hv. apply parses_read. intros d Hc Hs. unfold DwarfMemory.ReadEncodedValue.
  change (DW_EH_PE_sdata4 =? DW_EH_PE_omit) with false. change (DW_EH_PE_sdata4 =? DW_EH_PE_aligned) with false.
  cbv iota. change (DwarfMemory.read_encoded_data DW_EH_PE_sdata4) with (DwarfMemory.ReadSigned (Z.of_nat 4)).
  unfold DwarfMemory.rbind at 1. rewrite (reads_signed c 4 v d Hc Hs), bind_Ok.
  change (8 * Z.of_nat 4) with 32. change (v mod 2 ^ 32) with (u32 v).
  rewrite swrap_uwrap, swrap_small by lia. done.
Qed.

(** The pc of an FDE, from its field at [c]. *)
Lemma adjusted_start c start :
  0 <= start < 2 ^ 64 -> AdjustPcFromFde (c + 4) (u64 (start - c)) = start.
Proof.
  intros Hs. cbn [AdjustPcFromFde DwarfEhFrame]. unfold uwrap.
  replace ((start - c) mod 2 ^ 64 + (c + 4) - 4) with ((start - c) mod 2 ^ 64 + c) by lia.
  rewrite Zplus_mod_idemp_l. replace (start - c + c) with start by lia. by apply Z.mod_small.
Qed.
End SectionFormat.

Module ScanFacts.
Import DwarfSectionImpl Format Pieces CieFormat SectionFormat.

(** Running an operation that parses the start of what is stored. *)
Lemma step_bind {A B} (m : op A) (k : A -> op B) a c x y s :
  parses c x m a -> cursor s = c -> stored (raw s) c (x ++ y) ->
  (m ≫= k) s = k a (move_to (c + blen x) s).
Proof.
  intros Hm Hc Hs. unfold mbind at 1, op_bind. rewrite (Hm s Hc); [done|]. by eapply stored_prefix.
Qed.

Lemma step_bind_nil {A B} (m : op A) (k : A -> op B) a c bs s :
  parses c [] m a -> cursor s = c -> stored (raw s) c bs -> (m ≫= k) s = k a s.
Proof.
  intros Hm Hc Hs. rewrite (step_bind m k a c [] bs s Hm Hc Hs). rewrite blen_nil, Z.add_0_r, <- Hc.
  by rewrite move_to_here.
Qed.

Lemma add_fde_info {AT : AddressType} c e start len off s rest :
  cursor s = c -> stored (raw s) c (le_bytes 4 (start - c) ++ le_bytes 4 len ++ rest) ->
  Z.land e 15 = DW_EH_PE_sdata4 -> 0 <= start -> - 2 ^ 31 <= start - c < 2 ^ 31 -> 0 < len < 2 ^ 31 ->
  start + len < 2 ^ abits ->
  AddFdeInfo off 0 e s =
    Ok (Some (), set_fdes (fdes s ++ [mkFdeInfo off start (start + len)]) (fde_count s) (move_to (c + 8) s)).
Proof.
  intros Hc Hs He H0 Ho Hl Hend. unfold AddFdeInfo. cbn [Z.eqb negb].
  assert (start < 2 ^ 64 /\ len < 2 ^ abits) as [H64 HLa].
  { assert (abits = 32 \/ abits = 64) as [E|E] by (unfold abits; destruct asz_cases as [-> | ->]; auto);
      rewrite E in *; lia. }
  rewrite (step_bind_nil _ _ () c _ s (parses_ret c ()) Hc Hs).
  rewrite (step_bind _ _ _ c _ _ s (parses_sdata4 c (start - c) e He Ho) Hc Hs).
  apply stored_suffix in Hs. rewrite blen_le_bytes in *. change (c + Z.of_nat 4) with (c + 4) in *.
  rewrite (step_bind_nil _ _ _ (c + 4) _ (move_to (c + 4) s) (parses_cur (c + 4)) eq_refl Hs). cbv zeta.
  rewrite (step_bind _ _ _ (c + 4) _ _ (move_to (c + 4) s) (parses_sdata4 (c + 4) len e He ltac:(lia)) eq_refl Hs).
  rewrite adjusted_start by lia. rewrite (uwrap_small 64 len) by (unfold in_u; lia).
  destruct (Z.eqb_spec len 0); [lia|]. cbn [negb]. rewrite move_to_move, blen_le_bytes.
  unfold aw. rewrite !uwrap_small by (unfold in_u; lia). unfold modify.
  replace (c + 4 + Z.of_nat 4) with (c + 8) by lia. done.
Qed.

(** One round of the loop over a CIE. *)
Lemma loop_cie {AT : AddressType} fuel n c cie enc seg d rest more s :
  cursor s = c -> stored (raw s) c (cie_entry d rest ++ more) -> cie_entry_ok d rest ->
  c < entries_end s -> (10 < fuel)%nat -> (length (aug_string d) < fuel)%nat ->
  exists e, has_encoding e (cd_items d) /\ Z.land e 15 = DW_EH_PE_sdata4 /\
    entries_loop fuel (S n) cie enc seg s =
      entries_loop fuel n c e 0 (move_to (c + blen (cie_entry d rest)) s).
Proof.
  intros Hc Hs [Hok (e & He & He15) Hseg Hlen] Hend Hf10 Hf. exists e. split; [done|]. split; [done|].
  pose proof (st_start _ _ _ Hs) as Hs0. pose proof (st_end _ _ _ Hs) as Hs1.
  unfold cie_entry in *. rewrite blen_app, !blen_entry in *.
  remember (blen (le_bytes 4 0 ++ cie_fixed d ++ cie_aug d ++ rest)) as len eqn:HL.
  unfold entry_bytes in Hs. rewrite <- HL in Hs. rewrite !blen_app, blen_le_bytes in HL.
  pose proof (blen_nonneg rest). pose proof (blen_nonneg more).
  assert (stored (raw s) c ((le_bytes 4 len ++ le_bytes 4 0) ++ (cie_fixed d ++ cie_aug d) ++ rest ++ more)) as Hs'
    by (revert Hs; by rewrite <- !app_assoc).
  destruct (parses_cie_info fuel (c + 8) d e Hok He) as (x & y & HE & HP); [lia|rewrite blen_app; lia|done|done|].
  rewrite HE in Hs'.
  assert (blen (cie_fixed d) + blen (cie_aug d) = blen x + blen y) by (by rewrite <- !blen_app, HE).
  pose proof (blen_nonneg x). pose proof (blen_nonneg y).
  cbn [entries_loop].
  rewrite (step_bind_nil _ _ _ c _ s (parses_cur c) Hc Hs).
  unfold mbind at 1, op_bind at 1, gets at 1. destruct (Z.leb_spec (entries_end s) c); [lia|].
  rewrite (step_bind _ _ _ c _ _ s (parses_entry c len 0 Hs0 ltac:(lia) ltac:(by vm_compute) ltac:(lia)) Hc Hs').
  apply stored_suffix in Hs'. rewrite blen_app, !blen_le_bytes in *.
  change (c + (Z.of_nat 4 + Z.of_nat 4)) with (c + 8) in *. cbv beta iota.
  rewrite (step_bind_nil _ _ _ (c + 8) _ (move_to (c + 8) s) (parses_cur (c + 8)) eq_refl Hs').
  change (0 =? cie32_value) with true. cbv iota.
  rewrite <- app_assoc in Hs'.
  unfold mbind at 1, op_bind at 1.
  rewrite (step_bind _ _ _ (c + 8) _ _ (move_to (c + 8) s) HP eq_refl Hs'). rewrite move_to_move.
  cbv beta iota. unfold mret, op_ret at 1. unfold mbind at 1, op_bind at 1, cur_offset, gets at 1.
  change (DwarfMemory.cur_offset (memory_ (move_to ?p s))) with p.
  destruct (Z.ltb_spec (c + 4 + len) (c + 8 + blen x)); [lia|].
  unfold mbind at 1, op_bind at 1, seek, modify.
  assert ((if cd_version d =? 4 then cd_segment d else 0) = 0) as ->.
  { destruct (Z.eqb_spec (cd_version d) 4); auto. }
  replace (c + (4 + len)) with (c + 4 + len) by lia. done.
Qed.

Lemma cie_of_fde c cie : 0 <= cie < 2 ^ 64 -> GetCieOffsetFromFde32 (c + 8) (c + 4 - cie) = cie.
Proof.
  intros H. cbn [GetCieOffsetFromFde32 DwarfEhFrame]. replace (c + 8 - (c + 4 - cie) - 4) with cie by lia.
  by apply uwrap_small.
Qed.

(** One round of the loop over an FDE. *)
Lemma loop_fde {AT : AddressType} fuel n c cie enc d f more s :
  cursor s = c -> stored (raw s) c (fde_entry c cie d f ++ more) -> fde_entry_ok c cie d f ->
  c < entries_end s -> Z.land enc 15 = DW_EH_PE_sdata4 ->
  entries_loop fuel (S n) cie enc 0 s =
    entries_loop fuel n cie enc 0
      (set_fdes (fdes s ++ [mkFdeInfo c (fd_start f) (fd_start f + fd_length f)]) (fde_count s)
         (move_to (c + blen (fde_entry c cie d f)) s)).
Proof.
  intros Hc Hs [H1 H2 H3 H4 H5 H6] Hend He.
  pose proof (st_start _ _ _ Hs) as Hs0. pose proof (st_end _ _ _ Hs) as Hs1.
  unfold fde_entry in *. rewrite blen_app, !blen_entry in *.
  remember (blen (fde_body c cie d f)) as len eqn:HL. unfold entry_bytes in Hs. rewrite <- HL in Hs.
  unfold fde_body in *. remember ((if has_z d then fd_aug_length_bytes f else []) ++ fd_rest f) as tl.
  rewrite !blen_app, !blen_le_bytes in HL. pose proof (blen_nonneg tl). pose proof (blen_nonneg more).
  assert (stored (raw s) c ((le_bytes 4 len ++ le_bytes 4 (c + 4 - cie)) ++
    le_bytes 4 (fd_start f - (c + 8)) ++ le_bytes 4 (fd_length f) ++ tl ++ more)) as Hs'
    by (revert Hs; by rewrite <- !app_assoc).
  cbn [entries_loop]. rewrite (step_bind_nil _ _ _ c _ s (parses_cur c) Hc Hs).
  unfold mbind at 1, op_bind at 1, gets at 1. destruct (Z.leb_spec (entries_end s) c); [lia|].
  rewrite (step_bind _ _ _ c _ _ s (parses_entry c len (c + 4 - cie) Hs0 ltac:(lia) ltac:(unfold in_u; lia) ltac:(lia)) Hc Hs').
  apply stored_suffix in Hs'. rewrite blen_app, !blen_le_bytes in *.
  change (c + (Z.of_nat 4 + Z.of_nat 4)) with (c + 8) in *. cbv beta iota.
  rewrite (step_bind_nil _ _ _ (c + 8) _ (move_to (c + 8) s) (parses_cur (c + 8)) eq_refl Hs').
  unfold cie32_value at 1. destruct (Z.eqb_spec (c + 4 - cie) 0); [lia|].
  rewrite cie_of_fde by lia. rewrite Z.eqb_refl. cbn [negb].
  unfold mbind at 1, op_bind at 1. unfold mbind at 1, op_bind at 1.
  rewrite (add_fde_info (c + 8) enc (fd_start f) (fd_length f) c (move_to (c + 8) s) (tl ++ more)) by (done || lia).
  unfold mret, op_ret at 1. cbv beta iota. unfold mbind at 1, op_bind at 1, cur_offset, gets at 1.
  rewrite move_to_move. change (DwarfMemory.cur_offset _) with (c + 8 + 8).
  destruct (Z.ltb_spec (c + 4 + len) (c + 8 + 8)); [lia|].
  unfold mbind at 1, op_bind at 1, seek, modify. replace (c + (4 + len)) with (c + 4 + len) by lia. done.
Qed.

Definition section_fuel_ok (fuel : nat) (es : list entry) : Prop :=
  (10 < fuel)%nat /\ (length es <= fuel)%nat /\
  forall d rest, ECie d rest ∈ es -> (length (aug_string d) < fuel)%nat.

(** The whole loop. *)
Lemma loop_section {AT : AddressType} fuel n es c cie d enc s :
  cursor s = c -> stored (raw s) c (section_bytes c cie d es) ->
  entries_end s = c + blen (section_bytes c cie d es) ->
  (10 < fuel)%nat -> (forall d rest, ECie d rest ∈ es -> (length (aug_string d) < fuel)%nat) ->
  (length es <= n)%nat -> section_ok c cie (Some d) es -> Z.land enc 15 = DW_EH_PE_sdata4 ->
  entries_loop fuel n cie enc 0 s =
    Ok (Some (), set_fdes (fdes s ++ section_infos c cie d es) (fde_count s) (move_to (entries_end s) s)).
Proof.
  intros Hc Hs He Hf10. revert n c cie d enc s Hc Hs He.
  induction es as [|[d' rest|f] es IH]; intros n c cie d enc s Hc Hs He Hf Hn Hok Henc;
    cbn [section_bytes section_infos section_ok length] in *.
  - rewrite blen_nil, Z.add_0_r in He. rewrite app_nil_r, He, <- Hc, move_to_here.
    destruct n; cbn [entries_loop]; unfold mbind, op_bind, cur_offset, gets; cbv beta iota;
      fold (cursor s); rewrite Hc, He, Z.leb_refl; unfold mret, op_ret; by destruct s.
  - destruct Hok as [Hd Hok]. destruct n as [|n]; [lia|]. rewrite blen_app in He.
    pose proof (blen_nonneg (section_bytes (c + blen (cie_entry d' rest)) c d' es)).
    assert (0 < blen (cie_entry d' rest)) by (unfold cie_entry; rewrite blen_entry; pose proof (blen_nonneg (le_bytes 4 0 ++ cie_fixed d' ++ cie_aug d' ++ rest)); lia).
    destruct (loop_cie fuel n c cie enc 0 d' rest _ s Hc Hs Hd) as (e & _ & He15 & ->); [lia|done| |].
    { apply (Hf d' rest). set_solver. }
    apply stored_suffix in Hs. rewrite (IH n (c + blen (cie_entry d' rest)) c d' e); try done.
    + change (entries_end (move_to _ s)) with (entries_end s). lia.
    + intros d0 r0 Hin. apply (Hf d0 r0). set_solver.
    + lia.
  - destruct Hok as [Hfd Hok]. destruct n as [|n]; [lia|]. rewrite blen_app in He.
    pose proof (blen_nonneg (section_bytes (c + blen (fde_entry c cie d f)) cie d es)).
    assert (0 < blen (fde_entry c cie d f)) by (unfold fde_entry; rewrite blen_entry; pose proof (blen_nonneg (fde_body c cie d f)); lia).
    rewrite (loop_fde fuel n c cie enc d f _ s Hc Hs Hfd) by (done || lia).
    apply stored_suffix in Hs. rewrite (IH n (c + blen (fde_entry c cie d f)) cie d enc); try done.
    + unfold set_fdes. cbn. by rewrite <- app_assoc.
    + change (entries_end (set_fdes _ _ (move_to _ s))) with (entries_end s). lia.
    + intros d0 r0 Hin. apply (Hf d0 r0). set_solver.
    + lia.
Qed.
End ScanFacts.

(** ** FDEs *)

Module FdeFacts.
Import DwarfSectionImpl Format Pieces CieFormat SectionFormat ScanFacts.

Definition not_L (a : aug_item) : Prop := match a with AugL _ => False | _ => True end.

(** A CIE whose FDEs have no LSDA pointer. *)
Definition no_lsda (d : cie_desc) : Prop := Forall not_L (default [] (cd_items d)).

Lemma apply_not_L items l e h : Forall not_L items -> (apply_items items (l, e, h)).1.1 = l.
Proof.
  intros H. revert e h. induction H as [|a items Ha _ IH]; intros e h; [done|].
  destruct a; [done|apply IH|apply IH|apply IH].
Qed.

Lemma cie_at_fields c len d e :
  cie_ok d -> has_encoding e (cd_items d) -> no_lsda d -> (cd_version d = 4 -> cd_segment d = 0) ->
  fde_address_encoding (cie_at c len d) = e /\ lsda_encoding (cie_at c len d) = DW_EH_PE_omit /\
  segment_size (cie_at c len d) = 0 /\ hd 0 (augmentation_string (cie_at c len d)) = (if has_z d then 122 else 0).
Proof.
  intros Hok He Hl Hseg. pose proof (has_encoding_apply e (cd_items d) DW_EH_PE_omit 0 He) as HE.
  pose proof (apply_not_L (default [] (cd_items d)) DW_EH_PE_omit DW_EH_PE_sdata4 0 Hl) as HL.
  unfold cie_at. destruct (apply_items _ _) as [[l e'] h]. cbn in *. subst. split_and!; try done.
  - destruct (Z.eqb_spec (cd_version d) 4); auto.
  - unfold aug_string, has_z. by destruct (cd_items d).
Qed.

(** The length of the entry of a CIE. *)
Definition cie_len (d : cie_desc) (rest : list Z) : Z := blen (le_bytes 4 0 ++ cie_fixed d ++ cie_aug d ++ rest).

(** [GetCie] on a stored CIE, cached already or not. *)
Lemma get_cie {AT : AddressType} fuel cie d rest more s :
  stored (raw s) cie (cie_entry d rest ++ more) -> cie_entry_ok d rest -> (length (aug_string d) < fuel)%nat ->
  (cie_entries s !! cie = None \/ cie_entries s !! cie = Some (cie_at cie (cie_len d rest) d)) ->
  exists c', GetCie fuel cie s = Ok (Some (cie_at cie (cie_len d rest) d),
    set_cies (<[cie := cie_at cie (cie_len d rest) d]> (cie_entries s)) (move_to c' s)).
Proof.
  intros Hs [Hok _ _ Hlen] Hf Hc. unfold GetCie, mbind at 1, op_bind, gets.
  destruct Hc as [-> | HC].
  - pose proof (st_start _ _ _ Hs) as Hs0. pose proof (st_end _ _ _ Hs) as Hs1.
    unfold cie_entry in *. rewrite blen_app, blen_entry in *. fold (cie_len d rest) in *.
    unfold mbind at 1, op_bind, seek, modify.
    assert (parses cie (cie_bytes (cie_len d rest) d) (FillInCie fuel) (cie_at cie (cie_len d rest) d)) as HP.
    { pose proof (blen_nonneg more). pose proof (blen_nonneg rest). unfold cie_len in *.
      rewrite !blen_app, blen_le_bytes in *. pose proof (blen_nonneg (cie_fixed d)). pose proof (blen_nonneg (cie_aug d)).
      apply parses_cie; try done; try lia. unfold cie_bytes. rewrite !blen_app, !blen_le_bytes. lia. }
    assert (stored (raw (move_to cie s)) cie (cie_bytes (cie_len d rest) d ++ rest ++ more)) as Hs'.
    { revert Hs. unfold entry_bytes, cie_bytes. fold (cie_len d rest). by rewrite <- !app_assoc. }
    unfold mbind at 1. change (set_memory _ s) with (move_to cie s).
    rewrite (HP (move_to cie s) eq_refl) by by eapply stored_prefix.
    rewrite move_to_move. eexists. done.
  - rewrite HC. exists (cursor s). rewrite move_to_here, insert_id by done. by destruct s.
Qed.

(** The [DwarfFde] of an FDE at address [c]. *)
Definition fde_at (c cie : Z) (d : cie_desc) (rest : list Z) (f : fde_desc) : DwarfFde :=
  mkFde cie
    (if has_z d then u64 (c + 16 + blen (fd_aug_length_bytes f) + fd_aug_length f) else c + 16)
    (c + 4 + blen (fde_body c cie d f)) (fd_start f) (fd_start f + fd_length f) 0
    (cie_at cie (cie_len d rest) d).

(** After the pc range: the augmentation data is skipped. *)
Lemma parses_fde_aug {AT : AddressType} c z length length_bytes :
  (z = true -> uleb length length_bytes) ->
  forall s more, cursor s = c -> stored (raw s) c ((if z : bool then length_bytes else []) ++ more) ->
  (if (if z then 122 else 0) =? 122 then
     aug_length ← read DwarfMemory.ReadULEB128;
     cur ← cur_offset;
     lsda ← read (DwarfMemory.ReadEncodedValue DW_EH_PE_omit);
     _ ← seek (u64 (cur + aug_length));
     mret lsda
   else mret 0) s
  = Ok (Some 0, move_to (if z then u64 (c + blen length_bytes + length) else c) s).
Proof.
  intros Hu s more Hcur Hs. destruct z.
  - change (122 =? 122) with true. cbv iota.
    rewrite (step_bind _ _ _ c _ _ s (parses_read _ _ _ _ (reads_uleb c _ _ (Hu eq_refl))) Hcur Hs). done.
  - change (0 =? 122) with false. cbv iota. by rewrite <- Hcur, move_to_here.
Qed.

Lemma word_64 {AT : AddressType} start len : 0 <= start -> 0 < len -> start + len < 2 ^ abits -> start + len < 2 ^ 64.
Proof.
  intros H1 H2 H3. assert (abits = 32 \/ abits = 64) as [E|E]
    by (unfold abits; destruct asz_cases as [-> | ->]; auto); rewrite E in *; lia.
Qed.

(** The fields after the pointer to the CIE. *)
Lemma fde_fields_at {AT : AddressType} c cie d rest f e s more :
  cursor s = c -> fde_entry_ok (c - 8) cie d f -> (has_z d = true -> uleb (fd_aug_length f) (fd_aug_length_bytes f)) ->
  stored (raw s) c (le_bytes 4 (fd_start f - c) ++ le_bytes 4 (fd_length f) ++
    (if has_z d then fd_aug_length_bytes f else []) ++ more) ->
  cie_ok d -> has_encoding e (cd_items d) -> Z.land e 15 = DW_EH_PE_sdata4 -> no_lsda d ->
  (cd_version d = 4 -> cd_segment d = 0) ->
  let i := if has_z d then u64 (c + 8 + blen (fd_aug_length_bytes f) + fd_aug_length f) else c + 8 in
  fde_fields (cie_at cie (cie_len d rest) d) s =
    Ok (Some (fd_start f, fd_start f + fd_length f, 0, i), move_to i s).
Proof.
  intros Hc [H1 H2 H3 H4 _ _] Hu Hs Hok He He15 Hl Hseg i.
  pose proof (st_start _ _ _ Hs) as Hs0. pose proof (st_end _ _ _ Hs) as Hse.
  rewrite !blen_app, !blen_le_bytes in Hse. pose proof (blen_nonneg more).
  pose proof (word_64 (fd_start f) (fd_length f) H1 ltac:(lia) H4).
  replace (fd_start f - (c - 8 + 8)) with (fd_start f - c) in H2 by lia.
  destruct (cie_at_fields cie (cie_len d rest) d e Hok He Hl Hseg) as (F1 & F2 & _ & F4).
  unfold fde_fields. rewrite F1, F2, F4. cbv zeta.
  rewrite (step_bind _ _ _ c _ _ s (parses_sdata4 c _ e He15 H2) Hc Hs).
  apply stored_suffix in Hs. rewrite blen_le_bytes in *. change (c + Z.of_nat 4) with (c + 4) in *.
  rewrite (step_bind_nil _ _ _ (c + 4) _ (move_to (c + 4) s) (parses_cur _) eq_refl Hs).
  rewrite adjusted_start by lia.
  rewrite (step_bind _ _ _ (c + 4) _ _ (move_to (c + 4) s) (parses_sdata4 _ (fd_length f) e He15 ltac:(lia)) eq_refl Hs).
  apply stored_suffix in Hs. rewrite blen_le_bytes, move_to_move in *.
  replace (c + 4 + Z.of_nat 4) with (c + 8) in * by lia.
  unfold mbind at 1, op_bind at 1.
  rewrite (parses_fde_aug (c + 8) (has_z d) (fd_aug_length f) (fd_aug_length_bytes f) Hu (move_to (c + 8) s) more eq_refl Hs).
  rewrite move_to_move. unfold mbind, op_bind, cur_offset, gets, mret, op_ret. cbv beta iota.
  rewrite (uwrap_small 64 (fd_length f)) by (unfold in_u; lia).
  rewrite (uwrap_small 64 (fd_length f + fd_start f)) by (unfold in_u; lia).
  rewrite (Z.add_comm (fd_length f)). done.
Qed.

Record fde_stored (s : t) (c cie : Z) (d : cie_desc) (rest : list Z) (f : fde_desc) : Prop := {
  fs_cie : exists more, stored (raw s) cie (cie_entry d rest ++ more);
  fs_fde : exists more, stored (raw s) c (fde_entry c cie d f ++ more);
  fs_aug : has_z d = true -> uleb (fd_aug_length f) (fd_aug_length_bytes f);
  fs_lsda : no_lsda d
}.

(** [FillInFde] on a stored FDE. *)
Lemma fill_in_fde {AT : AddressType} fuel c cie d rest f s :
  cursor s = c -> fde_stored s c cie d rest f -> cie_entry_ok d rest -> fde_entry_ok c cie d f ->
  (length (aug_string d) < fuel)%nat ->
  (cie_entries s !! cie = None \/ cie_entries s !! cie = Some (cie_at cie (cie_len d rest) d)) ->
  exists c', FillInFde fuel s = Ok (Some (fde_at c cie d rest f),
    set_cies (<[cie := cie_at cie (cie_len d rest) d]> (cie_entries s)) (move_to c' s)).
Proof.
  intros Hc [[more1 Hs1] [more Hs] Hu Hl] Hce Hfe Hf Hcie. pose proof Hfe as [H1 H2 H3 H4 H5 H6].
  pose proof (st_start _ _ _ Hs) as Hs0. pose proof (st_end _ _ _ Hs) as Hse.
  unfold fde_entry in Hs, Hse, H6. rewrite blen_app, !blen_entry in *. unfold fde_at.
  remember (blen (fde_body c cie d f)) as len eqn:HL. unfold entry_bytes in Hs. rewrite <- HL in Hs.
  unfold fde_body in Hs, HL. rewrite !blen_app, !blen_le_bytes in HL.
  pose proof (blen_nonneg (fd_rest f)). pose proof (blen_nonneg more).
  assert (stored (raw s) c ((le_bytes 4 len ++ le_bytes 4 (c + 4 - cie)) ++
    le_bytes 4 (fd_start f - (c + 8)) ++ le_bytes 4 (fd_length f) ++
    (if has_z d then fd_aug_length_bytes f else []) ++ fd_rest f ++ more)) as Hs'
    by (revert Hs; by rewrite <- !app_assoc).
  unfold FillInFde. pose proof (blen_nonneg (if has_z d then fd_aug_length_bytes f else [])).
  rewrite (step_bind _ _ _ c _ _ s (parses_entry c len (c + 4 - cie) Hs0 ltac:(lia) ltac:(unfold in_u; lia) ltac:(lia)) Hc Hs').
  apply stored_suffix in Hs'. rewrite blen_app, !blen_le_bytes in *.
  change (c + (Z.of_nat 4 + Z.of_nat 4)) with (c + 8) in *. cbv beta iota.
  unfold cie32_value at 1. destruct (Z.eqb_spec (c + 4 - cie) 0); [lia|].
  rewrite (step_bind_nil _ _ _ (c + 8) _ (move_to (c + 8) s) (parses_cur (c + 8)) eq_refl Hs'). cbv zeta.
  rewrite cie_of_fde by lia. unfold mbind at 1, op_bind at 1.
  destruct (get_cie fuel cie d rest more1 (move_to (c + 8) s) Hs1 Hce Hf Hcie) as [c1 ->].
  rewrite move_to_move. set (cs := <[cie := cie_at cie (cie_len d rest) d]> (cie_entries s)).
  change (set_cies _ (move_to c1 s)) with (set_cies cs (move_to c1 s)).
  destruct Hce as [Hok (e & He & He15) Hseg Hlen].
  destruct (cie_at_fields cie (cie_len d rest) d e Hok He Hl Hseg) as (_ & _ & -> & _).
  unfold mbind at 1, op_bind at 1, seek, modify. rewrite Z.add_0_r, uwrap_small by (unfold in_u; lia).
  change (set_memory _ (set_cies cs (move_to c1 s))) with (set_cies cs (move_to (c + 8) s)).
  unfold mbind at 1, op_bind at 1.
  rewrite (fde_fields_at (c + 8) cie d rest f e (set_cies cs (move_to (c + 8) s)) (fd_rest f ++ more)); try done.
  - eexists. unfold mret, op_ret. change (move_to ?i (set_cies cs (move_to (c + 8) s))) with (set_cies cs (move_to i s)).
    replace (c + 8 + 8) with (c + 16) by lia. done.
  - by replace (c + 8 - 8) with c by lia.
Qed.
End FdeFacts.

(** ** The FDEs of a section *)

Module SectionFdes.
Import DwarfSectionImpl Format Pieces CieFormat SectionFormat ScanFacts FdeFacts.

(** An FDE with its address, the address of its CIE, and the CIE. *)
Record placed : Type := mkPlaced {
  p_at : Z; p_cie_at : Z; p_cie : cie_desc; p_rest : list Z; p_fde : fde_desc
}.

Fixpoint section_fdes (c cie : Z) (d : cie_desc) (rest : list Z) (es : list entry) : list placed :=
  match es with
  | [] => []
  | ECie d rest :: es => section_fdes (c + blen (cie_entry d rest)) c d rest es
  | EFde f :: es => mkPlaced c cie d rest f :: section_fdes (c + blen (fde_entry c cie d f)) cie d rest es
  end.

Definition info_of (p : placed) : FdeInfo :=
  mkFdeInfo (p_at p) (fd_start (p_fde p)) (fd_start (p_fde p) + fd_length (p_fde p)).

Lemma section_infos_fdes c cie d rest es :
  section_infos c cie d es = info_of <$> section_fdes c cie d rest es.
Proof.
  revert c cie d rest. induction es as [|[d' r|f] es IH]; intros; cbn; [done|apply IH|]. f_equal. apply IH.
Qed.

(** The FDEs lie one after the other. *)
Lemma section_fdes_after c cie d rest es p : p ∈ section_fdes c cie d rest es -> c <= p_at p.
Proof.
  revert c cie d rest. induction es as [|[d' r|f] es IH]; intros c cie d rest; cbn [section_fdes].
  - by intros ?%elem_of_nil.
  - intros Hp%IH. pose proof (blen_nonneg (cie_entry d' r)). lia.
  - intros [->|Hp%IH]%elem_of_cons; [done|]. pose proof (blen_nonneg (fde_entry c cie d f)). lia.
Qed.

Lemma section_fdes_offsets c cie d rest es : NoDup (p_at <$> section_fdes c cie d rest es).
Proof.
  revert c cie d rest. induction es as [|[d' r|f] es IH]; intros c cie d rest; cbn [section_fdes fmap list_fmap].
  - constructor.
  - apply IH.
  - constructor; [|apply IH]. intros Hin. apply list_elem_of_fmap in Hin as (p & Hp & Hin).
    apply section_fdes_after in Hin. unfold fde_entry in *. rewrite blen_entry in Hin.
    pose proof (blen_nonneg (fde_body c cie d f)). cbn in *. lia.
Qed.

(** What is known of an FDE of a well-formed section that is in memory. *)
Record placed_ok {AT : AddressType} (m : Memory) (p : placed) : Prop := {
  po_cie : exists more, stored m (p_cie_at p) (cie_entry (p_cie p) (p_rest p) ++ more);
  po_fde : exists more, stored m (p_at p) (fde_entry (p_at p) (p_cie_at p) (p_cie p) (p_fde p) ++ more);
  po_cie_ok : cie_entry_ok (p_cie p) (p_rest p);
  po_fde_ok : fde_entry_ok (p_at p) (p_cie_at p) (p_cie p) (p_fde p)
}.

Lemma section_fdes_ok {AT : AddressType} m es c cie d rest more :
  section_ok c cie (Some d) es -> cie_entry_ok d rest -> stored m cie (cie_entry d rest ++ more) ->
  stored m c (section_bytes c cie d es) ->
  forall p, p ∈ section_fdes c cie d rest es -> placed_ok m p.
Proof.
  revert c cie d rest more. induction es as [|[d' r|f] es IH]; intros c cie d rest more Hok Hd Hcie Hs p;
    cbn [section_fdes section_bytes section_ok] in *.
  - by intros ?%elem_of_nil.
  - destruct Hok as [Hd' Hok]. by eapply IH; [| |exact Hs|eapply stored_suffix].
  - destruct Hok as [Hf Hok]. intros [->|Hp]%elem_of_cons; [by split; eauto|].
    by eapply IH; [| |exact Hcie|eapply stored_suffix|].
Qed.
End SectionFdes.

(** ** Searching the sorted list *)

Module SearchFacts.
Import DwarfSectionImpl.

(** No function begins where another ends, or inside it. *)
Definition functions_apart (l : list FdeInfo) : Prop :=
  NoDup l /\ Forall (fun i => info_start i <= info_end i) l /\
  forall a b, a ∈ l -> b ∈ l -> a <> b -> info_end a < info_start b \/ info_end b < info_start a.

#[global] Instance by_start_end_trans : Transitive by_start_end.
Proof.
  intros a b c. unfold by_start_end. intros H1 H2.
  repeat match goal with
  | _ : context [?x =? ?y] |- _ => destruct (Z.eqb_spec x y)
  | |- context [?x =? ?y] => destruct (Z.eqb_spec x y)
  end; lia.
Qed.

#[global] Instance by_start_end_total : Total by_start_end.
Proof.
  intros a b. unfold by_start_end. destruct (Z.eqb_spec (info_start a) (info_start b)),
    (Z.eqb_spec (info_start b) (info_start a)); lia.
Qed.

Lemma fde_cmp_Eq pc i : fde_cmp pc i = Eq <-> info_start i <= pc <= info_end i.
Proof.
  unfold fde_cmp. destruct (Z.leb_spec (info_start i) pc), (Z.leb_spec pc (info_end i)); cbn [andb];
    try destruct (Z.ltb_spec pc (info_start i)); split; try done; lia.
Qed.

Lemma sorted_ordered pc l :
  functions_apart l -> ordered_by (fde_cmp pc) (merge_sort by_start_end l).
Proof.
  intros (Hnd & Hse & Hap) i j x y Hij Hx Hy.
  pose proof (merge_sort_Permutation by_start_end l) as HP.
  pose proof (sorted_lookup _ _ i j x y (StronglySorted_merge_sort by_start_end l) Hij Hx Hy) as Hle.
  assert (x ∈ l /\ y ∈ l) as [Hxl Hyl] by (rewrite <- HP; split; by eapply list_elem_of_lookup_2).
  assert (x <> y) as Hne.
  { intros ->. rewrite <- HP in Hnd. pose proof (NoDup_lookup _ i j y Hnd Hx Hy). lia. }
  rewrite Forall_forall in Hse. pose proof (Hse x Hxl). pose proof (Hse y Hyl). cbn in *.
  pose proof (Hap x y Hxl Hyl Hne). unfold by_start_end in Hle.
  destruct (Z.eqb_spec (info_start x) (info_start y)); unfold fde_cmp;
  destruct (Z.leb_spec (info_start x) pc), (Z.leb_spec pc (info_end x)), (Z.ltb_spec pc (info_start x)),
    (Z.leb_spec (info_start y) pc), (Z.leb_spec pc (info_end y)), (Z.ltb_spec pc (info_start y)); cbn [andb];
    split; intros ?; try done; lia.
Qed.

(** The search finds the function a pc belongs to. *)
Lemma search_sorted pc l i :
  functions_apart l ->
  bsearch (fde_cmp pc) (merge_sort by_start_end l) (S (length l)) 0 (length l) = Some i <->
  i ∈ l /\ info_start i <= pc <= info_end i.
Proof.
  intros Ha. pose proof (merge_sort_Permutation by_start_end l) as HP. rewrite <- fde_cmp_Eq.
  rewrite <- (Permutation_length HP), bsearch_spec.
  - by rewrite HP.
  - by apply sorted_ordered.
  - intros y z. rewrite HP, !fde_cmp_Eq. destruct Ha as (_ & _ & Hap). intros Hy Hz Py Pz.
    destruct (decide (y = z)) as [|Hne]; [done|]. pose proof (Hap y z Hy Hz Hne). lia.
Qed.
End SearchFacts.

(** ** Theorems *)

Module FormatTheorems.
Import DwarfSectionImpl Format Pieces CieFormat SectionFormat ScanFacts FdeFacts SectionFdes SearchFacts.

(** The first entry of a section is a CIE. *)
Definition eh_frame (offset : Z) (d : cie_desc) (rest : list Z) (es : list entry) : list Z :=
  section_bytes offset 0 d (ECie d rest :: es).

Definition placed_fdes (offset : Z) (d : cie_desc) (rest : list Z) (es : list entry) : list placed :=
  section_fdes offset 0 d rest (ECie d rest :: es).

Definition enough_fuel (fuel : nat) (d : cie_desc) (rest : list Z) (es : list entry) : Prop :=
  (10 < fuel)%nat /\ (length es < fuel)%nat /\
  forall d' rest', ECie d' rest' ∈ ECie d rest :: es -> (length (aug_string d') < fuel)%nat.

(** The section after [Init]. *)
Definition listed_section (offset : Z) (d : cie_desc) (rest : list Z) (es : list entry) (s : t) : t :=
  let l := info_of <$> placed_fdes offset d rest es in
  let e := offset + blen (eh_frame offset d rest es) in
  let m := DwarfMemory.set_data_offset offset (DwarfMemory.clear_text_offset (DwarfMemory.clear_func_offset (memory_ s))) in
  set_fdes (merge_sort by_start_end (fdes s ++ l)) (Z.of_nat (length (fdes s ++ l)))
    (move_to e (set_memory (DwarfMemory.set_pc_offset offset m) (set_entries offset e s))).

Lemma init_lists {AT : AddressType} fuel enc seg offset d rest es s :
  stored (raw s) offset (eh_frame offset d rest es) -> section_ok offset 0 None (ECie d rest :: es) ->
  enough_fuel fuel d rest es ->
  Init fuel enc seg offset (blen (eh_frame offset d rest es)) s = Ok (Some (), listed_section offset d rest es s).
Proof.
  intros Hs [Hd Hok] (Hf10 & Hfl & Hf). pose proof (st_start _ _ _ Hs) as Hs0. pose proof (st_end _ _ _ Hs) as Hs1.
  pose proof (blen_nonneg (eh_frame offset d rest es)).
  unfold Init, mbind at 1, op_bind at 1, modify at 1. rewrite uwrap_small by (unfold in_u; lia).
  unfold listed_section, placed_fdes. cbv zeta.
  set (m := DwarfMemory.set_data_offset _ _). set (e := offset + blen (eh_frame offset d rest es)).
  set (s1 := set_memory (DwarfMemory.set_pc_offset offset (DwarfMemory.set_cur_offset offset m)) (set_entries offset e s)).
  match goal with |- CreateSortedFdeList _ _ _ ?x = _ => change x with s1 end.
  unfold CreateSortedFdeList, mbind at 1, op_bind at 1, gets at 1. change (entries_offset s1) with offset.
  unfold mbind at 1, op_bind at 1, seek, modify at 1. 
  match goal with |- (_ ≫= _) ?x = _ => change x with s1 end.
  unfold mbind at 1, op_bind at 1. unfold eh_frame in *. cbn [section_bytes section_fdes] in *.
  assert (0 < blen (cie_entry d rest)).
  { unfold cie_entry. rewrite blen_entry. pose proof (blen_nonneg (le_bytes 4 0 ++ cie_fixed d ++ cie_aug d ++ rest)). lia. }
  rewrite blen_app in *. pose proof (blen_nonneg (section_bytes (offset + blen (cie_entry d rest)) offset d es)).
  assert (e = offset + (blen (cie_entry d rest) + blen (section_bytes (offset + blen (cie_entry d rest)) offset d es))) as He
    by (unfold e; by rewrite blen_app).
  destruct fuel as [|fuel]; [lia|].
  destruct (loop_cie (S fuel) fuel offset 0 enc seg d rest _ s1 eq_refl Hs Hd) as (en & _ & He15 & ->);
    [change (entries_end s1) with e; lia|done|by apply (Hf d rest), list_elem_of_here|].
  rewrite (loop_section (S fuel) fuel es (offset + blen (cie_entry d rest)) offset d en); try done; try lia.
  - unfold modify. rewrite (section_infos_fdes _ _ _ rest).
    cbv zeta. rewrite (Permutation_length (merge_sort_Permutation by_start_end _)). done.
  - by eapply stored_suffix.
  - change (entries_end (move_to _ s1)) with e. lia.
  - intros d' r' Hin. apply (Hf d' r'). by apply list_elem_of_further.
Qed.

(** [GetFdeFromOffset] on a stored FDE that is not cached yet. *)
Lemma get_fde {AT : AddressType} fuel p s :
  placed_ok (raw s) p -> no_lsda (p_cie p) ->
  (has_z (p_cie p) = true -> uleb (fd_aug_length (p_fde p)) (fd_aug_length_bytes (p_fde p))) ->
  (length (aug_string (p_cie p)) < fuel)%nat -> fde_entries s !! p_at p = None -> cie_entries s !! p_cie_at p = None ->
  exists s', GetFdeFromOffset fuel (p_at p) s =
    Ok (Some (fde_at (p_at p) (p_cie_at p) (p_cie p) (p_rest p) (p_fde p)), s').
Proof.
  intros [H1 H2 H3 H4] Hl Hu Hf Hn Hc. unfold GetFdeFromOffset, mbind at 1, op_bind, gets. rewrite Hn.
  unfold mbind at 1, seek, modify at 1. unfold mbind at 1.
  destruct (fill_in_fde fuel (p_at p) (p_cie_at p) (p_cie p) (p_rest p) (p_fde p) (move_to (p_at p) s)) as [c' HF];
    try done; [by left|].
  change (set_memory _ s) with (move_to (p_at p) s). rewrite HF. by eexists.
Qed.

(** Reading a CIE gives back its fields: for 32-bit CIEs of version 1, 3 or 4, with or
    without an augmentation (any sequence of L, R, P and S), numbers in LEB128 encodings
    of any length, at any address of any memory that holds the bytes. *)
Theorem fill_in_cie_roundtrip {AT : AddressType} fuel len d s :
  stored (raw s) (cursor s) (cie_bytes len d) -> cie_ok d -> 0 <= len < 2 ^ 32 - 1 ->
  cursor s + 4 + len < 2 ^ 64 -> blen (cie_bytes len d) <= 4 + len -> (length (aug_string d) < fuel)%nat ->
  FillInCie fuel s =
    Ok (Some (cie_at (cursor s) len d), move_to (cursor s + blen (cie_bytes len d)) s).
Proof. intros Hs Hok Hl He Hb Hf. apply parses_cie; try done. apply Hs. Qed.

(** For an .eh_frame section of CIEs and FDEs with pc-relative 32-bit addresses whose
    functions do not touch, [Init] succeeds and then, for every FDE and every pc of its
    function, [GetFdeFromPc] returns that FDE with the range, the instructions and the
    CIE that were encoded. *)
Theorem eh_frame_find_fde {AT : AddressType} fuel enc seg offset d rest es s :
  stored (raw s) offset (eh_frame offset d rest es) -> section_ok offset 0 None (ECie d rest :: es) ->
  enough_fuel fuel d rest es ->
  fdes s = [] -> fde_entries s = ∅ -> cie_entries s = ∅ ->
  functions_apart (info_of <$> placed_fdes offset d rest es) ->
  exists s1, Init fuel enc seg offset (blen (eh_frame offset d rest es)) s = Ok (Some (), s1) /\
    forall p pc, p ∈ placed_fdes offset d rest es -> no_lsda (p_cie p) ->
      (has_z (p_cie p) = true -> uleb (fd_aug_length (p_fde p)) (fd_aug_length_bytes (p_fde p))) ->
      (length (aug_string (p_cie p)) < fuel)%nat ->
      fd_start (p_fde p) <= pc < fd_start (p_fde p) + fd_length (p_fde p) ->
      exists s2, GetFdeFromPc fuel GetFdeOffsetFromPc pc s1 =
        Ok (Some (fde_at (p_at p) (p_cie_at p) (p_cie p) (p_rest p) (p_fde p)), s2).
Proof.
  intros Hs Hok Hfuel H0 H1 H2 Hap. exists (listed_section offset d rest es s). split; [by apply init_lists|].
  intros p pc Hp Hl Hu Hf Hpc. set (l := info_of <$> placed_fdes offset d rest es) in *.
  set (s1 := listed_section offset d rest es s).
  assert (fdes s1 = merge_sort by_start_end l /\ fde_count s1 = Z.of_nat (length l)) as [HF HC].
  { unfold s1, listed_section. cbv zeta. fold l. rewrite H0. done. }
  assert (info_of p ∈ l) as Hin by by apply list_elem_of_fmap_2.
  assert (length l <> 0%nat) by (destruct l; [by apply elem_of_nil in Hin|done]).
  unfold GetFdeFromPc, mbind at 1, op_bind at 1, GetFdeOffsetFromPc, mbind at 1, op_bind at 1, gets at 1.
  unfold mbind at 1, op_bind at 1, gets at 1. rewrite HF, HC, Nat2Z.id.
  destruct (Z.eqb_spec (Z.of_nat (length l)) 0); [lia|]. cbv zeta.
  rewrite (proj2 (search_sorted pc l (info_of p) Hap)) by (split; [done|cbn; lia]).
  unfold mret, op_ret. change (info_offset (info_of p)) with (p_at p).
  destruct (get_fde fuel p s1) as [s2 HG]; try done.
  - destruct Hok as [Hd Hok].
    eapply (section_fdes_ok (raw s) es (offset + blen (cie_entry d rest)) offset d rest); try done.
    by eapply stored_suffix.
  - unfold s1. cbn. by rewrite H1, lookup_empty.
  - unfold s1. cbn. by rewrite H2, lookup_empty.
  - unfold mbind at 1, op_bind at 1. rewrite HG. cbn [fde_at fde_pc_end].
    destruct (Z.ltb_spec pc (fd_start (p_fde p) + fd_length (p_fde p))); [by eexists|lia].
Qed.
End FormatTheorems.

(** ** Witnesses and concrete sections *)

Module FormatExamples.
Import DwarfSectionImpl Format Pieces CieFormat SectionFormat ScanFacts FdeFacts SectionFdes SearchFacts FormatTheorems.

(** A CIE as compilers write it for x86-64: augmentation zR with pc-relative addresses, CFA
    at register 7 plus 8, return address below it. *)
Definition sample_desc : cie_desc := mkCieDesc 1 (Some [AugR 27]) 0 0 1 [1] (-8) [120] 16 [16] 1 [1].
Definition sample_rest : list Z := [12; 7; 8; 144; 1; 0; 0].
Definition sample_entries : list entry :=
  [EFde (mkFdeDesc 4096 32 0 [0] [0; 0; 0]); EFde (mkFdeDesc 4160 16 0 [0] [0; 0; 0])].

Lemma uleb_byte v : 0 <= v < 128 -> uleb v [v].
Proof.
  intros Hv. refine (Build_uleb v [v] 0%nat _ _ _ _); [|cbn; lia|unfold in_u; lia|lia].
  cbn. by rewrite Z.mod_small.
Qed.

Lemma sample_ok : cie_ok sample_desc.
Proof.
  split.
  - by left.
  - intros items [= <-]. repeat constructor.
  - apply uleb_byte. cbn. lia.
  - refine (Build_sleb (-8) [120] 0%nat eq_refl _ _ _); cbn; lia.
  - done.
  - apply uleb_byte. cbn. lia.
Qed.

Definition sample_bytes : list Z := eh_frame 0 sample_desc sample_rest sample_entries.
Definition sample_section : t := new (DwarfMemory.buffer sample_bytes).

Lemma sample_stored : stored (raw sample_section) 0 sample_bytes.
Proof.
  pose proof (stored_buffer [] sample_bytes []) as H. cbn [app] in H. rewrite app_nil_r in H.
  apply H. vm_compute. reflexivity.
Qed.

Lemma fill_in_cie_roundtrip_witness :
  FillInCie (AT := Addr64) 20 sample_section =
    Ok (Some (cie_at 0 20 sample_desc), move_to (blen (cie_bytes 20 sample_desc)) sample_section).
Proof.
  apply (fill_in_cie_roundtrip (AT := Addr64) 20 20 sample_desc sample_section).
  - apply (stored_prefix _ _ _ (drop (length (cie_bytes 20 sample_desc)) sample_bytes)). exact sample_stored.
  - exact sample_ok.
  - lia.
  - vm_compute. reflexivity.
  - vm_compute. congruence.
  - cbn. lia.
Defined.

Lemma eh_frame_find_fde_witness :
  exists s1, Init (AT := Addr64) 20 0 0 0 (blen sample_bytes) sample_section = Ok (Some (), s1) /\
    exists s2, GetFdeFromPc (AT := Addr64) 20 GetFdeOffsetFromPc 4175 s1 =
      Ok (Some (fde_at 44 0 sample_desc sample_rest (mkFdeDesc 4160 16 0 [0] [0; 0; 0])), s2).
Proof.
  destruct (eh_frame_find_fde (AT := Addr64) 20 0 0 0 sample_desc sample_rest sample_entries sample_section)
    as (s1 & HI & HP).
  - exact sample_stored.
  - assert (cie_entry_ok sample_desc sample_rest) as HC.
    { split; [exact sample_ok| |done|vm_compute; reflexivity].
      exists 27. split; [|done]. apply (enc_R []); constructor. }
    split; [exact HC|]. repeat split; vm_compute; congruence.
  - split; [lia|]. split; [cbn; lia|]. intros d' r' Hin.
    repeat (apply elem_of_cons in Hin as [Hin|Hin]; [inversion Hin; subst; cbn; lia|]). by apply elem_of_nil in Hin.
  - reflexivity.
  - reflexivity.
  - reflexivity.
  - split; [|split].
    + refine (bool_decide_unpack (NoDup (info_of <$> placed_fdes 0 sample_desc sample_rest sample_entries)) _).
      vm_compute. exact I.
    + repeat constructor; vm_compute; congruence.
    + intros a b Ha Hb. vm_compute in Ha, Hb.
      repeat (apply elem_of_cons in Ha as [Ha|Ha]); try (by apply elem_of_nil in Ha);
        repeat (apply elem_of_cons in Hb as [Hb|Hb]); try (by apply elem_of_nil in Hb); subst; intros Hn; first [cbn; lia | exfalso; by apply Hn].
  - exists s1. split; [exact HI|].
    apply (HP (mkPlaced 44 0 sample_desc sample_rest (mkFdeDesc 4160 16 0 [0] [0; 0; 0])) 4175).
    + apply list_elem_of_further, list_elem_of_here.
    + repeat constructor.
    + intros _. apply uleb_byte. cbn. lia.
    + cbn. lia.
    + cbn. lia.
Defined.

(** A section of three functions, each beginning where the one before ends. *)
Definition adjacent_bytes : list Z :=
  eh_frame 0 sample_desc sample_rest
    [EFde (mkFdeDesc 4096 16 0 [0] [0; 0; 0]); EFde (mkFdeDesc 4112 16 0 [0] [0; 0; 0]);
     EFde (mkFdeDesc 4128 16 0 [0] [0; 0; 0])].

Definition lookup_in (bytes : list Z) (pc : Z) : outcome (option Z * DwarfErrorCode) :=
  r ← (_ ← Init (AT := Addr64) 30 0 0 0 (blen bytes);
       fde ← GetFdeFromPc (AT := Addr64) 30 GetFdeOffsetFromPc pc;
       mret (fde_pc_start fde)) (new (DwarfMemory.buffer bytes));
  Ok (r.1, DwarfSection.err_code (core r.2)).

(** The search takes the end of a function for a part of it: the first pc of the third
    function is found in the second one, whose range does not contain it, and has no FDE. *)
Example adjacent_function_not_found :
  lookup_in adjacent_bytes 4128 = Ok (None, DWARF_ERROR_ILLEGAL_STATE) /\
  lookup_in adjacent_bytes 4129 = Ok (Some 4128, DWARF_ERROR_NONE).
Proof. split; vm_compute; reflexivity. Qed.

(** The four zero bytes that end an .eh_frame section are taken for an entry, and reading
    its identifier fails: [Init] rejects the whole section. *)
Example zero_terminator_rejected :
  lookup_in (sample_bytes ++ [0; 0; 0; 0]) 4096 = Ok (None, DWARF_ERROR_MEMORY_INVALID) /\
  lookup_in sample_bytes 4096 = Ok (Some 4096, DWARF_ERROR_NONE).
Proof. split; vm_compute; reflexivity. Qed.

(** A function with three rows: the CFA offset is 8, from pc 4104 on 16, and from 4112 on 8
    again, by DW_CFA_remember_state and DW_CFA_restore_state, its last instruction. *)
Definition rows_bytes : list Z :=
  eh_frame 0 sample_desc sample_rest [EFde (mkFdeDesc 4096 64 0 [0] [10; 72; 14; 16; 72; 11])].

Definition cfa_offset_of (pc : Z) : op (option Z) :=
  row ← row_of (AT := Addr64) 30 GetFdeOffsetFromPc pc;
  mret (value1 <$> (rules row.1 !! CFA_REG)).

Definition cfa_offsets (pcs : list Z) : outcome (option (list (option Z))) :=
  r ← (_ ← Init (AT := Addr64) 30 0 0 0 (blen rows_bytes);
       mapM cfa_offset_of pcs) (new (DwarfMemory.buffer rows_bytes));
  Ok r.1.

(** The row of a pc depends on the lookups before it: the row of pc 4120 is cached with the
    start of the remembered row, 4096, and then used for pc 4106 as well. *)
Example cached_row_of_other_pc :
  cfa_offsets [4106] = Ok (Some [Some 16]) /\
  cfa_offsets [4120; 4106] = Ok (Some [Some 8; Some 8]).
Proof. split; vm_compute; reflexivity. Qed.

(** A CIE with 8-byte addresses: [AdjustPcFromFde] still takes the field to be four bytes
    long, so that the function is listed four bytes too late. *)
Definition wide_desc : cie_desc := mkCieDesc 1 (Some [AugR 28]) 0 0 1 [1] (-8) [120] 16 [16] 1 [1].
Definition wide_bytes : list Z :=
  cie_entry wide_desc sample_rest
  ++ entry_bytes (le_bytes 4 28 ++ le_bytes 8 (4096 - 32) ++ le_bytes 8 16 ++ [0; 0; 0; 0]).

Example wide_addresses_shifted :
  lookup_in wide_bytes 4096 = Ok (None, DWARF_ERROR_NONE) /\
  lookup_in wide_bytes 4112 = Ok (Some 4100, DWARF_ERROR_NONE).
Proof. split; vm_compute; reflexivity. Qed.
End FormatExamples.
