(* ===== verification/UwCfaTable.v ===== *)
(** * libunwindstack: call frame information as a table

    DWARF describes the call frame information of a function as a table with a row for every range of
    program counters: how the canonical frame address is computed and where each register of the caller
    is found.  Here this table is the specification of the interpreter of DwarfCfa.cpp (UwDwarfCfa) and
    of [GetCfaLocationInfo] (UwDwarfSection): instructions as data ([insn]) with their meaning on rows
    ([exec], [run]) and their encodings ([encoded], with LEB128 numbers of any length), and the theorems
    that the bytes are executed to the row of the pc.

    Instructions with expressions are left out of [insn]; their operand is the place of the expression.
    DW_CFA_offset_extended is left out as well: the code does not multiply its offset by the data
    alignment factor ([offset_extended_unfactored] in UwCfaSection). *)

From S2P Require Import Prelude UwDwarfMemory UwDwarfOp UwDwarfCfa UwDwarfEval UwDwarfSection UwDwarfFormat.

Module CfaTable.

(** ** Rows *)

(** Where the value a register had in the caller is found. *)
Inductive rule : Type :=
| Undefined                  (* it cannot be found *)
| SavedAt (offset : Z)       (* in memory, at the CFA plus an offset *)
| IsCfaPlus (offset : Z)     (* it is the CFA plus an offset *)
| InRegister (r : Z).        (* in another register *)

(** A row: the CFA as a register plus an offset; a register without a rule has kept its value. *)
Record row : Type := mkRow { row_cfa : option (Z * Z); row_regs : gmap Z rule }.

Definition set_rule (r : Z) (x : rule) (w : row) : row := mkRow (row_cfa w) (<[r := x]> (row_regs w)).
Definition keep_value (r : Z) (w : row) : row := mkRow (row_cfa w) (delete r (row_regs w)).
Definition set_cfa (r o : Z) (w : row) : row := mkRow (Some (r, o)) (row_regs w).

(** ** Instructions *)

Inductive insn : Type :=
| INop | IArgsSize (n : Z)
| ISetLoc (a : Z) | IAdvance (d : Z) | IAdvance1 (d : Z) | IAdvance2 (d : Z) | IAdvance4 (d : Z)
| IOffset (r n : Z) | IOffsetSf (r n : Z) | IValOffset (r n : Z) | IValOffsetSf (r n : Z)
| IRestore (r : Z) | IRestoreExtended (r : Z) | IUndefined (r : Z) | ISameValue (r : Z) | IRegister (r r' : Z)
| IRemember | IRestoreState
| IDefCfa (r n : Z) | IDefCfaRegister (r : Z) | IDefCfaOffset (n : Z) | IDefCfaSf (r n : Z) | IDefCfaOffsetSf (n : Z).

(** The table under construction: the place in the code, the current row and the remembered ones. *)
Record state : Type := mkState { loc : Z; current : row; stack : list row }.

Definition on_row (f : row -> row) (st : state) : option state := Some (mkState (loc st) (f (current st)) (stack st)).

Section Meaning.
Context {AT : AddressType}.
Variables (caf daf : Z).              (* the alignment factors of the CIE *)
Variable initial : option row.        (* the row of the CIE, for the instructions of an FDE *)

(** A signed number of the target, and a place in its code. *)
Definition fits (z : Z) : bool := (- 2 ^ (abits - 1) <=? z) && (z <? 2 ^ (abits - 1)).
Definition move_loc (a : Z) (st : state) : option state :=
  if (0 <=? a) && (a <? 2 ^ abits) then Some (mkState a (current st) (stack st)) else None.

Definition factored (n : Z) (f : Z -> row -> row) (st : state) : option state :=
  if fits (n * daf) then on_row (f (n * daf)) st else None.

Definition restore (r : Z) (st : state) : option state :=
  match initial with
  | None => None
  | Some w => on_row (match row_regs w !! r with Some x => set_rule r x | None => keep_value r end) st
  end.

(** The meaning of an instruction; [None] when it has none. *)
Definition exec (i : insn) (st : state) : option state :=
  match i with
  | INop | IArgsSize _ => Some st
  | ISetLoc a => move_loc a st
  | IAdvance d | IAdvance1 d | IAdvance2 d | IAdvance4 d => move_loc (loc st + d * caf) st
  | IOffset r n | IOffsetSf r n => factored n (fun o => set_rule r (SavedAt o)) st
  | IValOffset r n | IValOffsetSf r n => factored n (fun o => set_rule r (IsCfaPlus o)) st
  | IRestore r | IRestoreExtended r => restore r st
  | IUndefined r => on_row (set_rule r Undefined) st
  | ISameValue r => on_row (keep_value r) st
  | IRegister r r' => on_row (set_rule r (InRegister r')) st
  | IRemember => Some (mkState (loc st) (current st) (current st :: stack st))
  | IRestoreState =>
      match stack st with
      | [] => None
      | w :: ws => Some (mkState (loc st) w ws)
      end
  | IDefCfa r n => on_row (set_cfa r n) st
  | IDefCfaSf r n => factored n (set_cfa r) st
  | IDefCfaRegister r => match row_cfa (current st) with Some (_, o) => on_row (set_cfa r o) st | None => None end
  | IDefCfaOffset n => match row_cfa (current st) with Some (r, _) => on_row (set_cfa r n) st | None => None end
  | IDefCfaOffsetSf n => match row_cfa (current st) with Some (r, _) => factored n (set_cfa r) st | None => None end
  end.

(** The row of [pc]: the instructions up to the first one that moves behind it. *)
Fixpoint run (pc : Z) (prog : list insn) (st : state) : option state :=
  if pc <? loc st then Some st
  else match prog with
       | [] => Some st
       | i :: prog => match exec i st with Some st => run pc prog st | None => None end
       end.
End Meaning.

(** The instructions of a CIE: they have no place and remember nothing. *)
Definition is_initial (i : insn) : bool :=
  match i with
  | ISetLoc _ | IAdvance _ | IAdvance1 _ | IAdvance2 _ | IAdvance4 _ | IRemember | IRestoreState => false
  | _ => true
  end.

Definition no_rules : row := mkRow None ∅.

Section Tables.
Context {AT : AddressType}.
Variables (caf daf : Z) (cie_prog : list insn).

(** The row of the CIE, and the row of [pc] in the table of a function that begins at [start]. *)
Definition initial_row : option row := current <$> run caf daf None 0 cie_prog (mkState 0 no_rules []).

Definition state_at (start : Z) (fde_prog : list insn) (pc : Z) : option state :=
  match initial_row with
  | None => None
  | Some w => run caf daf (Some w) pc fde_prog (mkState start w [])
  end.

Definition row_at (start : Z) (fde_prog : list insn) (pc : Z) : option row := current <$> state_at start fde_prog pc.
End Tables.

(** A program whose rows lie one after the other, and that does not end with DW_CFA_restore_state
    (the code gives the row after it a wrong start: [restore_state_stale_start] in UwDwarfCfa). *)
Definition forward (i : insn) : bool := match i with ISetLoc _ => false | _ => true end.
Definition in_order (prog : list insn) : Prop := Forall (fun i => forward i = true) prog /\ last prog <> Some IRestoreState.

(** ** Encodings *)

Section Encoding.
Context {AT : AddressType}.
Import Pieces.

Definition reg_ok (r : Z) : Prop := 0 <= r < CFA_REG.
(** An unsigned operand that is a number of the target. *)
Definition small (n : Z) : Prop := 0 <= n < 2 ^ (abits - 1).

Inductive encoded : insn -> list Z -> Prop :=
| e_nop : encoded INop [0]
| e_args n x : uleb n x -> encoded (IArgsSize n) (46 :: x)
| e_set_loc a : 0 <= a < 2 ^ abits -> encoded (ISetLoc a) (1 :: le_bytes (Z.to_nat asz) a)
| e_advance d : 0 <= d < 64 -> encoded (IAdvance d) [64 + d]
| e_advance1 d : 0 <= d < 2 ^ 8 -> encoded (IAdvance1 d) (2 :: le_bytes 1 d)
| e_advance2 d : 0 <= d < 2 ^ 16 -> encoded (IAdvance2 d) (3 :: le_bytes 2 d)
| e_advance4 d : 0 <= d < 2 ^ 32 -> encoded (IAdvance4 d) (4 :: le_bytes 4 d)
| e_offset r n x : 0 <= r < 64 -> uleb n x -> small n -> encoded (IOffset r n) (128 + r :: x)
| e_offset_sf r n x y : reg_ok r -> uleb r x -> sleb n y -> fits n = true -> encoded (IOffsetSf r n) (17 :: x ++ y)
| e_val_offset r n x y : reg_ok r -> uleb r x -> uleb n y -> small n -> encoded (IValOffset r n) (20 :: x ++ y)
| e_val_offset_sf r n x y : reg_ok r -> uleb r x -> sleb n y -> fits n = true -> encoded (IValOffsetSf r n) (21 :: x ++ y)
| e_restore r : 0 <= r < 64 -> encoded (IRestore r) [192 + r]
| e_restore_extended r x : reg_ok r -> uleb r x -> encoded (IRestoreExtended r) (6 :: x)
| e_undefined r x : reg_ok r -> uleb r x -> encoded (IUndefined r) (7 :: x)
| e_same_value r x : reg_ok r -> uleb r x -> encoded (ISameValue r) (8 :: x)
| e_register r r' x y : reg_ok r -> reg_ok r' -> uleb r x -> uleb r' y -> encoded (IRegister r r') (9 :: x ++ y)
| e_remember : encoded IRemember [10]
| e_restore_state : encoded IRestoreState [11]
| e_def_cfa r n x y : reg_ok r -> uleb r x -> uleb n y -> small n -> encoded (IDefCfa r n) (12 :: x ++ y)
| e_def_cfa_register r x : reg_ok r -> uleb r x -> encoded (IDefCfaRegister r) (13 :: x)
| e_def_cfa_offset n x : uleb n x -> small n -> encoded (IDefCfaOffset n) (14 :: x)
| e_def_cfa_sf r n x y : reg_ok r -> uleb r x -> sleb n y -> fits n = true -> encoded (IDefCfaSf r n) (18 :: x ++ y)
| e_def_cfa_offset_sf n x : sleb n x -> fits n = true -> encoded (IDefCfaOffsetSf n) (19 :: x).

(** A sequence of instructions. *)
Inductive program : list insn -> list Z -> Prop :=
| p_nil : program [] []
| p_cons i prog x bs : encoded i x -> program prog bs -> program (i :: prog) (x ++ bs).
End Encoding.

(** ** Rows as the code keeps them *)

Definition location_of (x : rule) : DwarfLocation :=
  match x with
  | Undefined => mkLoc DWARF_LOCATION_UNDEFINED 0 0
  | SavedAt o => mkLoc DWARF_LOCATION_OFFSET (u64 o) 0
  | IsCfaPlus o => mkLoc DWARF_LOCATION_VAL_OFFSET (u64 o) 0
  | InRegister r => mkLoc DWARF_LOCATION_REGISTER r 0
  end.

Definition rules_of (w : row) : gmap Z DwarfLocation :=
  match row_cfa w with
  | None => location_of <$> row_regs w
  | Some (r, o) => <[CFA_REG := mkLoc DWARF_LOCATION_REGISTER r (u64 o)]> (location_of <$> row_regs w)
  end.

(** The key of the CFA is not that of a register. *)
Definition row_ok (w : row) : Prop := row_regs w !! CFA_REG = None.
End CfaTable.

(** ** Executing an encoded instruction *)

Module CfaExec.
Import DwarfCfa Format Pieces CfaTable.
Import DwarfOp(abits_pos).

Section Numbers.
Context {AT : AddressType}.

Lemma abits_cases : abits = 32 \/ abits = 64.
Proof. unfold abits. destruct asz_cases as [-> | ->]; [by left|by right]. Qed.

Lemma fits_range z : fits z = true <-> - 2 ^ (abits - 1) <= z < 2 ^ (abits - 1).
Proof. unfold fits. rewrite andb_true_iff, Z.leb_le, Z.ltb_lt. done. Qed.

Lemma fits_64 z : fits z = true -> - 2 ^ 63 <= z < 2 ^ 63.
Proof. rewrite fits_range. destruct abits_cases as [-> | ->]; lia. Qed.

Lemma aw_small z : 0 <= z < 2 ^ abits -> aw z = z.
Proof. intros Hz. by apply uwrap_small. Qed.

Lemma aw_reg r : 0 <= r <= CFA_REG -> aw r = r.
Proof. intros Hr. apply aw_small. unfold CFA_REG in Hr. destruct abits_cases as [-> | ->]; lia. Qed.

Lemma u32_reg r : 0 <= r <= CFA_REG -> u32 r = r.
Proof. intros Hr. apply uwrap_small. unfold in_u, CFA_REG in *. lia. Qed.

Lemma small_fits n : small n -> fits n = true.
Proof. unfold small. rewrite fits_range. pose proof abits_pos. assert (0 < 2 ^ (abits - 1)) by (apply Z.pow_pos_nonneg; lia). lia. Qed.

Lemma aw_of_small n : small n -> aw n = n.
Proof. unfold small. intros Hn. apply aw_small. destruct abits_cases as [E|E]; rewrite E in *; lia. Qed.

(** A signed number survives the 64-bit operand and the width of the target. *)
Lemma signed_operand n : fits n = true -> as_signed (aw (u64 n)) = n.
Proof.
  intros Hn. pose proof Hn as Hr%fits_range. unfold as_signed, aw. rewrite swrap_uwrap by apply abits_pos.
  assert (swrap abits (u64 n) = swrap abits n) as ->; [|apply swrap_small; [apply abits_pos|done]].
  destruct abits_cases as [E|E]; rewrite E.
  - rewrite <- (swrap_uwrap 32 (u64 n)) by lia. unfold uwrap. rewrite <- (Znumtheory.Zmod_div_mod (2 ^ 32) (2 ^ 64) n); [|lia|lia|by exists (2 ^ 32)].
    by apply swrap_uwrap.
  - by apply swrap_uwrap.
Qed.

Lemma scaled_fits fde x n :
  as_signed x = n -> fits (n * data_alignment_factor (fde_cie fde)) = true ->
  scaled fde x = Ok (u64 (n * data_alignment_factor (fde_cie fde))).
Proof.
  intros Hx Hf. unfold scaled. rewrite Hx. set (p := n * _) in *. pose proof (fits_64 p Hf). pose proof Hf as Hr%fits_range.
  destruct (Z.leb_spec (- 2 ^ 63) p); [|lia]. destruct (Z.ltb_spec p (2 ^ 63)); [|lia]. cbn [andb].
  rewrite swrap_small; [done|apply abits_pos|done].
Qed.
End Numbers.

(** ** Operands *)

Section Operands.
Context {AT : AddressType}.

Lemma reads_encoded c bs e m v :
  DwarfMemory.read_encoded_data e = m -> Z.land e 112 = 0 -> e <> DW_EH_PE_omit -> e <> DW_EH_PE_aligned ->
  reads c bs m v -> reads c bs (DwarfMemory.ReadEncodedValue e) v.
Proof.
  intros Hm He H1 H2 Hr d Hc Hs. unfold DwarfMemory.ReadEncodedValue. destruct (Z.eqb_spec e DW_EH_PE_omit); [done|].
  destruct (Z.eqb_spec e DW_EH_PE_aligned); [done|]. rewrite Hm, He. unfold DwarfMemory.rbind. rewrite (Hr d Hc Hs), bind_Ok. done.
Qed.

Lemma reads_op_uleb c v bs : uleb v bs -> reads c bs (DwarfMemory.ReadEncodedValue DW_EH_PE_uleb128) v.
Proof. intros H. eapply reads_encoded; [done|done|done|done|]. by apply reads_uleb. Qed.

Lemma reads_op_sleb c v bs : sleb v bs -> reads c bs (DwarfMemory.ReadEncodedValue DW_EH_PE_sleb128) (u64 v).
Proof. intros H. eapply reads_encoded; [done|done|done|done|]. apply (reads_map c bs _ u64 v). by apply reads_sleb. Qed.

Lemma reads_op_udata e n c v :
  DwarfMemory.read_encoded_data e = DwarfMemory.ReadUnsigned (Z.of_nat n) -> Z.land e 112 = 0 -> e <> DW_EH_PE_omit -> e <> DW_EH_PE_aligned ->
  0 <= v < 2 ^ (8 * Z.of_nat n) -> reads c (le_bytes n v) (DwarfMemory.ReadEncodedValue e) v.
Proof.
  intros Hm H1 H2 H3 Hv. eapply reads_encoded; [done..|]. rewrite <- (Z.mod_small v (2 ^ (8 * Z.of_nat n))) at 2 by done. apply reads_unsigned.
Qed.

(** The operands [vs] of the encodings [es], in the bytes [bs] at [c]. *)
Inductive operands_at : Z -> list Z -> list Z -> list Z -> Prop :=
| o_nil c : operands_at c [] [] []
| o_cons c e es v vs x bs :
    e <> DW_EH_PE_block -> reads c x (DwarfMemory.ReadEncodedValue e) v -> operands_at (c + blen x) es vs bs ->
    operands_at c (e :: es) (v :: vs) (x ++ bs).

Lemma o_one c e v x : e <> DW_EH_PE_block -> reads c x (DwarfMemory.ReadEncodedValue e) v -> operands_at c [e] [v] x.
Proof. intros H1 H2. rewrite <- (app_nil_r x). apply o_cons; [done|done|constructor]. Qed.

(** The cursor of the machine moved to [c]. *)
Definition at_cursor (c : Z) (s : t) : t := set_dm (DwarfMemory.set_cur_offset c (dm s)) s.
Definition mem (s : t) : Memory := DwarfMemory.memory_ (dm s).

Lemma read_operands_at c es vs bs : operands_at c es vs bs -> forall s,
  DwarfCfa.cursor s = c -> stored (mem s) c bs ->
  read_operands es s = Ok (true, set_operands (operands s ++ (aw <$> vs)) (at_cursor (c + blen bs) s)).
Proof.
  induction 1 as [c|c e es v vs x bs He Hr Ho IH]; intros s Hc Hs; cbn [read_operands].
  - rewrite app_nil_r, blen_nil, Z.add_0_r, <- Hc. destruct s as [[] ]; done.
  - destruct (Z.eqb_spec e DW_EH_PE_block); [done|]. rewrite (Hr (dm s) Hc) by by eapply stored_prefix. rewrite bind_Ok. cbn [fst snd].
    rewrite IH; [|done|by eapply stored_suffix]. cbn [operands set_operands set_dm at_cursor]. rewrite <- app_assoc, blen_app, Z.add_assoc. done.
Qed.
End Operands.

(** ** Rows under the operations of the code *)

Section Rows.

Lemma rules_of_set r x w : r <> CFA_REG -> rules_of (CfaTable.set_rule r x w) = <[r := location_of x]> (rules_of w).
Proof.
  intros Hr. unfold rules_of, CfaTable.set_rule. cbn. rewrite fmap_insert. destruct (row_cfa w) as [[r0 o]|]; [|done].
  by rewrite insert_insert_ne by done.
Qed.

Lemma rules_of_keep r w : r <> CFA_REG -> rules_of (keep_value r w) = delete r (rules_of w).
Proof.
  intros Hr. unfold rules_of, keep_value. cbn. rewrite fmap_delete. destruct (row_cfa w) as [[r0 o]|]; [|done].
  by rewrite delete_insert_ne by done.
Qed.

Lemma rules_of_cfa r o w : rules_of (CfaTable.set_cfa r o w) = <[CFA_REG := mkLoc DWARF_LOCATION_REGISTER r (u64 o)]> (rules_of w).
Proof.
  unfold rules_of, CfaTable.set_cfa. cbn. destruct (row_cfa w) as [[r0 o0]|]; [|done]. by rewrite insert_insert_eq.
Qed.

Lemma rules_of_reg r w : r <> CFA_REG -> rules_of w !! r = location_of <$> row_regs w !! r.
Proof.
  intros Hr. unfold rules_of. destruct (row_cfa w) as [[r0 o]|]; [rewrite lookup_insert_ne by done|]; by rewrite lookup_fmap.
Qed.

Lemma rules_of_cfa_reg w : row_ok w -> rules_of w !! CFA_REG = (fun '(r, o) => mkLoc DWARF_LOCATION_REGISTER r (u64 o)) <$> row_cfa w.
Proof.
  intros Hw. unfold rules_of. destruct (row_cfa w) as [[r0 o]|]; [by rewrite lookup_insert_eq|]. by rewrite lookup_fmap, Hw.
Qed.

(** The state of the machine holds the table under construction. *)
Record matches (st : CfaTable.state) (s : t) : Prop := mkMatches {
  m_loc : cur_pc s = loc st;
  m_row : rules (loc_regs s) = rules_of (current st);
  m_stack : rules <$> loc_reg_state s = rules_of <$> stack st;
  m_ok : row_ok (current st);
  m_oks : Forall row_ok (stack st)
}.

(** The result of a handler: the machine holds [st] and the cursor has not moved. *)
Definition yields (st : CfaTable.state) (m : DwarfMemory.t) (r : result) : Prop :=
  exists s, r = Ok (true, s) /\ matches st s /\ dm s = m.

Lemma yields_row f st st' s s' m :
  on_row f st = Some st' -> matches st s -> row_ok (f (current st)) -> cur_pc s' = cur_pc s -> loc_reg_state s' = loc_reg_state s ->
  rules (loc_regs s') = rules_of (f (current st)) -> dm s' = m -> yields st' m (succeed s').
Proof.
  intros [= <-] [H1 H2 H3 H4 H5] Hf Hp Hl Hr Hm. exists s'. split; [done|]. split; [|done]. split; cbn; [by rewrite Hp|done|by rewrite Hl|done|done].
Qed.

Lemma yields_set r x st st' s m :
  on_row (CfaTable.set_rule r x) st = Some st' -> matches st s -> reg_ok r -> dm s = m ->
  yields st' m (succeed (DwarfCfa.set_rule r (location_of x) s)).
Proof.
  intros He Hm Hr Hd. assert (r <> CFA_REG) by (unfold reg_ok in Hr; lia). eapply yields_row; [exact He|exact Hm| |done|done| |exact Hd].
  - unfold row_ok. cbn. rewrite lookup_insert_ne by done. apply Hm.
  - rewrite rules_of_set by done. cbn. rewrite u32_reg by (unfold reg_ok in Hr; lia). by rewrite (m_row _ _ Hm).
Qed.

Lemma yields_keep r st st' s m :
  on_row (keep_value r) st = Some st' -> matches st s -> reg_ok r -> dm s = m -> yields st' m (succeed (erase_rule r s)).
Proof.
  intros He Hm Hr Hd. assert (r <> CFA_REG) by (unfold reg_ok in Hr; lia). eapply yields_row; [exact He|exact Hm| |done|done| |exact Hd].
  - unfold row_ok. cbn. rewrite lookup_delete_ne by done. apply Hm.
  - rewrite rules_of_keep by done. cbn. rewrite u32_reg by (unfold reg_ok in Hr; lia). by rewrite (m_row _ _ Hm).
Qed.

Lemma yields_cfa r o v st st' s m :
  on_row (CfaTable.set_cfa r o) st = Some st' -> matches st s -> u64 o = v -> dm s = m ->
  yields st' m (succeed (DwarfCfa.set_rule CFA_REG (mkLoc DWARF_LOCATION_REGISTER r v) s)).
Proof.
  intros He Hm <- Hd. eapply yields_row; [exact He|exact Hm|apply Hm|done|done| |exact Hd].
  rewrite rules_of_cfa. cbn. by rewrite (m_row _ _ Hm).
Qed.

Lemma cfa_rule st s r o : matches st s -> row_cfa (current st) = Some (r, o) -> cfa_register_rule s = Some (mkLoc DWARF_LOCATION_REGISTER r (u64 o)).
Proof.
  intros Hm Hc. unfold cfa_register_rule. rewrite (m_row _ _ Hm), rules_of_cfa_reg by apply Hm. by rewrite Hc.
Qed.
End Rows.

(** ** One instruction *)

Lemma le_val_byte b : le_val [b] = b.
Proof. cbn. lia. Qed.

Section Instruction.
Context {AT : AddressType}.
Variable fde : DwarfFde.
Variable initial : option row.
Let caf : Z := code_alignment_factor (fde_cie fde).
Let daf : Z := data_alignment_factor (fde_cie fde).
Let cie : option (gmap Z DwarfLocation) := rules_of <$> initial.
Hypothesis caf_range : 0 <= caf < 2 ^ 32.

(** Reading the first byte, which has two high bits [k]. *)
Lemma first_byte b bs s :
  stored (mem s) (DwarfCfa.cursor s) (b :: bs) ->
  DwarfMemory.ReadBytes 1 (dm s) = Ok (Some [b], DwarfMemory.set_cur_offset (DwarfCfa.cursor s + 1) (dm s)).
Proof. intros Hs. apply (reads_bytes (DwarfCfa.cursor s) [b] 1 eq_refl (dm s) eq_refl). by apply (stored_prefix _ _ [b] bs). Qed.

Lemma matches_start st s c os : matches st s -> matches st (set_operands os (at_cursor c (set_start (cur_pc s) s))).
Proof. by intros []. Qed.

(** An instruction of the table. *)
Lemma via_table st st' op h es vs bs s :
  0 <= op < 64 -> kCallbackTable !! Z.to_nat op = Some (Some h) -> kTable !! Z.to_nat op = Some es ->
  operands_at (DwarfCfa.cursor s + 1) es vs bs -> stored (mem s) (DwarfCfa.cursor s) (op :: bs) -> matches st s ->
  (forall s1, matches st s1 -> operands s1 = aw <$> vs -> yields st' (dm s1) (handle fde cie h s1)) ->
  yields st' (DwarfMemory.set_cur_offset (DwarfCfa.cursor s + blen (op :: bs)) (dm s)) (instruction fde cie s).
Proof.
  intros Hop Hh He Ho Hs Hm Hk. unfold instruction. change (dm (set_operands _ _)) with (dm s). rewrite (first_byte op bs s Hs), bind_Ok. cbn [fst snd].
  rewrite le_val_byte. change 63 with (Z.ones 6). rewrite Z.land_ones, Z.mod_small by lia. rewrite Z.shiftr_div_pow2, Z.div_small by lia.
  change (0 =? 1) with false. change (0 =? 2) with false. change (0 =? 3) with false. cbv iota. rewrite Hh, He.
  rewrite (read_operands_at _ _ _ _ Ho); [|done|by apply (stored_suffix _ _ [op] bs)]. rewrite bind_Ok. cbn [fst snd negb operands set_operands set_dm app].
  rewrite blen_cons, Z.add_assoc.
  apply (Hk (set_operands (aw <$> vs) (at_cursor (DwarfCfa.cursor s + 1 + blen bs) (set_start (cur_pc s) s)))); [by apply matches_start|done].
Qed.

(** The short forms. *)
Lemma via_high st st' k low bs s :
  1 <= k <= 3 -> 0 <= low < 64 -> stored (mem s) (DwarfCfa.cursor s) (64 * k + low :: bs) -> matches st s ->
  (forall s1, matches st s1 -> dm s1 = DwarfMemory.set_cur_offset (DwarfCfa.cursor s + 1) (dm s) ->
     yields st' (DwarfMemory.set_cur_offset (DwarfCfa.cursor s + blen (64 * k + low :: bs)) (dm s))
       (if k =? 1 then succeed (set_pc (aw (cur_pc s1 + u64 (low * caf))) s1)
        else if k =? 2 then
          r ← DwarfMemory.ReadULEB128 (dm s1);
          let s := set_dm r.2 s1 in
          match r.1 with
          | None => fail_memory s
          | Some offset => v ← scaled fde (aw offset); succeed (DwarfCfa.set_rule low (mkLoc DWARF_LOCATION_OFFSET v 0) s)
          end
        else restore_rule cie low s1)) ->
  yields st' (DwarfMemory.set_cur_offset (DwarfCfa.cursor s + blen (64 * k + low :: bs)) (dm s)) (instruction fde cie s).
Proof.
  intros Hk Hl Hs Hm HK. unfold instruction. change (dm (set_operands _ _)) with (dm s). rewrite (first_byte _ bs s Hs), bind_Ok. cbn [fst snd].
  rewrite le_val_byte. change 63 with (Z.ones 6). rewrite Z.land_ones by lia. rewrite Z.shiftr_div_pow2 by lia. change (2 ^ 6) with 64.
  assert ((64 * k + low) mod 64 = low) as -> by (rewrite Z.add_comm, Z.mul_comm, Z.mod_add, Z.mod_small; lia).
  assert ((64 * k + low) / 64 = k) as -> by (rewrite Z.add_comm, Z.mul_comm, Z.div_add, Z.div_small; lia).
  specialize (HK (set_operands [] (at_cursor (DwarfCfa.cursor s + 1) (set_start (cur_pc s) s))) (matches_start _ _ _ _ Hm) eq_refl).
  destruct (Z.eqb_spec k 1); [exact HK|]. destruct (Z.eqb_spec k 2); [exact HK|]. destruct (Z.eqb_spec k 3); [exact HK|lia].
Qed.

Lemma yields_move a st st' s : move_loc a st = Some st' -> matches st s -> yields st' (dm s) (succeed (set_pc (aw a) s)).
Proof.
  intros He []. unfold move_loc in He. destruct (_ && _) eqn:E; [|done]. injection He as <-.
  rewrite aw_small by lia. eexists. split; [done|]. by split.
Qed.

Lemma yields_advance d st st' s :
  move_loc (loc st + d * caf) st = Some st' -> matches st s -> 0 <= d < 2 ^ 32 ->
  yields st' (dm s) (succeed (set_pc (aw (cur_pc s + u64 (d * caf))) s)).
Proof. intros He Hm Hd. rewrite (m_loc _ _ Hm), uwrap_small by (unfold in_u; nia). by apply (yields_move _ st). Qed.

Lemma yields_restore r st st' s : restore initial r st = Some st' -> matches st s -> reg_ok r -> yields st' (dm s) (restore_rule cie r s).
Proof.
  intros He Hm Hr. assert (r <> CFA_REG) by (unfold reg_ok in Hr; lia). unfold restore in He. unfold restore_rule, cie.
  destruct initial as [w|]; [|done]. cbn [fmap option_fmap option_map]. rewrite u32_reg by (unfold reg_ok in Hr; lia). rewrite rules_of_reg by done.
  destruct (row_regs w !! r) as [x|]; cbn; [by apply (yields_set r x st)|by apply (yields_keep r st)].
Qed.

(** The operands of a handler. *)
Lemma operand_0 s v vs : operands s = aw <$> v :: vs -> operand s 0 = Ok (aw v).
Proof. intros H. unfold operand. by rewrite H. Qed.
Lemma operand_1 s v v1 vs : operands s = aw <$> v :: v1 :: vs -> operand s 1 = Ok (aw v1).
Proof. intros H. unfold operand. by rewrite H. Qed.

Lemma aw_reg_ok r : reg_ok r -> aw r = r.
Proof. intros Hr. apply aw_reg. unfold reg_ok in Hr. lia. Qed.

(** A factored offset. *)
Lemma factored_ok n f st st' x :
  factored daf n f st = Some st' -> as_signed x = n -> scaled fde x = Ok (u64 (n * daf)) /\ on_row (f (n * daf)) st = Some st'.
Proof. unfold factored. destruct (fits (n * daf)) eqn:E; [|done]. intros He Hx. split; [by apply scaled_fits|done]. Qed.

Lemma signed_small n : small n -> as_signed (aw n) = n.
Proof.
  intros Hn. unfold as_signed, aw. rewrite swrap_uwrap by apply abits_pos. apply swrap_small; [apply abits_pos|].
  by apply fits_range, small_fits.
Qed.

Lemma u64_small n : small n -> u64 n = n.
Proof. intros Hn. pose proof (fits_64 n (small_fits n Hn)). unfold small in Hn. apply uwrap_small. unfold in_u. lia. Qed.

Lemma o_set_loc a c : 0 <= a < 2 ^ abits -> operands_at c [DW_EH_PE_absptr] [a] (le_bytes (Z.to_nat asz) a).
Proof.
  intros Ha. apply o_one; [done|]. assert (Z.of_nat (Z.to_nat asz) = asz) as E by (destruct asz_cases; lia).
  apply reads_op_udata; [by rewrite E|done|done|done|]. by rewrite E.
Qed.

Lemma o_advance n e c d :
  (n, e) ∈ [(1%nat, DW_EH_PE_udata1); (2%nat, DW_EH_PE_udata2); (4%nat, DW_EH_PE_udata4)] ->
  0 <= d < 2 ^ (8 * Z.of_nat n) -> operands_at c [e] [d] (le_bytes n d).
Proof.
  rewrite list_elem_of_In. intros [[= <- <-]|[[= <- <-]|[[= <- <-]|[]]]] Hd; (apply o_one; [done|]); by apply reads_op_udata.
Qed.

(** The operands of an instruction of the table, and its handler. *)
Ltac operand_read :=
  lazymatch goal with
  | |- reads _ _ (DwarfMemory.ReadEncodedValue DW_EH_PE_uleb128) _ => by apply reads_op_uleb
  | |- reads _ _ (DwarfMemory.ReadEncodedValue DW_EH_PE_sleb128) _ => by apply reads_op_sleb
  end.
Ltac operands_read :=
  first [by constructor | by apply o_set_loc | apply o_one; [done|operand_read] | apply o_cons; [done|operand_read|apply o_one; [done|operand_read]]].
Ltac take_operands :=
  match goal with
  | H : operands ?s = aw <$> [_; _] |- _ => rewrite ?(operand_0 _ _ _ H), ?bind_Ok, ?(operand_1 _ _ _ _ H), ?bind_Ok
  | H : operands ?s = aw <$> [_] |- _ => rewrite ?(operand_0 _ _ _ H), ?bind_Ok
  | _ => idtac
  end.
Ltac handler :=
  unfold cfa_set_loc, cfa_advance_loc, cfa_restore, cfa_undefined, cfa_same_value, cfa_register, cfa_def_cfa, cfa_def_cfa_sf, cfa_offset_extended_sf,
    cfa_val_offset, cfa_val_offset_sf;
  take_operands.
Ltac from_table :=
  eapply via_table; [lia|reflexivity|reflexivity|operands_read|done|done|];
  let s1 := fresh "s1" in let H1 := fresh "H1" in let H2 := fresh "H2" in intros s1 H1 H2; cbn [handle]; handler; rewrite ?aw_reg_ok by done.

Lemma advance_yields op n e d st st' s :
  (op, n, e) ∈ [(2, 1%nat, DW_EH_PE_udata1); (3, 2%nat, DW_EH_PE_udata2); (4, 4%nat, DW_EH_PE_udata4)] ->
  0 <= d < 2 ^ (8 * Z.of_nat n) -> move_loc (loc st + d * caf) st = Some st' ->
  matches st s -> stored (mem s) (DwarfCfa.cursor s) (op :: le_bytes n d) ->
  yields st' (DwarfMemory.set_cur_offset (DwarfCfa.cursor s + blen (op :: le_bytes n d)) (dm s)) (instruction fde cie s).
Proof.
  intros Hop Hd He Hm Hs.
  assert (0 <= d < 2 ^ 32 /\ 0 <= op < 64 /\ kCallbackTable !! Z.to_nat op = Some (Some h_advance_loc) /\ kTable !! Z.to_nat op = Some [e] /\
          operands_at (DwarfCfa.cursor s + 1) [e] [d] (le_bytes n d)) as (Hd' & Ho & Ht & Hk & Hr).
  { apply list_elem_of_In in Hop as [[= <- <- <-]|[[= <- <- <-]|[[= <- <- <-]|[]]]];
      (split; [lia|]; split; [lia|]; split; [done|]; split; [done|]; apply o_advance; [set_solver|done]). }
  eapply via_table; [done|exact Ht|exact Hk|exact Hr|done|done|]. intros s1 H1 H2. cbn [handle]. handler.
  rewrite (aw_small d) by (destruct abits_cases as [-> | ->]; lia). by apply (yields_advance d st).
Qed.

Lemma blen_one (b : Z) : blen [b] = 1.
Proof. done. Qed.

Lemma short_offset_yields r n x st st' s :
  0 <= r < 64 -> uleb n x -> small n -> factored daf n (fun o => CfaTable.set_rule r (SavedAt o)) st = Some st' ->
  matches st s -> stored (mem s) (DwarfCfa.cursor s) (128 + r :: x) ->
  yields st' (DwarfMemory.set_cur_offset (DwarfCfa.cursor s + blen (128 + r :: x)) (dm s)) (instruction fde cie s).
Proof.
  intros Hr Hx Hn He Hm Hs. apply (via_high st st' 2 r x s); [lia|done|done|done|]. intros s1 H1 H2. change (2 =? 1) with false. change (2 =? 2) with true.
  cbv iota. rewrite (reads_uleb (DwarfCfa.cursor s + 1) n x Hx (dm s1)).
  - rewrite bind_Ok. cbn [fst snd]. destruct (factored_ok _ _ _ _ _ He (signed_small _ Hn)) as [-> Hf]. rewrite bind_Ok.
    assert (reg_ok r) by (unfold reg_ok, CFA_REG; lia). apply (yields_set r _ st _ _ _ Hf); [by destruct H1|done|].
    cbn [dm set_dm]. rewrite H2, blen_cons, Z.add_assoc. done.
  - by rewrite H2.
  - rewrite H2. by apply (stored_suffix _ _ [128 + r] x).
Qed.

Lemma remember_yields st s :
  matches st s -> yields (mkState (loc st) (current st) (current st :: stack st)) (dm s) (cfa_remember_state s).
Proof.
  intros [H1 H2 H3 H4 H5]. eexists. split; [done|]. split; [|done]. split; cbn; [done|done|by rewrite H2, H3|done|by constructor].
Qed.

Lemma restore_state_yields st st' s : exec caf daf initial IRestoreState st = Some st' -> matches st s -> yields st' (dm s) (cfa_restore_state s).
Proof.
  cbn [exec]. intros He [H1 H2 H3 H4 H5]. destruct (stack st) as [|w ws]; [done|]. injection He as <-. unfold cfa_restore_state.
  destruct (loc_reg_state s) as [|l ls]; [done|]. injection H3 as Hw Hws. apply Forall_cons in H5 as [Hok Hoks].
  eexists. split; [done|]. split; [|done]. by split.
Qed.

(** The instructions that change one half of the CFA rule. *)
Lemma def_cfa_register_yields r st st' s :
  exec caf daf initial (IDefCfaRegister r) st = Some st' -> matches st s -> reg_ok r -> operands s = aw <$> [r] ->
  yields st' (dm s) (cfa_def_cfa_register s).
Proof.
  cbn [exec]. intros He Hm Hr Ho. destruct (row_cfa (current st)) as [[r0 o]|] eqn:E; [|done]. unfold cfa_def_cfa_register.
  rewrite (cfa_rule st s r0 o Hm E). take_operands. rewrite aw_reg_ok by done. by apply (yields_cfa r o _ st).
Qed.

Lemma def_cfa_offset_yields n st st' s :
  exec caf daf initial (IDefCfaOffset n) st = Some st' -> matches st s -> small n -> operands s = aw <$> [n] ->
  yields st' (dm s) (cfa_def_cfa_offset s).
Proof.
  cbn [exec]. intros He Hm Hn Ho. destruct (row_cfa (current st)) as [[r0 o]|] eqn:E; [|done]. unfold cfa_def_cfa_offset.
  rewrite (cfa_rule st s r0 o Hm E). take_operands. rewrite aw_of_small by done. apply (yields_cfa r0 n _ st); [done|done|by apply u64_small|done].
Qed.

Lemma def_cfa_offset_sf_yields n st st' s :
  exec caf daf initial (IDefCfaOffsetSf n) st = Some st' -> matches st s -> fits n = true -> operands s = aw <$> [u64 n] ->
  yields st' (dm s) (cfa_def_cfa_offset_sf fde s).
Proof.
  cbn [exec]. intros He Hm Hn Ho. destruct (row_cfa (current st)) as [[r0 o]|] eqn:E; [|done]. unfold cfa_def_cfa_offset_sf.
  rewrite (cfa_rule st s r0 o Hm E). take_operands. destruct (factored_ok _ _ _ _ _ He (signed_operand _ Hn)) as [-> Hf]. rewrite bind_Ok.
  by apply (yields_cfa r0 (n * daf) _ st).
Qed.

(** A factored operand: the value that is stored, and the row. *)
Ltac factor H :=
  let Hf := fresh "Hf" in
  first [destruct (factored_ok _ _ _ _ _ H (signed_operand _ ltac:(eassumption))) as [-> Hf]
        |destruct (factored_ok _ _ _ _ _ H (signed_small _ ltac:(eassumption))) as [-> Hf]];
  clear H; rename Hf into H; rewrite bind_Ok.

(** Every encoded instruction is executed as the table says. *)
Lemma instruction_yields i bs st st' s :
  encoded i bs -> exec caf daf initial i st = Some st' -> matches st s -> stored (mem s) (DwarfCfa.cursor s) bs ->
  yields st' (DwarfMemory.set_cur_offset (DwarfCfa.cursor s + blen bs) (dm s)) (instruction fde cie s).
Proof.
  intros HE He Hm Hs. destruct HE; try (cbn [exec] in He).
  - from_table. injection He as <-. by exists s1.
  - from_table. injection He as <-. by exists s1.
  - from_table. by apply (yields_move _ st).
  - apply (via_high st st' 1 d [] s); [lia|done|done|done|]. intros s1 H1 H2. rewrite blen_one, <- H2. apply (yields_advance d st); [done|done|lia].
  - by apply (advance_yields 2 1 DW_EH_PE_udata1 d st); [set_solver|..].
  - by apply (advance_yields 3 2 DW_EH_PE_udata2 d st); [set_solver|..].
  - by apply (advance_yields 4 4 DW_EH_PE_udata4 d st); [set_solver|..].
  - by apply (short_offset_yields r n x st).
  - from_table. factor He. by apply (yields_set _ _ st _ _ _ He).
  - from_table. factor He. by apply (yields_set _ _ st _ _ _ He).
  - from_table. factor He. by apply (yields_set _ _ st _ _ _ He).
  - apply (via_high st st' 3 r [] s); [lia|done|done|done|]. intros s1 H1 H2. rewrite blen_one, <- H2. apply (yields_restore r st); [done|done|].
    unfold reg_ok, CFA_REG. lia.
  - from_table. by apply (yields_restore _ st).
  - from_table. by apply (yields_set _ _ st _ _ _ He).
  - from_table. by apply (yields_keep _ st).
  - from_table. by apply (yields_set _ _ st _ _ _ He).
  - from_table. injection He as <-. by apply remember_yields.
  - from_table. by apply (restore_state_yields st).
  - from_table. apply (yields_cfa r n _ st); [done|done|rewrite aw_of_small by done; by apply u64_small|done].
  - from_table. by apply (def_cfa_register_yields r st).
  - from_table. by apply (def_cfa_offset_yields n st).
  - from_table. factor He. by apply (yields_cfa r (n * daf) _ st).
  - from_table. by apply (def_cfa_offset_sf_yields n st).
Qed.
End Instruction.

(** ** The start of the row *)

Section Starts.
Context {AT : AddressType}.
Variable fde : DwarfFde.
Variable cie : option (gmap Z DwarfLocation).
Variable a : Z.

Definition starts_at (r : result) : Prop := forall b s, r = Ok (b, s) -> pc_start (loc_regs s) = a.

Lemma starts_Ok b s : pc_start (loc_regs s) = a -> starts_at (Ok (b, s)).
Proof. by intros H b' s' [= <- <-]. Qed.

Lemma starts_bind {A} (m : outcome A) (k : A -> result) : (forall x, m = Ok x -> starts_at (k x)) -> starts_at (m ≫= k).
Proof. intros H. destruct m; cbn; [auto|]. intros b s HF. discriminate HF. Qed.

Lemma starts_restore r s : pc_start (loc_regs s) = a -> starts_at (restore_rule cie r s).
Proof. intros H. unfold restore_rule. destruct cie as [c|]; [destruct (c !! u32 r)|]; by apply starts_Ok. Qed.

Lemma handle_start h s : h <> h_restore_state -> pc_start (loc_regs s) = a -> starts_at (handle fde cie h s).
Proof.
  intros Hh H. destruct h; try done; cbn [handle]; unfold cfa_def_cfa_register, cfa_def_cfa_offset, cfa_def_cfa_offset_sf;
    try (case_match; [|by apply starts_Ok]); repeat (apply starts_bind; intros ? _); first [by apply starts_Ok | by apply starts_restore].
Qed.

Lemma read_operands_start es s : pc_start (loc_regs s) = a -> starts_at (read_operands es s).
Proof.
  revert s. induction es as [|e es IH]; intros s H; cbn [read_operands]; [by apply starts_Ok|].
  destruct (e =? DW_EH_PE_block); apply starts_bind; intros [[v|] m] _; cbn [fst snd]; first [by apply IH | by apply starts_Ok].
Qed.

Lemma restore_state_opcode op : 0 <= op < 64 -> kCallbackTable !! Z.to_nat op = Some (Some h_restore_state) -> op = 11.
Proof.
  intros Hop. assert (Z.to_nat op < 64)%nat as Hn by lia. intros H. enough (Z.to_nat op = 11%nat) by lia. revert H.
  generalize dependent (Z.to_nat op). intros n Hn. do 64 (destruct n as [|n]; [by intros [=]|]). lia.
Qed.
End Starts.

(** An instruction other than DW_CFA_restore_state begins a row at the current place. *)
Lemma instruction_start {AT : AddressType} fde cie s b bs :
  stored (mem s) (DwarfCfa.cursor s) (b :: bs) -> 0 <= b < 256 -> b <> 11 -> starts_at (cur_pc s) (instruction fde cie s).
Proof.
  intros Hs Hb Hne. unfold instruction. change (dm (set_operands _ _)) with (dm s). rewrite (first_byte b bs s Hs), bind_Ok. cbn [fst snd].
  rewrite le_val_byte. repeat case_match; try (by apply starts_Ok); try (by apply starts_restore); try (intros ? ? HF; discriminate HF).
  - apply starts_bind. intros [[o|] m'] _; cbn [fst snd]; [|by apply starts_Ok]. apply starts_bind. intros v _. by apply starts_Ok.
  - apply starts_bind. intros [ok s1] HR. apply (read_operands_start (cur_pc s)) in HR; [|done]. cbn [fst snd].
    destruct ok; [|by apply starts_Ok]. apply handle_start; [|done]. intros ->.
    assert (b < 64).
    { rewrite Z.shiftr_div_pow2 in * by lia. change (2 ^ 6) with 64 in *. pose proof (Z.div_mod b 64 ltac:(lia)).
      pose proof (Z.mod_pos_bound b 64 ltac:(lia)). lia. }
    apply Hne, restore_state_opcode; [lia|]. change 63 with (Z.ones 6) in *. rewrite Z.land_ones, Z.mod_small in * by lia. done.
Qed.


(** ** Programs *)

Lemma encoded_byte {AT : AddressType} i x :
  encoded i x -> exists b bs, x = b :: bs /\ 0 <= b < 256 /\ (b = 11 -> i = IRestoreState).
Proof. destruct 1; eexists _, _; (split; [done|]); (split; [lia|]); intros E; first [done | lia]. Qed.

Section Program.
Context {AT : AddressType}.
Variable fde : DwarfFde.
Variable initial : option row.
Let caf : Z := code_alignment_factor (fde_cie fde).
Let daf : Z := data_alignment_factor (fde_cie fde).
Let cie : option (gmap Z DwarfLocation) := rules_of <$> initial.
Hypothesis caf_range : 0 <= caf < 2 ^ 32.

Lemma exec_forward i x st st' :
  encoded i x -> forward i = true -> exec caf daf initial i st = Some st' -> loc st <= loc st'.
Proof.
  intros HE Hf He. destruct HE; try done; cbn [exec] in He; unfold move_loc, factored, restore, on_row in He;
    repeat case_match; try discriminate He; injection He as <-; cbn [loc]; nia.
Qed.

(** What the loop returns: the row, and a range of which every pc has this row. *)
Record finds (pc : Z) (prog : list insn) (st st' : CfaTable.state) (s s' : t) : Prop := mkFinds {
  f_matches : matches st' s';
  f_memory : exists c, dm s' = DwarfMemory.set_cur_offset c (dm s);
  f_end : pc_end (loc_regs s') = if pc <? loc st' then loc st' else fde_pc_end fde;
  f_range L : CfaTable.in_order prog -> L <= loc st -> L <= pc_start (loc_regs s) \/ (loc st <= pc /\ prog <> []) ->
    L <= pc_start (loc_regs s') /\
    forall pc', pc_start (loc_regs s') <= pc' < pc_end (loc_regs s') -> run caf daf initial pc' prog st = Some st'
}.

Lemma loop_stops pc st s e fuel :
  matches st s -> pc < loc st -> exists s', location_loop fde cie (S fuel) pc e s = Ok (Some (true, s')) /\
    forall prog, finds pc prog st st s s'.
Proof.
  intros Hm Hp. exists (set_end (cur_pc s) s). cbn [location_loop]. rewrite (m_loc _ _ Hm). destruct (Z.ltb_spec pc (loc st)); [|lia].
  split; [done|]. intros prog. split.
  - by destruct Hm.
  - exists (DwarfCfa.cursor s). by destruct s as [[] ].
  - by destruct (Z.ltb_spec pc (loc st)); [|lia].
  - cbn. intros L _ HL [H1|[H1 _]]; [|lia]. split; [done|]. intros pc' Hpc'. destruct prog; cbn [run]; by destruct (Z.ltb_spec pc' (loc st)); [|lia].
Qed.

Lemma loop_ends pc st s fuel :
  matches st s -> loc st <= pc -> exists s', location_loop fde cie (S fuel) pc (DwarfCfa.cursor s) s = Ok (Some (true, s')) /\ finds pc [] st st s s'.
Proof.
  intros Hm Hp. exists (set_end (fde_pc_end fde) s). cbn [location_loop]. rewrite (m_loc _ _ Hm). destruct (Z.ltb_spec pc (loc st)); [lia|].
  rewrite Z.leb_refl. split; [done|]. split.
  - by destruct Hm.
  - exists (DwarfCfa.cursor s). by destruct s as [[] ].
  - by destruct (Z.ltb_spec pc (loc st)); [lia|].
  - cbn. intros L _ HL [H1|[H1 H2]]; [|done]. split; [done|]. intros pc' _. by destruct (pc' <? loc st).
Qed.

Lemma in_order_tail i prog : CfaTable.in_order (i :: prog) -> CfaTable.in_order prog.
Proof. intros [[_ H1]%Forall_cons H2]. split; [done|]. by destruct prog. Qed.

Lemma in_order_head i prog : CfaTable.in_order (i :: prog) -> forward i = true.
Proof. by intros [[H1 _]%Forall_cons _]. Qed.

Lemma exec_restore_state st st' : exec caf daf initial IRestoreState st = Some st' -> loc st' = loc st.
Proof. cbn. destruct (stack st); [done|]. by intros [= <-]. Qed.

Lemma loop_runs prog bs : program prog bs -> forall fuel pc st st' s,
  run caf daf initial pc prog st = Some st' -> matches st s -> stored (mem s) (DwarfCfa.cursor s) bs -> (length prog < fuel)%nat ->
  exists s', location_loop fde cie fuel pc (DwarfCfa.cursor s + blen bs) s = Ok (Some (true, s')) /\ finds pc prog st st' s s'.
Proof.
  induction 1 as [|i prog x bs HE HP IH]; intros fuel pc st st' s Hr Hm Hs Hf; (destruct fuel as [|fuel]; [cbn in Hf; lia|]);
    cbn [run] in Hr; (destruct (Z.ltb_spec pc (loc st)) as [Hlt|Hge];
      [injection Hr as <-; edestruct loop_stops as (s' & H1 & H2); [exact Hm|exact Hlt|]; exists s'; split; [exact H1|apply H2]|]).
  - injection Hr as <-. rewrite blen_nil, Z.add_0_r. by apply loop_ends.
  - destruct (exec caf daf initial i st) as [st1|] eqn:E; [|done].
    destruct (instruction_yields fde initial caf_range i x st st1 s HE E Hm ltac:(by eapply stored_prefix)) as (s1 & HI & Hm1 & Hd).
    destruct (encoded_byte i x HE) as (b & x' & -> & Hb & H11).
    pose proof (instruction_start fde cie s b (x' ++ bs) Hs Hb) as Hst.
    assert (DwarfCfa.cursor s1 = DwarfCfa.cursor s + blen (b :: x')) as Hc1 by (unfold DwarfCfa.cursor at 1; by rewrite Hd).
    destruct (IH fuel pc st1 st' s1 Hr Hm1) as (s' & HL & HF).
    { unfold mem. rewrite Hc1, Hd. by eapply stored_suffix. }
    { cbn in Hf. lia. }
    exists s'. cbn [location_loop]. rewrite (m_loc _ _ Hm). destruct (Z.ltb_spec pc (loc st)); [lia|].
    rewrite blen_app, blen_cons in *. pose proof (blen_nonneg x'). pose proof (blen_nonneg bs).
    destruct (Z.leb_spec (DwarfCfa.cursor s + (1 + blen x' + blen bs)) (DwarfCfa.cursor s)); [lia|].
    fold cie in HI. rewrite HI, bind_Ok. cbn [fst snd negb]. split; [by rewrite <- HL, Hc1, Z.add_assoc|].
    destruct HF as [F1 [c F2] F3 F4]. split; [done|exists c; by rewrite F2, Hd|done|].
    intros L Ho HL0 _. destruct (F4 (loc st)) as [G1 G2]; [by eapply in_order_tail|by eapply exec_forward; [|eapply in_order_head|]| |].
    { destruct (Z.eq_dec b 11) as [->|Hne].
      - rewrite (H11 eq_refl) in *. right. apply exec_restore_state in E. split; [lia|]. intros ->. by destruct Ho.
      - left. apply Hst in HI; [|done]. rewrite HI, (m_loc _ _ Hm). lia. }
    split; [lia|]. intros pc' Hpc'. cbn [run]. destruct (Z.ltb_spec pc' (loc st)); [lia|]. rewrite E. by apply G2.
Qed.

(** [GetLocationInfo] on a stored program. *)
Lemma get_location_info fuel pc start prog bs w st' s :
  program prog bs -> run caf daf initial pc prog (mkState (fde_pc_start fde) w []) = Some st' ->
  match cie with Some c => c ∪ rules (loc_regs s) | None => rules (loc_regs s) end = rules_of w -> row_ok w -> loc_reg_state s = [] ->
  stored (mem s) start bs -> (length prog < fuel)%nat -> 0 <= fde_pc_start fde < 2 ^ abits -> fde_pc_start fde <= pc < fde_pc_end fde ->
  exists s', GetLocationInfo fde cie fuel pc start (start + blen bs) s = Ok (Some (true, s')) /\ matches st' s' /\
    (exists c, dm s' = DwarfMemory.set_cur_offset c (dm s)) /\ pc_start (loc_regs s') <= pc < pc_end (loc_regs s') /\
    pc_end (loc_regs s') = (if pc <? loc st' then loc st' else fde_pc_end fde) /\
    (CfaTable.in_order prog -> fde_pc_start fde <= pc_start (loc_regs s') /\
      forall pc', pc_start (loc_regs s') <= pc' < pc_end (loc_regs s') -> run caf daf initial pc' prog (mkState (fde_pc_start fde) w []) = Some st').
Proof.
  intros HP Hr Hc Hw Hst Hs Hf Hb Hpc. unfold GetLocationInfo. rewrite Hc, aw_small by done.
  match goal with |- context [location_loop _ _ _ _ _ ?x] => set (s0 := x) end.
  assert (matches (mkState (fde_pc_start fde) w []) s0) as Hm.
  { split; [done|done|change (loc_reg_state s0) with (loc_reg_state s); by rewrite Hst|done|constructor]. }
  destruct (loop_runs prog bs HP fuel pc _ st' s0 Hr Hm Hs Hf) as (s' & HL & [F1 [c F2] F3 F4]). exists s'.
  change (DwarfCfa.cursor s0) with start in HL. split_and!; [exact HL|done|by exists c| | |done|].
  1,2: eapply (location_loop_keeps fde cie pc) in HL; [apply HL|apply Hpc|split; [cbn; lia|]]; change (loc_reg_state s0) with (loc_reg_state s); by rewrite Hst.
  intros Ho. apply (F4 (fde_pc_start fde) Ho); [done|left; done].
Qed.
End Program.

(** ** The row of the CIE does not depend on the place *)

Lemma exec_initial {AT : AddressType} caf daf i l1 l2 k1 k2 w st :
  is_initial i = true -> exec caf daf None i (mkState l1 w k1) = Some st ->
  st = mkState l1 (current st) k1 /\ exec caf daf None i (mkState l2 w k2) = Some (mkState l2 (current st) k2).
Proof.
  intros Hi. destruct i; try discriminate Hi; cbn [exec current loc stack]; unfold factored, restore, on_row; cbn [current loc stack];
    repeat case_match; intros [= <-]; done.
Qed.

Lemma run_initial {AT : AddressType} caf daf prog : Forall (fun i => is_initial i = true) prog -> forall l1 l2 k1 k2 pc1 pc2 w st,
  l1 <= pc1 -> l2 <= pc2 -> run caf daf None pc1 prog (mkState l1 w k1) = Some st ->
  st = mkState l1 (current st) k1 /\ run caf daf None pc2 prog (mkState l2 w k2) = Some (mkState l2 (current st) k2).
Proof.
  induction 1 as [|i prog Hi _ IH]; intros l1 l2 k1 k2 pc1 pc2 w st H1 H2; cbn [run loc];
    (destruct (Z.ltb_spec pc1 l1); [lia|]); (destruct (Z.ltb_spec pc2 l2); [lia|]).
  - by intros [= <-].
  - destruct (exec caf daf None i (mkState l1 w k1)) as [st1|] eqn:E; [|done]. apply (exec_initial _ _ _ _ l2 _ k2) in E as [-> ->]; [|done].
    by apply IH.
Qed.
End CfaExec.

(** ** The rows of a section *)

Module CfaRows.
Import DwarfSectionImpl Format Pieces CfaTable CfaExec.

(** An FDE with the instructions [ci] of its CIE and [fi] of its own, in the memory [m]. *)
Record described {AT : AddressType} (m : Memory) (fde : DwarfFde) (ci fi : list insn) : Prop := mkDescribed {
  d_factor : 0 <= code_alignment_factor (fde_cie fde) < 2 ^ 32;
  d_start : 0 <= fde_pc_start fde < 2 ^ abits;
  d_cie : exists bs, program ci bs /\ stored m (cie_instructions_offset (fde_cie fde)) bs /\
    cie_instructions_end (fde_cie fde) = cie_instructions_offset (fde_cie fde) + blen bs;
  d_initial : Forall (fun i => is_initial i = true) ci;
  d_fde : exists bs, program fi bs /\ stored m (fde_instructions_offset fde) bs /\
    fde_instructions_end fde = fde_instructions_offset fde + blen bs
}.

(** The row of the CIE of an FDE, and the state of its table at a pc. *)
Definition fde_initial {AT : AddressType} (fde : DwarfFde) (ci : list insn) : option row :=
  initial_row (code_alignment_factor (fde_cie fde)) (data_alignment_factor (fde_cie fde)) ci.
Definition fde_state {AT : AddressType} (fde : DwarfFde) (ci fi : list insn) (pc : Z) : option CfaTable.state :=
  state_at (code_alignment_factor (fde_cie fde)) (data_alignment_factor (fde_cie fde)) ci (fde_pc_start fde) fi pc.

(** The rules of the CIE, when they are cached, are those of its row. *)
Definition cie_cached {AT : AddressType} (fde : DwarfFde) (ci : list insn) (s : t) : Prop :=
  forall rs, cie_loc_regs s !! cie_offset fde = Some rs -> rules_of <$> fde_initial fde ci = Some rs.

Lemma no_rules_ok : row_ok no_rules.
Proof. done. Qed.

(** Running the instructions of the CIE. *)
Lemma cie_location_info {AT : AddressType} fuel pc fde ci fi w s :
  described (raw s) fde ci fi -> fde_initial fde ci = Some w -> (length ci < fuel)%nat -> fde_pc_start fde <= pc < fde_pc_end fde ->
  exists cfa c, location_info fuel fde None pc (cie_instructions_offset (fde_cie fde)) (cie_instructions_end (fde_cie fde))
    (DwarfCfa.mk (memory_ s) 0 [] [] DWARF_ERROR_NONE 0 (mkLocs ∅ 0 0)) s = Ok (Some cfa, move_to c s) /\
    rules (DwarfCfa.loc_regs cfa) = rules_of w /\ row_ok w /\ DwarfCfa.loc_reg_state cfa = [].
Proof.
  intros [Hcaf Hst (bs & HP & Hs & He) Hi _] Hw Hf Hpc. unfold fde_initial, initial_row in Hw.
  destruct (run _ _ None 0 ci _) as [st|] eqn:ER; [|done]. injection Hw as <-.
  apply (run_initial _ _ _ Hi _ (fde_pc_start fde) _ [] 0 pc) in ER as [_ ER]; [|lia|lia].
  set (cfa0 := DwarfCfa.mk (memory_ s) 0 [] [] DWARF_ERROR_NONE 0 (mkLocs ∅ 0 0)).
  destruct (get_location_info fde None Hcaf fuel pc (cie_instructions_offset (fde_cie fde)) ci bs no_rules _ cfa0 HP ER)
    as (cfa & HG & Hm & [c Hd] & _); try done.
  unfold location_info. change (DwarfCfa.set_dm (memory_ s) cfa0) with cfa0.
  change (rules_of <$> None) with (@None (gmap Z DwarfLocation)) in HG. rewrite He, HG. exists cfa, c. rewrite Hd.
  split; [done|]. split; [apply Hm|]. split; [apply Hm|]. pose proof (m_stack _ _ Hm) as HS. cbn in HS. by destruct (DwarfCfa.loc_reg_state cfa).
Qed.

(** [GetCfaLocationInfo]: the row of the pc, for every pc of the range. *)
Lemma cfa_location_info {AT : AddressType} fuel pc fde ci fi st s :
  described (raw s) fde ci fi -> cie_cached fde ci s -> fde_state fde ci fi pc = Some st ->
  (length ci < fuel)%nat -> (length fi < fuel)%nat -> fde_pc_start fde <= pc < fde_pc_end fde ->
  exists locs w c, GetCfaLocationInfo fuel pc fde s =
      Ok (Some locs, set_cie_loc_regs (<[cie_offset fde := rules_of w]> (cie_loc_regs s)) (move_to c s)) /\
    fde_initial fde ci = Some w /\ rules locs = rules_of (current st) /\ pc_start locs <= pc < pc_end locs /\
    pc_end locs = (if pc <? loc st then loc st else fde_pc_end fde) /\
    (CfaTable.in_order fi -> fde_pc_start fde <= pc_start locs /\
      forall pc', pc_start locs <= pc' < pc_end locs -> fde_state fde ci fi pc' = Some st).
Proof.
  intros HD HC HS Hf1 Hf2 Hpc. unfold fde_state, state_at in HS. fold (fde_initial fde ci) in HS.
  destruct (fde_initial fde ci) as [w|] eqn:EW; [|done].
  assert (exists cfa c, GetCfaLocationInfo fuel pc fde s = (cfa ← location_info fuel fde (Some (rules_of w)) pc (fde_instructions_offset fde)
      (fde_instructions_end fde) cfa; mret (DwarfCfa.loc_regs cfa)) (set_cie_loc_regs (<[cie_offset fde := rules_of w]> (cie_loc_regs s)) (move_to c s)) /\
    rules_of w ∪ rules (DwarfCfa.loc_regs cfa) = rules_of w /\ row_ok w /\ DwarfCfa.loc_reg_state cfa = []) as (cfa & c & -> & Hr & Hok & Hst).
  { destruct (cie_location_info fuel pc fde ci fi w s HD EW Hf1 Hpc) as (cfa & c & HL & Hr & Hok & Hst).
    unfold GetCfaLocationInfo, mbind, op_bind, gets, modify, mret, op_ret. cbv beta iota.
    destruct (cie_loc_regs s !! cie_offset fde) as [rs|] eqn:EC.
    - pose proof (HC rs EC) as HE. rewrite EW in HE. injection HE as <-. cbv beta iota. rewrite EC.
      exists (DwarfCfa.mk (memory_ s) 0 [] [] DWARF_ERROR_NONE 0 (mkLocs ∅ 0 0)), (cursor s).
      rewrite move_to_here, insert_id by done. split_and!; [by destruct s|apply map_union_empty|done|done].
    - rewrite HL. cbv beta iota. cbn [cie_loc_regs set_cie_loc_regs]. rewrite Hr, lookup_insert_eq. exists cfa, c.
      split_and!; [done|rewrite Hr; apply (idemp (∪))|done|done]. }
  set (s1 := set_cie_loc_regs _ _). destruct HD as [Hcaf Hb _ _ (bs & HP & Hs & He)].
  destruct (get_location_info fde (Some w) Hcaf fuel pc (fde_instructions_offset fde) fi bs w st (DwarfCfa.set_dm (memory_ s1) cfa) HP HS)
    as (cfa' & HG & Hm & [c' Hd] & Hpc1 & Hpe & Ho); try done.
  change (rules_of <$> Some w) with (Some (rules_of w)) in HG.
  exists (DwarfCfa.loc_regs cfa'), w, c'. unfold mbind, op_bind, location_info. rewrite He, HG. split_and!; [by rewrite Hd|done|apply Hm|lia|lia|done|].
  intros Hin. destruct (Ho Hin) as [Ho1 Ho2]. split; [done|]. intros pc' Hpc'. unfold fde_state, state_at. fold (fde_initial fde ci). rewrite EW. by apply Ho2.
Qed.

(** *** The cached rows *)

(** A function: its FDE and the instructions of its CIE and of its own. *)
Record table : Type := mkTable { tb_fde : DwarfFde; tb_ci : list insn; tb_fi : list insn }.

Definition covers (tb : table) (pc : Z) : Prop := fde_pc_start (tb_fde tb) <= pc < fde_pc_end (tb_fde tb).

(** What finding FDEs promises to the cache of rows: with the invariant [Inv] of the section, the FDE of
    every function is found, and neither the cached rows nor the cached rules of CIEs change. *)
Class FdeFinder {AT : AddressType} {SK : SectionKind} (fuel : nat) (offset_from_pc : Z -> op Z) (m : Memory) (tables : list table) (Inv : t -> Prop) : Prop := {
  ff_raw s : Inv s -> raw s = m;
  ff_find s tb pc : Inv s -> tb ∈ tables -> covers tb pc ->
    exists s', GetFdeFromPc fuel offset_from_pc pc s = Ok (Some (tb_fde tb), s') /\ Inv s' /\
      cie_loc_regs s' = cie_loc_regs s /\ DwarfSectionImpl.loc_regs s' = DwarfSectionImpl.loc_regs s;
  ff_core s c : Inv s -> DwarfMemory.memory_ (DwarfSection.memory_ c) = m -> Inv (set_core c s);
  ff_cies s x : Inv s -> Inv (set_cie_loc_regs x s);
  ff_rows s x : Inv s -> Inv (set_rows x s)
}.

Section Cache.
Context {AT : AddressType}.
Variable fuel : nat.
Variable m : Memory.
Variable tables : list table.

Definition table_state (tb : table) (pc : Z) : option CfaTable.state := fde_state (tb_fde tb) (tb_ci tb) (tb_fi tb) pc.

(** The functions of a section: their tables are in memory, have a row for every pc and do not overlap. *)
Record tables_ok : Prop := mkTablesOk {
  to_described tb : tb ∈ tables -> described m (tb_fde tb) (tb_ci tb) (tb_fi tb);
  to_in_order tb : tb ∈ tables -> CfaTable.in_order (tb_fi tb);
  to_fuel tb : tb ∈ tables -> (length (tb_ci tb) < fuel)%nat /\ (length (tb_fi tb) < fuel)%nat;
  to_state tb pc : tb ∈ tables -> covers tb pc -> exists st, table_state tb pc = Some st /\ loc st <= fde_pc_end (tb_fde tb);
  to_cies tb1 tb2 : tb1 ∈ tables -> tb2 ∈ tables -> cie_offset (tb_fde tb1) = cie_offset (tb_fde tb2) ->
    fde_initial (tb_fde tb1) (tb_ci tb1) = fde_initial (tb_fde tb2) (tb_ci tb2);
  to_apart tb1 tb2 pc : tb1 ∈ tables -> tb2 ∈ tables -> covers tb1 pc -> covers tb2 pc -> tb1 = tb2
}.

(** A row of the cache: every pc of its range has these rules. *)
Definition row_valid (e : Z * (DwarfLocations * DwarfCie)) : Prop :=
  let '(key, (locs, cie)) := e in
  key = pc_end locs /\ pc_start locs < pc_end locs /\
  exists tb st, tb ∈ tables /\ cie = fde_cie (tb_fde tb) /\ rules locs = rules_of (current st) /\
    forall pc, pc_start locs <= pc < pc_end locs -> covers tb pc /\ table_state tb pc = Some st.

Record caches_ok (s : t) : Prop := mkCachesOk {
  ca_rows : Forall row_valid (DwarfSectionImpl.loc_regs s);
  ca_cies tb : tb ∈ tables -> cie_cached (tb_fde tb) (tb_ci tb) s
}.

Lemma emplace_cases rows key row rows' row' :
  emplace rows key row = (rows', row') ->
  (row' = row /\ forall e, e ∈ rows' -> e = (key, row) \/ e ∈ rows) \/ ((key, row') ∈ rows /\ rows' = rows).
Proof.
  revert rows'. induction rows as [|[k r] rows IH]; intros rows'; cbn [emplace].
  - intros [= <- <-]. left. split; [done|]. intros e He. left. by apply list_elem_of_singleton in He.
  - destruct (key <? k); [|destruct (Z.eqb_spec key k) as [->|]].
    + intros [= <- <-]. left. split; [done|]. intros e [->|He]%elem_of_cons; auto.
    + intros [= <- <-]. right. split; [left|done].
    + destruct (emplace rows key row) as [rows1 row1] eqn:E. intros [= <- <-]. destruct (IH _ eq_refl) as [[-> H]|[H ->]].
      * left. split; [done|]. intros e [->|He]%elem_of_cons; [right; left|]. destruct (H e He); [auto|right; by right].
      * right. split; [by right|done].
Qed.

(** Two rows that end at the same place have the same rules. *)
Lemma same_end key row1 row2 : tables_ok -> row_valid (key, row1) -> row_valid (key, row2) -> rules row1.1 = rules row2.1 /\ row1.2 = row2.2.
Proof.
  intros HT. destruct row1 as [l1 c1], row2 as [l2 c2]. intros (-> & H1 & tb1 & st1 & T1 & -> & R1 & P1) (E & H2 & tb2 & st2 & T2 & -> & R2 & P2).
  cbn [fst snd]. destruct (P1 (pc_end l1 - 1)) as [C1 S1]; [lia|]. destruct (P2 (pc_end l1 - 1)) as [C2 S2]; [lia|].
  pose proof (to_apart HT tb1 tb2 _ T1 T2 C1 C2) as ->. rewrite S1 in S2. injection S2 as ->. by rewrite R1, R2.
Qed.

Lemma upper_bound_valid s pc row :
  caches_ok s -> upper_bound (DwarfSectionImpl.loc_regs s) pc = Some row -> row_valid (pc_end row.1, row) /\ pc < pc_end row.1.
Proof.
  intros [HR _] HU. unfold upper_bound in HU. destruct (find _ _) as [[k r]|] eqn:E; [|done]. injection HU as <-.
  apply find_some in E as [Hin Hlt]. apply list_elem_of_In in Hin. rewrite Forall_forall in HR. specialize (HR _ Hin). cbn [fst snd] in *.
  destruct r as [locs cie]. pose proof HR as [-> _]. cbn [fst]. split; [done|]. lia.
Qed.

(** Storing a row. *)
Lemma caches_emplace s key row rows row' :
  tables_ok -> caches_ok s -> row_valid (key, row) -> emplace (DwarfSectionImpl.loc_regs s) key row = (rows, row') ->
  caches_ok (set_rows rows s) /\ rules row'.1 = rules row.1 /\ row'.2 = row.2.
Proof.
  intros HT [HR HC] HV HE. destruct (emplace_cases _ _ _ _ _ HE) as [[-> HI]|[HI ->]].
  - split; [|done]. split; [|done]. apply Forall_forall. intros e [->|He]%HI; [done|]. by eapply Forall_forall in HR.
  - split; [by split|]. apply (same_end key); [done| |done]. by eapply Forall_forall in HR.
Qed.

Context {SK : SectionKind}.
Variable offset_from_pc : Z -> op Z.
Variable Inv : t -> Prop.
Context {HF : FdeFinder fuel offset_from_pc m tables Inv}.
Hypothesis HT : tables_ok.

Lemma find_row_table tb pc s :
  Inv s -> caches_ok s -> tb ∈ tables -> covers tb pc ->
  exists locs s' st, find_row fuel offset_from_pc pc s = Ok (Some (locs, fde_cie (tb_fde tb)), s') /\
    table_state tb pc = Some st /\ rules locs = rules_of (current st) /\ Inv s' /\ caches_ok s'.
Proof.
  intros HI HK Ht Hpc. destruct (to_state HT tb pc Ht Hpc) as (st & HS & Hend). destruct (to_fuel HT tb Ht) as [Hf1 Hf2].
  set (s0 := set_core (DwarfSection.set_code DWARF_ERROR_NONE (core s)) s).
  assert (Inv s0) as HI0 by (apply (ff_core (FdeFinder := HF)); [done|]; by rewrite <- (ff_raw (FdeFinder := HF) s HI)).
  destruct (ff_find (FdeFinder := HF) s0 tb pc HI0 Ht Hpc) as (s1 & HFind & HI1 & HC1 & HR1).
  assert (caches_ok s1) as HK1.
  { destruct HK as [KR KC]. split; [by rewrite HR1|]. intros tb' Ht' rs. rewrite HC1. by apply KC. }
  destruct (cfa_location_info fuel pc (tb_fde tb) (tb_ci tb) (tb_fi tb) st s1) as (locs & w & c & HG & HW & HL & Hin & Hpe & Ho); try done.
  { rewrite (ff_raw (FdeFinder := HF) s1 HI1). by apply (to_described HT). }
  { by apply HK1. }
  set (s2 := set_cie_loc_regs _ _) in HG.
  assert (caches_ok s2) as HK2.
  { destruct HK1 as [KR KC]. split; [done|]. intros tb' Ht' rs. cbn [s2 cie_loc_regs set_cie_loc_regs].
    destruct (Z.eq_dec (cie_offset (tb_fde tb)) (cie_offset (tb_fde tb'))) as [E|Hne].
    - rewrite <- E, lookup_insert_eq. intros [= <-]. by rewrite <- (to_cies HT tb tb' Ht Ht' E), HW.
    - rewrite lookup_insert_ne by done. by apply KC. }
  assert (row_valid (pc_end locs, (locs, fde_cie (tb_fde tb)))) as HV.
  { split; [done|]. split; [lia|]. exists tb, st. split_and!; [done|done|done|]. intros pc' Hpc'. destruct (Ho (to_in_order HT tb Ht)) as [O1 O2].
    split; [|by apply O2]. unfold covers in *. assert (pc_end locs <= fde_pc_end (tb_fde tb)) by (rewrite Hpe; case_match; lia). lia. }
  unfold find_row. fold s0. rewrite HFind, HG. destruct (emplace _ _ _) as [rows [locs' cie']] eqn:EE.
  destruct (caches_emplace s2 _ _ _ _ HT HK2 HV EE) as (HK3 & HR & HCie). cbn [fst snd] in HR, HCie. subst cie'.
  exists locs', (set_rows rows s2), st. split_and!; [done|done|by rewrite HR|by apply (ff_rows (FdeFinder := HF)), (ff_cies (FdeFinder := HF)), (ff_core (FdeFinder := HF)), (ff_raw (FdeFinder := HF) s1 HI1)|done].
Qed.

(** The row of a pc, cached or not. *)
Lemma row_of_table tb pc s :
  Inv s -> caches_ok s -> tb ∈ tables -> covers tb pc ->
  exists locs s' st, row_of fuel offset_from_pc pc s = Ok (Some (locs, fde_cie (tb_fde tb)), s') /\
    table_state tb pc = Some st /\ rules locs = rules_of (current st) /\ Inv s' /\ caches_ok s'.
Proof.
  intros HI HK Ht Hpc. unfold row_of, mbind, op_bind, gets. destruct (upper_bound _ pc) as [[locs cie]|] eqn:EU; [|by apply find_row_table].
  destruct (upper_bound_valid s pc _ HK EU) as [(_ & _ & tb' & st & Ht' & -> & HR & HP) Hlt]. cbn [fst] in *.
  destruct (Z.ltb_spec pc (pc_start locs)); [by apply find_row_table|]. destruct (HP pc) as [Hc HS]; [lia|].
  pose proof (to_apart HT tb tb' pc Ht Ht' Hpc Hc) as <-. by exists locs, s, st.
Qed.
(** The rows of several pcs, looked up one after the other. *)
Fixpoint rows_of (pcs : list Z) : op (list (DwarfLocations * DwarfCie)) :=
  match pcs with
  | [] => mret []
  | pc :: pcs => row ← row_of fuel offset_from_pc pc; rows ← rows_of pcs; mret (row :: rows)
  end.

(** The row that the tables have for a pc. *)
Definition is_row (pc : Z) (row : DwarfLocations * DwarfCie) : Prop :=
  exists tb st, tb ∈ tables /\ covers tb pc /\ table_state tb pc = Some st /\ rules row.1 = CfaTable.rules_of (current st) /\ row.2 = fde_cie (tb_fde tb).

Lemma rows_of_tables pcs s :
  Inv s -> caches_ok s -> Forall (fun pc => exists tb, tb ∈ tables /\ covers tb pc) pcs ->
  exists rows s', rows_of pcs s = Ok (Some rows, s') /\ Forall2 is_row pcs rows /\ Inv s' /\ caches_ok s'.
Proof.
  intros HI HK HP. revert s HI HK. induction HP as [|pc pcs (tb & Ht & Hpc) HP IH]; intros s HI HK; cbn [rows_of].
  - exists [], s. split_and!; [done|constructor|done|done].
  - destruct (row_of_table tb pc s HI HK Ht Hpc) as (locs & s1 & st & HR & HS & HL & HI1 & HK1).
    destruct (IH s1 HI1 HK1) as (rows & s2 & HRs & HF2 & HI2 & HK2). exists ((locs, fde_cie (tb_fde tb)) :: rows), s2.
    unfold mbind, op_bind. rewrite HR. unfold mbind, op_bind in HRs. rewrite HRs. split_and!; [done| |done|done].
    constructor; [by exists tb, st|done].
Qed.
End Cache.
End CfaRows.
