(* ===== verification/UwCfaSection.v ===== *)
(** * libunwindstack: the rows of an .eh_frame section

    From the bytes of a whole .eh_frame section to the rows of its functions: the sections of
    UwDwarfFormat whose CIEs and FDEs hold encoded call frame instructions (UwCfaTable), read by [Init]
    and looked up by [row_of], the first half of [DwarfSectionImpl::Step], through the caches of CIEs,
    of FDEs, of the rules of CIEs and of rows (UwDwarfSection). *)

From S2P Require Import Prelude UwDwarfMemory UwDwarfOp UwDwarfCfa UwDwarfEval UwDwarfSection UwDwarfFormat UwCfaTable.

Module EhFrameRows.
Import DwarfSectionImpl Format Pieces CieFormat SectionFormat ScanFacts FdeFacts SectionFdes SearchFacts FormatTheorems CfaTable CfaRows.

(** ** The CIEs of a section *)

(** An FDE belongs to the CIE before the section, or to one in it. *)
Lemma section_fdes_cie c cie d rest es p :
  p ∈ section_fdes c cie d rest es -> (p_cie_at p = cie /\ p_cie p = d /\ p_rest p = rest) \/ c <= p_cie_at p.
Proof.
  revert c cie d rest. induction es as [|[d' r|f] es IH]; intros c cie d rest; cbn [section_fdes].
  - by intros ?%elem_of_nil.
  - pose proof (blen_nonneg (cie_entry d' r)). intros [(-> & _)|Hp]%IH; right; lia.
  - intros [->|Hp]%elem_of_cons; [by left|]. pose proof (blen_nonneg (fde_entry c cie d f)). apply IH in Hp as [Hp|Hp]; [by left|right; lia].
Qed.

(** FDEs with the same address for their CIE have the same CIE. *)
Lemma section_cies c cie d rest es p1 p2 :
  cie < c -> p1 ∈ section_fdes c cie d rest es -> p2 ∈ section_fdes c cie d rest es -> p_cie_at p1 = p_cie_at p2 ->
  p_cie p1 = p_cie p2 /\ p_rest p1 = p_rest p2.
Proof.
  revert c cie d rest. induction es as [|[d' r|f] es IH]; intros c cie d rest Hc; cbn [section_fdes].
  - by intros ?%elem_of_nil.
  - apply IH. unfold cie_entry. rewrite blen_entry. pose proof (blen_nonneg (le_bytes 4 0 ++ cie_fixed d' ++ cie_aug d' ++ r)). lia.
  - pose proof (blen_nonneg (fde_entry c cie d f)).
    assert (forall p, p ∈ section_fdes (c + blen (fde_entry c cie d f)) cie d rest es -> p_cie_at p = cie -> p_cie p = d /\ p_rest p = rest) as HX.
    { intros p Hp Hpc. apply section_fdes_cie in Hp as [(_ & H1 & H2)|Hp]; [done|lia]. }
    intros [->|H1]%elem_of_cons [->|H2]%elem_of_cons E; cbn [p_cie_at p_cie p_rest] in *.
    + done.
    + by destruct (HX p2 H2) as [-> ->].
    + by destruct (HX p1 H1) as [-> ->].
    + eapply IH; [|done..]. lia.
Qed.

Section Placed.
Context {AT : AddressType}.
Variable fuel : nat.
Variable m : Memory.
(** The instructions of the CIE, and of the FDE, at an address. *)
Variables (ci fi : Z -> list insn).

Definition fde_of (p : placed) : DwarfFde := fde_at (p_at p) (p_cie_at p) (p_cie p) (p_rest p) (p_fde p).
Definition table_of (p : placed) : table := mkTable (fde_of p) (ci (p_cie_at p)) (fi (p_at p)).

(** The bytes of a CIE and of an FDE are encoded instructions, and they have a row for every pc. *)
Record placed_table (p : placed) : Prop := mkPlacedTable {
  pt_lsda : no_lsda (p_cie p);
  pt_factor : 0 <= cd_code (p_cie p) < 2 ^ 32;
  pt_ci : program (ci (p_cie_at p)) (p_rest p);
  pt_initial : Forall (fun i => is_initial i = true) (ci (p_cie_at p));
  pt_cie_aug items : cd_items (p_cie p) = Some items -> cd_aug_length (p_cie p) = blen (concat (map item_bytes items));
  pt_aug : has_z (p_cie p) = true -> uleb (fd_aug_length (p_fde p)) (fd_aug_length_bytes (p_fde p));
  pt_fi : exists pad bs, fd_rest (p_fde p) = pad ++ bs /\ blen pad = (if has_z (p_cie p) then fd_aug_length (p_fde p) else 0) /\
    program (fi (p_at p)) bs;
  pt_order : CfaTable.in_order (fi (p_at p));
  pt_rows pc : covers (table_of p) pc -> exists st, table_state (table_of p) pc = Some st /\ loc st <= fde_pc_end (fde_of p);
  pt_fuel : (length (ci (p_cie_at p)) < fuel)%nat /\ (length (fi (p_at p)) < fuel)%nat /\ (length (aug_string (p_cie p)) < fuel)%nat
}.

(** Where the instructions of a CIE are. *)
Lemma cie_instructions c len cd more :
  stored m c ((le_bytes 4 len ++ le_bytes 4 0) ++ cie_fixed cd ++ cie_aug cd ++ more) ->
  (forall items, cd_items cd = Some items -> cd_aug_length cd = blen (concat (map item_bytes items))) ->
  cie_instructions_offset (cie_at c len cd) = c + 8 + blen (cie_fixed cd) + blen (cie_aug cd) /\
  stored m (cie_instructions_offset (cie_at c len cd)) more.
Proof.
  intros Hs Ha. pose proof (st_start _ _ _ Hs). pose proof (st_end _ _ _ Hs) as He. pose proof (blen_nonneg more).
  pose proof (blen_nonneg (cie_fixed cd)). rewrite !blen_app, !blen_le_bytes in He.
  assert (cie_instructions_offset (cie_at c len cd) = c + 8 + blen (cie_fixed cd) + blen (cie_aug cd)) as E.
  { unfold cie_at, cie_aug in *. destruct (apply_items _ _) as [[l e] h]. cbn [cie_instructions_offset].
    destruct (cd_items cd) as [items|]; [|rewrite blen_nil; lia]. rewrite (Ha items eq_refl) in *. rewrite blen_app in *.
    pose proof (blen_nonneg (cd_aug_length_bytes cd)). pose proof (blen_nonneg (concat (map item_bytes items))).
    rewrite uwrap_small by (unfold in_u; lia). lia. }
  split; [done|]. rewrite E. do 3 apply stored_suffix in Hs. rewrite blen_app, !blen_le_bytes in Hs.
  change (Z.of_nat 4 + Z.of_nat 4) with 8 in Hs. done.
Qed.

Lemma cie_at_factor c len cd : code_alignment_factor (cie_at c len cd) = cd_code cd /\ cie_instructions_end (cie_at c len cd) = c + 4 + len.
Proof. unfold cie_at. by destruct (apply_items _ _) as [[l e] h]. Qed.

(** Where the instructions of an FDE are. *)
Lemma fde_instructions c cie cd f pad bs more :
  stored m c (fde_entry c cie cd f ++ more) -> fd_rest f = pad ++ bs -> blen pad = (if has_z cd then fd_aug_length f else 0) ->
  let i := if has_z cd then u64 (c + 16 + blen (fd_aug_length_bytes f) + fd_aug_length f) else c + 16 in
  stored m i bs /\ c + 4 + blen (fde_body c cie cd f) = i + blen bs.
Proof.
  intros Hs Hr Hp i. pose proof (st_start _ _ _ Hs). pose proof (st_end _ _ _ Hs) as He. pose proof (blen_nonneg more). pose proof (blen_nonneg bs).
  pose proof (blen_nonneg pad). unfold fde_entry in Hs, He. rewrite blen_app, blen_entry in He. unfold entry_bytes, fde_body in Hs.
  unfold fde_body in *. rewrite Hr, !blen_app, !blen_le_bytes in *.
  set (lb := if has_z cd then fd_aug_length_bytes f else []) in *. pose proof (blen_nonneg lb).
  assert (i = c + 16 + blen lb + blen pad) as ->.
  { unfold i, lb. rewrite Hp. subst lb. destruct (has_z cd); [|rewrite blen_nil; lia]. rewrite uwrap_small; [lia|]. unfold in_u. lia. }
  split; [|lia]. set (h1 := le_bytes 4 _) in Hs at 1. rewrite <- !app_assoc in Hs. do 6 apply stored_suffix in Hs. apply stored_prefix in Hs.
  unfold h1 in Hs. rewrite !blen_le_bytes in Hs. by replace (c + 16 + blen lb + blen pad) with (c + Z.of_nat 4 + Z.of_nat 4 + Z.of_nat 4 + Z.of_nat 4 + blen lb + blen pad) by lia.
Qed.

Lemma described_placed p : placed_ok m p -> placed_table p -> described m (fde_of p) (ci (p_cie_at p)) (fi (p_at p)).
Proof.
  intros [[more1 Hs1] [more2 Hs2] [Hcie _ _ _] [F1 F2 F3 F4 F5 F6]] [Hl Hcaf HC Hi Ha Hu (pad & bs & Hr & Hpad & HF) Ho Hst (Hf1 & Hf2 & Hf3)].
  destruct (cie_at_factor (p_cie_at p) (cie_len (p_cie p) (p_rest p)) (p_cie p)) as [E1 E2].
  destruct (cie_instructions (p_cie_at p) (cie_len (p_cie p) (p_rest p)) (p_cie p) (p_rest p ++ more1)) as [E3 Hsr]; [|done|].
  { revert Hs1. unfold cie_entry, entry_bytes. fold (cie_len (p_cie p) (p_rest p)). by rewrite <- !app_assoc. }
  split.
  - cbn [fde_of fde_at fde_cie]. by rewrite E1.
  - cbn [fde_of fde_at fde_pc_start]. lia.
  - exists (p_rest p). cbn [fde_of fde_at fde_cie]. split; [done|]. split; [by eapply stored_prefix|]. rewrite E2, E3. unfold cie_len.
    rewrite !blen_app, blen_le_bytes. lia.
  - done.
  - exists bs. split; [done|]. cbn [fde_of fde_at fde_instructions_offset fde_instructions_end].
    by apply (fde_instructions (p_at p) (p_cie_at p) (p_cie p) (p_fde p) pad bs more2).
Qed.

(** ** Finding the FDEs, cached or not *)

(** The functions of a section; an address has one FDE and one CIE, and no pc is in two functions. *)
Variable ps : list placed.

Record placed_all : Prop := mkPlacedAll {
  pa_memory p : p ∈ ps -> placed_ok m p;
  pa_tables p : p ∈ ps -> placed_table p;
  pa_at p1 p2 : p1 ∈ ps -> p2 ∈ ps -> p_at p1 = p_at p2 -> p1 = p2;
  pa_cie p1 p2 : p1 ∈ ps -> p2 ∈ ps -> p_cie_at p1 = p_cie_at p2 -> fde_cie (fde_of p1) = fde_cie (fde_of p2);
  pa_apart p1 p2 pc : p1 ∈ ps -> p2 ∈ ps -> covers (table_of p1) pc -> covers (table_of p2) pc -> p1 = p2
}.

(** The cached CIEs and FDEs are those of the functions. *)
Record entries_ok (s : t) : Prop := mkEntriesOk {
  en_raw : raw s = m;
  en_cies p c : p ∈ ps -> cie_entries s !! p_cie_at p = Some c -> c = fde_cie (fde_of p);
  en_fdes p f : p ∈ ps -> fde_entries s !! p_at p = Some f -> f = fde_of p
}.

Hypothesis Hps : placed_all.

Lemma fde_found p s : entries_ok s -> p ∈ ps ->
  exists cs fs c, let s' := set_fde_entries fs (set_cies cs (move_to c s)) in
    GetFdeFromOffset fuel (p_at p) s = Ok (Some (fde_of p), s') /\ entries_ok s'.
Proof.
  intros HI Hp. unfold GetFdeFromOffset, mbind at 1, op_bind, gets. destruct (fde_entries s !! p_at p) as [f|] eqn:EF.
  - rewrite (en_fdes _ HI p f Hp EF). exists (cie_entries s), (fde_entries s), (cursor s). rewrite move_to_here. by destruct s.
  - destruct (pa_memory Hps p Hp) as [P1 P2 P3 P4]. destruct (pa_tables Hps p Hp) as [T1 T2 T3 T4 T5 T6 T7 T8 T9 (T10 & T11 & T12)].
    unfold mbind at 1, seek, modify at 1. unfold mbind at 1. change (set_memory _ s) with (move_to (p_at p) s).
    destruct (fill_in_fde fuel (p_at p) (p_cie_at p) (p_cie p) (p_rest p) (p_fde p) (move_to (p_at p) s)) as [c' ->]; try done.
    { split; try done; change (raw (move_to (p_at p) s)) with (raw s); by rewrite (en_raw _ HI). }
    { change (cie_entries (move_to (p_at p) s)) with (cie_entries s). destruct (cie_entries s !! p_cie_at p) as [c|] eqn:EC; [right|by left].
      by rewrite (en_cies _ HI p c Hp EC). }
    eexists _, _, c'. split; [done|]. split; [apply HI| |].
    + intros p' c Hp'. cbn [cie_entries set_fde_entries set_cies]. destruct (Z.eq_dec (p_cie_at p) (p_cie_at p')) as [E|Hne].
      * rewrite <- (pa_cie Hps p p' Hp Hp' E), <- E, lookup_insert_eq. by intros [= <-].
      * rewrite lookup_insert_ne by done. by apply HI.
    + intros p' f Hp'. cbn [fde_entries set_fde_entries set_cies]. destruct (Z.eq_dec (p_at p) (p_at p')) as [E|Hne].
      * rewrite <- E, lookup_insert_eq. intros [= <-]. by rewrite (pa_at Hps p p').
      * rewrite lookup_insert_ne by done. by apply HI.
Qed.

Lemma placed_tables_ok : tables_ok fuel m (table_of <$> ps).
Proof.
  split.
  - intros tb (p & -> & Hp)%list_elem_of_fmap. apply described_placed; [by apply Hps|by apply (pa_tables Hps)].
  - intros tb (p & -> & Hp)%list_elem_of_fmap. by destruct (pa_tables Hps p Hp).
  - intros tb (p & -> & Hp)%list_elem_of_fmap. by destruct (pa_tables Hps p Hp) as [_ _ _ _ _ _ _ _ _ (? & ? & _)].
  - intros tb pc (p & -> & Hp)%list_elem_of_fmap. by apply (pa_tables Hps p Hp).
  - intros tb1 tb2 (p1 & -> & H1)%list_elem_of_fmap (p2 & -> & H2)%list_elem_of_fmap E. cbn [tb_fde tb_ci table_of] in *.
    change (p_cie_at p1 = p_cie_at p2) in E. unfold fde_initial. by rewrite (pa_cie Hps p1 p2 H1 H2 E), E.
  - intros tb1 tb2 pc (p1 & -> & H1)%list_elem_of_fmap (p2 & -> & H2)%list_elem_of_fmap C1 C2. f_equal. by apply (pa_apart Hps p1 p2 pc).
Qed.

(** An offset of the FDE of a pc leads to the FDE. *)
Lemma fde_from_pc offset_from_pc p pc s s1 :
  offset_from_pc pc s = Ok (Some (p_at p), s1) -> entries_ok s1 -> p ∈ ps -> covers (table_of p) pc ->
  exists cs fs c, let s' := set_fde_entries fs (set_cies cs (move_to c s1)) in
    GetFdeFromPc fuel offset_from_pc pc s = Ok (Some (fde_of p), s') /\ entries_ok s'.
Proof.
  intros HO HE Hp Hpc. destruct (fde_found p s1 HE Hp) as (cs & fs & c & HG & HI). exists cs, fs, c. split; [|done].
  unfold GetFdeFromPc, mbind, op_bind. rewrite HO, HG. destruct (Z.ltb_spec pc (fde_pc_end (fde_of p))); [done|].
  unfold covers in Hpc. cbn in Hpc, H. lia.
Qed.
End Placed.

(** ** Sections without a search table *)

Section Rows.
Context {AT : AddressType}.
Variable fuel : nat.
Variable m : Memory.
Variables (offset : Z) (d : cie_desc) (rest : list Z) (es : list entry).
Variables (ci fi : Z -> list insn).

Notation placed_list := (placed_fdes offset d rest es).
Definition section_tables : list table := table_of ci fi <$> placed_list.

(** The section after [Init], whatever has been looked up since. *)
Record initialised (s : t) : Prop := mkInitialised {
  in_fdes : fdes s = merge_sort by_start_end (info_of <$> placed_list);
  in_count : fde_count s = Z.of_nat (length (info_of <$> placed_list));
  in_entries : entries_ok m placed_list s
}.

Lemma offset_found p pc s :
  functions_apart (info_of <$> placed_list) -> initialised s -> p ∈ placed_list -> covers (table_of ci fi p) pc ->
  GetFdeOffsetFromPc pc s = Ok (Some (p_at p), s).
Proof.
  intros Ha HI Hp Hpc. assert (info_of p ∈ info_of <$> placed_list) as Hin by by apply list_elem_of_fmap_2.
  unfold GetFdeOffsetFromPc, mbind, op_bind, gets. rewrite (in_fdes _ HI), (in_count _ HI), Nat2Z.id.
  assert (length (info_of <$> placed_list) <> 0%nat) by (destruct (info_of <$> placed_list); [by apply elem_of_nil in Hin|done]).
  destruct (Z.eqb_spec (Z.of_nat (length (info_of <$> placed_list))) 0); [lia|]. cbv zeta.
  rewrite (proj2 (search_sorted pc _ (info_of p) Ha)); [done|]. split; [done|]. cbn in *. unfold covers in Hpc. cbn in Hpc. lia.
Qed.

Lemma placed_at_inj p1 p2 : p1 ∈ placed_list -> p2 ∈ placed_list -> p_at p1 = p_at p2 -> p1 = p2.
Proof.
  intros H1 H2 E. pose proof (section_fdes_offsets offset 0 d rest (ECie d rest :: es)) as HN.
  apply list_elem_of_lookup in H1 as [i1 H1], H2 as [i2 H2].
  assert (i1 = i2) as ->; [|by rewrite H1 in H2; injection H2].
  eapply (NoDup_lookup _ _ _ (p_at p1) HN); rewrite list_lookup_fmap; [by unfold placed_fdes in H1; rewrite H1|].
  unfold placed_fdes in H2. by rewrite H2, E.
Qed.

Lemma placed_cie p1 p2 : p1 ∈ placed_list -> p2 ∈ placed_list -> p_cie_at p1 = p_cie_at p2 -> fde_cie (fde_of p1) = fde_cie (fde_of p2).
Proof.
  intros H1 H2 E. unfold placed_fdes in H1, H2. cbn [section_fdes] in H1, H2.
  destruct (section_cies (offset + blen (cie_entry d rest)) offset d rest es p1 p2) as [E1 E2]; [|done|done|done|].
  - unfold cie_entry. rewrite blen_entry. pose proof (blen_nonneg (le_bytes 4 0 ++ cie_fixed d ++ cie_aug d ++ rest)). lia.
  - cbn [fde_of fde_at fde_cie]. by rewrite E, E1, E2.
Qed.

Lemma section_placed :
  (forall p, p ∈ placed_list -> placed_ok m p) -> (forall p, p ∈ placed_list -> placed_table fuel ci fi p) ->
  functions_apart (info_of <$> placed_list) -> placed_all fuel m ci fi placed_list.
Proof.
  intros Hm Ht Ha. split; [done|done|apply placed_at_inj|apply placed_cie|]. intros p1 p2 pc H1 H2 C1 C2. apply placed_at_inj; [done|done|].
  destruct (decide (info_of p1 = info_of p2)) as [E|Hne]; [by injection E|]. destruct Ha as (_ & _ & HA).
  destruct (HA (info_of p1) (info_of p2)) as [HX|HX]; [by apply list_elem_of_fmap_2..|done| |]; unfold covers in C1, C2; cbn in *; lia.
Qed.

Lemma eh_frame_finder :
  placed_all fuel m ci fi placed_list -> functions_apart (info_of <$> placed_list) ->
  FdeFinder fuel GetFdeOffsetFromPc m section_tables initialised.
Proof.
  intros Hps Ha. split.
  - intros s HI. apply (in_entries _ HI).
  - intros s tb pc HI Ht Hpc. apply list_elem_of_fmap in Ht as (p & -> & Hp).
    destruct (fde_from_pc fuel m ci fi _ Hps GetFdeOffsetFromPc p pc s s (offset_found p pc s Ha HI Hp Hpc) (in_entries _ HI) Hp Hpc)
      as (cs & fs & c & HG & HE). eexists. split; [exact HG|]. split; [|done]. by split; [apply HI|apply HI|].
  - intros s c [H1 H2 [H3 H4 H5]] Hc. by split.
  - intros s x [H1 H2 [H3 H4 H5]]. by split.
  - intros s x [H1 H2 [H3 H4 H5]]. by split.
Qed.
End Rows.

(** After [Init] the functions can be found and nothing is cached. *)
Lemma init_ready {AT : AddressType} fuel enc seg m offset d rest es ci fi :
  stored m offset (eh_frame offset d rest es) -> section_ok offset 0 None (ECie d rest :: es) -> enough_fuel fuel d rest es ->
  functions_apart (info_of <$> placed_fdes offset d rest es) ->
  (forall p, p ∈ placed_fdes offset d rest es -> placed_table fuel ci fi p) ->
  let tables := section_tables offset d rest es ci fi in
  FdeFinder fuel GetFdeOffsetFromPc m tables (initialised m offset d rest es) /\ tables_ok fuel m tables /\
  exists s1, Init fuel enc seg offset (blen (eh_frame offset d rest es)) (new m) = Ok (Some (), s1) /\
    initialised m offset d rest es s1 /\ caches_ok tables s1.
Proof.
  intros Hs Hok Hf Ha Ht tables.
  assert (forall p, p ∈ placed_fdes offset d rest es -> placed_ok m p) as Hm.
  { destruct Hok as [Hd Hok]. intros p Hin. unfold eh_frame in Hs. cbn [section_bytes] in Hs.
    by eapply (section_fdes_ok m es (offset + blen (cie_entry d rest)) offset d rest); [| |exact Hs|eapply stored_suffix|]. }
  pose proof (section_placed fuel m offset d rest es ci fi Hm Ht Ha) as Hps.
  split; [by apply eh_frame_finder|]. split; [by apply placed_tables_ok|].
  exists (listed_section offset d rest es (new m)). split; [by apply init_lists|]. by split; [split; [..|split]|split].
Qed.

(** The rows of an .eh_frame section: for a section of CIEs and FDEs with pc-relative 32-bit
    addresses, whose functions do not touch and whose call frame instructions (without expressions) give
    a row to every pc, [Init] succeeds, and looking up pcs one after the other, in any order and as often
    as one likes, returns for each of them the rules of its row of the DWARF table and the CIE of its
    function; the four caches that the lookups fill do not show. *)
Theorem eh_frame_rows {AT : AddressType} fuel enc seg m offset d rest es ci fi pcs :
  stored m offset (eh_frame offset d rest es) -> section_ok offset 0 None (ECie d rest :: es) -> enough_fuel fuel d rest es ->
  functions_apart (info_of <$> placed_fdes offset d rest es) ->
  (forall p, p ∈ placed_fdes offset d rest es -> placed_table fuel ci fi p) ->
  Forall (fun pc => exists tb, tb ∈ section_tables offset d rest es ci fi /\ covers tb pc) pcs ->
  exists s1 rows s2, Init fuel enc seg offset (blen (eh_frame offset d rest es)) (new m) = Ok (Some (), s1) /\
    rows_of fuel GetFdeOffsetFromPc pcs s1 = Ok (Some rows, s2) /\ Forall2 (is_row (section_tables offset d rest es ci fi)) pcs rows.
Proof.
  intros Hs Hok Hf Ha Ht Hp. destruct (init_ready fuel enc seg m offset d rest es ci fi Hs Hok Hf Ha Ht) as (HF & HT & s1 & HI & H1 & H2).
  destruct (rows_of_tables fuel m _ GetFdeOffsetFromPc _ HT pcs s1 H1 H2 Hp) as (rows & s2 & HR & HRows & _). by exists s1, rows, s2.
Qed.
End EhFrameRows.

(** ** A section *)

Module CfaExamples.
Import DwarfSectionImpl Format Pieces CieFormat SectionFormat ScanFacts FdeFacts SectionFdes SearchFacts FormatTheorems FormatExamples.
Import CfaTable CfaRows EhFrameRows.

(** Two functions: one that saves register 6, and one with an epilogue in its middle. *)
Definition cie_code : list insn := [IDefCfa 7 8; IOffset 16 1; INop; INop].
Definition framed_code : list insn := [IAdvance 1; IDefCfaOffset 16; IOffset 6 2; IAdvance 3; IDefCfaRegister 6; INop].
Definition epilogue_code : list insn :=
  [IAdvance1 4; IDefCfaOffset 32; IRemember; IAdvance 4; IDefCfaOffset 8; IAdvance 1; IRestoreState; INop].

Definition framed : fde_desc := mkFdeDesc 4096 32 0 [0] [65; 14; 16; 134; 2; 67; 13; 6; 0].
Definition epilogue : fde_desc := mkFdeDesc 4160 16 0 [0] [2; 4; 14; 32; 10; 68; 14; 8; 65; 11; 0].
Definition code_entries : list entry := [EFde framed; EFde epilogue].

Definition code_bytes : list Z := eh_frame 0 sample_desc sample_rest code_entries.
Definition code_memory : Memory := DwarfMemory.buffer code_bytes.

Definition ci_at (_ : Z) : list insn := cie_code.
Definition fi_at (a : Z) : list insn := if a =? 24 then framed_code else epilogue_code.

Lemma code_stored : stored code_memory 0 code_bytes.
Proof.
  pose proof (stored_buffer [] code_bytes []) as H. cbn [app] in H. rewrite app_nil_r in H. apply H. vm_compute. reflexivity.
Qed.

Ltac small := first [vm_compute; split; congruence | unfold reg_ok, CFA_REG; lia | by apply uleb_byte; lia].

Lemma cie_program : program (AT := Addr64) cie_code sample_rest.
Proof.
  apply (p_cons _ _ [12; 7; 8]); [by apply (e_def_cfa 7 8 [7] [8]); small|].
  apply (p_cons _ _ [144; 1]); [by apply (e_offset 16 1 [1]); small|]. 
  apply (p_cons _ _ [0]); [constructor|]. apply (p_cons _ _ [0]); [constructor|constructor].
Qed.

Lemma framed_program : program (AT := Addr64) framed_code (fd_rest framed).
Proof.
  apply (p_cons _ _ [65]); [by apply (e_advance 1)|]. apply (p_cons _ _ [14; 16]); [by apply (e_def_cfa_offset 16 [16]); small|].
  apply (p_cons _ _ [134; 2]); [by apply (e_offset 6 2 [2]); small|]. apply (p_cons _ _ [67]); [by apply (e_advance 3)|].
  apply (p_cons _ _ [13; 6]); [by apply (e_def_cfa_register 6 [6]); small|]. apply (p_cons _ _ [0]); constructor.
Qed.

Lemma epilogue_program : program (AT := Addr64) epilogue_code (fd_rest epilogue).
Proof.
  apply (p_cons _ _ [2; 4]); [by apply (e_advance1 4)|]. apply (p_cons _ _ [14; 32]); [by apply (e_def_cfa_offset 32 [32]); small|].
  apply (p_cons _ _ [10]); [constructor|]. apply (p_cons _ _ [68]); [by apply (e_advance 4)|].
  apply (p_cons _ _ [14; 8]); [by apply (e_def_cfa_offset 8 [8]); small|]. apply (p_cons _ _ [65]); [by apply (e_advance 1)|].
  apply (p_cons _ _ [11]); [constructor|]. apply (p_cons _ _ [0]); constructor.
Qed.

(** Every pc of a function has a row. *)
Lemma rows_by_check {AT : AddressType} tb start len :
  fde_pc_start (tb_fde tb) = start -> fde_pc_end (tb_fde tb) = start + len ->
  forallb (fun pc => match table_state tb pc with Some st => loc st <=? start + len | None => false end) (seqZ start len) = true ->
  forall pc, covers tb pc -> exists st, table_state tb pc = Some st /\ loc st <= fde_pc_end (tb_fde tb).
Proof.
  intros E1 E2 HC pc Hpc. unfold covers in Hpc. rewrite forallb_forall in HC. specialize (HC pc).
  rewrite <- list_elem_of_In, elem_of_seqZ in HC. specialize (HC ltac:(lia)).
  destruct (table_state tb pc) as [st|]; [|done]. exists st. split; [done|lia].
Qed.

Lemma code_cie_ok : cie_entry_ok sample_desc sample_rest.
Proof.
  split; [exact sample_ok| |done|vm_compute; reflexivity]. exists 27. split; [|done]. apply (enc_R []); constructor.
Qed.

Lemma code_section_ok : section_ok (AT := Addr64) 0 0 None (ECie sample_desc sample_rest :: code_entries).
Proof. split; [exact code_cie_ok|]. repeat split; vm_compute; congruence. Qed.

Lemma code_fuel : enough_fuel 20 sample_desc sample_rest code_entries.
Proof.
  split; [lia|]. split; [cbn; lia|]. intros d' r' Hin.
  repeat (apply elem_of_cons in Hin as [Hin|Hin]; [inversion Hin; subst; cbn; lia|]). by apply elem_of_nil in Hin.
Qed.

Lemma code_table a start len bs :
  let f := mkFdeDesc start len 0 [0] bs in let p := mkPlaced a 0 sample_desc sample_rest f in
  program (AT := Addr64) (fi_at a) bs -> CfaTable.in_order (fi_at a) -> (length (fi_at a) < 20)%nat ->
  forallb (fun pc => match table_state (AT := Addr64) (table_of ci_at fi_at p) pc with Some st => loc st <=? start + len | None => false end)
    (seqZ start len) = true ->
  placed_table (AT := Addr64) 20 ci_at fi_at p.
Proof.
  intros f p HP HO HL HC. split.
  - repeat constructor.
  - cbn. lia.
  - exact cie_program.
  - repeat constructor.
  - by intros items [= <-].
  - intros _. by apply uleb_byte.
  - by exists [], bs.
  - done.
  - by apply (rows_by_check (table_of ci_at fi_at p) start len).
  - split_and!; [cbn; lia|done|cbn; lia].
Qed.

Lemma code_tables p :
  p ∈ placed_fdes 0 sample_desc sample_rest code_entries -> placed_table (AT := Addr64) 20 ci_at fi_at p.
Proof.
  intros Hp. change (p ∈ [mkPlaced 24 0 sample_desc sample_rest framed; mkPlaced 50 0 sample_desc sample_rest epilogue]) in Hp.
  apply elem_of_cons in Hp as [->|Hp]; [|apply elem_of_cons in Hp as [->|Hp]; [|by apply elem_of_nil in Hp]].
  - apply code_table; [exact framed_program|by repeat constructor|cbn; lia|vm_compute; reflexivity].
  - apply code_table; [exact epilogue_program|by repeat constructor|cbn; lia|vm_compute; reflexivity].
Qed.

Lemma code_apart : functions_apart (info_of <$> placed_fdes 0 sample_desc sample_rest code_entries).
Proof.
  change (functions_apart [mkFdeInfo 24 4096 4128; mkFdeInfo 50 4160 4176]). split; [|split].
  - refine (bool_decide_unpack _ _). vm_compute. exact I.
  - repeat constructor; cbn; lia.
  - intros a b Ha Hb. repeat (apply elem_of_cons in Ha as [->|Ha]); try (by apply elem_of_nil in Ha);
      repeat (apply elem_of_cons in Hb as [->|Hb]); try (by apply elem_of_nil in Hb); intros Hn; first [cbn; lia | exfalso; by apply Hn].
Qed.

Definition code_pcs : list Z := [4170; 4100; 4165; 4096; 4174; 4100].

Lemma code_covered : Forall (fun pc => exists tb, tb ∈ section_tables 0 sample_desc sample_rest code_entries ci_at fi_at /\ covers tb pc) code_pcs.
Proof.
  set (p1 := mkPlaced 24 0 sample_desc sample_rest framed). set (p2 := mkPlaced 50 0 sample_desc sample_rest epilogue).
  change (section_tables 0 sample_desc sample_rest code_entries ci_at fi_at) with [table_of ci_at fi_at p1; table_of ci_at fi_at p2].
  repeat constructor;
    first [exists (table_of ci_at fi_at p1); split; [left|unfold covers; cbn; lia] | exists (table_of ci_at fi_at p2); split; [right; left|unfold covers; cbn; lia]].
Qed.

Lemma eh_frame_rows_witness :
  exists s1 rows s2, Init (AT := Addr64) 20 0 0 0 (blen code_bytes) (new code_memory) = Ok (Some (), s1) /\
    rows_of (AT := Addr64) 20 GetFdeOffsetFromPc code_pcs s1 = Ok (Some rows, s2) /\
    Forall2 (is_row (AT := Addr64) (section_tables 0 sample_desc sample_rest code_entries ci_at fi_at)) code_pcs rows.
Proof.
  apply (eh_frame_rows (AT := Addr64) 20 0 0 code_memory 0 sample_desc sample_rest code_entries ci_at fi_at code_pcs).
  - exact code_stored.
  - exact code_section_ok.
  - exact code_fuel.
  - exact code_apart.
  - exact code_tables.
  - exact code_covered.
Defined.

(** The CFA rules of these pcs. *)
Example code_rows :
  (fun s => (fun rows => (fun r => rules r.1 !! CFA_REG) <$> default [] rows.1) <$> rows_of (AT := Addr64) 20 GetFdeOffsetFromPc code_pcs s.2)
    <$> Init (AT := Addr64) 20 0 0 0 (blen code_bytes) (new code_memory)
  = Ok (Ok [Some (mkLoc DWARF_LOCATION_REGISTER 7 32); Some (mkLoc DWARF_LOCATION_REGISTER 6 16); Some (mkLoc DWARF_LOCATION_REGISTER 7 32);
            Some (mkLoc DWARF_LOCATION_REGISTER 7 8); Some (mkLoc DWARF_LOCATION_REGISTER 7 32); Some (mkLoc DWARF_LOCATION_REGISTER 6 16)]).
Proof. vm_compute. reflexivity. Qed.

(** DW_CFA_offset_extended stores its offset as it is: register 6 at the CFA plus 2, where
    DW_CFA_offset with the same operands gives the CFA minus 16. *)
Example offset_extended_unfactored :
  let rule bs := (fun r => rules (DwarfCfa.loc_regs r.2) !! 6) <$> DwarfCfa.instruction (AT := Addr64) DwarfCfa.sample_fde None (DwarfCfa.machine bs) in
  rule [5; 6; 2] = Ok (Some (mkLoc DWARF_LOCATION_OFFSET 2 0)) /\ rule [134; 2] = Ok (Some (mkLoc DWARF_LOCATION_OFFSET (2 ^ 64 - 16) 0)).
Proof. vm_compute. done. Qed.
End CfaExamples.
