(* ===== verification/UwCfaStep.v ===== *)
(** * libunwindstack: stepping to the caller

    The registers of the caller as the DWARF table defines them ([caller]), and the theorems that
    [DwarfSectionImpl::Eval] (UwDwarfEval) computes them from the rules of a row, and that [Step]
    (UwDwarfSection) does so for the pcs of an .eh_frame section, from the bytes of the section
    (UwDwarfFormat, UwCfaTable, UwCfaSection) to the registers. *)

From S2P Require Import Prelude UwDwarfMemory UwDwarfOp UwDwarfCfa UwDwarfEval UwDwarfSection UwDwarfFormat UwCfaTable UwCfaSection.

Module Frame.
Import DwarfSection EvalFacts SavedFacts RuleFacts EvalSpec CfaTable CfaExec.
Import DwarfOp(abits_pos).

(** ** The registers of the caller *)

Section Caller.
Context {AT : AddressType} {RA : RegsArch}.
Variable process_memory : Memory.

Definition frame_cfa (w : row) (old : list Z) : option Z :=
  '(r, o) ← row_cfa w; v ← old !! Z.to_nat r; Some (aw (v + o)).

(** The value of a register in the caller; [v] is its value in the frame and [c] the CFA. *)
Definition caller_value (old : list Z) (c v : Z) (x : option rule) : option Z :=
  match x with
  | None | Some Undefined => Some v
  | Some (SavedAt o) => le_val <$> ReadFully process_memory (u64 (c + o)) asz
  | Some (IsCfaPlus o) => Some (aw (c + o))
  | Some (InRegister r) => aw <$> old !! Z.to_nat r
  end.

Definition caller_values (w : row) (old : list Z) (c : Z) : option (list Z) :=
  mapM (fun r => v ← old !! r; caller_value old c v (row_regs w !! Z.of_nat r)) (seq 0 (length old)).

Definition return_address (w : row) (ra : Z) (vals : list Z) : option Z :=
  match row_regs w !! ra with
  | Some Undefined => Some 0
  | _ => vals !! Z.to_nat ra
  end.

(** The registers of the caller and whether there is none; [ra] is the column of the return address. *)
Definition caller (w : row) (ra : Z) (old : list Z) : option (bool * list Z) :=
  c ← frame_cfa w old;
  vals ← caller_values w old c;
  pc ← return_address w ra vals;
  Some (aw pc =? 0, <[Z.to_nat sp_reg := c]> (<[Z.to_nat pc_reg := aw pc]> vals)).

(** The registers that the code can save and restore: up to 31 ([save_pc_of_arm64] in UwDwarfEval). *)
Record row_small (w : row) : Prop := mkRowSmall {
  rs_regs r x : row_regs w !! r = Some x -> r < total_regs -> 0 <= r <= 31;
  rs_in r r' : row_regs w !! r = Some (InRegister r') -> 0 <= r' <= 31;
  rs_cfa r o : row_cfa w = Some (r, o) -> 0 <= r
}.

Definition row_small_check (w : row) : bool :=
  forallb (fun '(r, x) => ((total_regs <=? r) || ((0 <=? r) && (r <=? 31))) && match x with InRegister r' => (0 <=? r') && (r' <=? 31) | _ => true end)
    (map_to_list (row_regs w)) && match row_cfa w with Some (r, _) => 0 <=? r | None => true end.

Lemma row_small_checked w : row_small_check w = true -> row_small w.
Proof.
  unfold row_small_check. intros [H1 H2]%andb_true_iff. rewrite forallb_forall in H1.
  assert (forall r x, row_regs w !! r = Some x -> (((total_regs <=? r) || ((0 <=? r) && (r <=? 31))) &&
    match x with InRegister r' => (0 <=? r') && (r' <=? 31) | _ => true end = true)) as H.
  { intros r x Hx. apply (H1 (r, x)). by apply list_elem_of_In, elem_of_map_to_list. }
  split.
  - intros r x Hx Hr. specialize (H r x Hx). lia.
  - intros r r' Hx. specialize (H r _ Hx). cbn in H. lia.
  - intros r o E. rewrite E in H2. lia.
Qed.

(** ** Offsets as the code adds them *)

Lemma u64_add_u64 a o : u64 (a + u64 o) = u64 (a + o).
Proof. unfold uwrap. by rewrite Zplus_mod_idemp_r. Qed.

Lemma aw_add_u64 a o : aw (a + u64 o) = aw (a + o).
Proof.
  unfold aw, uwrap. destruct abits_cases as [-> | ->]; [|by rewrite Zplus_mod_idemp_r].
  rewrite <- Zplus_mod_idemp_r, <- (Znumtheory.Zmod_div_mod (2 ^ 32) (2 ^ 64) o); [|lia|lia|by exists (2 ^ 32)]. by rewrite Zplus_mod_idemp_r.
Qed.

Lemma aw_aw v : aw (aw v) = aw v.
Proof. unfold aw. apply uwrap_small. apply uwrap_range. apply Z.lt_le_incl, abits_pos. Qed.

(** Reading a register that has not been saved. *)
Lemma get_new old r z : 0 <= r <= 31 -> old !! Z.to_nat r = Some z -> RegsInfo.Get (RegsInfo.new old) r = Ok z.
Proof.
  intros Hr E. unfold RegsInfo.Get, RegsInfo.IsSaved, RegsInfo.reg_bit. destruct (Z.ltb_spec 64 r); [lia|]. cbn [RegsInfo.new RegsInfo.saved_reg_map].
  assert (exists b, (if r <? 31 then Ok (2 ^ r) else if r =? 31 then Ok (2 ^ 64 - 2 ^ 31) else Fault BadShift) = Ok b) as [b ->].
  { destruct (Z.ltb_spec r 31), (Z.eqb_spec r 31); try lia; by eexists. }
  rewrite !bind_Ok, Z.land_0_l. unfold RegsInfo.at_. destruct (Z.leb_spec 0 r); [|lia]. cbn. by rewrite E.
Qed.

(** The value of a rule as the code computes it. *)
Lemma rule_value_caller old c s x v y :
  (forall r', x = InRegister r' -> 0 <= r' <= 31) -> caller_value old c v (Some x) = Some y ->
  exists o, rule_value process_memory old c s (location_of x) = Ok (Some o) /\ default v o = y.
Proof.
  intros Hx Hv. destruct x as [|o|o|r']; cbn in Hv.
  - injection Hv as <-. by exists None.
  - unfold rule_value. cbn. rewrite u64_add_u64. destruct (ReadFully _ _ _) as [bs|]; [|done]. injection Hv as <-. by exists (Some (le_val bs)).
  - injection Hv as <-. exists (Some (aw (c + o))). split; [|done]. unfold rule_value. cbn. by rewrite aw_add_u64.
  - specialize (Hx r' eq_refl). destruct (old !! Z.to_nat r') as [z|] eqn:E; [|done]. injection Hv as <-. exists (Some (aw z)). split; [|done].
    unfold rule_value. cbn [loc_type value0 value1 location_of]. rewrite (uwrap_small 32) by (unfold in_u; lia).
    pose proof (lookup_lt_Some _ _ _ E). destruct (Z.leb_spec (Z.of_nat (length old)) r'); [lia|].
    rewrite (get_new old r' z) by done. by rewrite bind_Ok, Z.add_0_r.
Qed.

(** The CFA. *)
Lemma eval_cfa_frame w old c s :
  (forall r o, row_cfa w = Some (r, o) -> 0 <= r) -> Z.of_nat (length old) = total_regs -> row_ok w -> frame_cfa w old = Some c ->
  exists loc, rules_of w !! CFA_REG = Some loc /\ eval_cfa process_memory loc old s = Ok (Some c, s).
Proof.
  intros Hr Hl Hw Hc. rewrite rules_of_cfa_reg by done. unfold frame_cfa in Hc. destruct (row_cfa w) as [[r o]|]; [|done]. specialize (Hr r o eq_refl).
  cbn in Hc. destruct (old !! Z.to_nat r) as [v|] eqn:E; [|done]. injection Hc as <-. eexists. split; [done|]. unfold eval_cfa.
  cbn [loc_type value0 value1 fmap option_fmap option_map]. pose proof (lookup_lt_Some _ _ _ E). destruct (Z.leb_spec total_regs r); [lia|].
  unfold RegsInfo.at_. destruct (Z.leb_spec 0 r); [|lia]. rewrite E. cbn. by rewrite aw_add_u64.
Qed.

Lemma caller_values_lookup w old c vals :
  caller_values w old c = Some vals -> length vals = length old /\
    forall (r : nat) v, old !! r = Some v -> exists y, vals !! r = Some y /\ caller_value old c v (row_regs w !! Z.of_nat r) = Some y.
Proof.
  unfold caller_values. intros HM. apply mapM_Some in HM. pose proof (Forall2_length _ _ _ HM) as HL. rewrite length_seq in HL.
  split; [done|]. intros r v Hv. pose proof (lookup_lt_Some _ _ _ Hv) as Hr.
  destruct (Forall2_lookup_l _ _ _ r r HM) as (y & Hy & HE); [apply lookup_seq; lia|]. rewrite Hv in HE. by exists y.
Qed.

Lemma caller_recovers w old c s vals :
  row_small w -> Z.of_nat (length old) = total_regs -> caller_values w old c = Some vals -> recovers process_memory (rules_of w) old c s vals.
Proof.
  intros HS Hl HV. destruct (caller_values_lookup _ _ _ _ HV) as [HL HR]. split; [done|]. intros r v Hv. destruct (HR r v Hv) as (y & Hy & HC).
  pose proof (lookup_lt_Some _ _ _ Hv). pose proof total_regs_small. rewrite rules_of_reg by (unfold CFA_REG; lia).
  destruct (row_regs w !! Z.of_nat r) as [x|] eqn:EX; cbn [fmap option_fmap option_map]; [|by injection HC as <-].
  destruct (rule_value_caller old c s x v y) as (o & Ho & <-); [|done|by exists o]. intros r' ->. by eapply (rs_in _ HS).
Qed.

(** The rules of a row do not move the cursor of the section. *)
Lemma eval_rules_memory cie entries i s b i' s' :
  Forall (fun e => exists x, e.2 = location_of x) (filter (fun e => e.1 <> CFA_REG) entries) ->
  eval_rules process_memory cie entries i s = Ok (b, i', s') -> memory_ s' = memory_ s.
Proof.
  revert i s. induction entries as [|[reg loc] entries IH]; intros i s HF H; cbn [eval_rules] in H; [by injection H as _ _ <-|].
  rewrite filter_cons in HF. destruct (Z.eqb_spec reg CFA_REG) as [->|Hne].
  { rewrite decide_False in HF by (cbn; naive_solver). by eapply IH. }
  rewrite decide_True in HF by done. apply Forall_cons in HF as [[x Hx] HF]. cbn in Hx. subst loc.
  destruct (_ <=? _); [by eapply IH|]. apply bind_Ok_inv in H as (ri & _ & H). apply bind_Ok_inv in H as ([[ok i1] s1] & HE & H).
  assert (memory_ s1 = memory_ s) as <-; [|destruct ok; cbn [negb] in H; [by eapply IH|by injection H as _ _ <-]].
  unfold EvalRegister in HE. destruct x; cbn [loc_type location_of] in HE.
  - by injection HE as _ _ <-.
  - by apply load_value in HE as (_ & -> & _).
  - by injection HE as _ _ <-.
  - destruct (_ <=? _); [by injection HE as _ _ <-|]. apply bind_Ok_inv in HE as (? & _ & HE). by injection HE as _ _ <-.
Qed.

Lemma rules_of_locations {IO : IterationOrder} w :
  row_ok w -> Forall (fun e => exists x, e.2 = location_of x) (filter (fun e => e.1 <> CFA_REG) (UwDwarfEval.in_order (rules_of w))).
Proof.
  intros Hw. apply Forall_forall. intros [r loc] [Hne Hin]%list_elem_of_filter. apply in_order_elem in Hin. cbn in *. rewrite rules_of_reg in Hin by done.
  destruct (row_regs w !! r) as [x|]; [|done]. injection Hin as <-. by exists x.
Qed.

Lemma return_address_found w ra old c vals pc :
  0 <= ra < total_regs -> row_small w -> Z.of_nat (length old) = total_regs -> caller_values w old c = Some vals -> return_address w ra vals = Some pc ->
  forall cie, return_address_register cie = ra ->
  (if ra_undefined cie (rules_of w) then Ok 0 else RegsInfo.at_ vals ra) = Ok pc.
Proof.
  intros Hra HS Hl HV HR cie Hcie. unfold return_address in HR. unfold ra_undefined. rewrite Hcie. pose proof total_regs_small.
  rewrite rules_of_reg by (unfold CFA_REG; lia). unfold RegsInfo.at_. destruct (Z.leb_spec 0 ra); [|lia].
  destruct (row_regs w !! ra) as [[]|]; cbn [fmap option_fmap option_map location_of loc_type]; [by injection HR as <-|..]; by rewrite HR.
Qed.

(** [Eval] with the rules of a row. *)
Lemma eval_row {IO : IterationOrder} cie w regs s fin vals :
  row_ok w -> row_small w -> Z.of_nat (length (regs_ regs)) = total_regs -> 0 <= return_address_register cie < total_regs ->
  caller w (return_address_register cie) (regs_ regs) = Some (fin, vals) ->
  exists d s', Eval process_memory cie (rules_of w) regs s = Ok (Some fin, mkRegs vals d, s') /\ memory_ s' = memory_ s.
Proof.
  intros Hw HS Hl Hra HC. unfold caller in HC.
  destruct (frame_cfa w (regs_ regs)) as [c|] eqn:EC; [|done]. cbn [mbind option_bind] in HC.
  destruct (caller_values w (regs_ regs) c) as [vs|] eqn:EV; [|done]. cbn [mbind option_bind] in HC.
  destruct (return_address w _ vs) as [pc|] eqn:EP; [|done]. cbn [mbind option_bind] in HC. injection HC as <- <-.
  destruct (eval_cfa_frame w (regs_ regs) c s) as (loc & HL & HEC); [apply (rs_cfa _ HS)|done|done|done|].
  pose proof (caller_recovers w (regs_ regs) c s vs HS Hl EV) as [_ HRec].
  assert (effective (return_address_register cie) = true) as Heff.
  { rewrite <- (Z2Nat.id (return_address_register cie)) by lia. apply effective_reg. lia. }
  destruct (eval_rules_complete process_memory cie (regs_ regs) s (UwDwarfEval.in_order (rules_of w)) []
    (mkInfo c false (RegsInfo.new (regs_ regs)) 0) s (saved_ok_new _) eq_refl (in_order_keys _)) as (i' & s' & HE); [set_solver| |].
  { intros r l Hin%in_order_elem Hef. unfold effective in Hef. assert (r <> CFA_REG) as Hne by lia.
    pose proof Hin as Hin'. rewrite rules_of_reg in Hin' by done. destruct (row_regs w !! r) as [x|] eqn:EX; [|done].
    pose proof (rs_regs _ HS r x EX ltac:(lia)) as Hr. split; [done|]. split; [lia|].
    destruct (lookup_lt_is_Some_2 (regs_ regs) (Z.to_nat r)) as [v Hv]; [lia|]. specialize (HRec _ v Hv). rewrite Z2Nat.id, Hin in HRec by lia.
    destruct HRec as (o & Ho & _). by exists o. }
  destruct (eval_rules_recovers process_memory cie (rules_of w) (regs_ regs) c s s i' s' Hl eq_refl Heff HE) as (HC1 & HU & HR2 & _).
  pose proof (recovers_unique _ _ _ _ _ _ _ HR2 (caller_recovers w _ c s vs HS Hl EV)) as HV2.
  exists (info_dex_pc i'), s'. split; [|by eapply eval_rules_memory; [apply rules_of_locations|]].
  unfold Eval. destruct (Z.leb_spec total_regs (return_address_register cie)); [lia|]. rewrite HL. cbv zeta. cbn [regs_].
  rewrite HEC, bind_Ok, HE, bind_Ok. cbv beta iota. cbn [negb]. rewrite HU, HV2, HC1.
  rewrite (return_address_found w _ _ c vs pc Hra HS Hl EV EP cie eq_refl), bind_Ok.
  assert (aw c = c) as ->; [|done]. unfold frame_cfa in EC. destruct (row_cfa w) as [[r o]|]; [|done]. cbn in EC.
  destruct (regs_ regs !! Z.to_nat r); [|done]. injection EC as <-. apply aw_aw.
Qed.
End Caller.
End Frame.

(** ** Stepping *)

Module Steps.
Import DwarfSectionImpl Format Pieces CfaTable CfaExec CfaRows Frame.

(** The key of the CFA is never that of a register. *)
Lemma exec_row_ok {AT : AddressType} caf daf initial i x st st' :
  encoded i x -> (forall w, initial = Some w -> row_ok w) -> exec caf daf initial i st = Some st' ->
  row_ok (current st) /\ Forall row_ok (stack st) -> row_ok (current st') /\ Forall row_ok (stack st').
Proof.
  intros HE Hi He [H1 H2].
  assert (forall r y w, 0 <= r < CFA_REG -> row_ok w -> row_ok (set_rule r y w)) as HS.
  { intros r y w Hr Hw. unfold row_ok, set_rule. cbn. rewrite lookup_insert_ne by lia. exact Hw. }
  assert (forall r w, row_ok w -> row_ok (keep_value r w)) as HK.
  { intros r w Hw. unfold row_ok, keep_value. cbn. apply lookup_delete_None. by right. }
  destruct HE; cbn [exec] in He; unfold move_loc, factored, restore, on_row, reg_ok in *; repeat case_match; try discriminate He; injection He as <-;
    cbn [current stack]; try (by split); try (split; [|done]; first [apply HS; [unfold CFA_REG in *; lia|done] | by apply HK | done]).
  - by split; [|constructor].
  - by apply Forall_cons in H2 as [? ?].
Qed.

Lemma run_row_ok {AT : AddressType} caf daf initial pc prog bs : program prog bs -> (forall w, initial = Some w -> row_ok w) -> forall st st',
  row_ok (current st) /\ Forall row_ok (stack st) -> run caf daf initial pc prog st = Some st' -> row_ok (current st').
Proof.
  induction 1 as [|i prog x bs HE HP IH]; intros Hi st st' Hst; cbn [run]; (destruct (pc <? loc st); [by intros [= <-]; apply Hst|]).
  - intros [= <-]. apply Hst.
  - destruct (exec caf daf initial i st) as [st1|] eqn:E; [|done]. apply IH; [done|]. by eapply exec_row_ok.
Qed.

Lemma described_row_ok {AT : AddressType} m fde ci fi pc st :
  described m fde ci fi -> fde_state fde ci fi pc = Some st -> row_ok (current st).
Proof.
  intros [_ _ (bs & HP & _) _ (bs' & HP' & _)] HS. unfold fde_state, state_at, initial_row in HS.
  destruct (run _ _ None 0 ci _) as [st0|] eqn:E0; [|done]. cbn in HS.
  assert (row_ok (current st0)) by (eapply (run_row_ok _ _ None 0 ci bs HP); [done| |exact E0]; by split).
  eapply (run_row_ok _ _ (Some (current st0)) pc fi bs' HP'); [by intros w [= <-]| |exact HS]. by split.
Qed.

Section Step.
Context {AT : AddressType} {SK : SectionKind} {RA : RegsArch} {IO : IterationOrder}.
Variable fuel : nat.
Variable m : Memory.
Variable tables : list table.
Variable offset_from_pc : Z -> op Z.
Variable Inv : t -> Prop.
Context {HF : FdeFinder fuel offset_from_pc m tables Inv}.
Hypothesis HT : tables_ok fuel m tables.

(** A frame: its pc, its registers and the memory of the process. *)
Record request : Type := mkRequest { q_memory : Memory; q_pc : Z; q_regs : DwarfSection.Regs }.

(** The caller that the tables give to a frame. *)
Definition has_caller (q : request) (r : bool * list Z) : Prop :=
  exists tb st, tb ∈ tables /\ covers tb (q_pc q) /\ table_state tb (q_pc q) = Some st /\ row_small (current st) /\
    Z.of_nat (length (DwarfSection.regs_ (q_regs q))) = total_regs /\ 0 <= return_address_register (fde_cie (tb_fde tb)) < total_regs /\
    caller (q_memory q) (current st) (return_address_register (fde_cie (tb_fde tb))) (DwarfSection.regs_ (q_regs q)) = Some r.

Lemma step_table q r s :
  Inv s -> caches_ok tables s -> has_caller q r ->
  exists d s', Step fuel offset_from_pc (q_memory q) (q_pc q) (q_regs q) s = Ok (Some r.1, DwarfSection.mkRegs r.2 d, s') /\ Inv s' /\ caches_ok tables s'.
Proof.
  intros HI HK (tb & st & Ht & Hpc & HS & HR & Hl & Hra & HC).
  destruct (row_of_table fuel m tables offset_from_pc Inv HT tb (q_pc q) s HI HK Ht Hpc) as (locs & s1 & st' & HRow & HS' & HRules & HI1 & HK1).
  rewrite HS in HS'. injection HS' as <-. destruct r as [fin vals].
  destruct (eval_row (q_memory q) (fde_cie (tb_fde tb)) (current st) (q_regs q) (core s1) fin vals) as (d & c & HE & HM); try done.
  { eapply described_row_ok; [by apply (to_described _ _ _ HT)|exact HS]. }
  exists d, (set_core c s1). unfold Step. rewrite HRow, HRules, HE, bind_Ok. split; [done|]. split.
  - apply (ff_core (FdeFinder := HF)); [done|]. rewrite HM. by apply (ff_raw (FdeFinder := HF)).
  - by destruct HK1.
Qed.

(** Stepping from several frames, one after the other. *)
Fixpoint steps (qs : list request) (s : t) : outcome (list (option bool * list Z) * t) :=
  match qs with
  | [] => Ok ([], s)
  | q :: qs =>
      r ← Step fuel offset_from_pc (q_memory q) (q_pc q) (q_regs q) s;
      let '(finished, regs, s) := r in
      rest ← steps qs s;
      Ok ((finished, DwarfSection.regs_ regs) :: rest.1, rest.2)
  end.

Lemma steps_tables qs rs s :
  Inv s -> caches_ok tables s -> Forall2 has_caller qs rs -> exists s', steps qs s = Ok ((fun r => (Some r.1, r.2)) <$> rs, s').
Proof.
  intros HI HK HQ. revert s HI HK. induction HQ as [|q r qs rs Hq HQ IH]; intros s HI HK; cbn [steps]; [by exists s|].
  destruct (step_table q r s HI HK Hq) as (d & s1 & -> & HI1 & HK1). rewrite bind_Ok. cbv beta iota.
  destruct (IH s1 HI1 HK1) as [s2 ->]. rewrite bind_Ok. by exists s2.
Qed.
End Step.
End Steps.

Module StepTheorems.
Import DwarfSectionImpl Format CieFormat SectionFormat SectionFdes SearchFacts FormatTheorems CfaTable CfaRows EhFrameRows Frame Steps.

End StepTheorems.

(** ** Two frames *)

Module StepExamples.
Import DwarfSectionImpl Format CieFormat SectionFormat SectionFdes SearchFacts FormatTheorems FormatExamples.
Import CfaTable CfaRows EhFrameRows CfaExamples Frame Steps StepTheorems.

(** A pc in each of the functions, and a process whose memory is all ones. *)
Definition frames : list request :=
  [mkRequest EvalTheorems.ones 4100 EvalTheorems.sample_regs; mkRequest EvalTheorems.ones 4165 EvalTheorems.sample_regs;
   mkRequest EvalTheorems.ones 4110 EvalTheorems.sample_regs].

Definition word : Z := EvalTheorems.word_of_ones.
Definition framed_caller : bool * list Z := (false, [0; 1; 2; 3; 4; 5; word; 616; 8; 9; 10; 11; 12; 13; 14; 15; word]).
Definition epilogue_caller : bool * list Z := (false, [0; 1; 2; 3; 4; 5; 600; 4128; 8; 9; 10; 11; 12; 13; 14; 15; word]).

Lemma frame_has_caller p pc r st :
  p ∈ placed_fdes 0 sample_desc sample_rest code_entries -> covers (table_of ci_at fi_at p) pc ->
  table_state (AT := Addr64) (table_of ci_at fi_at p) pc = Some st -> row_small_check (RA := RegsX86_64) (current st) = true ->
  p_cie p = sample_desc ->
  caller (AT := Addr64) (RA := RegsX86_64) EvalTheorems.ones (current st) 16 (DwarfSection.regs_ EvalTheorems.sample_regs) = Some r ->
  has_caller (AT := Addr64) (RA := RegsX86_64) (section_tables 0 sample_desc sample_rest code_entries ci_at fi_at)
    (mkRequest EvalTheorems.ones pc EvalTheorems.sample_regs) r.
Proof.
  intros Hp Hpc HS HR HC Hr. exists (table_of ci_at fi_at p), st.
  assert (return_address_register (fde_cie (tb_fde (table_of ci_at fi_at p))) = 16) as HA by (cbn; by rewrite HC).
  split_and!; [by apply list_elem_of_fmap_2|done|done|by apply row_small_checked|done|rewrite HA; cbn; lia|rewrite HA; cbn; lia|by rewrite HA].
Qed.

Lemma frames_have_callers :
  Forall2 (has_caller (AT := Addr64) (RA := RegsX86_64) (section_tables 0 sample_desc sample_rest code_entries ci_at fi_at))
    frames [framed_caller; epilogue_caller; framed_caller].
Proof.
  repeat constructor.
  - eapply (frame_has_caller (mkPlaced 24 0 sample_desc sample_rest framed)); [left|unfold covers; cbn; lia|vm_compute; reflexivity|vm_compute; reflexivity|done|vm_compute; reflexivity].
  - eapply (frame_has_caller (mkPlaced 50 0 sample_desc sample_rest epilogue)); [right; left|unfold covers; cbn; lia|vm_compute; reflexivity|vm_compute; reflexivity|done|vm_compute; reflexivity].
  - eapply (frame_has_caller (mkPlaced 24 0 sample_desc sample_rest framed)); [left|unfold covers; cbn; lia|vm_compute; reflexivity|vm_compute; reflexivity|done|vm_compute; reflexivity].
Qed.

End StepExamples.
