(* ===== verification/UwEhFrameHdr.v ===== *)
(** * libunwindstack: the search table of .eh_frame_hdr

    Models external/libunwindstack-ndk/DwarfEhFrameWithHdr.{h,cpp}: reading the header,
    reading and caching table entries, the binary search for tables with entries of a fixed
    size and the sequential search for the others.

    The binary search halves a range of at most 2^64 entries, so 65 rounds are enough; the
    sequential search takes its fuel as an argument. *)

From S2P Require Import Prelude UwDwarfMemory UwDwarfOp UwDwarfCfa UwDwarfEval UwDwarfSection UwDwarfFormat.

Module EhFrameHdr.
Import DwarfSectionImpl.

Definition set_infos (m : gmap Z HdrInfo) (h : Hdr) : Hdr :=
  mkHdr (version_ h) (ptr_encoding_ h) (table_encoding_ h) (table_entry_size_ h) (ptr_offset_ h)
    (entries_data_offset_ h) (cur_entries_offset_ h) m.
Definition set_cur_entries (o : Z) (h : Hdr) : Hdr :=
  mkHdr (version_ h) (ptr_encoding_ h) (table_encoding_ h) (table_entry_size_ h) (ptr_offset_ h)
    (entries_data_offset_ h) o (fde_info_ h).

Definition on_memory (f : DwarfMemory.t -> DwarfMemory.t) : op unit :=
  modify (fun s => set_memory (f (memory_ s)) s).
Definition on_hdr (f : Hdr -> Hdr) : op unit := modify (fun s => set_hdr (f (hdr s)) s).

(** [memory_.set_pc_offset(memory_.cur_offset())] *)
Definition pc_here : op unit := on_memory (fun d => DwarfMemory.set_pc_offset (DwarfMemory.cur_offset d) d).

Section Hdr.
Context {A : Arch} {AT : AddressType}.

(** [Init] *)
Definition Init (offset size : Z) : op unit :=
  _ ← on_memory (fun d => DwarfMemory.set_cur_offset offset (DwarfMemory.set_data_offset offset
        (DwarfMemory.clear_text_offset (DwarfMemory.clear_func_offset d))));
  data ← read (DwarfMemory.ReadBytes 4);
  let version := nth 0 data 0 in
  _ ← on_hdr (fun h => mkHdr version (ptr_encoding_ h) (table_encoding_ h) (table_entry_size_ h)
        (ptr_offset_ h) (entries_data_offset_ h) (cur_entries_offset_ h) (fde_info_ h));
  if negb (version =? 1) then fail DWARF_ERROR_UNSUPPORTED_VERSION
  else
    let ptr_encoding := nth 1 data 0 in
    let fde_count_encoding := nth 2 data 0 in
    let table_encoding := nth 3 data 0 in
    let table_entry_size := DwarfMemory.GetEncodedSize table_encoding in
    _ ← on_hdr (fun h => mkHdr version ptr_encoding table_encoding table_entry_size
          (ptr_offset_ h) (entries_data_offset_ h) (cur_entries_offset_ h) (fde_info_ h));
    _ ← pc_here;
    ptr_offset ← read (DwarfMemory.ReadEncodedValue ptr_encoding);
    _ ← on_hdr (fun h => mkHdr version ptr_encoding table_encoding table_entry_size
          ptr_offset (entries_data_offset_ h) (cur_entries_offset_ h) (fde_info_ h));
    _ ← pc_here;
    count ← read (DwarfMemory.ReadEncodedValue fde_count_encoding);
    _ ← modify (fun s => set_fdes (fdes s) count s);
    if count =? 0 then fail DWARF_ERROR_NO_FDES
    else
      cur ← cur_offset;
      _ ← modify (fun s => set_entries cur (u64 (offset + size)) s);
      on_hdr (fun h => mkHdr version ptr_encoding table_encoding table_entry_size ptr_offset offset cur
                         (fde_info_ h)).

(** [GetFdeInfoFromIndex]: an entry that cannot be read is not kept. *)
Definition GetFdeInfoFromIndex (index : Z) : op HdrInfo :=
  h ← gets hdr;
  match fde_info_ h !! index with
  | Some info => mret info
  | None =>
      offset ← gets entries_offset;
      _ ← on_memory (fun d => DwarfMemory.set_cur_offset (u64 (offset + szw (2 * index * table_entry_size_ h)))
            (DwarfMemory.set_data_offset (entries_data_offset_ h) d));
      _ ← pc_here;
      value ← read (DwarfMemory.ReadEncodedValue (table_encoding_ h));
      offset ← read (DwarfMemory.ReadEncodedValue (table_encoding_ h));
      let info := mkHdrInfo (aw value) offset in
      _ ← on_hdr (fun h => set_infos (<[index := info]> (fde_info_ h)) h);
      mret info
  end.

(** [GetFdeFromIndex] *)
Definition GetFdeFromIndex (fuel : nat) (index : Z) : op DwarfFde :=
  info ← GetFdeInfoFromIndex index;
  GetFdeFromOffset fuel (hdr_offset info).

Definition CHECK (b : bool) : op unit := if b then mret () else fault CheckFailed.

(** The loop: the offset of an exact match, or the final [last]. *)
Fixpoint binary_loop (n : nat) (pc first last : Z) : op (Z + Z) :=
  match n with
  | O => fault OutOfFuel
  | S n =>
      if last <=? first then mret (inr last)
      else
        let current := szw (first + last) / 2 in
        info ← GetFdeInfoFromIndex current;
        if pc =? hdr_pc info then mret (inl (hdr_offset info))
        else if pc <? hdr_pc info then binary_loop n pc first current
        else binary_loop n pc (current + 1) last
  end.

Definition kRounds : nat := 65.

(** [GetFdeOffsetBinary] *)
Definition GetFdeOffsetBinary (pc total_entries : Z) : op Z :=
  count ← gets fde_count;
  _ ← CHECK (0 <? count);
  _ ← CHECK (total_entries <=? count);
  r ← binary_loop kRounds pc 0 (szw total_entries);
  match r with
  | inl offset => mret offset
  | inr last =>
      if negb (last =? 0) then info ← GetFdeInfoFromIndex (last - 1); mret (hdr_offset info)
      else none
  end.

(** The loop of [GetFdeOffsetSequential]; [prev] is the entry before. *)
Fixpoint sequential_loop (n : nat) (pc current : Z) (prev : option HdrInfo) : op Z :=
  match n with
  | O => fault OutOfFuel
  | S n =>
      count ← gets fde_count;
      entries_end ← gets entries_end;
      cur ← cur_offset;
      if (current <? count) && (cur <? entries_end) then
        h ← gets hdr;
        _ ← pc_here;
        value ← read (DwarfMemory.ReadEncodedValue (table_encoding_ h));
        offset ← read (DwarfMemory.ReadEncodedValue (table_encoding_ h));
        let info := mkHdrInfo (aw (value + 4)) offset in
        _ ← on_hdr (fun h => set_infos (<[current := info]> (fde_info_ h)) h);
        if pc <? hdr_pc info then
          match prev with
          | None => none
          | Some prev =>
              cur ← cur_offset;
              _ ← on_hdr (set_cur_entries cur);
              mret (hdr_offset prev)
          end
        else sequential_loop n pc (current + 1) (Some info)
      else
        h ← gets hdr;
        if count =? Z.of_nat (size (fde_info_ h)) then
          match prev with
          | None => fault NullDeref
          | Some prev => if hdr_pc prev <=? pc then mret (hdr_offset prev) else none
          end
        else none
  end.

(** [GetFdeOffsetSequential]; [fde_info_[size - 1]] inserts an empty entry if there is none. *)
Definition GetFdeOffsetSequential (fuel : nat) (pc : Z) : op Z :=
  count ← gets fde_count;
  _ ← CHECK (negb (count =? 0));
  _ ← modify (fun s => set_core (DwarfSection.set_error DWARF_ERROR_NONE 0 (core s)) s);
  h ← gets hdr;
  let n := Z.of_nat (size (fde_info_ h)) in
  if negb (n =? 0) then
    let info := default (mkHdrInfo 0 0) (fde_info_ h !! (n - 1)) in
    _ ← on_hdr (set_infos (<[n - 1 := info]> (fde_info_ h)));
    if hdr_pc info <=? pc then mret (hdr_offset info)
    else h ← gets hdr; GetFdeOffsetBinary pc (Z.of_nat (size (fde_info_ h)))
  else if cur_entries_offset_ h =? 0 then none
  else
    _ ← on_memory (fun d => DwarfMemory.set_cur_offset (cur_entries_offset_ h)
          (DwarfMemory.set_data_offset (entries_data_offset_ h) d));
    _ ← on_hdr (set_cur_entries 0);
    sequential_loop fuel pc n None.

(** [GetFdeOffsetFromPc] *)
Definition GetFdeOffsetFromPc (fuel : nat) (pc : Z) : op Z :=
  count ← gets fde_count;
  h ← gets hdr;
  if count =? 0 then none
  else if 0 <? table_entry_size_ h then GetFdeOffsetBinary pc count
  else GetFdeOffsetSequential fuel pc.
End Hdr.
End EhFrameHdr.

(** ** The table of a header *)

Module HdrFacts.
Import DwarfSectionImpl EhFrameHdr Format Pieces ScanFacts.

(** Addresses as signed 32-bit offsets from the start of the section. *)
Definition DW_EH_PE_datarel_sdata4 : Z := 59.
(** An address relative to the place where it is stored. *)
Definition DW_EH_PE_pcrel_sdata4 : Z := 27.

Definition table_entry (data : Z) (e : HdrInfo) : list Z :=
  le_bytes 4 (hdr_pc e - data) ++ le_bytes 4 (hdr_offset e - data).

Definition table_bytes (data : Z) (es : list HdrInfo) : list Z := concat (map (table_entry data) es).

Record entry_ok {AT : AddressType} (data : Z) (e : HdrInfo) : Prop := {
  eo_pc : 0 <= hdr_pc e < 2 ^ abits;
  eo_offset : in_u 64 (hdr_offset e);
  eo_pc_near : - 2 ^ 31 <= hdr_pc e - data < 2 ^ 31;
  eo_offset_near : - 2 ^ 31 <= hdr_offset e - data < 2 ^ 31
}.

(** The pcs of the table increase. *)
Definition table_sorted (es : list HdrInfo) : Prop := StronglySorted (fun a b => hdr_pc a < hdr_pc b) es.

Section Table.
Context {A : Arch} {AT : AddressType}.

(** The section [s], which was [s0] before, has read the header of a table with entries [es]; the cache agrees with it. *)
Record table_ok (data : Z) (es : list HdrInfo) (s0 s : t) : Prop := {
  to_encoding : table_encoding_ (hdr s) = DW_EH_PE_datarel_sdata4;
  to_size : table_entry_size_ (hdr s) = 4;
  to_data : entries_data_offset_ (hdr s) = data;
  to_count : fde_count s = Z.of_nat (length es);
  to_stored : stored (raw s) (entries_offset s) (table_bytes data es);
  to_cache : forall i info, fde_info_ (hdr s) !! i = Some info -> 0 <= i /\ es !! Z.to_nat i = Some info;
  to_entries : Forall (entry_ok data) es;
  to_data_range : 0 <= data < 2 ^ 64 - 1;
  to_raw : raw s = raw s0;
  to_entries_kept : fde_entries s = fde_entries s0 /\ cie_entries s = cie_entries s0;
  to_rows_kept : cie_loc_regs s = cie_loc_regs s0 /\ loc_regs s = loc_regs s0;
  to_small : 8 * Z.of_nat (length es) < 2 ^ size_bits
}.

(** A signed 32-bit offset from [base]. *)
Lemma read_sdata4_from enc base v d :
  enc <> DW_EH_PE_omit -> enc <> DW_EH_PE_aligned -> Z.land enc 15 = DW_EH_PE_sdata4 ->
  (forall value d', DwarfMemory.pc_offset d' = DwarfMemory.pc_offset d ->
     DwarfMemory.data_offset d' = DwarfMemory.data_offset d ->
     DwarfMemory.AdjustEncodedValue (Z.land enc 112) value d' = DwarfMemory.add_offset base value d') ->
  in_u 64 v -> - 2 ^ 31 <= v - base < 2 ^ 31 -> 0 <= base < 2 ^ 64 - 1 ->
  stored (DwarfMemory.memory_ d) (DwarfMemory.cur_offset d) (le_bytes 4 (v - base)) ->
  DwarfMemory.ReadEncodedValue enc d = Ok (Some v, DwarfMemory.set_cur_offset (DwarfMemory.cur_offset d + 4) d).
Proof.
  intros N1 N2 N3 HA Hv Hn Hr Hs. unfold DwarfMemory.ReadEncodedValue.
  rewrite (proj2 (Z.eqb_neq _ _) N1), (proj2 (Z.eqb_neq _ _) N2).
  unfold DwarfMemory.rbind at 1. unfold DwarfMemory.read_encoded_data. rewrite N3.
  change (if DW_EH_PE_sdata4 =? _ then _ else _) with (DwarfMemory.ReadSigned (Z.of_nat 4)).
  rewrite (reads_signed _ 4 _ d eq_refl Hs), bind_Ok.
  change (8 * Z.of_nat 4) with 32. change ((v - base) mod 2 ^ 32) with (u32 (v - base)).
  rewrite swrap_uwrap, swrap_small by lia. rewrite HA by done. unfold DwarfMemory.add_offset, NO_OFFSET.
  destruct (Z.eqb_spec base (2 ^ 64 - 1)); [lia|].
  rewrite blen_le_bytes. unfold uwrap. rewrite Zplus_mod_idemp_l.
  replace (v - base + base) with v by lia. by rewrite Z.mod_small.
Qed.

Lemma read_datarel v d :
  in_u 64 v -> - 2 ^ 31 <= v - DwarfMemory.data_offset d < 2 ^ 31 -> 0 <= DwarfMemory.data_offset d < 2 ^ 64 - 1 ->
  stored (DwarfMemory.memory_ d) (DwarfMemory.cur_offset d) (le_bytes 4 (v - DwarfMemory.data_offset d)) ->
  DwarfMemory.ReadEncodedValue DW_EH_PE_datarel_sdata4 d =
    Ok (Some v, DwarfMemory.set_cur_offset (DwarfMemory.cur_offset d + 4) d).
Proof. intros. apply (read_sdata4_from _ (DwarfMemory.data_offset d)); try done. by intros value d' _ <-. Qed.

Lemma read_pcrel v d :
  in_u 64 v -> - 2 ^ 31 <= v - DwarfMemory.pc_offset d < 2 ^ 31 -> 0 <= DwarfMemory.pc_offset d < 2 ^ 64 - 1 ->
  stored (DwarfMemory.memory_ d) (DwarfMemory.cur_offset d) (le_bytes 4 (v - DwarfMemory.pc_offset d)) ->
  DwarfMemory.ReadEncodedValue DW_EH_PE_pcrel_sdata4 d =
    Ok (Some v, DwarfMemory.set_cur_offset (DwarfMemory.cur_offset d + 4) d).
Proof. intros. apply (read_sdata4_from _ (DwarfMemory.pc_offset d)); try done. by intros value d' <- _. Qed.

Lemma read_udata4 v d :
  in_u 32 v -> stored (DwarfMemory.memory_ d) (DwarfMemory.cur_offset d) (le_bytes 4 v) ->
  DwarfMemory.ReadEncodedValue DW_EH_PE_udata4 d =
    Ok (Some v, DwarfMemory.set_cur_offset (DwarfMemory.cur_offset d + 4) d).
Proof.
  intros Hv Hs. unfold DwarfMemory.ReadEncodedValue, DwarfMemory.rbind.
  change (DwarfMemory.read_encoded_data DW_EH_PE_udata4) with (DwarfMemory.ReadUnsigned (Z.of_nat 4)).
  rewrite (reads_unsigned _ 4 v d eq_refl Hs), bind_Ok. rewrite Z.mod_small by done. done.
Qed.

Lemma table_entry_at data es i e :
  es !! i = Some e -> exists y, drop (8 * i) (table_bytes data es) = table_entry data e ++ y.
Proof.
  revert i. induction es as [|e' es IH]; intros i Hi; [done|].
  unfold table_bytes. cbn [map concat]. destruct i as [|i].
  - injection Hi as ->. rewrite drop_0. by eexists.
  - assert (length (table_entry data e') = 8%nat) as HL by (unfold table_entry; by rewrite length_app, !length_le_bytes).
    replace (8 * S i)%nat with (length (table_entry data e') + 8 * i)%nat by lia. rewrite drop_app_add. by apply IH.
Qed.

Lemma blen_table data es : blen (table_bytes data es) = 8 * Z.of_nat (length es).
Proof.
  unfold table_bytes. induction es as [|e es IH]; cbn [map concat length]; [done|].
  rewrite blen_app, IH. unfold table_entry. rewrite blen_app, !blen_le_bytes. lia.
Qed.

Lemma table_stored data es s0 s i e :
  table_ok data es s0 s -> es !! i = Some e ->
  exists y, stored (raw s) (entries_offset s + 8 * Z.of_nat i) (table_entry data e ++ y).
Proof.
  intros H Hi. destruct (table_entry_at data es i e Hi) as [y Hy]. exists y. rewrite <- Hy.
  pose proof (to_stored _ _ _ _ H) as Hs. rewrite <- (take_drop (8 * i) (table_bytes data es)) in Hs.
  apply stored_suffix in Hs. pose proof (blen_table data es) as HB. apply lookup_lt_Some in Hi.
  unfold blen in Hs, HB. rewrite length_take in Hs.
  replace (Z.of_nat (Nat.min (8 * i) (length (table_bytes data es)))) with (8 * Z.of_nat i) in Hs by lia. done.
Qed.

(** What the search leaves alone: everything but the cursor and the cache. *)
Lemma table_ok_kept data es s0 s s' :
  table_ok data es s0 s -> raw s' = raw s -> fde_entries s' = fde_entries s -> cie_entries s' = cie_entries s -> entries_offset s' = entries_offset s -> fde_count s' = fde_count s ->
  table_encoding_ (hdr s') = table_encoding_ (hdr s) -> table_entry_size_ (hdr s') = table_entry_size_ (hdr s) ->
  entries_data_offset_ (hdr s') = entries_data_offset_ (hdr s) ->
  cie_loc_regs s' = cie_loc_regs s -> loc_regs s' = loc_regs s ->
  (forall i info, fde_info_ (hdr s') !! i = Some info -> 0 <= i /\ es !! Z.to_nat i = Some info) ->
  table_ok data es s0 s'.
Proof. intros [] E1 E2 E3 E4 E5 E6 E7 E8 E9 E10 HC. split; rewrite ?E1, ?E2, ?E3, ?E4, ?E5, ?E6, ?E7, ?E8, ?E9, ?E10; done. Qed.

Lemma get_info data es s0 s i e :
  table_ok data es s0 s -> es !! i = Some e ->
  exists s', GetFdeInfoFromIndex (Z.of_nat i) s = Ok (Some e, s') /\ table_ok data es s0 s'.
Proof.
  intros H Hi. unfold GetFdeInfoFromIndex, mbind at 1, op_bind at 1, gets at 1.
  destruct (fde_info_ (hdr s) !! Z.of_nat i) as [info|] eqn:EC.
  { destruct (to_cache _ _ _ _ H _ _ EC) as [_ HE]. rewrite Nat2Z.id, Hi in HE. injection HE as ->. by exists s. }
  pose proof (lookup_lt_Some _ _ _ Hi) as Hlt. pose proof (to_small _ _ _ _ H) as Hsm.
  destruct (table_stored data es s0 s i e H Hi) as [y Hs]. pose proof (st_start _ _ _ Hs). pose proof (st_end _ _ _ Hs).
  pose proof (blen_nonneg (table_entry data e ++ y)). unfold table_entry in Hs. rewrite <- app_assoc in Hs. pose proof (blen_nonneg y).
  assert (entry_ok data e) as [P1 P2 P3 P4] by (eapply Forall_lookup_1; [apply (to_entries _ _ _ _ H)|done]).
  rewrite (to_size _ _ _ _ H), (to_encoding _ _ _ _ H), (to_data _ _ _ _ H).
  unfold mbind at 1, op_bind at 1, gets at 1, mbind at 1, op_bind at 1, on_memory, modify at 1.
  rewrite szw_small by (unfold in_size, in_u; lia). rewrite uwrap_small by (unfold in_u; lia).
  unfold mbind at 1, op_bind at 1, pc_here, on_memory, modify at 1.
  match goal with |- context [set_memory (DwarfMemory.set_pc_offset ?o ?d) ?s1] =>
    set (d1 := DwarfMemory.set_pc_offset o d); set (s1' := set_memory d1 s1) end.
  assert (DwarfMemory.memory_ d1 = raw s /\ DwarfMemory.data_offset d1 = data /\
    DwarfMemory.cur_offset d1 = entries_offset s + 8 * Z.of_nat i) as (M1 & M2 & M3).
  { split_and!; [done|done|]. cbn. lia. }
  rewrite <- M1, <- M3 in Hs. clearbody d1.
  unfold mbind at 1, op_bind at 1, read at 1. change (memory_ s1') with d1.
  rewrite (read_datarel (hdr_pc e) d1); rewrite ?M2; [|split; [lia|]|lia|apply (to_data_range _ _ _ _ H)|by eapply stored_prefix].
  2: { eapply Z.lt_le_trans; [apply P1|]. apply Z.pow_le_mono_r; [lia|]. unfold abits. destruct asz_cases; lia. }
  unfold mbind at 1, op_bind at 1, read at 1.
  apply stored_suffix in Hs. rewrite blen_le_bytes in Hs. apply stored_prefix in Hs.
  set (d2 := DwarfMemory.set_cur_offset _ d1). change (memory_ (set_memory d2 s1')) with d2.
  assert (DwarfMemory.data_offset d2 = data) as M4 by done.
  rewrite (read_datarel (hdr_offset e) d2); rewrite ?M4; [|done|lia|apply (to_data_range _ _ _ _ H)|done].
  eexists. split.
  { unfold mbind, op_bind, on_hdr, modify, mret, op_ret. unfold aw. rewrite uwrap_small by done. destruct e. reflexivity. }
  apply (table_ok_kept _ _ _ s); try done.
  intros j info. cbn. destruct (decide (j = Z.of_nat i)) as [-> |Hn].
  - rewrite lookup_insert_eq. intros [= <-]. rewrite Nat2Z.id. split; [lia|]. by destruct e.
  - rewrite lookup_insert_ne by done. apply (to_cache _ _ _ _ H).
Qed.
End Table.
End HdrFacts.

(** ** The binary search *)

Module HdrSearch.
Import DwarfSectionImpl EhFrameHdr Format Pieces ScanFacts HdrFacts.

(** The last entry that does not begin after [pc]. *)
Definition covering (pc : Z) (es : list HdrInfo) : option HdrInfo := last (filter (fun e => hdr_pc e <= pc) es).

(** [k] splits the table in the entries that begin at or before [pc] and the others. *)
Definition splits (pc : Z) (es : list HdrInfo) (k : nat) : Prop :=
  (k <= length es)%nat /\
  forall j e, es !! j = Some e -> ((j < k)%nat -> hdr_pc e <= pc) /\ ((k <= j)%nat -> pc < hdr_pc e).

Lemma splits_filter pc es k : splits pc es k -> filter (fun e => hdr_pc e <= pc) es = take k es.
Proof.
  revert k. induction es as [|e es IH]; intros k [Hk H]; [by rewrite take_nil|].
  pose proof (H 0%nat e eq_refl) as [H1 H2]. destruct k as [|k].
  - rewrite filter_cons_False by lia. change (take 0 (e :: es)) with (take 0 es). apply IH. split; [lia|].
    intros j e' Hj. destruct (H (S j) e' Hj). split; intros; lia.
  - rewrite filter_cons_True by lia. cbn [take]. f_equal. apply IH. split; [cbn in Hk; lia|].
    intros j e' Hj. destruct (H (S j) e' Hj) as [A B]. split; intros; [apply A|apply B]; lia.
Qed.

Lemma splits_covering pc es k : splits pc es k -> covering pc es = match k with O => None | S k => es !! k end.
Proof.
  intros H. unfold covering. rewrite (splits_filter _ _ _ H). destruct H as [Hk _]. destruct k as [|k]; [done|].
  rewrite last_lookup, length_take, Nat.min_l by lia. rewrite lookup_take_lt by lia. done.
Qed.

Lemma op_step {T U} (m : op T) (k : T -> op U) a s s' : m s = Ok (Some a, s') -> (m ≫= k) s = k a s'.
Proof. intros H. unfold mbind, op_bind. by rewrite H. Qed.

Section Search.
Context {A : Arch} {AT : AddressType}.
Variables (data pc : Z) (es : list HdrInfo) (s0 : t).
Hypothesis Hsorted : table_sorted es.

(** The entries before [first] begin before [pc], those from [last_] on after it. *)
Definition narrowed (first last_ : nat) : Prop :=
  (first <= last_ <= length es)%nat /\
  forall j e, es !! j = Some e -> ((j < first)%nat -> hdr_pc e < pc) /\ ((last_ <= j)%nat -> pc < hdr_pc e).

Definition found (r : Z + Z) : Prop :=
  match r with
  | inl offset => exists j e, es !! j = Some e /\ hdr_pc e = pc /\ offset = hdr_offset e
  | inr k => exists k', k = Z.of_nat k' /\ splits pc es k'
  end.

Lemma narrowed_empty k : narrowed k k -> found (inr (Z.of_nat k)).
Proof.
  intros [Hr Hn]. exists k. split; [done|]. split; [lia|]. intros j e Hj. destruct (Hn j e Hj) as [B1 B2].
  split; [|done]. intros Hjk. apply B1 in Hjk. lia.
Qed.

(** Comparing with an entry of the range narrows it. *)
Lemma narrow_left first last_ m e :
  narrowed first last_ -> (first <= m < last_)%nat -> es !! m = Some e -> pc < hdr_pc e -> narrowed first m.
Proof.
  intros [Hr Hn] Hm He Hlt. split; [lia|]. intros j e' Hj. split; [by apply Hn|].
  intros Hmj. destruct (decide (j = m)) as [->|]; [rewrite He in Hj; by injection Hj as <-|].
  pose proof (sorted_lookup _ es m j e e' Hsorted ltac:(lia) He Hj). cbn in *. lia.
Qed.

Lemma narrow_right first last_ m e :
  narrowed first last_ -> (first <= m < last_)%nat -> es !! m = Some e -> hdr_pc e < pc -> narrowed (S m) last_.
Proof.
  intros [Hr Hn] Hm He Hlt. split; [lia|]. intros j e' Hj. split; [|by apply Hn].
  intros Hmj. destruct (decide (j = m)) as [->|]; [rewrite He in Hj; injection Hj as <-; lia|].
  pose proof (sorted_lookup _ es j m e' e Hsorted ltac:(lia) Hj He). cbn in *. lia.
Qed.

Lemma binary_loop_found n first last_ s :
  table_ok data es s0 s -> narrowed first last_ -> Z.of_nat (last_ - first) < 2 ^ Z.of_nat n ->
  exists r s', binary_loop (S n) pc (Z.of_nat first) (Z.of_nat last_) s = Ok (Some r, s') /\ table_ok data es s0 s' /\ found r.
Proof.
  revert first last_ s. induction n as [|n IH]; intros first last_ s H HN Hlt; cbn [binary_loop];
    (destruct (Z.leb_spec (Z.of_nat last_) (Z.of_nat first));
     [assert (first = last_) as -> by (destruct HN; lia);
      by exists (inr (Z.of_nat last_)), s; split_and!; [| |apply narrowed_empty]|]).
  - destruct HN. lia.
  - pose proof (proj1 HN). pose proof (to_small _ _ _ _ H). rewrite szw_small by (unfold in_size, in_u; lia).
    replace ((Z.of_nat first + Z.of_nat last_) / 2) with (Z.of_nat ((first + last_) / 2)) by (rewrite Nat2Z.inj_div; f_equal; lia).
    pose proof (Nat.div_mod_eq (first + last_) 2). pose proof (Nat.mod_upper_bound (first + last_) 2).
    set (m := ((first + last_) / 2)%nat) in *.
    destruct (lookup_lt_is_Some_2 es m) as [e He]; [lia|].
    destruct (get_info data es s0 s m e H He) as (s1 & HG & K1).
    unfold mbind at 1, op_bind at 1. rewrite HG. rewrite Nat2Z.inj_succ, Z.pow_succ_r in Hlt by lia.
    destruct (Z.eqb_spec pc (hdr_pc e)) as [->|].
    { eexists (inl _), s1. split_and!; [done|done|]. by exists m, e. }
    destruct (Z.ltb_spec pc (hdr_pc e)).
    + apply (IH first m s1 K1); [|lia]. apply (narrow_left first last_ m e); try done; lia.
    + replace (Z.of_nat m + 1) with (Z.of_nat (S m)) by lia. apply (IH (S m) last_ s1 K1); [|lia].
      apply (narrow_right first last_ m e); try done; lia.
Qed.

(** An entry covers the pcs from its own up to the next entry's. *)
Lemma next_covering j e :
  es !! j = Some e -> hdr_pc e <= pc -> (forall e', es !! S j = Some e' -> pc < hdr_pc e') -> covering pc es = Some e.
Proof.
  intros Hj He Hnext. rewrite (splits_covering pc es (S j)); [done|]. pose proof (lookup_lt_Some _ _ _ Hj).
  split; [lia|]. intros i e' Hi. split; intros Hij.
  - destruct (decide (i = j)) as [->|]; [rewrite Hj in Hi; by injection Hi as <-|].
    pose proof (sorted_lookup _ es i j e' e Hsorted ltac:(lia) Hi Hj). cbn in *. lia.
  - destruct (decide (i = S j)) as [->|]; [by apply Hnext|]. pose proof (lookup_lt_Some _ _ _ Hi).
    destruct (lookup_lt_is_Some_2 es (S j)) as [e2 He2]; [lia|]. pose proof (Hnext e2 He2).
    pose proof (sorted_lookup _ es (S j) i e2 e' Hsorted ltac:(lia) He2 Hi). cbn in *. lia.
Qed.

Lemma exact_covering j e : es !! j = Some e -> hdr_pc e = pc -> covering pc es = Some e.
Proof.
  intros Hj He. apply (next_covering j); [done|lia|]. intros e' He'.
  pose proof (sorted_lookup _ es j (S j) e e' Hsorted ltac:(lia) Hj He'). cbn in *. lia.
Qed.

Lemma rounds_enough : exists n, kRounds = S n /\ Z.of_nat n = 64.
Proof. by exists 64%nat. Qed.

#[local] Opaque kRounds binary_loop.

Lemma found_covering r s :
  table_ok data es s0 s -> found r ->
  exists s', match r with
             | inl offset => mret offset
             | inr last_ => if negb (last_ =? 0) then info ← GetFdeInfoFromIndex (last_ - 1); mret (hdr_offset info) else none
             end s = Ok (hdr_offset <$> covering pc es, s') /\ table_ok data es s0 s'.
Proof.
  intros H HF. destruct r as [offset|k]; cbn [found] in HF.
  - destruct HF as (j & e & Hj & Hp & ->). exists s. by rewrite (exact_covering j e Hj Hp).
  - destruct HF as (k' & -> & Hs). rewrite (splits_covering _ _ _ Hs). destruct k' as [|k]; [by exists s|].
    destruct (Z.eqb_spec (Z.of_nat (S k)) 0); [lia|]. cbn [negb].
    destruct (lookup_lt_is_Some_2 es k) as [e He]; [destruct Hs; lia|].
    destruct (get_info data es s0 s k e H He) as (s2 & HG & K2).
    replace (Z.of_nat (S k) - 1) with (Z.of_nat k) by lia. unfold mbind at 1, op_bind at 1. rewrite HG, He. by exists s2.
Qed.

Lemma loop_from_start s :
  table_ok data es s0 s ->
  exists r s', binary_loop kRounds pc 0 (szw (Z.of_nat (length es))) s = Ok (Some r, s') /\ table_ok data es s0 s' /\ found r.
Proof.
  intros H. pose proof (to_small _ _ _ _ H).
  assert (size_bits <= 64) by (unfold size_bits; destruct szc_cases; lia).
  assert (2 ^ size_bits <= 2 ^ 64) by (apply Z.pow_le_mono_r; lia).
  rewrite szw_small by (unfold in_size, in_u; lia).
  destruct rounds_enough as (n & -> & Hn). rewrite <- Nat2Z.inj_0. apply (binary_loop_found n 0 (length es) s H).
  - split; [lia|]. intros j e Hj. apply lookup_lt_Some in Hj. split; lia.
  - rewrite Hn. lia.
Qed.

Lemma binary_covering s :
  table_ok data es s0 s -> (0 < length es)%nat ->
  exists s', GetFdeOffsetBinary pc (fde_count s) s = Ok (hdr_offset <$> covering pc es, s') /\ table_ok data es s0 s'.
Proof.
  intros H Hpos. destruct (loop_from_start s H) as (r & s1 & HR & K1 & HF).
  unfold GetFdeOffsetBinary. rewrite (op_step (gets fde_count) _ (Z.of_nat (length es)) s s);
    [|by rewrite <- (to_count _ _ _ _ H)].
  rewrite (to_count _ _ _ _ H), (proj2 (Z.ltb_lt 0 (Z.of_nat (length es)))) by lia. rewrite Z.leb_refl.
  rewrite !(op_step (CHECK true) _ () s s) by done. rewrite (op_step _ _ _ _ _ HR). by apply found_covering.
Qed.
End Search.
End HdrSearch.

(** ** Theorems *)

Module HdrTheorems.
Import DwarfSectionImpl EhFrameHdr Format Pieces CieFormat SectionFormat ScanFacts FdeFacts SectionFdes SearchFacts
  FormatTheorems HdrFacts HdrSearch.

(** A header as linkers write it: the address of .eh_frame relative to its field, the number
    of entries, and the table. *)
Definition hdr_bytes (offset eh_frame_ptr : Z) (es : list HdrInfo) : list Z :=
  [1; DW_EH_PE_pcrel_sdata4; DW_EH_PE_udata4; DW_EH_PE_datarel_sdata4] ++
  le_bytes 4 (eh_frame_ptr - (offset + 4)) ++ le_bytes 4 (Z.of_nat (length es)) ++ table_bytes offset es.

Record hdr_ok {A : Arch} {AT : AddressType} (offset eh_frame_ptr : Z) (es : list HdrInfo) : Prop := {
  ho_ptr : in_u 64 eh_frame_ptr;
  ho_ptr_near : - 2 ^ 31 <= eh_frame_ptr - (offset + 4) < 2 ^ 31;
  ho_entries : Forall (entry_ok offset) es;
  ho_sorted : table_sorted es;
  ho_some : (0 < length es)%nat;
  ho_count : 8 * Z.of_nat (length es) < 2 ^ 32
}.

Lemma op_modify {T} f (k : unit -> op T) s : (modify f ≫= k) s = k () (f s).
Proof. done. Qed.
Lemma op_gets {T U} (f : t -> T) (k : T -> op U) s : (gets f ≫= k) s = k (f s) s.
Proof. done. Qed.
Lemma op_read {T U} (m : DwarfMemory.reader T) (k : T -> op U) a s d :
  m (memory_ s) = Ok (Some a, d) -> (read m ≫= k) s = k a (set_memory d s).
Proof. intros H. apply op_step. unfold read. by rewrite H. Qed.

(** One lookup after the other, each with the cache the one before left. *)
Fixpoint lookups {A : Arch} {AT : AddressType} (fuel : nat) (pcs : list Z) (s : t) : outcome (list (option Z) * t) :=
  match pcs with
  | [] => Ok ([], s)
  | pc :: pcs =>
      r ← GetFdeOffsetFromPc fuel pc s;
      rest ← lookups fuel pcs r.2;
      Ok (r.1 :: rest.1, rest.2)
  end.

Section Theorems.
Context {A : Arch} {AT : AddressType}.

Lemma init_table offset size ptr es s :
  stored (raw s) offset (hdr_bytes offset ptr es) -> hdr_ok offset ptr es -> fde_info_ (hdr s) = ∅ ->
  exists s1, Init offset size s = Ok (Some (), s1) /\ table_ok offset es s s1.
Proof.
  intros Hs [P1 P2 P3 P4 P5 P6] HE. pose proof size_bits_ge.
  pose proof (st_start _ _ _ Hs) as B0. pose proof (st_end _ _ _ Hs) as B1.
  unfold hdr_bytes in Hs, B1. rewrite !blen_app, !blen_le_bytes, blen_table in B1.
  pose proof (stored_prefix _ _ _ _ Hs) as S0. apply stored_suffix in Hs.
  change (blen [1; _; _; _]) with 4 in Hs, B1.
  pose proof (stored_prefix _ _ _ _ Hs) as S1. apply stored_suffix in Hs. rewrite blen_le_bytes in Hs.
  pose proof (stored_prefix _ _ _ _ Hs) as S2. apply stored_suffix in Hs. rewrite blen_le_bytes in Hs.
  change (Z.of_nat 4) with 4 in *.
  unfold Init, on_memory, on_hdr.
  set (d0 := DwarfMemory.set_cur_offset offset (DwarfMemory.set_data_offset offset
     (DwarfMemory.clear_text_offset (DwarfMemory.clear_func_offset (memory_ s))))).
  rewrite (op_step _ _ () s (set_memory d0 s)) by done.
  rewrite (op_step (read (DwarfMemory.ReadBytes 4)) _ [1; DW_EH_PE_pcrel_sdata4; DW_EH_PE_udata4; DW_EH_PE_datarel_sdata4] _
    (set_memory (DwarfMemory.set_cur_offset (offset + 4) d0) s)).
  2: { unfold read. change (memory_ (set_memory d0 s)) with d0.
    rewrite (reads_bytes offset [1; DW_EH_PE_pcrel_sdata4; DW_EH_PE_udata4; DW_EH_PE_datarel_sdata4] 4 eq_refl d0 eq_refl S0). done. }
  cbv zeta. cbn [nth]. change (negb (1 =? 1)) with false. cbv iota.
  rewrite !op_modify. unfold pc_here, on_memory. rewrite op_modify.
  set (d1 := DwarfMemory.set_pc_offset _ (memory_ _)).
  rewrite (op_read _ _ ptr _ (DwarfMemory.set_cur_offset (offset + 4 + 4) d1)).
  2: { change (memory_ (set_memory d1 _)) with d1. apply (read_pcrel ptr d1); try done.
       change (DwarfMemory.pc_offset d1) with (offset + 4). lia. }
  rewrite !op_modify. set (d2 := DwarfMemory.set_pc_offset _ (memory_ _)).
  rewrite (op_read _ _ (Z.of_nat (length es)) _ (DwarfMemory.set_cur_offset (offset + 4 + 4 + 4) d2)).
  2: { change (memory_ (set_memory d2 _)) with d2. apply (read_udata4 _ d2); [|done]. unfold in_u. lia. }
  rewrite op_modify. destruct (Z.eqb_spec (Z.of_nat (length es)) 0); [lia|].
  unfold cur_offset. rewrite op_gets, op_modify. unfold modify. eexists. split; [done|].
  split; try done.
  - intros i info Hi. change (fde_info_ (hdr s) !! i = Some info) in Hi. by rewrite HE, lookup_empty in Hi.
  - change (0 <= offset < 2 ^ 64 - 1). lia.
  - lia.
Qed.

Lemma offset_covering fuel pc offset es s0 s :
  table_ok offset es s0 s -> table_sorted es -> (0 < length es)%nat ->
  exists s', GetFdeOffsetFromPc fuel pc s = Ok (hdr_offset <$> covering pc es, s') /\ table_ok offset es s0 s'.
Proof.
  intros H Hs Hl. unfold GetFdeOffsetFromPc. rewrite !op_gets, (to_size _ _ _ _ H).
  destruct (Z.eqb_spec (fde_count s) 0); [rewrite (to_count _ _ _ _ H) in *; lia|].
  change (0 <? 4) with true. by apply binary_covering.
Qed.

(** The search table of .eh_frame_hdr: [Init] accepts a header with a table of sorted
    entries, and then any sequence of lookups, sharing the cache of entries that were read,
    returns for each pc the offset of the last entry that does not begin after it, and
    nothing for a pc before the first entry. *)
Theorem hdr_lookups offset size ptr es s fuel pcs :
  stored (raw s) offset (hdr_bytes offset ptr es) -> hdr_ok offset ptr es -> fde_info_ (hdr s) = ∅ ->
  exists s1 s2, Init offset size s = Ok (Some (), s1) /\
    lookups fuel pcs s1 = Ok ((fun pc => hdr_offset <$> covering pc es) <$> pcs, s2).
Proof.
  intros Hs Hok HE. destruct (init_table offset size ptr es s Hs Hok HE) as (s1 & HI & Ht). exists s1.
  enough (exists s2, lookups fuel pcs s1 = Ok ((fun pc => hdr_offset <$> covering pc es) <$> pcs, s2)) as [s2 H2] by by exists s2.
  clear HI. revert s1 Ht. induction pcs as [|pc pcs IH]; intros s1 Ht; [by exists s1|]. cbn [lookups fmap list_fmap].
  destruct (offset_covering fuel pc offset es s s1 Ht (ho_sorted _ _ _ Hok) (ho_some _ _ _ Hok)) as (s2 & HG & H2).
  rewrite HG, bind_Ok. cbn [fst snd]. destruct (IH s2 H2) as [s3 HL]. rewrite HL, bind_Ok. by exists s3.
Qed.

(** The table leads to the FDE of a pc. *)
Lemma hdr_get_fde offset es s0 s1 fuel i p pc :
  table_ok offset es s0 s1 -> table_sorted es -> (0 < length es)%nat -> fde_entries s0 = ∅ -> cie_entries s0 = ∅ ->
  placed_ok (raw s0) p -> no_lsda (p_cie p) ->
  (has_z (p_cie p) = true -> uleb (fd_aug_length (p_fde p)) (fd_aug_length_bytes (p_fde p))) ->
  (length (aug_string (p_cie p)) < fuel)%nat ->
  es !! i = Some (mkHdrInfo (fd_start (p_fde p)) (p_at p)) ->
  (forall e, es !! S i = Some e -> pc < hdr_pc e) ->
  fd_start (p_fde p) <= pc < fd_start (p_fde p) + fd_length (p_fde p) ->
  exists s2, GetFdeFromPc fuel (GetFdeOffsetFromPc fuel) pc s1 =
    Ok (Some (fde_at (p_at p) (p_cie_at p) (p_cie p) (p_rest p) (p_fde p)), s2).
Proof.
  intros Ht Hsort Hsome HF HC Hp Hl Hu Hfu Hi Hnext Hpc.
  destruct (offset_covering fuel pc offset es s0 s1 Ht Hsort Hsome) as (s2 & HG & H2).
  destruct (to_entries_kept _ _ _ _ H2) as [K1 K2].
  assert (covering pc es = Some (mkHdrInfo (fd_start (p_fde p)) (p_at p))) as Hcov.
  { apply (next_covering pc es Hsort i _ Hi); [cbn; lia|done]. }
  rewrite Hcov in HG. cbn [fmap option_fmap option_map hdr_offset] in HG.
  destruct (get_fde fuel p s2) as [s3 HG3]; try done.
  - by rewrite (to_raw _ _ _ _ H2).
  - by rewrite K1, HF, lookup_empty.
  - by rewrite K2, HC, lookup_empty.
  - unfold GetFdeFromPc. rewrite (op_step _ _ _ _ _ HG), (op_step _ _ _ _ _ HG3). cbn [fde_at fde_pc_end].
    destruct (Z.ltb_spec pc (fd_start (p_fde p) + fd_length (p_fde p))); [by eexists|lia].
Qed.

(** The header and the section together: for a table entry that points to an FDE stored
    in memory, and a pc of its function before the next entry, [Init] followed by
    [GetFdeFromPc] returns the FDE that was encoded.  Functions may touch. *)
Theorem hdr_find_fde offset size ptr es s fuel i p pc :
  stored (raw s) offset (hdr_bytes offset ptr es) -> hdr_ok offset ptr es -> fde_info_ (hdr s) = ∅ ->
  fde_entries s = ∅ -> cie_entries s = ∅ ->
  placed_ok (raw s) p -> no_lsda (p_cie p) ->
  (has_z (p_cie p) = true -> uleb (fd_aug_length (p_fde p)) (fd_aug_length_bytes (p_fde p))) ->
  (length (aug_string (p_cie p)) < fuel)%nat ->
  es !! i = Some (mkHdrInfo (fd_start (p_fde p)) (p_at p)) ->
  (forall e, es !! S i = Some e -> pc < hdr_pc e) ->
  fd_start (p_fde p) <= pc < fd_start (p_fde p) + fd_length (p_fde p) ->
  exists s1 s2, Init offset size s = Ok (Some (), s1) /\
    GetFdeFromPc fuel (GetFdeOffsetFromPc fuel) pc s1 =
      Ok (Some (fde_at (p_at p) (p_cie_at p) (p_cie p) (p_rest p) (p_fde p)), s2).
Proof.
  intros Hs Hok HE HF HC Hp Hl Hu Hfu Hi Hnext Hpc.
  destruct (init_table offset size ptr es s Hs Hok HE) as (s1 & HI & Ht). exists s1.
  destruct (hdr_get_fde offset es s s1 fuel i p pc Ht (ho_sorted _ _ _ Hok) (ho_some _ _ _ Hok)) as [s2 HG]; try done.
  by exists s2.
Qed.
End Theorems.
End HdrTheorems.

(** ** Witnesses and concrete tables *)

Module HdrExamples.
Import DwarfSectionImpl EhFrameHdr Format Pieces CieFormat SectionFormat ScanFacts FdeFacts SectionFdes SearchFacts
  FormatTheorems FormatExamples HdrFacts HdrSearch HdrTheorems.

#[local] Existing Instances LP64 Addr64.

(** The section of three adjacent functions at address 0, and a header for it behind it. *)
Definition hdr_at : Z := blen adjacent_bytes.
Definition adjacent_table : list HdrInfo := [mkHdrInfo 4096 24; mkHdrInfo 4112 44; mkHdrInfo 4128 64].
Definition both : t := new (DwarfMemory.buffer (adjacent_bytes ++ hdr_bytes hdr_at 0 adjacent_table)).

Lemma both_stored : stored (raw both) hdr_at (hdr_bytes hdr_at 0 adjacent_table).
Proof.
  pose proof (stored_buffer adjacent_bytes (hdr_bytes hdr_at 0 adjacent_table) []) as H.
  rewrite app_nil_r in H. apply H. vm_compute. reflexivity.
Qed.

Lemma both_ok : hdr_ok hdr_at 0 adjacent_table.
Proof.
  split.
  - split; vm_compute; congruence.
  - split; vm_compute; congruence.
  - repeat constructor; vm_compute; congruence.
  - repeat constructor.
  - cbn. lia.
  - vm_compute. reflexivity.
Qed.

Lemma hdr_lookups_witness :
  exists s1 s2, Init hdr_at 36 both = Ok (Some (), s1) /\
    lookups 0 [4000; 4128; 4096; 4127; 9000] s1 = Ok ([None; Some 64; Some 24; Some 44; Some 64], s2).
Proof.
  apply (hdr_lookups hdr_at 36 0 adjacent_table both 0 [4000; 4128; 4096; 4127; 9000]).
  - exact both_stored.
  - exact both_ok.
  - reflexivity.
Defined.

(** The pc that the search over the list of FDEs misses is found through the header. *)
Lemma hdr_find_fde_witness :
  exists s1 s2, Init hdr_at 36 both = Ok (Some (), s1) /\
    GetFdeFromPc 20 (GetFdeOffsetFromPc 20) 4128 s1 =
      Ok (Some (fde_at 64 0 sample_desc sample_rest (mkFdeDesc 4128 16 0 [0] [0; 0; 0])), s2).
Proof.
  apply (hdr_find_fde hdr_at 36 0 adjacent_table both 20 2
    (mkPlaced 64 0 sample_desc sample_rest (mkFdeDesc 4128 16 0 [0] [0; 0; 0])) 4128).
  - exact both_stored.
  - exact both_ok.
  - reflexivity.
  - reflexivity.
  - reflexivity.
  - assert (cie_entry_ok sample_desc sample_rest) as HC.
    { split; [exact sample_ok| |done|vm_compute; reflexivity].
      exists 27. split; [|done]. apply (enc_R []); constructor. }
    split; [| |exact HC|repeat split; vm_compute; congruence].
    + eexists. apply (stored_buffer [] (adjacent_bytes ++ hdr_bytes hdr_at 0 adjacent_table) []).
      vm_compute. reflexivity.
    + exists []. rewrite app_nil_r.
      apply (stored_buffer (take 64 adjacent_bytes) (drop 64 adjacent_bytes) (hdr_bytes hdr_at 0 adjacent_table)).
      vm_compute. reflexivity.
  - repeat constructor.
  - intros _. apply uleb_byte. cbn. lia.
  - cbn. lia.
  - reflexivity.
  - intros e [=].
  - cbn. lia.
Defined.
(** A table of ULEB128 values: pcs 80, 96 and 112, offsets 40, 41 and 42. *)
Definition uleb_table : t :=
  new (DwarfMemory.buffer ([1; 27; 3; 49] ++ [0; 0; 0; 0] ++ [3; 0; 0; 0] ++ [80; 40; 96; 41; 112; 42])).

Definition uleb_lookups (pcs : list Z) : outcome (list (option Z)) :=
  r ← Init 0 18 uleb_table; r ← lookups 10 pcs r.2; Ok r.1.

(** The sequential search adds 4 to the pcs it reads: the first four pcs of a function are
    taken for the function before. *)
Example sequential_pc_shifted :
  uleb_lookups [80] = Ok [None] /\ uleb_lookups [99] = Ok [Some 40] /\ uleb_lookups [100] = Ok [Some 41].
Proof. repeat split; vm_compute; reflexivity. Qed.

(** Once a lookup has stopped in the middle of the table, the rest is never read: every later
    pc is taken for the last entry that was read. *)
Example sequential_stops_reading :
  uleb_lookups [120] = Ok [Some 42] /\ uleb_lookups [84; 120] = Ok [Some 40; Some 41].
Proof. split; vm_compute; reflexivity. Qed.
End HdrExamples.
