(* ===== verification/UwCfaHdr.v ===== *)
(** * libunwindstack: stepping with a search table

    Sections with a header .eh_frame_hdr (UwEhFrameHdr) keep the promise [FdeFinder] of UwCfaTable to
    the cache of rows, so that stepping with them computes the registers of the caller as stepping
    with a plain .eh_frame section does (UwCfaStep).  With the table, functions may touch. *)

From S2P Require Import Prelude UwDwarfMemory UwDwarfOp UwDwarfCfa UwDwarfEval UwDwarfSection UwDwarfFormat UwCfaTable UwCfaSection UwCfaStep UwEhFrameHdr.

Module HdrRows.
Import DwarfSectionImpl Format CieFormat SectionFormat FdeFacts SectionFdes HdrFacts HdrSearch HdrTheorems CfaTable CfaRows EhFrameRows.

Section Rows.
Context {A : Arch} {AT : AddressType}.
Variable fuel : nat.
Variable m : Memory.
Variables (data : Z) (es : list HdrInfo) (ps : list placed) (ci fi : Z -> list insn).

(** Every function has its entry in the table, and ends before the next one begins. *)
Definition listed_in (p : placed) : Prop :=
  exists i, es !! i = Some (mkHdrInfo (fd_start (p_fde p)) (p_at p)) /\
    forall e, es !! S i = Some e -> fd_start (p_fde p) + fd_length (p_fde p) <= hdr_pc e.

(** The functions of a section with a search table. *)
Record hdr_functions : Prop := mkHdrFunctions {
  hf_sorted : table_sorted es;
  hf_memory p : p ∈ ps -> placed_ok m p;
  hf_tables p : p ∈ ps -> placed_table fuel ci fi p;
  hf_listed p : p ∈ ps -> listed_in p;
  hf_at p1 p2 : p1 ∈ ps -> p2 ∈ ps -> p_at p1 = p_at p2 -> p1 = p2;
  hf_cie p1 p2 : p1 ∈ ps -> p2 ∈ ps -> p_cie_at p1 = p_cie_at p2 -> p_cie p1 = p_cie p2 /\ p_rest p1 = p_rest p2
}.

Hypothesis Hf : hdr_functions.

Lemma listed_covering p pc : p ∈ ps -> covers (table_of ci fi p) pc -> covering pc es = Some (mkHdrInfo (fd_start (p_fde p)) (p_at p)).
Proof.
  intros Hp Hpc. unfold covers in Hpc. cbn in Hpc. destruct (hf_listed Hf p Hp) as (i & Hi & Hn).
  apply (next_covering pc es (hf_sorted Hf) i); [done|cbn; lia|]. intros e He. specialize (Hn e He). lia.
Qed.

Lemma hdr_placed : placed_all fuel m ci fi ps.
Proof.
  split; [apply Hf|apply Hf|apply Hf| |].
  - intros p1 p2 H1 H2 E. cbn [fde_of fde_at fde_cie]. destruct (hf_cie Hf p1 p2 H1 H2 E) as [-> ->]. by rewrite E.
  - intros p1 p2 pc H1 H2 C1 C2. apply (hf_at Hf); [done|done|].
    pose proof (listed_covering p1 pc H1 C1) as E1. rewrite (listed_covering p2 pc H2 C2) in E1. by injection E1.
Qed.

(** The section after [Init], whatever has been looked up since. *)
Record hdr_initialised (s : t) : Prop := mkHdrInitialised {
  hi_table : table_ok data es s s;
  hi_some : (0 < length es)%nat;
  hi_entries : entries_ok m ps s
}.

Lemma table_rooted s0 s s' :
  table_ok data es s0 s -> raw s' = raw s -> entries_offset s' = entries_offset s -> fde_count s' = fde_count s -> hdr s' = hdr s ->
  table_ok data es s' s'.
Proof. intros [] E1 E2 E3 E4. split; rewrite ?E1, ?E2, ?E3, ?E4; done. Qed.

Lemma hdr_finder : FdeFinder fuel (EhFrameHdr.GetFdeOffsetFromPc fuel) m (table_of ci fi <$> ps) hdr_initialised.
Proof.
  split.
  - intros s HI. apply (hi_entries _ HI).
  - intros s tb pc [HT Hs HE] Ht Hpc. apply list_elem_of_fmap in Ht as (p & -> & Hp).
    destruct (offset_covering fuel pc data es s s HT (hf_sorted Hf) Hs) as (s1 & HO & HT1).
    rewrite (listed_covering p pc Hp Hpc) in HO. destruct (to_entries_kept _ _ _ _ HT1) as [K1 K2], (to_rows_kept _ _ _ _ HT1) as [K3 K4].
    assert (entries_ok m ps s1) as HE1.
    { destruct HE as [E1 E2 E3]. split; [by rewrite (to_raw _ _ _ _ HT1)|by rewrite K2|by rewrite K1]. }
    destruct (fde_from_pc fuel m ci fi ps hdr_placed _ p pc s s1 HO HE1 Hp Hpc) as (cs & fs & c & HG & HE2).
    eexists. split; [exact HG|]. split; [|by split]. split; [|done|done]. by apply (table_rooted s s1).
  - intros s c [H1 H2 [H3 H4 H5]] Hc. split; [|done|by split]. apply (table_rooted s s); try done. by rewrite H3.
  - intros s x [H1 H2 [H3 H4 H5]]. split; [|done|by split]. by apply (table_rooted s s).
  - intros s x [H1 H2 [H3 H4 H5]]. split; [|done|by split]. by apply (table_rooted s s).
Qed.

(** After [Init] the functions can be found and nothing is cached. *)
Lemma hdr_ready size ptr :
  stored m data (hdr_bytes data ptr es) -> hdr_ok data ptr es ->
  exists s1, EhFrameHdr.Init data size (new m) = Ok (Some (), s1) /\ hdr_initialised s1 /\ caches_ok (table_of ci fi <$> ps) s1.
Proof.
  intros Hs Hok. destruct (init_table data size ptr es (new m) Hs Hok eq_refl) as (s1 & HI & HT). exists s1. split; [done|].
  destruct (to_entries_kept _ _ _ _ HT) as [K1 K2], (to_rows_kept _ _ _ _ HT) as [K3 K4]. pose proof (to_raw _ _ _ _ HT) as K5. split; split.
  - by apply (table_rooted (new m) s1).
  - apply (ho_some _ _ _ Hok).
  - split; [done|by rewrite K2|by rewrite K1].
  - by rewrite K4.
  - intros tb Ht rs. by rewrite K3.
Qed.
End Rows.
End HdrRows.
