(* ===== verification/UwRegs.v ===== *)
(** * libunwindstack: registers of the four architectures

    Models external/libunwindstack-ndk/Regs.cpp, RegsArm.cpp, RegsArm64.cpp, RegsX86.cpp and
    RegsX86_64.cpp with the structures of Ucontext*.h and User*.h: the registers of a thread
    read through ptrace or from a signal context, the correction of return addresses, the
    fallback to the return address, and stepping over a signal frame.

    Registers are a list of values, [regs_], with as many elements as the architecture has.
    A structure the kernel fills in is a block of bytes; its fields are decoded with the
    offsets the declarations give them. *)

From S2P Require Import Prelude UwDwarfMemory UwDwarfFormat.

(** ** Words in memory *)

(** The first [n] values of [w] bytes. *)
Fixpoint words (w n : nat) (bs : list Z) : list Z :=
  match n with
  | O => []
  | S n => le_val (take w bs) :: words w n (drop w bs)
  end.

Definition of_words (w : nat) (ws : list Z) : list Z := concat (map (le_bytes w) ws).

Definition reg (rs : list Z) (i : Z) : Z := nth (Z.to_nat i) rs 0.
Definition set_reg (i v : Z) (rs : list Z) : list Z := <[Z.to_nat i := v]> rs.

(** [ReadFully(addr, regs_.data(), ...)]: a short read has overwritten the first bytes. *)
Definition read_regs (m : Memory) (addr : Z) (w : nat) (rs : list Z) : bool * list Z :=
  let size := Z.of_nat (w * length rs) in
  let d := m addr size in
  (blen d =? size, words w (length rs) (d ++ drop (length d) (of_words w rs))).

(** [ReadFully(addr, &value, n)] *)
Definition read_value (m : Memory) (addr n : Z) : option Z := le_val <$> ReadFully m addr n.

(** What the functions here use of an [Elf]. *)
Record ElfView : Type := mkElf { elf_valid : bool; elf_load_bias : Z; elf_memory : Memory }.

Inductive ArchEnum : Type := ARCH_UNKNOWN | ARCH_ARM | ARCH_ARM64 | ARCH_X86 | ARCH_X86_64.

(** ** RegsArm *)

Module Arm.
Definition REG_SP : Z := 13.
Definition REG_LR : Z := 14.
Definition REG_PC : Z := 15.
Definition REG_LAST : nat := 16.

Definition pc (rs : list Z) : Z := reg rs REG_PC.
Definition sp (rs : list Z) : Z := reg rs REG_SP.
Definition set_pc (v : Z) : list Z -> list Z := set_reg REG_PC (u32 v).
Definition set_sp (v : Z) : list Z -> list Z := set_reg REG_SP (u32 v).

Definition GetPcAdjustment (rel_pc : Z) (elf : ElfView) : Z :=
  if negb (elf_valid elf) then 2
  else if rel_pc <? elf_load_bias elf then if rel_pc <? 2 then 0 else 2
  else
    let adjusted_rel_pc := rel_pc - elf_load_bias elf in
    if adjusted_rel_pc <? 5 then if adjusted_rel_pc <? 2 then 0 else 2
    else if Z.odd adjusted_rel_pc then
      match read_value (elf_memory elf) (adjusted_rel_pc - 5) 4 with
      | None => 2
      | Some value => if negb (Z.land value 0xe000f000 =? 0xe000f000) then 2 else 4
      end
    else 4.

(** [None] for false. *)
Definition SetPcFromReturnAddress (rs : list Z) : option (list Z) :=
  let lr := reg rs REG_LR in
  if reg rs REG_PC =? lr then None else Some (set_reg REG_PC lr rs).

Definition Read (user : list Z) : outcome (list Z) := bs ← mem_read user 0 (4 * 16); Ok (words 4 REG_LAST bs).

(** [uc_mcontext.regs] lies at offset 0x14 + 0xc. *)
Definition CreateFromUcontext (ucontext : list Z) : outcome (list Z) :=
  bs ← mem_read ucontext (20 + 12) (4 * 16); Ok (words 4 REG_LAST bs).

(** Where the registers of the interrupted code are; 0 if this is no signal frame, [None] if
    the stack cannot be read. *)
Definition frame_offset (data sp : Z) (process_memory : Memory) : option Z :=
  if (data =? 0xe3a07077) || (data =? 0xef900077) || (data =? 0xdf002777) then
    match read_value process_memory sp 4 with
    | None => None
    | Some data => Some (if data =? 0x5ac3c35a then u64 (sp + 0x14 + 0xc) else u64 (sp + 0xc))
    end
  else if (data =? 0xe3a070ad) || (data =? 0xef9000ad) || (data =? 0xdf0027ad) then
    match read_value process_memory sp 4 with
    | None => None
    | Some data => Some (if data =? sp + 8 then u64 (sp + 8 + 0x80 + 0x14 + 0xc) else u64 (sp + 0x80 + 0x14 + 0xc))
    end
  else Some 0.

Definition StepIfSignalHandler (rel_pc : Z) (elf : ElfView) (process_memory : Memory) (rs : list Z) : bool * list Z :=
  match read_value (elf_memory elf) rel_pc 4 with
  | None => (false, rs)
  | Some data =>
      match frame_offset data (sp rs) process_memory with
      | None => (false, rs)
      | Some offset => if offset =? 0 then (false, rs) else read_regs process_memory offset 4 rs
      end
  end.
(** [IterateRegisters]: the names and registers it passes to the callback, in order. *)
Definition IterateRegisters (rs : list Z) : list (string * Z) :=
  (fun r => (r.1, reg rs r.2)) <$>
  [("r0"%string, 0); ("r1"%string, 1); ("r2"%string, 2); ("r3"%string, 3); ("r4"%string, 4);
   ("r5"%string, 5); ("r6"%string, 6); ("r7"%string, 7); ("r8"%string, 8); ("r9"%string, 9);
   ("r10"%string, 10); ("r11"%string, 11); ("ip"%string, 12); ("sp"%string, REG_SP);
   ("lr"%string, REG_LR); ("pc"%string, REG_PC)].
End Arm.

(** ** RegsArm64 *)

Module Arm64.
Definition REG_LR : Z := 30.
Definition REG_SP : Z := 31.
Definition REG_PC : Z := 32.
Definition REG_LAST : nat := 33.

Definition pc (rs : list Z) : Z := reg rs REG_PC.
Definition sp (rs : list Z) : Z := reg rs REG_SP.
Definition set_pc (v : Z) : list Z -> list Z := set_reg REG_PC v.
Definition set_sp (v : Z) : list Z -> list Z := set_reg REG_SP v.

Definition GetPcAdjustment (rel_pc : Z) (elf : ElfView) : Z := if rel_pc <? 4 then 0 else 4.

Definition SetPcFromReturnAddress (rs : list Z) : option (list Z) :=
  let lr := reg rs REG_LR in
  if reg rs REG_PC =? lr then None else Some (set_reg REG_PC lr rs).

(** [arm64_user_regs] is regs[31], sp, pc and pstate; the first copy takes sp with it. *)
Definition Read (user : list Z) : outcome (list Z) :=
  bs ← mem_read user 0 (8 * 32);
  pc ← mem_read user (8 * 32) 8;
  sp ← mem_read user (8 * 31) 8;
  Ok (set_reg REG_SP (le_val sp) (set_reg REG_PC (le_val pc) (words 8 32 bs ++ [0]))).

(** [uc_mcontext] is aligned to 16 bytes, at 0xb0; [regs] follows [fault_address]. *)
Definition CreateFromUcontext (ucontext : list Z) : outcome (list Z) :=
  bs ← mem_read ucontext (0xb0 + 8) (8 * 33); Ok (words 8 REG_LAST bs).

Definition StepIfSignalHandler (rel_pc : Z) (elf : ElfView) (process_memory : Memory) (rs : list Z) : bool * list Z :=
  match read_value (elf_memory elf) rel_pc 8 with
  | None => (false, rs)
  | Some data =>
      if negb (data =? 0xd4000001d2801168) then (false, rs)
      else read_regs process_memory (u64 (sp rs + 0x80 + 0xb0 + 0x08)) 8 rs
  end.
(** [IterateRegisters]: the names and registers it passes to the callback, in order. *)
Definition IterateRegisters (rs : list Z) : list (string * Z) :=
  (fun r => (r.1, reg rs r.2)) <$>
  [("x0"%string, 0); ("x1"%string, 1); ("x2"%string, 2); ("x3"%string, 3); ("x4"%string, 4);
   ("x5"%string, 5); ("x6"%string, 6); ("x7"%string, 7); ("x8"%string, 8); ("x9"%string, 9);
   ("x10"%string, 10); ("x11"%string, 11); ("x12"%string, 12); ("x13"%string, 13); ("x14"%string, 14);
   ("x15"%string, 15); ("x16"%string, 16); ("x17"%string, 17); ("x18"%string, 18); ("x19"%string, 19);
   ("x20"%string, 20); ("x21"%string, 21); ("x22"%string, 22); ("x23"%string, 23); ("x24"%string, 24);
   ("x25"%string, 25); ("x26"%string, 26); ("x27"%string, 27); ("x28"%string, 28); ("x29"%string, 29);
   ("sp"%string, REG_SP); ("lr"%string, REG_LR); ("pc"%string, REG_PC)].
End Arm64.

(** ** RegsX86 *)

Module X86.
Definition EAX : Z := 0.
Definition ECX : Z := 1.
Definition EDX : Z := 2.
Definition EBX : Z := 3.
Definition ESP : Z := 4.
Definition EBP : Z := 5.
Definition ESI : Z := 6.
Definition EDI : Z := 7.
Definition EIP : Z := 8.
Definition REG_LAST : nat := 16.
Definition REG_SP : Z := ESP.
Definition REG_PC : Z := EIP.

(** [x86_mcontext_t] up to the last register the code uses. *)
Record mcontext : Type := mkContext {
  gs : Z; fs : Z; es : Z; ds : Z; edi : Z; esi : Z; ebp : Z; esp : Z; ebx : Z; edx : Z; ecx : Z; eax : Z;
  trapno : Z; err : Z; eip : Z
}.

Definition mcontext_of (bs : list Z) : mcontext :=
  let f i := nth i (words 4 19 bs) 0 in
  mkContext (f 0%nat) (f 1%nat) (f 2%nat) (f 3%nat) (f 4%nat) (f 5%nat) (f 6%nat) (f 7%nat) (f 8%nat) (f 9%nat)
    (f 10%nat) (f 11%nat) (f 12%nat) (f 13%nat) (f 14%nat).

Definition sizeof_mcontext : Z := 76.

(** A structure of [uint32_t] fields: the field at index [i]. *)
Definition user_field (user : list Z) (i : Z) : outcome Z := bs ← mem_read user (4 * i) 4; Ok (le_val bs).

Definition pc (rs : list Z) : Z := reg rs REG_PC.
Definition sp (rs : list Z) : Z := reg rs REG_SP.
Definition set_pc (v : Z) : list Z -> list Z := set_reg REG_PC (u32 v).
Definition set_sp (v : Z) : list Z -> list Z := set_reg REG_SP (u32 v).

Definition GetPcAdjustment (rel_pc : Z) (elf : ElfView) : Z := if rel_pc =? 0 then 0 else 1.

Definition SetPcFromReturnAddress (process_memory : Memory) (rs : list Z) : option (list Z) :=
  match read_value process_memory (sp rs) 4 with
  | None => None
  | Some new_pc => if new_pc =? pc rs then None else Some (set_reg REG_PC new_pc rs)
  end.

(** [x86_user_regs]: ebx, ecx, edx, esi, edi, ebp, eax, xds, xes, xfs, xgs, orig_eax, eip,
    xcs, eflags, esp, xss. *)
Definition Read (user : list Z) : outcome (list Z) :=
  eax ← user_field user 6; ebx ← user_field user 0; ecx ← user_field user 1; edx ← user_field user 2;
  ebp ← user_field user 5; edi ← user_field user 4; esi ← user_field user 3; esp ← user_field user 15;
  eip ← user_field user 12;
  Ok (set_reg EIP eip (set_reg ESP esp (set_reg ESI esi (set_reg EDI edi (set_reg EBP ebp
       (set_reg EDX edx (set_reg ECX ecx (set_reg EBX ebx (set_reg EAX eax (replicate REG_LAST 0)))))))))).

Definition SetFromUcontext (c : mcontext) (rs : list Z) : list Z :=
  set_reg EIP (eip c) (set_reg EAX (eax c) (set_reg ECX (ecx c) (set_reg EDX (edx c) (set_reg EBX (ebx c)
    (set_reg ESP (esp c) (set_reg EBP (ebp c) (set_reg ESI (esi c) (set_reg EDI (edi c) rs)))))))).

(** [uc_mcontext] lies at offset 0x14. *)
Definition CreateFromUcontext (ucontext : list Z) : outcome (list Z) :=
  bs ← mem_read ucontext 0x14 sizeof_mcontext;
  Ok (SetFromUcontext (mcontext_of bs) (replicate REG_LAST 0)).

Definition StepIfSignalHandler (rel_pc : Z) (elf : ElfView) (process_memory : Memory) (rs : list Z) : bool * list Z :=
  match read_value (elf_memory elf) rel_pc 8 with
  | None => (false, rs)
  | Some data =>
      if data =? 0x80cd00000077b858 then
        match ReadFully process_memory (u32 (sp rs + 4)) sizeof_mcontext with
        | None => (false, rs)
        | Some bs =>
            let c := mcontext_of bs in
            (true, set_reg EIP (eip c) (set_reg EAX (eax c) (set_reg ECX (ecx c) (set_reg EDX (edx c)
                     (set_reg EBX (ebx c) (set_reg ESP (esp c) (set_reg EBP (ebp c) rs)))))))
        end
      else if Z.land data 0x00ffffffffffffff =? 0x0080cd000000adb8 then
        match read_value process_memory (u32 (sp rs + 8)) 4 with
        | None => (false, rs)
        | Some ptr =>
            match ReadFully process_memory (u32 (ptr + 0x14)) sizeof_mcontext with
            | None => (false, rs)
            | Some bs => (true, SetFromUcontext (mcontext_of bs) rs)
            end
        end
      else (false, rs)
  end.
(** [IterateRegisters]: the names and registers it passes to the callback, in order. *)
Definition IterateRegisters (rs : list Z) : list (string * Z) :=
  (fun r => (r.1, reg rs r.2)) <$>
  [("eax"%string, EAX); ("ebx"%string, EBX); ("ecx"%string, ECX); ("edx"%string, EDX);
   ("ebp"%string, EBP); ("edi"%string, EDI); ("esi"%string, ESI); ("esp"%string, ESP);
   ("eip"%string, EIP)].
End X86.

(** ** RegsX86_64 *)

Module X86_64.
Definition RAX : Z := 0.
Definition RDX : Z := 1.
Definition RCX : Z := 2.
Definition RBX : Z := 3.
Definition RSI : Z := 4.
Definition RDI : Z := 5.
Definition RBP : Z := 6.
Definition RSP : Z := 7.
Definition R8 : Z := 8.
Definition RIP : Z := 16.
Definition REG_LAST : nat := 17.
Definition REG_SP : Z := RSP.
Definition REG_PC : Z := RIP.

(** [x86_64_mcontext_t]: r8 to r15 and the fields up to rip. *)
Record mcontext : Type := mkContext {
  r8_15 : list Z; rdi : Z; rsi : Z; rbp : Z; rbx : Z; rdx : Z; rax : Z; rcx : Z; rsp : Z; rip : Z
}.

Definition mcontext_of (bs : list Z) : mcontext :=
  let ws := words 8 23 bs in
  let f i := nth i ws 0 in
  mkContext (take 8 ws) (f 8%nat) (f 9%nat) (f 10%nat) (f 11%nat) (f 12%nat) (f 13%nat) (f 14%nat) (f 15%nat) (f 16%nat).

Definition sizeof_mcontext : Z := 184.

Definition user_field (user : list Z) (i : Z) : outcome Z := bs ← mem_read user (8 * i) 8; Ok (le_val bs).

Definition pc (rs : list Z) : Z := reg rs REG_PC.
Definition sp (rs : list Z) : Z := reg rs REG_SP.
Definition set_pc (v : Z) : list Z -> list Z := set_reg REG_PC v.
Definition set_sp (v : Z) : list Z -> list Z := set_reg REG_SP v.

Definition GetPcAdjustment (rel_pc : Z) (elf : ElfView) : Z := if rel_pc =? 0 then 0 else 1.

Definition SetPcFromReturnAddress (process_memory : Memory) (rs : list Z) : option (list Z) :=
  match read_value process_memory (sp rs) 8 with
  | None => None
  | Some new_pc => if new_pc =? pc rs then None else Some (set_reg REG_PC new_pc rs)
  end.

(** [x86_64_user_regs]: r15, r14, r13, r12, rbp, rbx, r11, r10, r9, r8, rax, rcx, rdx, rsi, rdi,
    orig_rax, rip, cs, eflags, rsp, ss, ... *)
Definition Read (user : list Z) : outcome (list Z) :=
  rax ← user_field user 10; rbx ← user_field user 5; rcx ← user_field user 11; rdx ← user_field user 12;
  r8 ← user_field user 9; r9 ← user_field user 8; r10 ← user_field user 7; r11 ← user_field user 6;
  r12 ← user_field user 3; r13 ← user_field user 2; r14 ← user_field user 1; r15 ← user_field user 0;
  rdi ← user_field user 14; rsi ← user_field user 13; rbp ← user_field user 4; rsp ← user_field user 19;
  rip ← user_field user 16;
  Ok [rax; rdx; rcx; rbx; rsi; rdi; rbp; rsp; r8; r9; r10; r11; r12; r13; r14; r15; rip].

(** [memcpy(&regs_[R8], &r8, 8 * sizeof(uint64_t))] *)
Fixpoint set_regs (i : Z) (vs : list Z) (rs : list Z) : list Z :=
  match vs with
  | [] => rs
  | v :: vs => set_regs (i + 1) vs (set_reg i v rs)
  end.

Definition SetFromUcontext (c : mcontext) (rs : list Z) : list Z :=
  set_reg RIP (rip c) (set_reg RSP (rsp c) (set_reg RCX (rcx c) (set_reg RAX (rax c) (set_reg RDX (rdx c)
    (set_reg RBX (rbx c) (set_reg RBP (rbp c) (set_reg RSI (rsi c) (set_reg RDI (rdi c)
      (set_regs R8 (r8_15 c) rs))))))))).

(** [uc_mcontext] lies at offset 0x28. *)
Definition CreateFromUcontext (ucontext : list Z) : outcome (list Z) :=
  bs ← mem_read ucontext 0x28 sizeof_mcontext;
  Ok (SetFromUcontext (mcontext_of bs) (replicate REG_LAST 0)).

Definition StepIfSignalHandler (rel_pc : Z) (elf : ElfView) (process_memory : Memory) (rs : list Z) : bool * list Z :=
  match read_value (elf_memory elf) rel_pc 8 with
  | None => (false, rs)
  | Some data =>
      if negb (data =? 0x0f0000000fc0c748) then (false, rs)
      else
        match read_value (elf_memory elf) (u64 (rel_pc + 8)) 2 with
        | None => (false, rs)
        | Some data2 =>
            if negb (data2 =? 0x0f05) then (false, rs)
            else
              match ReadFully process_memory (u64 (sp rs + 0x28)) sizeof_mcontext with
              | None => (false, rs)
              | Some bs => (true, SetFromUcontext (mcontext_of bs) rs)
              end
        end
  end.
(** [IterateRegisters]: the names and registers it passes to the callback, in order. *)
Definition IterateRegisters (rs : list Z) : list (string * Z) :=
  (fun r => (r.1, reg rs r.2)) <$>
  [("rax"%string, RAX); ("rbx"%string, RBX); ("rcx"%string, RCX); ("rdx"%string, RDX);
   ("r8"%string, R8); ("r9"%string, 9); ("r10"%string, 10); ("r11"%string, 11); ("r12"%string, 12);
   ("r13"%string, 13); ("r14"%string, 14); ("r15"%string, 15); ("rdi"%string, RDI); ("rsi"%string, RSI);
   ("rbp"%string, RBP); ("rsp"%string, RSP); ("rip"%string, RIP)].
End X86_64.

(** ** Regs.cpp *)

Module Regs.

(** [sizeof(arm64_user_regs) + 10], in whole 64-bit words. *)
Definition MAX_USER_REGS_SIZE : Z := 8 * 34 + 10.
Definition user_buffer_size : Z := MAX_USER_REGS_SIZE / 8 * 8.

(** [RemoteGet]: what the two ptrace requests store in the buffer ([None]: -1), and the
    architecture the code was compiled for. *)
Definition RemoteGet (getregset getregs : option (list Z)) (current : ArchEnum) : outcome (option (list Z)) :=
  match (match getregset with Some b => Some b | None => getregs end) with
  | None => Ok None
  | Some buffer =>
      match current with
      | ARCH_X86 => Some <$> X86.Read buffer
      | ARCH_X86_64 => Some <$> X86_64.Read buffer
      | ARCH_ARM => Some <$> Arm.Read buffer
      | ARCH_ARM64 => Some <$> Arm64.Read buffer
      | ARCH_UNKNOWN => Ok None
      end
  end.

Definition CreateFromUcontext (arch : ArchEnum) (ucontext : list Z) : outcome (option (list Z)) :=
  match arch with
  | ARCH_X86 => Some <$> X86.CreateFromUcontext ucontext
  | ARCH_X86_64 => Some <$> X86_64.CreateFromUcontext ucontext
  | ARCH_ARM => Some <$> Arm.CreateFromUcontext ucontext
  | ARCH_ARM64 => Some <$> Arm64.CreateFromUcontext ucontext
  | ARCH_UNKNOWN => Ok None
  end.

(** The dispatch of the virtual functions. *)
Definition GetPcAdjustment (arch : ArchEnum) (rel_pc : Z) (elf : ElfView) : Z :=
  match arch with
  | ARCH_ARM => Arm.GetPcAdjustment rel_pc elf
  | ARCH_ARM64 => Arm64.GetPcAdjustment rel_pc elf
  | ARCH_X86 => X86.GetPcAdjustment rel_pc elf
  | ARCH_X86_64 => X86_64.GetPcAdjustment rel_pc elf
  | ARCH_UNKNOWN => 0
  end.

Definition StepIfSignalHandler (arch : ArchEnum) (rel_pc : Z) (elf : ElfView) (process_memory : Memory) (rs : list Z)
    : bool * list Z :=
  match arch with
  | ARCH_ARM => Arm.StepIfSignalHandler rel_pc elf process_memory rs
  | ARCH_ARM64 => Arm64.StepIfSignalHandler rel_pc elf process_memory rs
  | ARCH_X86 => X86.StepIfSignalHandler rel_pc elf process_memory rs
  | ARCH_X86_64 => X86_64.StepIfSignalHandler rel_pc elf process_memory rs
  | ARCH_UNKNOWN => (false, rs)
  end.

Definition SetPcFromReturnAddress (arch : ArchEnum) (process_memory : Memory) (rs : list Z) : option (list Z) :=
  match arch with
  | ARCH_ARM => Arm.SetPcFromReturnAddress rs
  | ARCH_ARM64 => Arm64.SetPcFromReturnAddress rs
  | ARCH_X86 => X86.SetPcFromReturnAddress process_memory rs
  | ARCH_X86_64 => X86_64.SetPcFromReturnAddress process_memory rs
  | ARCH_UNKNOWN => None
  end.

Definition pc (arch : ArchEnum) (rs : list Z) : Z :=
  match arch with
  | ARCH_ARM => Arm.pc rs
  | ARCH_ARM64 => Arm64.pc rs
  | ARCH_X86 => X86.pc rs
  | ARCH_X86_64 => X86_64.pc rs
  | ARCH_UNKNOWN => 0
  end.

Definition sp (arch : ArchEnum) (rs : list Z) : Z :=
  match arch with
  | ARCH_ARM => Arm.sp rs
  | ARCH_ARM64 => Arm64.sp rs
  | ARCH_X86 => X86.sp rs
  | ARCH_X86_64 => X86_64.sp rs
  | ARCH_UNKNOWN => 0
  end.
End Regs.

(** ** Facts about words and registers *)

Module RegsFacts.
Import Format.

Definition in_words (w : nat) (ws : list Z) : Prop := Forall (in_u (8 * Z.of_nat w)) ws.

Lemma length_of_words w ws : length (of_words w ws) = (w * length ws)%nat.
Proof.
  unfold of_words. induction ws as [|v ws IH]; cbn [map concat length]; [lia|].
  rewrite length_app, length_le_bytes, IH. lia.
Qed.

Lemma blen_of_words w ws : blen (of_words w ws) = Z.of_nat (w * length ws).
Proof. unfold blen. by rewrite length_of_words. Qed.

Lemma words_of_words w ws more : in_words w ws -> words w (length ws) (of_words w ws ++ more) = ws.
Proof.
  unfold of_words. induction 1 as [|v ws Hv _ IH]; [done|]. cbn [words map concat length].
  rewrite <- app_assoc, take_app_length', drop_app_length' by by rewrite length_le_bytes.
  by rewrite IH, le_val_bytes, Z.mod_small.
Qed.

Lemma words_all w n ws : in_words w ws -> length ws = n -> words w n (of_words w ws) = ws.
Proof. intros H <-. rewrite <- (app_nil_r (of_words w ws)). by apply words_of_words. Qed.

Lemma read_regs_stored m addr w ws rs :
  stored m addr (of_words w ws) -> in_words w ws -> length ws = length rs -> read_regs m addr w rs = (true, ws).
Proof.
  intros Hs Hw Hl. pose proof (stored_all _ _ _ Hs) as HR. unfold ReadFully in HR. rewrite blen_of_words, Hl in HR.
  unfold read_regs. destruct (blen (m addr (Z.of_nat (w * length rs))) =? _); [|done]. injection HR as ->.
  rewrite <- Hl. by rewrite words_of_words.
Qed.

Lemma read_value_stored m addr n v more :
  stored m addr (le_bytes n v ++ more) -> 0 <= v < 2 ^ (8 * Z.of_nat n) -> read_value m addr (Z.of_nat n) = Some v.
Proof.
  intros Hs%stored_prefix Hv. unfold read_value. pose proof (stored_all _ _ _ Hs) as HR. rewrite blen_le_bytes in HR.
  rewrite HR. cbn. by rewrite le_val_bytes, Z.mod_small.
Qed.

Lemma length_set_reg i v rs : length (set_reg i v rs) = length rs.
Proof. apply length_insert. Qed.

Lemma reg_set i j v rs :
  0 <= i < Z.of_nat (length rs) -> 0 <= j -> reg (set_reg i v rs) j = if i =? j then v else reg rs j.
Proof.
  intros Hi Hj. unfold reg, set_reg. rewrite !nth_lookup. destruct (Z.eqb_spec i j) as [->|].
  - rewrite list_lookup_insert_eq by lia. done.
  - by rewrite list_lookup_insert_ne by lia.
Qed.

(** The registers of a machine state, in order. *)
Definition listed (f : Z -> Z) (n : nat) : list Z := f <$> seqZ 0 (Z.of_nat n).

Lemma length_listed f n : length (listed f n) = n.
Proof. unfold listed. rewrite length_fmap, length_seqZ. lia. Qed.

Lemma reg_listed f n i : 0 <= i < Z.of_nat n -> reg (listed f n) i = f i.
Proof.
  intros Hi. unfold reg, listed. rewrite nth_lookup, list_lookup_fmap, lookup_seqZ_lt by lia. cbn. f_equal. lia.
Qed.

Lemma listed_words w f n : (forall i, in_u (8 * Z.of_nat w) (f i)) -> in_words w (listed f n).
Proof. intros H. apply Forall_fmap, Forall_true. intros i. apply H. Qed.

Lemma of_words_app w a b : of_words w (a ++ b) = of_words w a ++ of_words w b.
Proof. unfold of_words. by rewrite map_app, concat_app. Qed.

(** A field of a structure of equal words. *)
Lemma word_field w ws i v :
  ws !! i = Some v -> in_words w ws ->
  (bs ← mem_read (of_words w ws) (Z.of_nat w * Z.of_nat i) (Z.of_nat w); Ok (le_val bs)) = Ok v.
Proof.
  intros Hi Hw. pose proof (lookup_lt_Some _ _ _ Hi). rewrite <- (take_drop_middle ws i v Hi) at 1.
  rewrite of_words_app. change (of_words w (v :: drop (S i) ws)) with (le_bytes w v ++ of_words w (drop (S i) ws)).
  rewrite mem_read_app; [|rewrite blen_of_words, length_take, Nat.min_l by lia; lia|by rewrite blen_le_bytes].
  rewrite bind_Ok, le_val_bytes, Z.mod_small; [done|]. by eapply (Forall_lookup_1 _ _ _ _ Hw).
Qed.

Lemma user_field_4 ws i v : ws !! Z.to_nat i = Some v -> 0 <= i -> in_words 4 ws -> X86.user_field (of_words 4 ws) i = Ok v.
Proof.
  intros Hi H0 Hw. unfold X86.user_field. pose proof (word_field 4 ws _ v Hi Hw) as H.
  rewrite Z2Nat.id in H by done. exact H.
Qed.

Lemma user_field_8 ws i v : ws !! Z.to_nat i = Some v -> 0 <= i -> in_words 8 ws -> X86_64.user_field (of_words 8 ws) i = Ok v.
Proof.
  intros Hi H0 Hw. unfold X86_64.user_field. pose proof (word_field 8 ws _ v Hi Hw) as H.
  rewrite Z2Nat.id in H by done. exact H.
Qed.
End RegsFacts.

(** ** What the kernel stores *)

Module KernelBlocks.
Import Format RegsFacts.

(** How many registers the unwinder keeps of each architecture: all of them but the flags and
    segment registers of x86. *)
Definition kept (arch : ArchEnum) : nat :=
  match arch with ARCH_ARM => 16 | ARCH_ARM64 => 33 | ARCH_X86 => 9 | ARCH_X86_64 => 17 | ARCH_UNKNOWN => 0 end.

Definition word_bytes (arch : ArchEnum) : nat :=
  match arch with ARCH_ARM | ARCH_X86 => 4 | _ => 8 end.

Section Blocks.
(** The registers of a thread and the other fields of the structures. *)
Variables (f other : Z -> Z).

Definition user_words (arch : ArchEnum) : list Z :=
  match arch with
  | ARCH_ARM => listed f 16 ++ listed other 2
  | ARCH_ARM64 => listed f 33 ++ listed other 1
  | ARCH_X86 => [f X86.EBX; f X86.ECX; f X86.EDX; f X86.ESI; f X86.EDI; f X86.EBP; f X86.EAX] ++ listed other 5 ++
                [f X86.EIP; other 5; other 6; f X86.ESP; other 7]
  | ARCH_X86_64 => [f 15; f 14; f 13; f 12; f X86_64.RBP; f X86_64.RBX; f 11; f 10; f 9; f 8; f X86_64.RAX; f X86_64.RCX;
                    f X86_64.RDX; f X86_64.RSI; f X86_64.RDI; other 0; f X86_64.RIP; other 1; other 2; f X86_64.RSP] ++
                   listed other 7
  | ARCH_UNKNOWN => []
  end.

Definition mcontext_words (arch : ArchEnum) : list Z :=
  match arch with
  | ARCH_ARM => listed f 16
  | ARCH_ARM64 => listed f 33
  | ARCH_X86 => listed other 4 ++ [f X86.EDI; f X86.ESI; f X86.EBP; f X86.ESP; f X86.EBX; f X86.EDX; f X86.ECX; f X86.EAX;
                  other 4; other 5; f X86.EIP] ++ listed other 4
  | ARCH_X86_64 => [f 8; f 9; f 10; f 11; f 12; f 13; f 14; f 15; f X86_64.RDI; f X86_64.RSI; f X86_64.RBP; f X86_64.RBX;
                    f X86_64.RDX; f X86_64.RAX; f X86_64.RCX; f X86_64.RSP; f X86_64.RIP] ++ listed other 6
  | ARCH_UNKNOWN => []
  end.

(** The offset of the words in an [ucontext_t]. *)
Definition mcontext_at (arch : ArchEnum) : Z :=
  match arch with ARCH_ARM => 0x20 | ARCH_ARM64 => 0xb8 | ARCH_X86 => 0x14 | ARCH_X86_64 => 0x28 | ARCH_UNKNOWN => 0 end.
End Blocks.

Definition recovered (arch : ArchEnum) (f : Z -> Z) (rs : list Z) : Prop :=
  forall i, 0 <= i < Z.of_nat (kept arch) -> reg rs i = f i.

Lemma recovered_listed arch f : recovered arch f (listed f (kept arch)).
Proof. intros i Hi. by apply reg_listed. Qed.

(** A property of the kept registers, one by one. *)
Lemma each_below n (P : Z -> Prop) : Forall P (seqZ 0 (Z.of_nat n)) -> forall i, 0 <= i < Z.of_nat n -> P i.
Proof. intros H i Hi. rewrite Forall_forall in H. apply H, elem_of_seqZ. lia. Qed.

(** Every word of a structure is in range. *)
Ltac words_ok := unfold in_words; cbn; repeat (apply Forall_cons_2; [by auto|]); apply Forall_nil_2.

(** The registers one by one, through the assignments to the others. *)
Ltac each_reg rs Hl :=
  repeat (destruct rs as [|? rs]; [discriminate Hl|]); destruct rs; [|discriminate Hl];
  unfold recovered; apply each_below; vm_compute; repeat (apply Forall_cons_2; [reflexivity|]); apply Forall_nil_2.

Lemma x86_context f other rs :
  length rs = 16%nat -> (forall i, in_u 32 (f i)) -> (forall i, in_u 32 (other i)) ->
  recovered ARCH_X86 f (X86.SetFromUcontext (X86.mcontext_of (of_words 4 (mcontext_words f other ARCH_X86))) rs).
Proof.
  intros Hl Hf Ho. unfold X86.mcontext_of. rewrite words_all by (done || words_ok).
  each_reg rs Hl.
Qed.

Lemma x86_64_context f other rs :
  length rs = 17%nat -> (forall i, in_u 64 (f i)) -> (forall i, in_u 64 (other i)) ->
  recovered ARCH_X86_64 f (X86_64.SetFromUcontext (X86_64.mcontext_of (of_words 8 (mcontext_words f other ARCH_X86_64))) rs).
Proof.
  intros Hl Hf Ho. unfold X86_64.mcontext_of. rewrite words_all by (done || words_ok).
  each_reg rs Hl.
Qed.
End KernelBlocks.

(** ** Theorems *)

Module RegsTheorems.
Import Format Regs RegsFacts KernelBlocks.

Definition word_bits (arch : ArchEnum) : Z := 8 * Z.of_nat (word_bytes arch).

Lemma mem_read_prefix a c len : len = blen a -> mem_read (a ++ c) 0 len = Ok a.
Proof. intros ->. by apply (mem_read_app [] a c). Qed.

(** The fields of a structure, read one after the other. *)
Ltac read_fields field :=
  repeat (match goal with |- context [_ <$> (?u _ ?i ≫= _)] => rewrite (field i _ eq_refl ltac:(lia)), bind_Ok end).

Ltac all_registers :=
  eexists; split; [reflexivity|]; unfold recovered; apply each_below; vm_compute;
  repeat (apply Forall_cons_2; [reflexivity|]); apply Forall_nil_2.

Lemma read_user arch f other :
  arch <> ARCH_UNKNOWN -> (forall i, in_u (word_bits arch) (f i)) -> (forall i, in_u (word_bits arch) (other i)) ->
  exists rs, RemoteGet (Some (of_words (word_bytes arch) (user_words f other arch))) None arch = Ok (Some rs) /\
    recovered arch f rs.
Proof.
  intros Ha Hf Ho. destruct arch; [done| | | |]; unfold RemoteGet; cbn [word_bytes user_words].
  - unfold Arm.Read. rewrite of_words_app, mem_read_prefix by by rewrite blen_of_words. rewrite bind_Ok.
    rewrite words_all by (done || by apply (listed_words 4)). eexists. split; [done|]. apply recovered_listed.
  - change (listed f 33) with (listed f 32 ++ [f 32]). rewrite <- app_assoc, of_words_app. unfold Arm64.Read.
    rewrite mem_read_prefix by by rewrite blen_of_words. rewrite bind_Ok.
    pose proof (word_field 8 (listed f 32 ++ [f 32] ++ listed other 1)) as HW. rewrite of_words_app in HW.
    assert (in_words 8 (listed f 32 ++ [f 32] ++ listed other 1)) as Hw by words_ok.
    pose proof (HW 32%nat (f 32) eq_refl Hw) as H32. pose proof (HW 31%nat (f 31) eq_refl Hw) as H31.
    change (Z.of_nat 8 * Z.of_nat 32) with (8 * 32) in H32. change (Z.of_nat 8 * Z.of_nat 31) with (8 * 31) in H31.
    change (Z.of_nat 8) with 8 in H31, H32. apply bind_Ok_inv in H32 as (b32 & -> & [= H32]).
    rewrite bind_Ok. apply bind_Ok_inv in H31 as (b31 & -> & [= H31]). rewrite bind_Ok, H31, H32.
    rewrite words_all by (done || words_ok). all_registers.
  - unfold X86.Read. match goal with |- context [of_words 4 ?l] => set (ws := l) end.
    assert (in_words 4 ws) as Hw by words_ok.
    read_fields (fun i v H H0 => user_field_4 ws i v H H0 Hw). all_registers.
  - unfold X86_64.Read. match goal with |- context [of_words 8 ?l] => set (ws := l) end.
    assert (in_words 8 ws) as Hw by words_ok.
    read_fields (fun i v H H0 => user_field_8 ws i v H H0 Hw). all_registers.
Qed.

Lemma read_ucontext arch f other head tail :
  arch <> ARCH_UNKNOWN -> (forall i, in_u (word_bits arch) (f i)) -> (forall i, in_u (word_bits arch) (other i)) ->
  blen head = mcontext_at arch ->
  exists rs, CreateFromUcontext arch (head ++ of_words (word_bytes arch) (mcontext_words f other arch) ++ tail) = Ok (Some rs) /\
    recovered arch f rs.
Proof.
  intros Ha Hf Ho Hh. destruct arch; [done| | | |]; unfold CreateFromUcontext; cbn [word_bytes mcontext_at] in *.
  - unfold Arm.CreateFromUcontext. rewrite mem_read_app by (rewrite ?blen_of_words; done). rewrite bind_Ok.
    rewrite words_all by (done || by apply (listed_words 4)). eexists. split; [done|]. apply recovered_listed.
  - unfold Arm64.CreateFromUcontext. rewrite mem_read_app by (rewrite ?blen_of_words; done). rewrite bind_Ok.
    rewrite words_all by (done || by apply (listed_words 8)). eexists. split; [done|]. apply recovered_listed.
  - unfold X86.CreateFromUcontext. rewrite mem_read_app by (rewrite ?blen_of_words; done). rewrite bind_Ok.
    eexists. split; [done|]. by apply x86_context.
  - unfold X86_64.CreateFromUcontext. rewrite mem_read_app by (rewrite ?blen_of_words; done). rewrite bind_Ok.
    eexists. split; [done|]. by apply x86_64_context.
Qed.

(** C31. Reading registers: for each architecture, the registers read from what ptrace returns
    for a thread and the registers read from the signal context of the same thread are both
    the registers of the thread. *)
Theorem registers_roundtrip arch f other head tail :
  arch <> ARCH_UNKNOWN -> (forall i, in_u (word_bits arch) (f i)) -> (forall i, in_u (word_bits arch) (other i)) ->
  blen head = mcontext_at arch ->
  (exists rs, RemoteGet (Some (of_words (word_bytes arch) (user_words f other arch))) None arch = Ok (Some rs) /\
     recovered arch f rs) /\
  (exists rs, CreateFromUcontext arch (head ++ of_words (word_bytes arch) (mcontext_words f other arch) ++ tail) = Ok (Some rs) /\
     recovered arch f rs).
Proof. intros. split; [by apply read_user|by apply read_ucontext]. Qed.
End RegsTheorems.

(** ** Signal frames *)

Module SignalFrames.
Import Format Regs RegsFacts KernelBlocks RegsTheorems.

Section Frames.
Variables (elf : ElfView) (process_memory : Memory) (rel_pc sp : Z) (f other : Z -> Z).

(** The code at [rel_pc] returns from a signal handler, and the kernel has stored the
    registers [f] of the interrupted code in the frame at [sp]: [siginfo_t], then
    [ucontext_t] for the real-time call; only the context for the old call of arm.  On x86
    the third argument of the handler points to the context. *)
Inductive signal_frame : ArchEnum -> Prop :=
| frame_arm_rt data siginfo head :
    read_value (elf_memory elf) rel_pc 4 = Some data -> data ∈ [0xe3a070ad; 0xef9000ad; 0xdf0027ad] ->
    blen siginfo = 0x80 -> blen head = mcontext_at ARCH_ARM -> le_val (take 4 siginfo) <> sp + 8 ->
    stored process_memory sp (siginfo ++ head ++ of_words 4 (mcontext_words f other ARCH_ARM)) ->
    signal_frame ARCH_ARM
| frame_arm_rt_old data puc siginfo head :
    read_value (elf_memory elf) rel_pc 4 = Some data -> data ∈ [0xe3a070ad; 0xef9000ad; 0xdf0027ad] ->
    blen siginfo = 0x80 -> blen head = mcontext_at ARCH_ARM -> blen puc = 4 -> sp + 8 < 2 ^ 32 ->
    stored process_memory sp (le_bytes 4 (sp + 8) ++ puc ++ siginfo ++ head ++ of_words 4 (mcontext_words f other ARCH_ARM)) ->
    signal_frame ARCH_ARM
| frame_arm_uc data head :
    read_value (elf_memory elf) rel_pc 4 = Some data -> data ∈ [0xe3a07077; 0xef900077; 0xdf002777] ->
    blen head = 0x1c ->
    stored process_memory sp (le_bytes 4 0x5ac3c35a ++ head ++ of_words 4 (mcontext_words f other ARCH_ARM)) ->
    signal_frame ARCH_ARM
| frame_arm_sc data head :
    read_value (elf_memory elf) rel_pc 4 = Some data -> data ∈ [0xe3a07077; 0xef900077; 0xdf002777] ->
    blen head = 0xc -> le_val (take 4 head) <> 0x5ac3c35a ->
    stored process_memory sp (head ++ of_words 4 (mcontext_words f other ARCH_ARM)) ->
    signal_frame ARCH_ARM
| frame_arm64 siginfo head :
    read_value (elf_memory elf) rel_pc 8 = Some 0xd4000001d2801168 ->
    blen siginfo = 0x80 -> blen head = mcontext_at ARCH_ARM64 ->
    stored process_memory sp (siginfo ++ head ++ of_words 8 (mcontext_words f other ARCH_ARM64)) ->
    signal_frame ARCH_ARM64
| frame_x86_rt last_byte args ptr head :
    in_u 8 last_byte -> read_value (elf_memory elf) rel_pc 8 = Some (0x0080cd000000adb8 + last_byte * 2 ^ 56) ->
    blen args = 8 -> in_u 32 ptr -> ptr + 96 < 2 ^ 32 -> sp + 12 < 2 ^ 32 ->
    stored process_memory sp (args ++ le_bytes 4 ptr) -> blen head = mcontext_at ARCH_X86 ->
    stored process_memory ptr (head ++ of_words 4 (mcontext_words f other ARCH_X86)) ->
    signal_frame ARCH_X86
| frame_x86_64_rt head :
    read_value (elf_memory elf) rel_pc 8 = Some 0x0f0000000fc0c748 ->
    read_value (elf_memory elf) (u64 (rel_pc + 8)) 2 = Some 0x0f05 ->
    blen head = mcontext_at ARCH_X86_64 ->
    stored process_memory sp (head ++ of_words 8 (mcontext_words f other ARCH_X86_64)) ->
    signal_frame ARCH_X86_64.
End Frames.

(** The start of a stored block, read as a value. *)
Lemma read_value_take m a bs n : stored m a bs -> 0 <= n <= blen bs -> read_value m a n = Some (le_val (take (Z.to_nat n) bs)).
Proof.
  intros Hs Hn. rewrite <- (take_drop (Z.to_nat n) bs) in Hs. apply stored_prefix in Hs. apply stored_all in Hs.
  unfold blen in Hs, Hn. rewrite length_take in Hs. replace (Z.of_nat (Z.to_nat n `min` length bs)) with n in Hs by lia.
  unfold read_value. by rewrite Hs.
Qed.

Lemma stored_at m a x y b : stored m a (x ++ y) -> b = a + blen x -> stored m b y /\ 0 <= b < 2 ^ 64.
Proof.
  intros Hs ->. apply stored_suffix in Hs. pose proof (st_start _ _ _ Hs). pose proof (st_end _ _ _ Hs).
  pose proof (blen_nonneg y). split; [done|lia].
Qed.

Lemma restored m addr w arch f rs :
  stored m addr (of_words w (listed f (kept arch))) -> (forall i, in_u (8 * Z.of_nat w) (f i)) -> length rs = kept arch ->
  exists rs', read_regs m addr w rs = (true, rs') /\ recovered arch f rs'.
Proof.
  intros Hs Hf Hl. eexists. split; [|apply recovered_listed].
  apply (read_regs_stored m addr w); [done|by apply listed_words|]. by rewrite length_listed.
Qed.

Definition total (arch : ArchEnum) : nat :=
  match arch with ARCH_ARM => 16 | ARCH_ARM64 => 33 | ARCH_X86 => 16 | ARCH_X86_64 => 17 | ARCH_UNKNOWN => 0 end.

Lemma arm_rt_offset data m sp v :
  data ∈ [0xe3a070ad; 0xef9000ad; 0xdf0027ad] -> read_value m sp 4 = Some v ->
  Arm.frame_offset data sp m = Some (if v =? sp + 8 then u64 (sp + 8 + 0x80 + 0x14 + 0xc) else u64 (sp + 0x80 + 0x14 + 0xc)).
Proof.
  intros Hin Hv. unfold Arm.frame_offset. rewrite Hv.
  repeat (apply elem_of_cons in Hin as [-> |Hin]; [done|]). by apply elem_of_nil in Hin.
Qed.

Lemma arm_offset data m sp v :
  data ∈ [0xe3a07077; 0xef900077; 0xdf002777] -> read_value m sp 4 = Some v ->
  Arm.frame_offset data sp m = Some (if v =? 0x5ac3c35a then u64 (sp + 0x14 + 0xc) else u64 (sp + 0xc)).
Proof.
  intros Hin Hv. unfold Arm.frame_offset. rewrite Hv.
  repeat (apply elem_of_cons in Hin as [-> |Hin]; [done|]). by apply elem_of_nil in Hin.
Qed.

(** The address of the registers in each frame of arm. *)
Lemma arm_frame_offset elf m rel_pc sp f other :
  signal_frame elf m rel_pc sp f other ARCH_ARM ->
  exists data offset, read_value (elf_memory elf) rel_pc 4 = Some data /\
    Arm.frame_offset data sp m = Some offset /\ offset <> 0 /\ stored m offset (of_words 4 (listed f 16)).
Proof.
  intros H. inversion H as [data siginfo head HD Hin H1 H2 Hne Hs|data puc siginfo head HD Hin H1 H2 H3 H4 Hs|
    data head HD Hin H1 Hs|data head HD Hin H1 Hne Hs| | |]; subst; exists data; cbn [mcontext_at mcontext_words] in *;
  pose proof (st_start _ _ _ Hs) as P0; pose proof (blen_of_words 4 (listed f 16)) as HB; rewrite length_listed in HB.
  - pose proof (read_value_take m sp _ 4 Hs ltac:(rewrite !blen_app; lia)) as HV.
    rewrite take_app_le in HV by (unfold blen in H1; lia). change (Z.to_nat 4) with 4%nat in HV.
    rewrite app_assoc in Hs.
    destruct (stored_at _ _ _ _ (sp + 0x80 + 0x14 + 0xc) Hs ltac:(rewrite blen_app; lia)) as [HS HR].
    exists (sp + 0x80 + 0x14 + 0xc). split_and!; [done| |lia|done]. rewrite (arm_rt_offset data m sp _ Hin HV).
    by rewrite (proj2 (Z.eqb_neq _ _) Hne), uwrap_small.
  - pose proof (read_value_stored m sp 4 (sp + 8) _ Hs ltac:(change (8 * Z.of_nat 4) with 32; lia)) as HV.
    rewrite !app_assoc in Hs.
    destruct (stored_at _ _ _ _ (sp + 8 + 0x80 + 0x14 + 0xc) Hs ltac:(rewrite !blen_app, blen_le_bytes; lia)) as [HS HR].
    exists (sp + 8 + 0x80 + 0x14 + 0xc). split_and!; [done| |lia|done]. rewrite (arm_rt_offset data m sp _ Hin HV).
    by rewrite Z.eqb_refl, uwrap_small.
  - pose proof (read_value_stored m sp 4 _ _ Hs ltac:(done)) as HV. rewrite !app_assoc in Hs.
    destruct (stored_at _ _ _ _ (sp + 0x14 + 0xc) Hs ltac:(rewrite !blen_app, blen_le_bytes; lia)) as [HS HR].
    exists (sp + 0x14 + 0xc). split_and!; [done| |lia|done]. rewrite (arm_offset data m sp _ Hin HV).
    by rewrite Z.eqb_refl, uwrap_small.
  - pose proof (read_value_take m sp _ 4 Hs ltac:(rewrite !blen_app; lia)) as HV.
    rewrite take_app_le in HV by (unfold blen in H1; lia). change (Z.to_nat 4) with 4%nat in HV.
    destruct (stored_at _ _ _ _ (sp + 0xc) Hs ltac:(lia)) as [HS HR].
    exists (sp + 0xc). split_and!; [done| |lia|done]. rewrite (arm_offset data m sp _ Hin HV).
    by rewrite (proj2 (Z.eqb_neq _ _) Hne), uwrap_small.
Qed.

(** The mask of the x86 code leaves out its last byte. *)
Lemma land_low_bytes v b : in_u 56 v -> 0 <= b -> Z.land (v + b * 2 ^ 56) 0x00ffffffffffffff = v.
Proof.
  intros Hv Hb. change 0x00ffffffffffffff with (Z.ones 56). rewrite Z.land_ones by lia.
  rewrite Z.mod_add by lia. by apply Z.mod_small.
Qed.

(** C30. Stepping over a signal frame: when the code at the pc is the return from a signal
    handler, in any of its forms, and the stack holds the frame the kernel has built, the
    registers afterwards are those of the interrupted code. *)
Theorem signal_frame_recovered arch elf process_memory rel_pc f other rs :
  signal_frame elf process_memory rel_pc (sp arch rs) f other arch ->
  (forall i, in_u (word_bits arch) (f i)) -> (forall i, in_u (word_bits arch) (other i)) -> length rs = total arch ->
  exists rs', StepIfSignalHandler arch rel_pc elf process_memory rs = (true, rs') /\ recovered arch f rs'.
Proof.
  intros H Hf Ho Hl. destruct arch; [by inversion H| | | |].
  - destruct (arm_frame_offset _ _ _ _ _ _ H) as (data & offset & HD & HF & Hn & Hs).
    cbn [StepIfSignalHandler sp] in *. unfold Arm.StepIfSignalHandler. rewrite HD, HF.
    rewrite (proj2 (Z.eqb_neq _ _) Hn). by apply (restored process_memory offset 4 ARCH_ARM).
  - inversion H as [| | | |siginfo head HD H1 H2 Hs| |]; subst. cbn [StepIfSignalHandler sp mcontext_at] in *.
    rewrite app_assoc in Hs.
    destruct (stored_at _ _ _ _ (Arm64.sp rs + 0x80 + 0xb0 + 0x08) Hs ltac:(rewrite blen_app; lia)) as [HS HR].
    unfold Arm64.StepIfSignalHandler. rewrite HD, Z.eqb_refl. cbn [negb]. rewrite uwrap_small by done.
    by apply (restored process_memory _ 8 ARCH_ARM64).
  - inversion H as [| | | | |lb args ptr head Hb HD H1 Hp Hpe Hse Hs H2 Hc|]; subst. cbn [StepIfSignalHandler sp mcontext_at] in *.
    pose proof (st_start _ _ _ Hs) as P0. pose proof (stored_at _ _ _ _ (X86.sp rs + 8) Hs ltac:(lia)) as [HS _].
    destruct (stored_at _ _ _ _ (ptr + 0x14) Hc ltac:(lia)) as [HC _].
    unfold X86.StepIfSignalHandler. rewrite HD.
    destruct (Z.eqb_spec (0x0080cd000000adb8 + lb * 2 ^ 56) 0x80cd00000077b858) as [E|]; [unfold in_u in Hb; lia|].
    rewrite land_low_bytes, Z.eqb_refl by (unfold in_u in *; lia).
    rewrite uwrap_small by (unfold in_u; lia). rewrite <- (app_nil_r (le_bytes 4 ptr)) in HS.
    change 4 with (Z.of_nat 4) at 1. rewrite (read_value_stored _ _ 4 ptr [] HS) by (unfold in_u in Hp; done).
    rewrite uwrap_small by (unfold in_u in *; lia). apply stored_all in HC. rewrite blen_of_words in HC.
    change (Z.of_nat (4 * length (mcontext_words f other ARCH_X86))) with X86.sizeof_mcontext in HC. rewrite HC.
    eexists. split; [done|]. by apply x86_context.
  - inversion H as [| | | | | |head HD HD2 H1 Hs]; subst. cbn [StepIfSignalHandler sp mcontext_at] in *.
    destruct (stored_at _ _ _ _ (X86_64.sp rs + 0x28) Hs ltac:(lia)) as [HS HR].
    unfold X86_64.StepIfSignalHandler. rewrite HD, Z.eqb_refl. cbn [negb]. rewrite HD2, Z.eqb_refl. cbn [negb].
    rewrite uwrap_small by done. apply stored_all in HS. rewrite blen_of_words in HS.
    change (Z.of_nat (8 * length (mcontext_words f other ARCH_X86_64))) with X86_64.sizeof_mcontext in HS. rewrite HS.
    eexists. split; [done|]. by apply x86_64_context.
Qed.
End SignalFrames.

(** ** Return addresses *)

Module ReturnAddresses.
Import Format Regs RegsFacts KernelBlocks RegsTheorems SignalFrames.

(** The correction of a return address is at most 4 and never reaches before the start of
    the file, except for arm code outside of a valid file, where 2 is subtracted from any pc. *)
Theorem pc_adjustment_bounds arch rel_pc elf :
  0 <= rel_pc -> 0 <= elf_load_bias elf ->
  0 <= GetPcAdjustment arch rel_pc elf <= 4 /\
  (GetPcAdjustment arch rel_pc elf <= rel_pc \/ arch = ARCH_ARM /\ elf_valid elf = false /\ rel_pc < 2).
Proof.
  intros H0 Hb. destruct arch; cbn [GetPcAdjustment]; [lia| | | |].
  - unfold Arm.GetPcAdjustment. destruct (elf_valid elf); cbn [negb]; [|destruct (Z.ltb_spec rel_pc 2); naive_solver lia].
    destruct (Z.ltb_spec rel_pc (elf_load_bias elf)); [destruct (Z.ltb_spec rel_pc 2); lia|].
    destruct (Z.ltb_spec (rel_pc - elf_load_bias elf) 5); [destruct (Z.ltb_spec (rel_pc - elf_load_bias elf) 2); lia|].
    destruct (Z.odd _); [|lia]. destruct (read_value _ _ _); [|lia]. destruct (negb _); lia.
  - unfold Arm64.GetPcAdjustment. destruct (Z.ltb_spec rel_pc 4); lia.
  - unfold X86.GetPcAdjustment. destruct (Z.eqb_spec rel_pc 0); lia.
  - unfold X86_64.GetPcAdjustment. destruct (Z.eqb_spec rel_pc 0); lia.
Qed.

(** The fallback changes the pc, and only the pc. *)
Lemma return_address_progress arch process_memory rs rs' :
  length rs = total arch -> SetPcFromReturnAddress arch process_memory rs = Some rs' ->
  pc arch rs' <> pc arch rs /\ sp arch rs' = sp arch rs /\ length rs' = total arch.
Proof.
  intros Hl H. destruct arch; [done| | | |]; cbn [SetPcFromReturnAddress pc sp total] in *.
  1,2: unfold Arm.SetPcFromReturnAddress, Arm64.SetPcFromReturnAddress in H; 
    match type of H with context [?a =? ?b] => destruct (Z.eqb_spec a b); [done|] end.
  3,4: unfold X86.SetPcFromReturnAddress, X86_64.SetPcFromReturnAddress in H; destruct (read_value _ _ _) as [v|]; [|done];
    match type of H with context [?a =? ?b] => destruct (Z.eqb_spec a b); [done|] end.
  all: injection H as <-; rewrite length_set_reg; unfold Arm.pc, Arm.sp, Arm64.pc, Arm64.sp, X86.pc, X86.sp, X86_64.pc, X86_64.sp in *.
  all: rewrite !reg_set by (rewrite ?Hl; vm_compute; intuition congruence); rewrite Z.eqb_refl.
  all: split_and!; [congruence|done|done].
Qed.
End ReturnAddresses.

(** ** Witnesses and concrete frames *)

Module RegsExamples.
Import Format Regs RegsFacts KernelBlocks RegsTheorems SignalFrames ReturnAddresses.

Definition sample_f (i : Z) : Z := if i <? 0 then 0 else if 64 <? i then 0 else 1000 + i.
Definition zero (i : Z) : Z := 0.

Lemma sample_range n i : 11 <= n -> in_u n (sample_f i).
Proof.
  intros Hn. unfold in_u. assert (2 ^ 11 <= 2 ^ n) by (apply Z.pow_le_mono_r; lia). unfold sample_f.
  destruct (Z.ltb_spec i 0); [lia|]. destruct (Z.ltb_spec 64 i); lia.
Qed.

Lemma zero_range n i : 0 <= n -> in_u n (zero i).
Proof. intros Hn. unfold in_u, zero. assert (0 < 2 ^ n) by (apply Z.pow_pos_nonneg; lia). lia. Qed.

Lemma registers_roundtrip_witness :
  (exists rs, RemoteGet (Some (of_words 8 (user_words sample_f zero ARCH_X86_64))) None ARCH_X86_64 = Ok (Some rs) /\
     recovered ARCH_X86_64 sample_f rs) /\
  (exists rs, CreateFromUcontext ARCH_X86_64 (zeros 40 ++ of_words 8 (mcontext_words sample_f zero ARCH_X86_64) ++ []) =
     Ok (Some rs) /\ recovered ARCH_X86_64 sample_f rs).
Proof.
  apply (registers_roundtrip ARCH_X86_64 sample_f zero (zeros 40) []).
  - discriminate.
  - intros i. apply sample_range. vm_compute. congruence.
  - intros i. apply zero_range. vm_compute. congruence.
  - reflexivity.
Defined.

(** The trampoline of arm64 at 0 and a frame at 64. *)
Definition trampoline : list Z := le_bytes 8 0xd4000001d2801168 ++ zeros 56.
Definition frame64 : list Z := zeros 128 ++ zeros 184 ++ of_words 8 (mcontext_words sample_f zero ARCH_ARM64).
Definition stack64 : Memory := DwarfMemory.buffer (trampoline ++ frame64).

Lemma signal_frame_recovered_witness :
  exists rs', StepIfSignalHandler ARCH_ARM64 0 (mkElf true 0 stack64) stack64 (<[31%nat := 64]> (replicate 33 0)) = (true, rs') /\
    recovered ARCH_ARM64 sample_f rs'.
Proof.
  apply (signal_frame_recovered ARCH_ARM64 (mkElf true 0 stack64) stack64 0 sample_f zero (<[31%nat := 64]> (replicate 33 0))).
  - apply (frame_arm64 _ _ _ _ _ _ (zeros 128) (zeros 184)); [vm_compute; reflexivity|reflexivity|reflexivity|].
    pose proof (stored_buffer trampoline frame64 []) as H. rewrite app_nil_r in H. apply H. vm_compute. reflexivity.
  - intros i. apply sample_range. vm_compute. congruence.
  - intros i. apply zero_range. vm_compute. congruence.
  - reflexivity.
Defined.

Lemma pc_adjustment_bounds_witness :
  0 <= GetPcAdjustment ARCH_ARM 1 (mkElf false 0 stack64) <= 4 /\
  (GetPcAdjustment ARCH_ARM 1 (mkElf false 0 stack64) <= 1 \/ ARCH_ARM = ARCH_ARM /\ false = false /\ 1 < 2).
Proof. apply (pc_adjustment_bounds ARCH_ARM 1 (mkElf false 0 stack64)); [lia|cbn; lia]. Defined.

(** The pc before the first instruction of the map. *)
Example arm_adjustment_underflows : 1 - GetPcAdjustment ARCH_ARM 1 (mkElf false 0 stack64) < 0.
Proof. vm_compute. reflexivity. Qed.

(** The frame of a handler without SA_SIGINFO on x86, at address 64. *)
Definition old_trampoline : list Z := le_bytes 8 0x80cd00000077b858 ++ zeros 56.
Definition old_frame : list Z := zeros 4 ++ of_words 4 (mcontext_words sample_f zero ARCH_X86).
Definition old_stack : Memory := DwarfMemory.buffer (old_trampoline ++ old_frame).

(** Stepping over it does not restore edi and esi, which keep the values they have in the
    handler. *)
Example old_x86_frame_loses_edi_esi :
  let r := StepIfSignalHandler ARCH_X86 0 (mkElf true 0 old_stack) old_stack (<[4%nat := 64]> (replicate 16 7)) in
  r.1 = true /\ reg r.2 X86.EIP = 1008 /\ reg r.2 X86.EDI = 7 /\ reg r.2 X86.ESI = 7.
Proof. vm_compute. repeat split. Qed.
End RegsExamples.
