(* ===== verification/UwRegsLocal.v ===== *)
(** * libunwindstack: the registers of the own thread

    Models include/unwindstack/RegsGetLocal.h and the routines AsmGetRegs of AsmGetRegsX86.S and
    AsmGetRegsX86_64.S, which store the registers of the calling thread into the vector of a [Regs].
    They are assembly code: a routine is a list of instructions, and [exec] runs the few kinds of
    instructions they have on the registers of the machine and the words of the vector.

    The vector lies at the address [data]; a store outside of it is a fault.  In the inline assembly
    of arm and arm64 the compiler chooses the register that holds the address, [base].  Changes of the
    instruction set (bx) have no effect on data. *)

From S2P Require Import Prelude UwRegs.

Record Cpu : Type := mkCpu {
  gpr : list Z;              (* the general registers, with the stack pointer *)
  vector : list Z            (* the words of [regs_] *)
}.

(** What is stored or moved: a register, an address relative to one, or a value that does not depend on
    the registers (a constant, the address of an instruction, a word of the stack). *)
Inductive operand : Type := Reg (r : nat) | Lea (r : nat) (z : Z) | Imm (z : Z).

Inductive insn : Type :=
| Store (o : operand) (base : nat) (off : Z)       (** a word *)
| Store16 (v : Z) (base : nat) (off : Z)           (** a segment register, two bytes *)
| Move (rd : nat) (o : operand).

Module GetLocal.
Section Machine.
Variable w : Z.                                     (* the bytes of a word *)
Variable data : Z.                                  (* [RawData()] *)

Definition reg_value (c : Cpu) (r : nat) : outcome Z := of_option OutOfBounds (gpr c !! r).
Definition value (c : Cpu) (o : operand) : outcome Z :=
  match o with
  | Reg r => reg_value c r
  | Lea r z => v ← reg_value c r; Ok (uwrap (8 * w) (v + z))
  | Imm z => Ok z
  end.

(** The index of a word of the vector. *)
Definition index_of (c : Cpu) (addr : Z) : outcome nat :=
  if (data <=? addr) && ((addr - data) mod w =? 0) && ((addr - data) / w <? Z.of_nat (length (vector c)))
  then Ok (Z.to_nat ((addr - data) / w)) else Fault OutOfBounds.

Definition low16 (old v : Z) : Z := old - old mod 2 ^ 16 + v mod 2 ^ 16.

Definition exec1 (i : insn) (c : Cpu) : outcome Cpu :=
  match i with
  | Store o base off =>
      v ← value c o; a ← reg_value c base; k ← index_of c (a + off);
      Ok (mkCpu (gpr c) (<[k := v]> (vector c)))
  | Store16 v base off =>
      a ← reg_value c base; k ← index_of c (a + off);
      Ok (mkCpu (gpr c) (alter (fun old => low16 old v) k (vector c)))
  | Move rd o => v ← value c o; Ok (mkCpu (<[rd := v]> (gpr c)) (vector c))
  end.

Fixpoint exec (l : list insn) (c : Cpu) : outcome Cpu :=
  match l with
  | [] => Ok c
  | i :: l => c ← exec1 i c; exec l c
  end.
End Machine.

(** stmia base, {lo-hi} *)
Definition stmia (base lo n : nat) : list insn := imap (fun k r => Store (Reg r) base (4 * Z.of_nat k)) (seq lo n).

(** arm: r0 to r15; reading r15 gives the address of the instruction and 8.  [pc] is the address of
    the first instruction behind .code 32. *)
Definition arm (base : nat) (pc : Z) : list insn :=
  stmia base 0 13 ++
  [Move base (Lea base 52); Move 1 (Reg 13); Move 2 (Reg 14); Move 3 (Imm (u32 (pc + 16 + 8)))] ++
  stmia base 1 3 ++
  [Move base (Imm (Z.lor (u32 (pc + 24 + 8)) 1))].

(** stp t1, t2, [base, #off] *)
Definition stp (t1 t2 base : nat) (off : Z) : list insn := [Store (Reg t1) base off; Store (Reg t2) base (off + 8)].

(** arm64: x0 to x30, and sp as register 31; [label] is the address of 1:. *)
Definition arm64 (base : nat) (label : Z) : list insn :=
  stp 0 1 base 0 ++ stp 2 3 base 16 ++ stp 4 5 base 32 ++ stp 6 7 base 48 ++ stp 8 9 base 64 ++ stp 10 11 base 80 ++
  stp 12 13 base 96 ++ stp 14 15 base 112 ++ stp 16 17 base 128 ++ stp 18 19 base 144 ++ stp 20 21 base 160 ++
  stp 22 23 base 176 ++ stp 24 25 base 192 ++ stp 26 27 base 208 ++ stp 28 29 base 224 ++
  [Store (Reg 30) base 240; Move 12 (Reg 31); Move 13 (Imm label)] ++ stp 12 13 base 248.

(** x86: the registers by the numbers of X86Reg (eax, ecx, edx, ebx, esp, ebp, esi, edi).  [arg] and
    [ret] are on the stack: the argument and the return address.  [seg] has cs, ss, ds, es, fs, gs. *)
Definition x86 (arg ret : Z) (seg : nat -> Z) : list insn :=
  [Move 0 (Imm arg); Store (Imm 0) 0 0; Store (Reg 1) 0 4; Store (Reg 2) 0 8; Store (Reg 3) 0 12;
   Move 1 (Lea 4 4); Store (Reg 1) 0 16;
   Store (Reg 5) 0 20; Store (Reg 6) 0 24; Store (Reg 7) 0 28;
   Move 1 (Imm ret); Store (Reg 1) 0 32;
   Store16 (seg 0%nat) 0 36; Store16 (seg 1%nat) 0 40; Store16 (seg 2%nat) 0 44; Store16 (seg 3%nat) 0 48;
   Store16 (seg 4%nat) 0 52; Store16 (seg 5%nat) 0 56].

(** x86_64: the registers by the numbers of X86_64Reg (rax, rdx, rcx, rbx, rsi, rdi, rbp, rsp, r8 to
    r15); the argument is in rdi. *)
Definition x86_64 (ret : Z) : list insn :=
  [Store (Reg 0) 5 0; Store (Reg 1) 5 8; Store (Reg 2) 5 16; Store (Reg 3) 5 24; Store (Reg 4) 5 32; Store (Reg 5) 5 40;
   Store (Reg 6) 5 48; Move 0 (Lea 7 8); Store (Reg 0) 5 56;
   Store (Reg 8) 5 64; Store (Reg 9) 5 72; Store (Reg 10) 5 80; Store (Reg 11) 5 88; Store (Reg 12) 5 96; Store (Reg 13) 5 104;
   Store (Reg 14) 5 112; Store (Reg 15) 5 120; Move 0 (Imm ret); Store (Reg 0) 5 128].

(** ** What they store *)

Section Facts.
Variables w data : Z.
Hypothesis Hw : 0 < w.

Lemma store_ok c o base z off v :
  gpr c !! base = Some (data + z) -> value w c o = Ok v ->
  (0 <=? z + off) && ((z + off) mod w =? 0) && ((z + off) / w <? Z.of_nat (length (vector c))) = true ->
  exec1 w data (Store o base off) c = Ok (mkCpu (gpr c) (<[Z.to_nat ((z + off) / w) := v]> (vector c))).
Proof.
  intros Hb Hv H. rewrite !andb_true_iff in H. destruct H as [[H1 H2] H3]. unfold exec1, reg_value, index_of. rewrite Hv, Hb. cbn [of_option]. rewrite !bind_Ok.
  replace (data + z + off - data) with (z + off) by lia. rewrite H2, H3. destruct (Z.leb_spec data (data + z + off)); [done|lia].
Qed.

Lemma store16_ok c v base z off :
  gpr c !! base = Some (data + z) ->
  (0 <=? z + off) && ((z + off) mod w =? 0) && ((z + off) / w <? Z.of_nat (length (vector c))) = true ->
  exec1 w data (Store16 v base off) c = Ok (mkCpu (gpr c) (alter (fun old => low16 old v) (Z.to_nat ((z + off) / w)) (vector c))).
Proof.
  intros Hb H. rewrite !andb_true_iff in H. destruct H as [[H1 H2] H3]. unfold exec1, reg_value, index_of. rewrite Hb. cbn [of_option]. rewrite !bind_Ok.
  replace (data + z + off - data) with (z + off) by lia. rewrite H2, H3. destruct (Z.leb_spec data (data + z + off)); [done|lia].
Qed.

Lemma store_outside c o base off a v :
  gpr c !! base = Some a -> value w c o = Ok v -> a + off < data \/ data + w * Z.of_nat (length (vector c)) <= a + off ->
  exec1 w data (Store o base off) c = Fault OutOfBounds.
Proof.
  intros Hb Hv Ha. unfold exec1, reg_value, index_of. rewrite Hv, Hb. cbn [of_option]. rewrite !bind_Ok. destruct Ha.
  - by destruct (Z.leb_spec data (a + off)); [lia|].
  - pose proof (Z.div_le_lower_bound (a + off - data) w (Z.of_nat (length (vector c))) Hw ltac:(lia)).
    by destruct (Z.ltb_spec ((a + off - data) / w) (Z.of_nat (length (vector c)))); [lia|rewrite andb_false_r].
Qed.

Lemma move_ok c rd o v : value w c o = Ok v -> exec1 w data (Move rd o) c = Ok (mkCpu (<[rd := v]> (gpr c)) (vector c)).
Proof. intros Hv. unfold exec1. by rewrite Hv, bind_Ok. Qed.
End Facts.

(** A list of known length as its elements. *)
Ltac explode l H :=
  lazymatch type of H with
  | length l = O => apply nil_length_inv in H; subst l
  | length l = S _ => destruct l as [|? l]; [discriminate H|]; cbn [length] in H; injection H as H; explode l H
  end.

(** One instruction; the base register has the address [data + z]. *)
Ltac run1 z :=
  cbn [exec];
  lazymatch goal with
  | |- context [exec1 ?w ?data (Store ?o ?b ?off) ?c] => erewrite (store_ok w data c o b z off); [|by rewrite ?Z.add_0_r|reflexivity|reflexivity]
  | |- context [exec1 ?w ?data (Store16 ?v ?b ?off) ?c] => rewrite (store16_ok w data c v b z off); [|by rewrite ?Z.add_0_r|reflexivity]
  | |- context [exec1 ?w ?data (Move ?r ?o) ?c] => erewrite (move_ok w data c r o); [|reflexivity]
  end;
  rewrite ?bind_Ok; cbn [gpr vector];
  repeat match goal with |- context [Z.to_nat ?e] => let n := eval vm_compute in (Z.to_nat e) in change (Z.to_nat e) with n end;
  cbn [insert list_insert alter list_alter].

(** x86_64: the registers as the routine returns to its caller. *)
Theorem x86_64_get_local data ret c :
  length (gpr c) = 16%nat -> length (vector c) = 17%nat -> gpr c !! 5%nat = Some data ->
  exists g', exec 8 data (x86_64 ret) c = Ok (mkCpu g' (alter (fun sp => u64 (sp + 8)) 7%nat (gpr c) ++ [ret])).
Proof.
  destruct c as [g d]. cbn [gpr vector]. intros Hg Hd Hb. explode g Hg. explode d Hd. cbn in Hb. injection Hb as ->.
  unfold x86_64. repeat run1 0. cbn [exec]. by eexists.
Qed.

(** x86: the first nine registers as the routine returns to its caller, but 0 for eax.  The segment
    registers are stored one place before their numbers: cs in the place of the flags, and so on. *)
Theorem x86_get_local data ret seg c :
  length (gpr c) = 8%nat -> length (vector c) = 16%nat ->
  exists g', exec 4 data (x86 data ret seg) c =
    Ok (mkCpu g' (<[0%nat := 0]> (alter (fun sp => u32 (sp + 4)) 4%nat (gpr c)) ++ [ret] ++
      imap (fun k old => low16 old (seg k)) (take 6 (drop 9 (vector c))) ++ drop 15 (vector c))).
Proof.
  destruct c as [g d]. cbn [gpr vector]. intros Hg Hd. explode g Hg. explode d Hd. unfold x86. repeat run1 0. cbn [exec]. by eexists.
Qed.

(** arm64: all registers, whichever of them holds the address (the compiler cannot choose x12 and x13,
    which are declared as overwritten); only x12 and x13 are overwritten. *)
Theorem arm64_get_local data base label c :
  length (gpr c) = 32%nat -> length (vector c) = 33%nat -> gpr c !! base = Some data -> (base < 31)%nat -> base <> 12%nat -> base <> 13%nat ->
  exec 8 data (arm64 base label) c = Ok (mkCpu (<[13%nat := label]> (<[12%nat := default 0 (gpr c !! 31%nat)]> (gpr c))) (gpr c ++ [label])).
Proof.
  destruct c as [g d]. cbn [gpr vector]. intros Hg Hd Hb Hle H12 H13.
  explode g Hg. explode d Hd. unfold arm64, stp. cbn [app Z.add]. do 31 run1 0. do 2 (cbn [exec]; erewrite move_ok; [rewrite bind_Ok|reflexivity]).
  match type of Hb with ?l !! _ = _ => assert (<[13%nat := label]> (<[12%nat := default 0 (l !! 31%nat)]> l) !! base = Some data) as Hb'
    by (rewrite !list_lookup_insert_ne by lia; done) end.
  clear Hb. rename Hb' into Hb. do 2 run1 0. done.
Qed.

Ltac list_stmia := repeat match goal with |- context [stmia ?b ?lo ?n] => let l := eval cbv in (stmia b lo n) in change (stmia b lo n) with l end.

(** arm: all registers, the pc as the address of an instruction of the routine.  This needs an address
    in another register than r1, r2 and r3, which the routine overwrites without saying so. *)
Theorem arm_get_local data base pc c :
  length (gpr c) = 16%nat -> length (vector c) = 16%nat -> gpr c !! base = Some data -> (base <= 12)%nat -> (base < 1 \/ 3 < base)%nat ->
  0 <= data -> data + 64 <= 2 ^ 32 ->
  exists g', exec 4 data (arm base pc) c = Ok (mkCpu g' (take 15 (gpr c) ++ [u32 (pc + 24)])) /\
    take 3 (drop 1 g') = [default 0 (gpr c !! 13%nat); default 0 (gpr c !! 14%nat); u32 (pc + 24)].
Proof.
  destruct c as [g d]. cbn [gpr vector]. intros Hg Hd Hb Hle Hne H0 H1.
  assert (uwrap (8 * 4) (data + 52) = data + 52) as HU by (apply uwrap_small; unfold in_u; lia).
  assert (pc + 16 + 8 = pc + 24) as HE by lia.
  explode g Hg. explode d Hd. unfold arm. list_stmia. cbn [app]. rewrite HE.
  do 13 (destruct base as [|base];
    [try lia; cbn in Hb; injection Hb as ->; do 14 run1 0; rewrite HU; do 3 run1 0; do 3 run1 52; run1 0; cbn [exec]; eexists; by split|]). lia.
Qed.

(** With the address in one of them, the second half of the routine stores elsewhere. *)
Theorem arm_base_overwritten data base pc c sp lr :
  length (gpr c) = 16%nat -> length (vector c) = 16%nat -> gpr c !! base = Some data -> (1 <= base <= 3)%nat ->
  gpr c !! 13%nat = Some sp -> gpr c !! 14%nat = Some lr -> 0 <= data -> data + 64 <= 2 ^ 32 ->
  Forall (fun a => a < data \/ data + 64 <= a) [sp; lr; u32 (pc + 24)] -> exec 4 data (arm base pc) c = Fault OutOfBounds.
Proof.
  destruct c as [g d]. cbn [gpr vector]. intros Hg Hd Hb Hr Hsp Hlr H0 H1 HF.
  assert (pc + 16 + 8 = pc + 24) as HE by lia.
  apply Forall_cons in HF as [F1 [F2 [F3 _]%Forall_cons]%Forall_cons].
  explode g Hg. explode d Hd. unfold arm. list_stmia. cbn [app]. rewrite HE. cbn in Hsp, Hlr. injection Hsp as ->. injection Hlr as ->.
  destruct base as [|[|[|[|]]]]; try lia; cbn in Hb; injection Hb as ->.
  all: do 17 run1 0; cbn [exec]; erewrite store_outside; [done|lia|reflexivity|reflexivity|cbn [length vector]; lia].
Qed.

(** ** A new object and its registers *)

(** The targets the code can be compiled for; [None] for any other. *)
Inductive Target : Type := Target_arm | Target_aarch64 | Target_i386 | Target_x86_64.

Definition arch_of (t : Target) : ArchEnum :=
  match t with
  | Target_arm => ARCH_ARM
  | Target_aarch64 => ARCH_ARM64
  | Target_i386 => ARCH_X86
  | Target_x86_64 => ARCH_X86_64
  end.

Definition CurrentArch (t : option Target) : outcome ArchEnum := t ← of_option Aborted t; Ok (arch_of t).

Inductive LocationEnum : Type := LOCATION_UNKNOWN | LOCATION_REGISTER | LOCATION_SP_OFFSET.
Record Location : Type := mkLocation { loc_type : LocationEnum; loc_value : Z }.

(** What the constructors set: the members of [Regs] and of [RegsImpl]. *)
Record Object : Type := mkObject { arch : ArchEnum; return_loc_ : Location; regs_ : list Z }.
Definition new_RegsArm : Object := mkObject ARCH_ARM (mkLocation LOCATION_REGISTER Arm.REG_LR) (replicate Arm.REG_LAST 0).
Definition new_RegsArm64 : Object := mkObject ARCH_ARM64 (mkLocation LOCATION_REGISTER Arm64.REG_LR) (replicate Arm64.REG_LAST 0).
Definition new_RegsX86 : Object := mkObject ARCH_X86 (mkLocation LOCATION_SP_OFFSET (-4)) (replicate X86.REG_LAST 0).
Definition new_RegsX86_64 : Object := mkObject ARCH_X86_64 (mkLocation LOCATION_SP_OFFSET (-8)) (replicate X86_64.REG_LAST 0).

Definition CreateFromLocal (t : option Target) : outcome Object :=
  t ← of_option Aborted t;
  Ok match t with
     | Target_arm => new_RegsArm
     | Target_aarch64 => new_RegsArm64
     | Target_i386 => new_RegsX86
     | Target_x86_64 => new_RegsX86_64
     end.

(** Where the code is: the register that holds the address of the vector, the address of the
    instructions, and for the routines of x86 their return address and the segment registers. *)
Record Site : Type := mkSite { s_base : nat; s_pc : Z; s_ret : Z; s_seg : nat -> Z }.

(** [RegsGetLocal(regs)] on a thread with the registers [g]; the registers of the thread are not
    returned. *)
Definition RegsGetLocal (t : Target) (data : Z) (x : Site) (g : list Z) (o : Object) : outcome Object :=
  c ← match t with
      | Target_arm => exec 4 data (arm (s_base x) (s_pc x)) (mkCpu g (regs_ o))
      | Target_aarch64 => exec 8 data (arm64 (s_base x) (s_pc x)) (mkCpu g (regs_ o))
      | Target_i386 => exec 4 data (x86 data (s_ret x) (s_seg x)) (mkCpu g (regs_ o))
      | Target_x86_64 => exec 8 data (x86_64 (s_ret x)) (mkCpu g (regs_ o))
      end;
  Ok (mkObject (arch o) (return_loc_ o) (vector c)).

(** A thread that calls it: its registers, and the register that holds the address. *)
Definition caller_ok (t : Target) (data : Z) (x : Site) (g : list Z) : Prop :=
  match t with
  | Target_arm => length g = 16%nat /\ g !! s_base x = Some data /\ (s_base x <= 12)%nat /\ (s_base x < 1 \/ 3 < s_base x)%nat /\
      0 <= data /\ data + 64 <= 2 ^ 32
  | Target_aarch64 => length g = 32%nat /\ g !! s_base x = Some data /\ (s_base x < 31)%nat /\ s_base x <> 12%nat /\ s_base x <> 13%nat
  | Target_i386 => length g = 8%nat
  | Target_x86_64 => length g = 16%nat /\ g !! 5%nat = Some data
  end.

(** The pc and the stack pointer that are stored: of the inlined instructions, or of the caller of the
    routine. *)
Definition local_pc (t : Target) (x : Site) : Z :=
  match t with Target_arm => u32 (s_pc x + 24) | Target_aarch64 => s_pc x | Target_i386 | Target_x86_64 => s_ret x end.
Definition local_sp (t : Target) (g : list Z) : Z :=
  match t with
  | Target_arm => default 0 (g !! 13%nat)
  | Target_aarch64 => default 0 (g !! 31%nat)
  | Target_i386 => u32 (default 0 (g !! 4%nat) + 4)
  | Target_x86_64 => u64 (default 0 (g !! 7%nat) + 8)
  end.

(** The registers of the own thread: a new object gets the pc and the stack pointer from which the
    thread can be unwound, on every target. *)
Theorem local_registers t data x g :
  caller_ok t data x g ->
  exists o o', CreateFromLocal (Some t) = Ok o /\ RegsGetLocal t data x g o = Ok o' /\ arch o' = arch_of t /\
    Regs.pc (arch o') (regs_ o') = local_pc t x /\ Regs.sp (arch o') (regs_ o') = local_sp t g.
Proof.
  destruct t; cbn [caller_ok].
  - intros (Hg & Hb & H1 & H2 & H3 & H4). exists new_RegsArm.
    destruct (arm_get_local data (s_base x) (s_pc x) (mkCpu g (regs_ new_RegsArm)) Hg eq_refl Hb H1 H2 H3 H4) as (g' & HE & _).
    unfold RegsGetLocal. rewrite HE, bind_Ok. explode g Hg. by eexists.
  - intros (Hg & Hb & H1 & H2 & H3). exists new_RegsArm64.
    pose proof (arm64_get_local data (s_base x) (s_pc x) (mkCpu g (regs_ new_RegsArm64)) Hg eq_refl Hb H1 H2 H3) as HE.
    unfold RegsGetLocal. rewrite HE, bind_Ok. explode g Hg. by eexists.
  - intros Hg. exists new_RegsX86. destruct (x86_get_local data (s_ret x) (s_seg x) (mkCpu g (regs_ new_RegsX86)) Hg eq_refl) as (g' & HE).
    unfold RegsGetLocal. rewrite HE, bind_Ok. explode g Hg. by eexists.
  - intros (Hg & Hb). exists new_RegsX86_64. destruct (x86_64_get_local data (s_ret x) (mkCpu g (regs_ new_RegsX86_64)) Hg eq_refl Hb) as (g' & HE).
    unfold RegsGetLocal. rewrite HE, bind_Ok. explode g Hg. by eexists.
Qed.

(** x86, with the registers 101 to 108 and the selectors 1 to 6: the place of the flags gets cs and that
    of gs nothing. *)
Example x86_selectors :
  (c ← exec 4 4096 (x86 4096 7 (fun k => Z.of_nat k + 1)) (mkCpu [101; 102; 103; 104; 105; 106; 107; 108] (replicate 16 0)); Ok (vector c)) =
  Ok [0; 102; 103; 104; 109; 106; 107; 108; 7; 1; 2; 3; 4; 5; 6; 0].
Proof. vm_compute. reflexivity. Qed.
End GetLocal.
