(* ===== verification/UwArmExidx.v ===== *)
(** * libunwindstack: ARM exception index tables

    Models external/libunwindstack-ndk/ArmExidx.{h,cpp}: extracting the unwind
    instructions of a table entry and executing them on the registers of a 32-bit
    ARM process, or, with [log_] and [log_skip_execution_], only printing them.

    [Eval] loops over [Decode]; every successful [Decode] consumes an instruction
    byte, so the number of bytes bounds the loop (theorem [exidx_eval_terminates]). *)

From S2P Require Import Prelude HawkPrivate HawkDumper UwDwarfMemory UwDwarfOp UwDwarfCfa UwDwarfEval UwDwarfSection UwDwarfLog.

Inductive ArmStatus : Type :=
| ARM_STATUS_NONE
| ARM_STATUS_NO_UNWIND
| ARM_STATUS_FINISH
| ARM_STATUS_RESERVED
| ARM_STATUS_SPARE
| ARM_STATUS_TRUNCATED
| ARM_STATUS_READ_FAILED
| ARM_STATUS_MALFORMED
| ARM_STATUS_INVALID_ALIGNMENT
| ARM_STATUS_INVALID_PERSONALITY.

#[global] Instance ArmStatus_eq_dec : EqDecision ArmStatus.
Proof. solve_decision. Defined.

Definition ARM_OP_FINISH : Z := 176.
Definition ARM_REG_SP : Z := 13.
Definition ARM_REG_R14 : Z := 14.
Definition ARM_REG_PC : Z := 15.

(** [Memory::Read32] *)
Definition Read32 (m : Memory) (addr : Z) : option Z := le_val <$> ReadFully m addr 4.

Module ArmExidx.
Record t : Type := mk {
  regs : list Z;
  cfa : Z;
  data : list Z;
  status : ArmStatus;
  status_address : Z;
  pc_set : bool;
  log_ : bool;
  log_indent : Z;
  log_skip_execution : bool;
  logged : list (list Z)      (* the lines passed to [log] so far *)
}.

(** The constructor, with the registers it is given. *)
Definition new (rs : list Z) : t := mk rs 0 [] ARM_STATUS_NONE 0 false false 0 false [].

Definition with_log (l : bool) (i : Z) (skip : bool) (o : list (list Z)) (s : t) : t :=
  mk (regs s) (cfa s) (data s) (status s) (status_address s) (pc_set s) l i skip o.
Definition with_state (r : list Z) (c : Z) (d : list Z) (st : ArmStatus) (a : Z) (p : bool) (s : t) : t :=
  mk r c d st a p (log_ s) (log_indent s) (log_skip_execution s) (logged s).

Definition set_regs (r : list Z) (s : t) : t := with_state r (cfa s) (data s) (status s) (status_address s) (pc_set s) s.
Definition set_cfa (c : Z) (s : t) : t := with_state (regs s) c (data s) (status s) (status_address s) (pc_set s) s.
Definition set_data (d : list Z) (s : t) : t := with_state (regs s) (cfa s) d (status s) (status_address s) (pc_set s) s.
Definition set_status (st : ArmStatus) (s : t) : t := with_state (regs s) (cfa s) (data s) st (status_address s) (pc_set s) s.
Definition set_pc_set (b : bool) (s : t) : t := with_state (regs s) (cfa s) (data s) (status s) (status_address s) b s.
Definition set_log (l : bool) (s : t) : t := with_log l (log_indent s) (log_skip_execution s) (logged s) s.
Definition set_log_skip_execution (b : bool) (s : t) : t := with_log (log_ s) (log_indent s) b (logged s) s.
Definition set_log_indent (i : Z) (s : t) : t := with_log (log_ s) i (log_skip_execution s) (logged s) s.

(** [if (log_) { log(log_indent_, msg); }] *)
Definition say (msg : list Z) (s : t) : t :=
  if log_ s then with_log (log_ s) (log_indent s) (log_skip_execution s) (logged s ++ [DwarfLog.log (log_indent s) msg]) s
  else s.

Definition result : Type := outcome (bool * t).
Definition succeed (s : t) : result := Ok (true, s).
Definition stop (st : ArmStatus) (s : t) : result := Ok (false, set_status st s).
Definition read_failed (a : Z) (s : t) : result :=
  Ok (false, with_state (regs s) (cfa s) (data s) ARM_STATUS_READ_FAILED a (pc_set s) s).

(** [CHECK(b)] aborts the process. *)
Definition CHECK (b : bool) (k : result) : result := if b then k else Fault CheckFailed.

Definition byte_at (w shift : Z) : Z := Z.land (Z.shiftr w shift) 255.
Definition push_back (bs : list Z) (s : t) : t := set_data (data s ++ bs) s.

(** [if (log_) { ...; if (log_skip_execution_) { return true; } }]: what follows the message. *)
Definition unless_skipped (s : t) (k : result) : result := if log_ s && log_skip_execution s then succeed s else k.

Definition LogRawData (s : t) : t := say (str "Raw Data:" ++ concat (DwarfLog.raw_byte <$> data s)) s.

(** ** Extraction *)

Section Extract.
Variable elf_memory : Memory.

(** If the data does not end with a finish operation, add one. *)
Definition finish_data (s : t) : outcome t :=
  match last (data s) with
  | None => Fault OutOfBounds
  | Some b => Ok (if negb (b =? ARM_OP_FINISH) then push_back [ARM_OP_FINISH] s else s)
  end.

(** The loop over the table words. *)
Fixpoint table_words (n : nat) (addr : Z) (s : t) : result :=
  match n with
  | O => succeed s
  | S n =>
      match Read32 elf_memory addr with
      | None => read_failed addr s
      | Some w =>
          table_words n (u32 (addr + 4))
            (push_back [byte_at w 24; byte_at w 16; byte_at w 8; byte_at w 0] s)
      end
  end.

(** The part after [num_table_words] is known. *)
Definition extract_words (num_table_words addr : Z) (s : t) : result :=
  if 5 <? num_table_words then stop ARM_STATUS_MALFORMED s
  else
    r ← table_words (Z.to_nat num_table_words) addr s;
    if negb r.1 then Ok r else s ← finish_data r.2; succeed (LogRawData s).

(** The entry at the prel31 address [addr]. *)
Definition extract_table (addr : Z) (s : t) : result :=
  match Read32 elf_memory addr with
  | None => read_failed addr s
  | Some w =>
      if Z.testbit w 31 then
        let p := Z.land (Z.shiftr w 24) 15 in
        if p =? 0 then
          extract_words 0 addr (push_back [byte_at w 16; byte_at w 8; byte_at w 0] s)
        else if (p =? 1) || (p =? 2) then
          extract_words (byte_at w 16) (u32 (addr + 4)) (push_back [byte_at w 8; byte_at w 0] s)
        else stop ARM_STATUS_INVALID_PERSONALITY s
      else
        let addr := u32 (addr + 4) in
        match Read32 elf_memory addr with
        | None => read_failed addr s
        | Some w =>
            extract_words (byte_at w 24) (u32 (addr + 4))
              (push_back [byte_at w 16; byte_at w 8; byte_at w 0] s)
        end
  end.

Definition ExtractEntryData (entry_offset : Z) (s : t) : result :=
  let s := set_status ARM_STATUS_NONE (set_data [] s) in
  if Z.testbit entry_offset 0 then stop ARM_STATUS_INVALID_ALIGNMENT s
  else
    match Read32 elf_memory (u32 (entry_offset + 4)) with
    | None => read_failed (u32 (entry_offset + 4)) s
    | Some w =>
        if w =? 1 then
          Ok (false, say (str "[cantunwind]") (say (str "Raw Data: 0x00 0x00 0x00 0x01") (set_status ARM_STATUS_NO_UNWIND s)))
        else if Z.testbit w 31 then
          if negb (Z.land (Z.shiftr w 24) 15 =? 0) then stop ARM_STATUS_INVALID_PERSONALITY s
          else
            s ← finish_data (push_back [byte_at w 16; byte_at w 8; byte_at w 0] s);
            succeed (LogRawData s)
        else
          let signed_data := Z.shiftr (swrap 32 (Z.shiftl w 1)) 1 in
          extract_table (u32 (entry_offset + 4 + signed_data)) s
    end.
End Extract.

(** ** Execution *)

Section Execute.
Variable process_memory : Memory.

(** [GetByte]: [None] when the data is used up. *)
Definition GetByte (s : t) (k : Z -> t -> result) : result :=
  match data s with
  | [] => stop ARM_STATUS_TRUNCATED s
  | b :: d => k b (set_data d s)
  end.

(** Pop the registers of a list, in order. *)
Fixpoint pop (rs : list Z) (s : t) : result :=
  match rs with
  | [] => succeed s
  | reg :: rs =>
      match Read32 process_memory (cfa s) with
      | None => read_failed (cfa s) s
      | Some v =>
          if (Z.to_nat reg <? length (regs s))%nat
          then pop rs (set_cfa (u32 (cfa s + 4)) (set_regs (<[Z.to_nat reg := v]> (regs s)) s))
          else Fault OutOfBounds
      end
  end.

(** The registers from [lo] on, below [lo + n], whose bit is set in [mask]. *)
Definition masked (mask : Z) (lo : Z) (n : nat) : list Z :=
  filter (fun r => Z.testbit mask r = true) (map (fun i => lo + Z.of_nat i) (seq 0 n)).

Definition reg_at (s : t) (r : Z) : outcome Z := of_option OutOfBounds (regs s !! Z.to_nat r).

Definition add_cfa (n : Z) (s : t) : result := succeed (set_cfa (u32 (cfa s + n)) s).

(** The names of popped registers, with a comma before each but the first. *)
Fixpoint pop_list (name : string) (rs : list Z) (add_comma : bool) : list Z :=
  match rs with
  | [] => []
  | r :: rs => (if add_comma then str ", " else []) ++ str name ++ dec r ++ pop_list name rs true
  end.

(** "pop {" and a range of registers that ends at [last] when [some] holds. *)
Definition pop_range (name : string) (first : Z) (some : bool) (last : Z) : list Z :=
  str "pop {" ++ str name ++ dec first ++ (if some then str "-" ++ str name ++ dec last else []).

Definition DecodePrefix_10_00 (byte : Z) (s : t) : result :=
  CHECK (Z.shiftr byte 4 =? 8)
    (GetByte s (fun byte2 s =>
       let registers := Z.lor (Z.shiftl (Z.land byte 15) 8) byte2 in
       if registers =? 0 then stop ARM_STATUS_NO_UNWIND (say (str "Refuse to unwind") s)
       else
         let s := say (str "pop {" ++ pop_list "r" ((fun i => i + 4) <$> masked registers 0 12) false ++ str "}") s in
         unless_skipped s
           (let registers := u16 (Z.shiftl registers 4) in
            r ← pop (masked registers 4 12) s;
            if negb r.1 then Ok r
            else
              s ← (if Z.testbit registers ARM_REG_SP
                   then sp ← reg_at r.2 ARM_REG_SP; Ok (set_cfa sp r.2) else Ok r.2);
              succeed (if Z.testbit registers ARM_REG_PC then set_pc_set true s else s)))).

Definition DecodePrefix_10_01 (byte : Z) (s : t) : result :=
  CHECK (Z.shiftr byte 4 =? 9)
    (let bits := Z.land byte 15 in
     if (bits =? 13) || (bits =? 15) then stop ARM_STATUS_RESERVED (say (str "[Reserved]") s)
     else
       let s := say (str "vsp = r" ++ dec bits) s in
       unless_skipped s (v ← reg_at s bits; succeed (set_cfa v s))).

Definition DecodePrefix_10_10 (byte : Z) (s : t) : result :=
  CHECK (Z.shiftr byte 4 =? 10)
    (let end_reg := Z.land byte 7 in
     let s := say (pop_range "r" 4 (negb (end_reg =? 0)) (4 + end_reg) ++
                   (if Z.testbit byte 3 then str ", r14}" else str "}")) s in
     unless_skipped s
       (pop (map (fun i => 4 + Z.of_nat i) (seq 0 (S (Z.to_nat end_reg)))
             ++ (if Z.testbit byte 3 then [ARM_REG_R14] else [])) s)).

Definition DecodePrefix_10_11_0000 (s : t) : result := stop ARM_STATUS_FINISH (say (str "finish") s).

Definition spare (s : t) : result := stop ARM_STATUS_SPARE (say (str "Spare") s).

Definition DecodePrefix_10_11_0001 (s : t) : result :=
  GetByte s (fun byte s =>
    if byte =? 0 then spare s
    else if negb (Z.shiftr byte 4 =? 0) then spare s
    else
      let s := say (str "pop {" ++ pop_list "r" (masked byte 0 4) false ++ str "}") s in
      unless_skipped s (pop (masked byte 0 4) s)).

(** The ULEB128 loop over what is left of the data; [int] shifts. *)
Fixpoint uleb_loop (d : list Z) (res shift : Z) (s : t) : outcome (option Z * t) :=
  match d with
  | [] => Ok (None, set_status ARM_STATUS_TRUNCATED (set_data [] s))
  | byte :: d =>
      if 32 <=? shift then Fault BadShift
      else
        let v := Z.shiftl (Z.land byte 127) shift in
        if 2 ^ 32 <=? v then Fault SignedOverflow
        else
          let res := Z.lor res v in
          if Z.testbit byte 7 then uleb_loop d res (shift + 7) s
          else Ok (Some res, set_data d s)
  end.

Definition DecodePrefix_10_11_0010 (s : t) : result :=
  r ← uleb_loop (data s) 0 0 s;
  match r.1 with
  | None => Ok (false, r.2)
  | Some res =>
      let n := u32 (516 + u32 (Z.shiftl res 2)) in
      let s := say (str "vsp = vsp + " ++ dec (swrap 32 n)) r.2 in
      unless_skipped s (add_cfa n s)
  end.

Definition DecodePrefix_10_11_0011 (s : t) : result :=
  GetByte s (fun byte s =>
    let start_reg := Z.shiftr byte 4 in
    let end_reg := start_reg + Z.land byte 15 in
    let s := say (pop_range "d" start_reg (negb (end_reg =? 0)) end_reg ++ str "}") s in
    unless_skipped s (add_cfa (Z.land byte 15 * 8 + 12) s)).

Definition DecodePrefix_10_11_01nn (s : t) : result := spare s.

Definition DecodePrefix_10_11_1nnn (byte : Z) (s : t) : result :=
  CHECK (Z.land byte 248 =? 184)
    (let last_reg := Z.land byte 7 in
     let s := say (pop_range "d" 8 (negb (last_reg =? 0)) (last_reg + 8) ++ str "}") s in
     unless_skipped s (add_cfa (Z.land byte 7 * 8 + 12) s)).

Definition DecodePrefix_10 (byte : Z) (s : t) : result :=
  CHECK (Z.shiftr byte 6 =? 2)
    (let k := Z.land (Z.shiftr byte 4) 3 in
     if k =? 0 then DecodePrefix_10_00 byte s
     else if k =? 1 then DecodePrefix_10_01 byte s
     else if k =? 2 then DecodePrefix_10_10 byte s
     else
       let l := Z.land byte 15 in
       if l =? 0 then DecodePrefix_10_11_0000 s
       else if l =? 1 then DecodePrefix_10_11_0001 s
       else if l =? 2 then DecodePrefix_10_11_0010 s
       else if l =? 3 then DecodePrefix_10_11_0011 s
       else if Z.testbit byte 3 then DecodePrefix_10_11_1nnn byte s
       else DecodePrefix_10_11_01nn s).

Definition popcount (b : Z) : Z := Z.of_nat (length (masked b 0 8)).

(** Only the cfa changes: the message, and unless it is skipped, [n] added to the cfa. *)
Definition pop_vector (name : string) (first last : Z) (n : Z) (s : t) : result :=
  let s := say (pop_range name first (negb (last =? 0)) (first + last) ++ str "}") s in
  unless_skipped s (add_cfa n s).

Definition DecodePrefix_11_000 (byte : Z) (s : t) : result :=
  CHECK (Z.land byte 248 =? 192)
    (let bits := Z.land byte 7 in
     if bits =? 6 then
       GetByte s (fun byte s => pop_vector "wR" (Z.shiftr byte 4) (Z.land byte 15) (Z.land byte 15 * 8 + 8) s)
     else if bits =? 7 then
       GetByte s (fun byte s =>
         if byte =? 0 then spare s
         else if Z.shiftr byte 4 =? 0 then
           (* the execution is not skipped here *)
           add_cfa (popcount byte * 4) (say (str "pop {" ++ pop_list "wCGR" (masked byte 0 4) false ++ str "}") s)
         else spare s)
     else pop_vector "wR" 10 (Z.land byte 7) (Z.land byte 7 * 8 + 8) s).

Definition DecodePrefix_11_001 (byte : Z) (s : t) : result :=
  CHECK (Z.land byte 248 =? 200)
    (let bits := Z.land byte 7 in
     if bits =? 0 then
       GetByte s (fun byte s => pop_vector "d" (16 + Z.shiftr byte 4) (Z.land byte 15) (Z.land byte 15 * 8 + 8) s)
     else if bits =? 1 then
       GetByte s (fun byte s => pop_vector "d" (Z.shiftr byte 4) (Z.land byte 15) (Z.land byte 15 * 8 + 8) s)
     else spare s).

Definition DecodePrefix_11_010 (byte : Z) (s : t) : result :=
  CHECK (Z.land byte 248 =? 208) (pop_vector "d" 8 (Z.land byte 7) (Z.land byte 7 * 8 + 8) s).

Definition DecodePrefix_11 (byte : Z) (s : t) : result :=
  CHECK (Z.shiftr byte 6 =? 3)
    (let k := Z.land (Z.shiftr byte 3) 7 in
     if k =? 0 then DecodePrefix_11_000 byte s
     else if k =? 1 then DecodePrefix_11_001 byte s
     else if k =? 2 then DecodePrefix_11_010 byte s
     else spare s).

Definition Decode (s : t) : result :=
  GetByte (set_status ARM_STATUS_NONE s) (fun byte s =>
    let k := Z.shiftr byte 6 in
    let n := Z.shiftl (Z.land byte 63) 2 + 4 in
    if k =? 0 then let s := say (str "vsp = vsp + " ++ dec n) s in unless_skipped s (add_cfa n s)
    else if k =? 1 then
      let s := say (str "vsp = vsp - " ++ dec n) s in
      unless_skipped s (succeed (set_cfa (u32 (cfa s - n)) s))
    else if k =? 2 then DecodePrefix_10 byte s
    else DecodePrefix_11 byte s).

(** [while (Decode());] with fuel; [None]: out of fuel. *)
Fixpoint decode_loop (fuel : nat) (s : t) : outcome (option t) :=
  match fuel with
  | O => Ok None
  | S fuel => r ← Decode s; if r.1 : bool then decode_loop fuel r.2 else Ok (Some r.2)
  end.

(** [Eval] *)
Definition Eval (s : t) : outcome (option (bool * t)) :=
  r ← decode_loop (S (length (data s))) (set_pc_set false s);
  Ok (match r with
      | None => None
      | Some s => Some (bool_decide (status s = ARM_STATUS_FINISH), s)
      end).
End Execute.

(** ** Safety and termination of execution *)

(** The well-formed states: sixteen registers, instruction bytes. *)
Definition wf (s : t) : Prop := length (regs s) = 16%nat /\ bytes_ok (data s).

(** A result that is well-formed with at most [n] bytes left, or undefined only through
    the shifts of the ULEB128 loop. *)
Definition good (n : nat) (r : result) : Prop :=
  match r with
  | Ok (_, s) => wf s /\ (length (data s) <= n)%nat
  | Fault f => f = BadShift \/ f = SignedOverflow
  end.

(** A property of bytes, checked on all of them. *)
Lemma all_bytes (P : Z -> bool) b :
  forallb P (map Z.of_nat (seq 0 256)) = true -> is_byte b -> P b = true.
Proof.
  intros HP Hb. rewrite List.forallb_forall in HP. apply HP. apply in_map_iff.
  exists (Z.to_nat b). unfold is_byte in Hb. split; [lia|]. apply in_seq. lia.
Qed.

(** A message changes nothing but what was logged. *)
Lemma say_state m s : exists o, say m s = with_log (log_ s) (log_indent s) (log_skip_execution s) o s.
Proof. unfold say. destruct s as [????? ? [] ???]; by eexists. Qed.

Lemma say_data m s : data (say m s) = data s.
Proof. by destruct (say_state m s) as [o ->]. Qed.

Lemma say_status m s : status (say m s) = status s.
Proof. by destruct (say_state m s) as [o ->]. Qed.

Lemma say_wf m s : wf s -> wf (say m s).
Proof. by destruct (say_state m s) as [o ->]. Qed.

Section Safety.
Variable process_memory : Memory.

Lemma good_Ok n b s : wf s -> (length (data s) <= n)%nat -> good n (Ok (b, s)).
Proof. done. Qed.

Lemma good_GetByte s k :
  wf s ->
  (forall b s', is_byte b -> wf s' -> length (data s) = S (length (data s')) ->
                good (length (data s')) (k b s')) ->
  good (length (data s) - 1) (GetByte s k).
Proof.
  intros [H1 H2] Hk. unfold GetByte. destruct (data s) as [|b d] eqn:E.
  - apply good_Ok; [by split; cbn; rewrite ?E|cbn; rewrite E; cbn; lia].
  - apply Forall_cons in H2 as [Hb Hd]. cbn [length]. rewrite Nat.sub_1_r. cbn [Nat.pred].
    apply (Hk b (set_data d s)); [done|by split|done].
Qed.

Lemma good_mono n n' r : (n <= n')%nat -> good n r -> good n' r.
Proof. intros Hn. destruct r as [[b s]|f]; cbn; [intros [? ?]; split; [done|lia]|done]. Qed.

Lemma good_GetByte_le n s k :
  wf s -> (length (data s) <= n)%nat ->
  (forall b s', is_byte b -> wf s' -> (length (data s') <= n)%nat -> good n (k b s')) ->
  good n (GetByte s k).
Proof.
  intros Hw Hn Hk. unfold GetByte. destruct (data s) as [|b d] eqn:E.
  - apply good_Ok; [exact Hw|cbn; rewrite E; cbn; lia].
  - destruct Hw as [H1 H2]. rewrite E in H2. apply Forall_cons in H2 as [Hb Hd].
    apply Hk; [done|by split|cbn in *; lia].
Qed.

Lemma good_pop rs n s :
  Forall (fun r => 0 <= r < 16) rs -> wf s -> (length (data s) <= n)%nat ->
  good n (pop process_memory rs s).
Proof.
  intros Hrs. revert s. induction Hrs as [|r rs Hr _ IH]; intros s Hw Hn; cbn [pop]; [by apply good_Ok|].
  destruct (Read32 process_memory (cfa s)); [|by apply good_Ok].
  pose proof Hw as [H1 H2]. destruct (Nat.ltb_spec (Z.to_nat r) (length (regs s))); [|lia].
  apply IH; [|done]. split; [cbn; by rewrite length_insert|done].
Qed.

Lemma masked_range mask lo n :
  0 <= lo -> lo + Z.of_nat n <= 16 -> Forall (fun r => 0 <= r < 16) (masked mask lo n).
Proof.
  intros Hl Hn. apply Forall_forall. intros r Hr. unfold masked in Hr.
  apply list_elem_of_filter in Hr as [_ Hr]. apply list_elem_of_fmap in Hr as (i & -> & Hi).
  apply elem_of_seq in Hi. lia.
Qed.

Lemma good_uleb d res shift n s :
  wf s -> bytes_ok d -> (length d <= n)%nat ->
  match uleb_loop d res shift s with
  | Ok (_, s') => wf s' /\ (length (data s') <= n)%nat
  | Fault f => f = BadShift \/ f = SignedOverflow
  end.
Proof.
  intros Hw. revert res shift n. induction d as [|b d IH]; intros res shift n Hd Hn; cbn [uleb_loop].
  { split; [by destruct Hw; split; [|constructor]|cbn; lia]. }
  apply Forall_cons in Hd as [Hb Hd]. cbn [length] in Hn.
  destruct (32 <=? shift); [by left|]. destruct (2 ^ 32 <=? _); [by right|].
  destruct (Z.testbit b 7); [apply IH; [done|lia]|]. split; [by destruct Hw; split|cbn; lia].
Qed.

Lemma good_reg r n s (k : Z -> result) :
  0 <= r < 16 -> wf s -> (forall v, good n (k v)) -> good n (reg_at s r ≫= k).
Proof.
  intros Hr [H1 _] Hk. unfold reg_at.
  destruct (lookup_lt_is_Some_2 (regs s) (Z.to_nat r)) as [v ->]; [lia|]. apply Hk.
Qed.

Lemma good_add n c s : wf s -> (length (data s) <= n)%nat -> good n (add_cfa c s).
Proof. intros. by apply good_Ok. Qed.

Lemma good_stop n st s : wf s -> (length (data s) <= n)%nat -> good n (stop st s).
Proof. intros. by apply good_Ok. Qed.

Lemma good_unless n s k : wf s -> (length (data s) <= n)%nat -> good n k -> good n (unless_skipped s k).
Proof. intros. unfold unless_skipped. destruct (_ && _); [by apply good_Ok|done]. Qed.

(** A message and what follows it. *)
Lemma good_say n m s (k : t -> result) :
  wf s -> (length (data s) <= n)%nat -> (forall s', wf s' -> (length (data s') <= n)%nat -> good n (k s')) ->
  good n (unless_skipped (say m s) (k (say m s))).
Proof.
  intros Hw Hn Hk. pose proof (say_wf m s Hw). rewrite <- (say_data m s) in Hn. apply good_unless; [done|done|by apply Hk].
Qed.

Lemma good_stop_say n st m s : wf s -> (length (data s) <= n)%nat -> good n (stop st (say m s)).
Proof. intros. apply good_stop; [by apply say_wf|by rewrite say_data]. Qed.

Lemma good_vector n name a b c s : wf s -> (length (data s) <= n)%nat -> good n (pop_vector name a b c s).
Proof. intros. by apply (good_say n _ s (add_cfa c)); [| |intros; apply good_add]. Qed.

Lemma good_CHECK n c r : c = true -> good n r -> good n (CHECK c r).
Proof. by intros ->. Qed.

(** [byte_fact b Hb P] proves the boolean property [P] of the byte [b] by evaluation. *)
Ltac byte_fact b Hb P :=
  let H := fresh "HB" in
  pose proof (all_bytes P b ltac:(vm_compute; reflexivity) Hb) as H; cbv beta in H.

(** Case analysis on the condition the result branches on first. *)
Ltac branch := match goal with |- good _ (if ?c then _ else _) => destruct c eqn:? end.

Section Prefixes.
Variables (n : nat) (s : t).
Hypothesis Hw : wf s.
Hypothesis Hn : (length (data s) <= n)%nat.

Lemma good_10_00 b : (Z.shiftr b 4 =? 8) = true -> good n (DecodePrefix_10_00 process_memory b s).
Proof.
  intros HC. apply good_CHECK; [done|]. apply good_GetByte_le; [done|done|].
  intros b2 s0 _ Hw0 Hn0. cbv zeta. branch; [by apply good_stop_say|].
  match goal with |- good _ (unless_skipped ?x _) => remember x as s' eqn:Es end.
  assert (wf s' /\ (length (data s') <= n)%nat) as [Hw' Hn'] by (rewrite Es; split; [by apply say_wf|by rewrite say_data]).
  apply good_unless; [done|done|].
  match goal with |- context [masked ?m 4 12] => set (mask := m) end.
  pose proof (good_pop (masked mask 4 12) n s' (masked_range mask 4 12 ltac:(lia) ltac:(lia)) Hw' Hn') as HP.
  destruct (pop process_memory (masked mask 4 12) s') as [[[] s2]|f]; cbn [good] in HP;
    [rewrite bind_Ok; cbn [fst snd negb]; destruct HP as [Hw2 Hn2]|exact HP|exact HP].
  destruct (Z.testbit mask ARM_REG_SP).
  - destruct Hw2 as [H1 H2]. unfold reg_at.
    destruct (lookup_lt_is_Some_2 (regs s2) (Z.to_nat ARM_REG_SP)) as [v ->]; [rewrite H1; change (13 < 16)%nat; lia|].
    cbn [of_option mbind outcome_bind]. destruct (Z.testbit mask ARM_REG_PC); by apply good_Ok.
  - rewrite bind_Ok. destruct (Z.testbit mask ARM_REG_PC); by apply good_Ok.
Qed.

Lemma good_10_01 b : is_byte b -> (Z.shiftr b 4 =? 9) = true -> good n (DecodePrefix_10_01 b s).
Proof.
  intros Hb HC. apply good_CHECK; [done|]. cbv zeta. branch; [by apply good_stop_say|].
  byte_fact b Hb (fun b => (0 <=? Z.land b 15) && (Z.land b 15 <? 16)).
  apply (good_say n _ s (fun s => v ← reg_at s _; succeed (set_cfa v s))); [done|done|]. intros s' Hw' Hn'.
  apply good_reg; [lia|done|]. intros v. by apply good_Ok.
Qed.

Lemma good_10_10 b : is_byte b -> (Z.shiftr b 4 =? 10) = true -> good n (DecodePrefix_10_10 process_memory b s).
Proof.
  intros Hb HC. apply good_CHECK; [done|].
  byte_fact b Hb (fun b => (0 <=? Z.land b 7) && (Z.land b 7 <? 8)).
  apply (good_say n _ s (pop _ _)); [done|done|]. intros s' Hw' Hn'. apply good_pop; [|done|done]. apply Forall_app_2.
  - apply Forall_forall. intros r (i & -> & Hi)%list_elem_of_fmap. apply elem_of_seq in Hi. lia.
  - destruct (Z.testbit b 3); repeat constructor; unfold ARM_REG_R14; lia.
Qed.

Lemma good_10 b : is_byte b -> (Z.shiftr b 6 =? 2) = true -> good n (DecodePrefix_10 process_memory b s).
Proof.
  intros Hb HC. apply good_CHECK; [done|]. cbv zeta.
  byte_fact b Hb (fun b => negb (Z.shiftr b 6 =? 2)
    || (Z.shiftr b 4 =? 8 + Z.land (Z.shiftr b 4) 3) && (0 <=? Z.land (Z.shiftr b 4) 3)
       && (Z.land (Z.shiftr b 4) 3 <? 4)).
  byte_fact b Hb (fun b => negb ((Z.shiftr b 4 =? 11) && Z.testbit b 3) || (Z.land b 248 =? 184)).
  rewrite HC in HB. cbn [negb orb] in HB.
  destruct (Z.eqb_spec (Z.land (Z.shiftr b 4) 3) 0); [apply good_10_00; lia|].
  destruct (Z.eqb_spec (Z.land (Z.shiftr b 4) 3) 1); [apply good_10_01; [done|lia]|].
  destruct (Z.eqb_spec (Z.land (Z.shiftr b 4) 3) 2); [apply good_10_10; [done|lia]|].
  branch; [by apply good_stop_say|]. branch.
  { apply good_GetByte_le; [done|done|]. intros b2 s' _ Hw' Hn'.
    branch; [by apply good_stop_say|]. branch; [by apply good_stop_say|].
    apply (good_say n _ s' (pop _ _)); [done|done|]. intros. apply good_pop; [apply masked_range; lia|done|done]. }
  branch.
  { unfold DecodePrefix_10_11_0010.
    pose proof (good_uleb (data s) 0 0 n s Hw ltac:(apply Hw) Hn) as HU.
    destruct (uleb_loop (data s) 0 0 s) as [[[v|] s2]|f]; cbn [mbind outcome_bind fst snd];
      [destruct HU; by apply (good_say n _ s2 (add_cfa _)); [| |intros; apply good_add]|exact HU|exact HU]. }
  branch; [apply good_GetByte_le; [done|done|]; intros; by apply (good_say n _ _ (add_cfa _)); [| |intros; apply good_add]|].
  destruct (Z.testbit b 3) eqn:E3; [|by apply good_stop_say].
  apply good_CHECK; [|by apply (good_say n _ s (add_cfa _)); [| |intros; apply good_add]].
  assert (Z.shiftr b 4 =? 11 = true) as H11 by lia. rewrite H11 in HB0. exact HB0.
Qed.

Lemma good_11 b : is_byte b -> (Z.shiftr b 6 =? 3) = true -> good n (DecodePrefix_11 b s).
Proof.
  intros Hb HC. apply good_CHECK; [done|]. cbv zeta.
  byte_fact b Hb (fun b => negb (Z.shiftr b 6 =? 3)
    || (Z.land b 248 =? 192 + 8 * Z.land (Z.shiftr b 3) 7)).
  rewrite HC in HB. cbn [negb orb] in HB.
  destruct (Z.eqb_spec (Z.land (Z.shiftr b 3) 7) 0) as [E|].
  { apply good_CHECK; [lia|]. cbv zeta. branch.
    { apply good_GetByte_le; [done|done|]. intros. by apply good_vector. }
    branch; [|by apply good_vector].
    apply good_GetByte_le; [done|done|]. intros b2 s' _ Hw' Hn'.
    branch; [by apply good_stop_say|].
    branch; [apply good_add; [by apply say_wf|by rewrite say_data]|by apply good_stop_say]. }
  destruct (Z.eqb_spec (Z.land (Z.shiftr b 3) 7) 1).
  { apply good_CHECK; [lia|]. cbv zeta. branch;
      [apply good_GetByte_le; [done|done|]; intros; by apply good_vector|].
    branch; [apply good_GetByte_le; [done|done|]; intros; by apply good_vector|by apply good_stop_say]. }
  destruct (Z.eqb_spec (Z.land (Z.shiftr b 3) 7) 2); [|by apply good_stop_say].
  apply good_CHECK; [lia|by apply good_vector].
Qed.
End Prefixes.

Lemma good_Decode s : wf s -> good (length (data s) - 1) (Decode process_memory s).
Proof.
  intros Hw. apply (good_GetByte (set_status ARM_STATUS_NONE s)); [done|].
  intros b s' Hb Hw' _. cbv zeta. byte_fact b Hb (fun b => (0 <=? Z.shiftr b 6) && (Z.shiftr b 6 <? 4)).
  destruct (Z.eqb_spec (Z.shiftr b 6) 0); [by apply (good_say _ _ s' (add_cfa _)); [| |intros; apply good_add]|].
  destruct (Z.eqb_spec (Z.shiftr b 6) 1); [by apply (good_say _ _ s' (fun s => succeed (set_cfa (u32 (cfa s - _)) s)))|].
  destruct (Z.eqb_spec (Z.shiftr b 6) 2); [apply good_10; try done; lia|].
  apply good_11; try done; lia.
Qed.

Lemma decode_loop_good fuel s :
  wf s -> (length (data s) < fuel)%nat ->
  (exists s', decode_loop process_memory fuel s = Ok (Some s')) \/
  decode_loop process_memory fuel s = Fault BadShift \/
  decode_loop process_memory fuel s = Fault SignedOverflow.
Proof.
  revert s. induction fuel as [|fuel IH]; intros s Hw Hf; [lia|]. cbn [decode_loop].
  pose proof (good_Decode s Hw) as HG. destruct (Decode process_memory s) as [[[] s']|f] eqn:ED.
  - destruct HG as [Hw' Hl]. rewrite bind_Ok. cbn [fst snd]. apply IH; [done|].
    destruct (data s) eqn:E; [|cbn in *; lia]. unfold Decode, GetByte in ED. cbn [data set_status with_state] in ED.
    rewrite E in ED. discriminate ED.
  - left. by exists s'.
  - destruct HG as [-> | ->]; auto.
Qed.
End Safety.

(** ** Extraction yields instruction bytes *)

(** What extraction leaves behind: on success, bytes that end with a finish operation. *)
Definition extracted (r : result) : Prop :=
  match r with
  | Ok (true, s) => bytes_ok (data s) /\ (2 <= length (data s) <= 24)%nat /\
                    last (data s) = Some ARM_OP_FINISH /\ status s = ARM_STATUS_NONE
  | Ok (false, s) => status s <> ARM_STATUS_NONE
  | Fault _ => False
  end.

(** [n] to [m] bytes so far, and no status. *)
Definition partial (n m : nat) (s : t) : Prop :=
  bytes_ok (data s) /\ (n <= length (data s) <= m)%nat /\ status s = ARM_STATUS_NONE.

Lemma byte_at_byte w k : is_byte (byte_at w k).
Proof.
  unfold byte_at, is_byte. change 255 with (Z.ones 8). rewrite Z.land_ones by lia.
  pose proof (Z.mod_pos_bound (Z.shiftr w k) (2 ^ 8)). lia.
Qed.

Lemma partial_push n m bs s :
  partial n m s -> bytes_ok bs -> partial (n + length bs) (m + length bs) (push_back bs s).
Proof.
  intros (H1 & H2 & H3) Hb. split_and!; cbn; [by apply Forall_app_2|rewrite length_app; lia|rewrite length_app; lia|done].
Qed.

Lemma extracted_finish n s :
  partial 2 n s -> (n <= 23)%nat -> extracted (s ← finish_data s; succeed (LogRawData s)).
Proof.
  intros (H1 & H2 & H3) Hn. unfold finish_data.
  destruct (data s) as [|b d _] eqn:E using rev_ind; [cbn in H2; lia|].
  rewrite last_snoc. destruct (Z.eqb_spec b ARM_OP_FINISH) as [->|]; cbn; unfold LogRawData; rewrite say_data, say_status; cbn.
  - rewrite E. split_and!; [done|lia|lia|apply last_snoc|done].
  - rewrite E, length_app. cbn. split_and!; [|lia|lia|apply last_snoc|done].
    apply Forall_app_2; [done|]. repeat constructor; unfold ARM_OP_FINISH; lia.
Qed.

Lemma table_words_spec elf k addr n m s :
  partial n m s ->
  match table_words elf k addr s with
  | Ok (true, s') => partial n (m + 4 * k) s'
  | Ok (false, s') => status s' <> ARM_STATUS_NONE
  | Fault _ => False
  end.
Proof.
  revert addr n m s. induction k as [|k IH]; intros addr n m s Hp; cbn [table_words].
  { by replace (m + 4 * 0)%nat with m by lia. }
  destruct (Read32 elf addr) as [w|]; [|done].
  replace (m + 4 * S k)%nat with (m + 4 + 4 * k)%nat by lia. apply IH.
  destruct (partial_push n m [byte_at w 24; byte_at w 16; byte_at w 8; byte_at w 0] s Hp)
    as (H1 & H2 & H3); [repeat constructor; apply byte_at_byte|].
  cbn [length] in H2. split_and!; [done|lia|lia|done].
Qed.

Lemma extract_words_spec elf k addr s :
  0 <= k -> partial 2 3 s -> extracted (extract_words elf k addr s).
Proof.
  intros Hk Hp. unfold extract_words. destruct (Z.ltb_spec 5 k); [done|].
  pose proof (table_words_spec elf (Z.to_nat k) addr 2 3 s Hp) as HT.
  destruct (table_words elf (Z.to_nat k) addr s) as [[[] s']|]; [|exact HT|done].
  rewrite bind_Ok. cbn [fst snd negb]. eapply extracted_finish; [exact HT|lia].
Qed.

Lemma partial_start w s bs :
  partial 0 0 s -> bs = [byte_at w 16; byte_at w 8; byte_at w 0] \/ bs = [byte_at w 8; byte_at w 0] ->
  partial 2 3 (push_back bs s).
Proof.
  intros Hp Hb. destruct (partial_push 0 0 bs s Hp) as (H1 & H2 & H3).
  { destruct Hb as [-> | ->]; repeat constructor; apply byte_at_byte. }
  split_and!; [done| | |done]; destruct Hb as [-> | ->]; cbn [length] in H2; lia.
Qed.

Lemma extract_table_spec elf addr s : partial 0 0 s -> extracted (extract_table elf addr s).
Proof.
  intros Hp. unfold extract_table. destruct (Read32 elf addr) as [w|]; [|done].
  destruct (Z.testbit w 31); cbv zeta.
  - destruct (_ =? 0); [apply extract_words_spec; [lia|eapply partial_start; eauto]|].
    destruct (_ || _); [|done].
    apply extract_words_spec; [apply byte_at_byte|eapply partial_start; eauto].
  - destruct (Read32 elf _) as [w'|]; [|done].
    apply extract_words_spec; [apply byte_at_byte|eapply partial_start; eauto].
Qed.

Lemma extract_entry_ok elf_memory entry_offset s : extracted (ExtractEntryData elf_memory entry_offset s).
Proof.
  unfold ExtractEntryData. cbv zeta. destruct (Z.testbit entry_offset 0); [done|].
  destruct (Read32 _ _) as [w|]; [|done]. destruct (w =? 1).
  { cbn. by rewrite !say_status. }
  assert (partial 0 0 (set_status ARM_STATUS_NONE (set_data [] s))) as Hp
    by (split_and!; [constructor|cbn; lia|cbn; lia|done]).
  destruct (Z.testbit w 31); [|by apply extract_table_spec]. destruct (negb _); [done|].
  eapply extracted_finish; [eapply partial_start; eauto|lia].
Qed.

(** ** Properties *)

(** C16. Executing unwind instructions terminates and is memory safe: with sixteen registers
    and any instruction bytes, [Eval] returns after at most one step per byte; no
    CHECK fails and no register outside the file is touched.  The only undefined
    behaviour left is an over-long ULEB128 operand of the vsp-increment instruction. *)
Theorem exidx_eval_terminates process_memory s :
  length (regs s) = 16%nat -> bytes_ok (data s) ->
  (exists b s', Eval process_memory s = Ok (Some (b, s'))) \/
  Eval process_memory s = Fault BadShift \/ Eval process_memory s = Fault SignedOverflow.
Proof.
  intros Hr Hd. unfold Eval.
  destruct (decode_loop_good process_memory (S (length (data s))) (set_pc_set false s))
    as [[s' ->] | [-> | ->]]; [by split|cbn; lia| | |]; cbn; eauto.
Qed.

(** Pop {r4, r5, r14}, then finish, over a stack holding 0, 1, 2, ... *)
Definition sample_memory : Memory := fun a n => map (fun i => Z.shiftr (a + Z.of_nat i) 2 mod 256) (seq 0 (Z.to_nat n)).
Definition sample_state : t := set_data [169; 176] (new (replicate 16 7)).

Lemma exidx_eval_terminates_witness :
  length (regs sample_state) = 16%nat /\ bytes_ok (data sample_state) /\
  ((exists b s', Eval sample_memory sample_state = Ok (Some (b, s'))) \/
   Eval sample_memory sample_state = Fault BadShift \/
   Eval sample_memory sample_state = Fault SignedOverflow).
Proof.
  assert (length (regs sample_state) = 16%nat) as H1 by reflexivity.
  assert (bytes_ok (data sample_state)) as H2 by (repeat constructor; unfold is_byte; lia).
  split; [exact H1|]. split; [exact H2|].
  exact (exidx_eval_terminates sample_memory sample_state H1 H2).
Defined.

(** C17. Extracting an entry never faults, whatever the table holds.  When it succeeds it
    leaves between 2 and 24 instruction bytes, the last of them a finish operation, so
    that the execution of them cannot run off their end unnoticed; when it fails, the
    status says why. *)
Theorem extract_entry_data_spec elf_memory entry_offset s :
  extracted (ExtractEntryData elf_memory entry_offset s).
Proof. apply extract_entry_ok. Qed.
End ArmExidx.
