(* ===== verification/UwArmLog.v ===== *)
(** * libunwindstack: printing ARM unwind instructions

    With [log_] and [log_skip_execution_] the functions of ArmExidx.cpp (UwArmExidx) print the unwind
    instructions instead of executing them; tools/unwind_info.cpp does this with null registers and a
    null memory.  Here the printing is related to the execution: the two walk through the same
    instructions, and printing needs neither registers nor memory. *)

From S2P Require Import Prelude HawkPrivate HawkDumper UwDwarfMemory UwDwarfOp UwDwarfCfa UwDwarfEval UwDwarfSection UwDwarfLog UwArmExidx.

Module ArmLog.
Import ArmExidx.

(** A memory in which nothing can be read. *)
Definition nothing : Memory := fun _ _ => [].

(** Whether a state only prints. *)
Definition dumping (s : t) : bool := log_ s && log_skip_execution s.

(** A state [s] that executes or, when [q] holds, prints, and a state [d] that prints the same
    instructions; [d] has the registers [rs] and has printed [n] lines. *)
Record pair (q : bool) (rs : list Z) (n : nat) (s d : t) : Prop := mkPair {
  p_data : data d = data s;
  p_status : status d = status s;
  p_read : status s <> ARM_STATUS_READ_FAILED;
  p_mode : dumping s = q;
  p_dumping : dumping d = true;
  p_regs : regs d = rs;
  p_lines : length (logged d) = n;
  p_text : q = true -> logged d = logged s /\ log_indent d = log_indent s
}.

(** Their results: an execution may fail to read or touch a register that is not there; otherwise both
    return the same and stay related, and an instruction that was completed has printed a line. *)
Definition prints (q : bool) (rs : list Z) (n : nat) (r r' : result) : Prop :=
  match r with
  | Fault f => r' = Fault f \/ (f = OutOfBounds /\ q = false)
  | Ok (b, s1) =>
      (b = false /\ status s1 = ARM_STATUS_READ_FAILED /\ q = false) \/
      exists d1, r' = Ok (b, d1) /\ pair q rs (length (logged d1)) s1 d1 /\
        (b = true \/ status s1 = ARM_STATUS_FINISH -> length (logged d1) = S n)
  end.

(** What follows a message when it is executed. *)
Definition effect (s : t) (r : result) : Prop :=
  match r with
  | Fault f => f = OutOfBounds
  | Ok (b, s1) =>
      (b = false /\ status s1 = ARM_STATUS_READ_FAILED) \/
      b = true /\ data s1 = data s /\ status s1 = status s /\ dumping s1 = dumping s
  end.

Lemma say_dumping m s : dumping (say m s) = dumping s.
Proof. by destruct (say_state m s) as [o ->]. Qed.

Lemma say_lines m s : dumping s = true -> length (logged (say m s)) = S (length (logged s)).
Proof. unfold dumping, say. destruct (log_ s); [|done]. intros _. cbn. rewrite length_app. cbn. lia. Qed.

Lemma say_regs m s : regs (say m s) = regs s.
Proof. by destruct (say_state m s) as [o ->]. Qed.

Lemma pair_say q rs n m s d : pair q rs n s d -> pair q rs (S n) (say m s) (say m d).
Proof.
  intros [P1 P2 P3 P4 P5 P6 P7 P8]. split; rewrite ?say_data, ?say_status, ?say_dumping, ?say_regs; try done.
  - rewrite say_lines by done. by f_equal.
  - intros ->. destruct (P8 eq_refl) as [HL HI]. unfold dumping in P4, P5. unfold say. destruct (log_ s), (log_ d); try done.
    cbn. by rewrite HL, HI.
Qed.

Lemma pair_set_data q rs n l s d : pair q rs n s d -> pair q rs n (set_data l s) (set_data l d).
Proof. by intros []. Qed.

(** ** The effects *)

Lemma effect_add c s : effect s (add_cfa c s).
Proof. by right. Qed.

Lemma effect_pop pm rs s : effect s (pop pm rs s).
Proof.
  revert s. induction rs as [|r rs IH]; intros s; cbn [pop]; [by right|].
  destruct (Read32 pm (cfa s)) as [v|]; [|by left]. destruct (_ <? _)%nat; [|done].
  set (s1 := set_cfa _ _). specialize (IH s1). destruct (pop pm rs s1) as [[]|]; [|done].
  destruct IH as [|(-> & H1 & H2 & H3)]; [by left|]. right. by rewrite H1, H2, H3.
Qed.

(** Popping registers, of which some set the cfa or the pc. *)
Lemma effect_bind s r (k : bool * t -> result) :
  effect s r -> (forall s1, k (false, s1) = Ok (false, s1)) ->
  (forall s1, data s1 = data s -> status s1 = status s -> dumping s1 = dumping s -> effect s (k (true, s1))) ->
  effect s (r ≫= k).
Proof.
  intros HE Hf Hk. destruct r as [[b s1]|f]; [|done]. rewrite bind_Ok.
  destruct HE as [[-> HE]|(-> & H1 & H2 & H3)]; [rewrite Hf; by left|]. by apply Hk.
Qed.

Lemma effect_reg s r : effect s (v ← reg_at s r; succeed (set_cfa v s)).
Proof. unfold reg_at. destruct (regs s !! _); [by right|done]. Qed.

(** ** The combinators *)

Section Combinators.
Variables (q : bool) (rs : list Z) (n : nat).

Lemma prints_stop st s d : pair q rs n s d -> st <> ARM_STATUS_READ_FAILED -> st <> ARM_STATUS_FINISH -> prints q rs n (stop st s) (stop st d).
Proof. intros [] H1 H2. right. eexists. split; [done|]. split; [by split|]. by intros [|]. Qed.

Lemma prints_stop_say st m s d : pair q rs n s d -> st <> ARM_STATUS_READ_FAILED -> prints q rs n (stop st (say m s)) (stop st (say m d)).
Proof. intros [] %(pair_say _ _ _ m) H. right. eexists. split; [done|]. by split; [split|]. Qed.

Lemma prints_GetByte s d k k' :
  pair q rs n s d -> (forall b s' d', pair q rs n s' d' -> prints q rs n (k b s') (k' b d')) ->
  prints q rs n (GetByte s k) (GetByte d k').
Proof.
  intros HP Hk. pose proof (p_data _ _ _ _ _ HP) as E. unfold GetByte. rewrite E. destruct (data s) as [|b l].
  - by apply prints_stop.
  - by apply Hk, pair_set_data.
Qed.

Lemma prints_CHECK c r r' : prints q rs n r r' -> prints q rs n (CHECK c r) (CHECK c r').
Proof. destruct c; [done|by left]. Qed.

(** A message, and the execution that printing leaves out. *)
Lemma prints_say m s d k k' :
  pair q rs n s d -> effect (say m s) k -> prints q rs n (unless_skipped (say m s) k) (unless_skipped (say m d) k').
Proof.
  intros HP HE. pose proof (pair_say _ _ _ m _ _ HP) as HP'. pose proof HP' as [P1 P2 P3 P4 P5 P6 P7 P8].
  unfold unless_skipped. fold (dumping (say m d)) (dumping (say m s)). rewrite P4, P5. destruct q.
  - right. eexists. split; [done|]. by split; [split|].
  - destruct k as [[b s1]|f]; cbn in *; [|by right]. destruct HE as [[-> ?]|(-> & H1 & H2 & H3)]; [by left|]. right.
    eexists. split; [done|]. split; [|done]. split; try congruence; done.
Qed.

(** A message and an instruction that printing executes as well. *)
Lemma prints_add m c s d : pair q rs n s d -> prints q rs n (add_cfa c (say m s)) (add_cfa c (say m d)).
Proof. intros []%(pair_say _ _ _ m). right. eexists. split; [done|]. by split; [split|]. Qed.

Lemma prints_vector name a b c s d : pair q rs n s d -> prints q rs n (pop_vector name a b c s) (pop_vector name a b c d).
Proof. intros HP. apply prints_say; [done|apply effect_add]. Qed.

Lemma prints_spare s d : pair q rs n s d -> prints q rs n (spare s) (spare d).
Proof. intros HP. by apply prints_stop_say. Qed.
End Combinators.

(** ** The instructions *)

Section Walk.
Variables (pm pm' : Memory) (q : bool) (rs : list Z) (n : nat).

(** Both sides take the same branch. *)
Ltac side := match goal with |- prints _ _ _ (if ?c then _ else _) (if ?c then _ else _) => destruct c end.

Lemma prints_10_00 b s d : pair q rs n s d -> prints q rs n (DecodePrefix_10_00 pm b s) (DecodePrefix_10_00 pm' b d).
Proof.
  intros HP. apply prints_CHECK, prints_GetByte; [done|]. clear s d HP. intros b2 s d HP. cbv zeta.
  side; [by apply prints_stop_say|]. apply prints_say; [done|]. apply effect_bind; [apply effect_pop|done|].
  intros s1 H1 H2 H3. cbn [fst snd negb]. destruct (Z.testbit _ ARM_REG_SP).
  - unfold reg_at. destruct (regs s1 !! _); [|done]. destruct (Z.testbit _ ARM_REG_PC); by right.
  - rewrite bind_Ok. destruct (Z.testbit _ ARM_REG_PC); by right.
Qed.

Lemma prints_uleb bs s d : pair q rs n s d -> forall res shift,
  match uleb_loop bs res shift s with
  | Fault f => uleb_loop bs res shift d = Fault f
  | Ok (v, s1) => exists d1, uleb_loop bs res shift d = Ok (v, d1) /\ pair q rs n s1 d1 /\
                  (v = None -> status s1 = ARM_STATUS_TRUNCATED)
  end.
Proof.
  intros HP. induction bs as [|b bs IH]; intros res shift; cbn [uleb_loop].
  { eexists. split; [done|]. destruct HP. by split; [split|]. }
  destruct (32 <=? shift); [done|]. destruct (2 ^ 32 <=? _); [done|]. destruct (Z.testbit b 7); [apply IH|].
  eexists. split; [done|]. by split; [apply pair_set_data|].
Qed.

Lemma prints_10_11_0010 s d : pair q rs n s d -> prints q rs n (DecodePrefix_10_11_0010 s) (DecodePrefix_10_11_0010 d).
Proof.
  intros HP. unfold DecodePrefix_10_11_0010. rewrite (p_data _ _ _ _ _ HP). pose proof (prints_uleb (data s) s d HP 0 0) as HU.
  destruct (uleb_loop (data s) 0 0 s) as [[v s1]|f]; [|rewrite HU; by left]. destruct HU as (d1 & -> & HP1 & HN).
  rewrite !bind_Ok. cbn [fst snd]. destruct v as [v|]; [apply prints_say; [done|apply effect_add]|].
  right. exists d1. split; [done|]. rewrite (p_lines _ _ _ _ _ HP1). split; [done|]. rewrite HN by done. by intros [|].
Qed.

Lemma prints_10 b s d : pair q rs n s d -> prints q rs n (DecodePrefix_10 pm b s) (DecodePrefix_10 pm' b d).
Proof.
  intros HP. apply prints_CHECK. cbv zeta. side; [by apply prints_10_00|]. side.
  { apply prints_CHECK. cbv zeta. side; [by apply prints_stop_say|]. apply prints_say; [done|apply effect_reg]. }
  side; [apply prints_CHECK, prints_say; [done|apply effect_pop]|]. side; [by apply prints_stop_say|]. side.
  { apply prints_GetByte; [done|]. clear s d HP. intros b2 s d HP. side; [by apply prints_spare|]. side; [by apply prints_spare|].
    apply prints_say; [done|apply effect_pop]. }
  side; [by apply prints_10_11_0010|]. side.
  { apply prints_GetByte; [done|]. intros. apply prints_say; [done|apply effect_add]. }
  side; [apply prints_CHECK, prints_say; [done|apply effect_add]|by apply prints_spare].
Qed.

Lemma prints_11 b s d : pair q rs n s d -> prints q rs n (DecodePrefix_11 b s) (DecodePrefix_11 b d).
Proof.
  intros HP. apply prints_CHECK. cbv zeta. side.
  { apply prints_CHECK. cbv zeta. side; [apply prints_GetByte; [done|]; intros; by apply prints_vector|].
    side; [|by apply prints_vector]. apply prints_GetByte; [done|]. clear s d HP. intros b2 s d HP.
    side; [by apply prints_spare|]. side; [by apply prints_add|by apply prints_spare]. }
  side.
  { apply prints_CHECK. cbv zeta. side; [apply prints_GetByte; [done|]; intros; by apply prints_vector|].
    side; [apply prints_GetByte; [done|]; intros; by apply prints_vector|by apply prints_spare]. }
  side; [by apply prints_CHECK, prints_vector|by apply prints_spare].
Qed.

Lemma prints_Decode s d : pair q rs n s d -> prints q rs n (Decode pm s) (Decode pm' d).
Proof.
  intros []. apply prints_GetByte; [by split|]. intros b s' d' HP. cbv zeta.
  side; [apply prints_say; [done|apply effect_add]|]. side; [apply prints_say; [done|by right]|].
  side; [by apply prints_10|by apply prints_11].
Qed.
End Walk.

(** ** The loop *)

(** The number of instructions [Eval] decodes. *)
Fixpoint rounds (pm : Memory) (fuel : nat) (s : t) : nat :=
  match fuel with
  | O => 0
  | S fuel =>
      match Decode pm s with
      | Ok (true, s) => S (rounds pm fuel s)
      | _ => 1
      end
  end.

Lemma prints_loop pm pm' q rs fuel : forall n s d, pair q rs n s d ->
  match decode_loop pm fuel s with
  | Fault f => decode_loop pm' fuel d = Fault f \/ (f = OutOfBounds /\ q = false)
  | Ok None => decode_loop pm' fuel d = Ok None
  | Ok (Some s1) =>
      (status s1 = ARM_STATUS_READ_FAILED /\ q = false) \/
      exists d1, decode_loop pm' fuel d = Ok (Some d1) /\ pair q rs (length (logged d1)) s1 d1 /\
        (status s1 = ARM_STATUS_FINISH -> length (logged d1) = (n + rounds pm fuel s)%nat)
  end.
Proof.
  induction fuel as [|fuel IH]; intros n s d HP; [done|]. cbn [decode_loop rounds].
  pose proof (prints_Decode pm pm' q rs n s d HP) as HD. destruct (Decode pm s) as [[b s1]|f]; cbn [prints] in HD.
  2: { destruct HD as [-> |HD]; [by left|by right]. }
  rewrite bind_Ok. cbn [fst snd]. destruct HD as [(-> & HD)|(d1 & -> & HP1 & HL)]; [by left|]. rewrite bind_Ok. cbn [fst snd].
  destruct b.
  - specialize (IH _ s1 d1 HP1). rewrite HL in IH by by left. replace (n + S (rounds pm fuel s1))%nat with (S n + rounds pm fuel s1)%nat by lia.
    exact IH.
  - right. exists d1. split; [done|]. split; [done|]. intros E. rewrite HL by by right. lia.
Qed.

(** The state [Eval] begins with, as far as it matters. *)
Lemma loop_start pm fuel s : decode_loop pm fuel s = decode_loop pm fuel (set_status ARM_STATUS_NONE s).
Proof. by destruct fuel. Qed.

Lemma rounds_start pm fuel s : rounds pm fuel s = rounds pm fuel (set_status ARM_STATUS_NONE s).
Proof. by destruct fuel. Qed.

(** The instructions [Eval] decodes. *)
Definition instructions (pm : Memory) (s : t) : nat := rounds pm (S (length (data s))) (set_pc_set false s).

(** C21. The text of a function is the text of what is executed: when the execution of some unwind
    instructions ends with a finish operation, printing them, in whatever memory, ends with it too, at
    the same byte; it has printed one line for each instruction that was executed and has not changed
    the registers. *)
Theorem dump_follows_execution pm pm' s d s' :
  log_ s = false -> log_ d = true -> log_skip_execution d = true -> data d = data s ->
  Eval pm s = Ok (Some (true, s')) ->
  exists d', Eval pm' d = Ok (Some (true, d')) /\ data d' = data s' /\ regs d' = regs d /\
    length (logged d') = (length (logged d) + instructions pm s)%nat.
Proof.
  intros Hs Hd1 Hd2 Hdata. unfold Eval, instructions. rewrite Hdata, (loop_start pm), (loop_start pm'), rounds_start.
  assert (pair false (regs d) (length (logged d)) (set_status ARM_STATUS_NONE (set_pc_set false s)) (set_status ARM_STATUS_NONE (set_pc_set false d))) as HP.
  { split; cbn; unfold dumping; cbn; rewrite ?Hs, ?Hd1, ?Hd2; done. }
  pose proof (prints_loop pm pm' false (regs d) (S (length (data s))) _ _ _ HP) as HL.
  destruct (decode_loop pm _ _) as [[s1|]|]; [|done|done]. rewrite bind_Ok. intros [= HF ->].
  apply bool_decide_eq_true in HF. destruct HL as [[HL _]|(d1 & -> & [] & Hn)]; [congruence|].
  exists d1. rewrite bind_Ok. rewrite bool_decide_eq_true_2 by congruence. split_and!; [done|done|done|by apply Hn].
Qed.

(** Printing touches nothing: for any instruction bytes and with any registers (or none), [Eval] returns
    the same lines and status in every memory, no read has failed, and the registers are what they were;
    the only undefined behaviour left is the over-long operand of an execution. *)
Lemma dump_touches_nothing d :
  log_ d = true -> log_skip_execution d = true -> bytes_ok (data d) ->
  (exists b o st, st <> ARM_STATUS_READ_FAILED /\
     forall pm, exists d', Eval pm d = Ok (Some (b, d')) /\ regs d' = regs d /\ logged d' = o /\ status d' = st) \/
  (forall pm, Eval pm d = Fault BadShift) \/ (forall pm, Eval pm d = Fault SignedOverflow).
Proof.
  intros Hd1 Hd2 Hb. set (d0 := set_status ARM_STATUS_NONE (set_pc_set false d)).
  assert (pair true (regs d) (length (logged d)) (set_regs (replicate 16 0) d0) d0) as HP.
  { split; cbn; unfold dumping; cbn; rewrite ?Hd1, ?Hd2; done. }
  pose proof (fun pm => prints_loop nothing pm true (regs d) (S (length (data d))) _ _ _ HP) as HL.
  assert (forall pm, Eval pm d = (r ← decode_loop pm (S (length (data d))) d0;
            Ok (match r with None => None | Some s => Some (bool_decide (status s = ARM_STATUS_FINISH), s) end))) as HE.
  { intros pm. unfold Eval. by rewrite loop_start. }
  destruct (decode_loop_good nothing (S (length (data d))) (set_regs (replicate 16 0) d0)) as [[s1 E]|[E|E]];
    [by split|cbn; lia|rewrite E in HL..].
  - left. exists (bool_decide (status s1 = ARM_STATUS_FINISH)), (logged s1), (status s1).
    split. { destruct (HL nothing) as [[_ HN]|(d1 & _ & [] & _)]; [done|done]. }
    intros pm. destruct (HL pm) as [[_ HN]|(d1 & E1 & [P1 P2 P3 P4 P5 P6 P7 P8] & _)]; [done|]. exists d1.
    rewrite HE, E1, bind_Ok, P2. split_and!; [done|done|by apply P8|done].
  - right. left. intros pm. rewrite HE. by destruct (HL pm) as [-> |[HN _]].
  - right. right. intros pm. rewrite HE. by destruct (HL pm) as [-> |[HN _]].
Qed.

(** ** Extraction keeps the mode *)

Definition keeps (s : t) (r : result) : Prop :=
  match r with Ok (_, s1) => log_ s1 = log_ s /\ log_skip_execution s1 = log_skip_execution s | Fault _ => True end.

Lemma keeps_say m s : log_ (say m s) = log_ s /\ log_skip_execution (say m s) = log_skip_execution s.
Proof. by destruct (say_state m s) as [o ->]. Qed.

Lemma keeps_finish s : keeps s (s ← finish_data s; succeed (LogRawData s)).
Proof. unfold finish_data. destruct (last (data s)) as [b|]; [|done]. rewrite bind_Ok. destruct (negb _); [apply (keeps_say _ (push_back _ s))|apply (keeps_say _ s)]. Qed.

Lemma keeps_words elf k : forall addr s, keeps s (table_words elf k addr s).
Proof.
  induction k as [|k IH]; intros addr s; cbn [table_words]; [done|]. destruct (Read32 elf addr); [|done].
  apply (IH _ (push_back _ s)).
Qed.

Lemma keeps_extract_words elf k addr s : keeps s (extract_words elf k addr s).
Proof.
  unfold extract_words. destruct (5 <? k); [done|]. pose proof (keeps_words elf (Z.to_nat k) addr s) as HK.
  destruct (table_words _ _ _ _) as [[[] s1]|]; [|done|done]. rewrite bind_Ok. cbn [fst snd negb].
  destruct HK as [H1 H2]. pose proof (keeps_finish s1) as HF. unfold keeps in *.
  destruct (finish_data s1 ≫= _) as [[b s2]|]; [|done]. destruct HF. by split; congruence.
Qed.

Lemma keeps_extract_table elf addr s : keeps s (extract_table elf addr s).
Proof.
  unfold extract_table. destruct (Read32 elf addr) as [w|]; [|done]. destruct (Z.testbit w 31); cbv zeta.
  - destruct (_ =? 0); [apply (keeps_extract_words _ _ _ (push_back _ s))|]. destruct (_ || _); [|done].
    apply (keeps_extract_words _ _ _ (push_back _ s)).
  - destruct (Read32 elf _) as [w'|]; [|done]. apply (keeps_extract_words _ _ _ (push_back _ s)).
Qed.

Lemma keeps_extract elf entry_offset s : keeps s (ExtractEntryData elf entry_offset s).
Proof.
  unfold ExtractEntryData. cbv zeta. destruct (Z.testbit entry_offset 0); [done|].
  destruct (Read32 _ _) as [w|]; [|done]. destruct (w =? 1).
  { cbn. by rewrite !(proj1 (keeps_say _ _)), !(proj2 (keeps_say _ _)). }
  destruct (Z.testbit w 31); [|apply (keeps_extract_table _ _ (set_status ARM_STATUS_NONE (set_data [] s)))].
  destruct (negb _); [done|]. apply (keeps_finish (push_back _ (set_status ARM_STATUS_NONE (set_data [] s)))).
Qed.
End ArmLog.

(** ** Witnesses and a concrete text *)

Module ArmLogExamples.
Import ArmExidx ArmLog.

(** Pop {r4, r5, r14}, pop {wCGR0, wCGR1}, finish: to be printed as unwind_info does, and to be
    executed. *)
Definition some_instructions : list Z := [169; 199; 3; 176].
Definition sample_dump : t :=
  set_data some_instructions (set_log_indent 2 (set_log_skip_execution true (set_log true (new [])))).
Definition sample_exec : t := set_data some_instructions (new (replicate 16 7)).

Definition final (r : outcome (option (bool * t))) : option t := match r with Ok (Some (_, s)) => Some s | _ => None end.

(** The text, in which the pop of the control registers was not skipped: the cfa has moved. *)
Example printing_moves_cfa :
  (fun s => (logged s, cfa s)) <$> final (Eval nothing sample_dump) =
  Some ([str "    pop {r4-r5, r14}"; str "    pop {wCGR0, wCGR1}"; str "    finish"], 8).
Proof. vm_compute. reflexivity. Qed.

(** A pop of the single register d5 is printed as a range. *)
Example single_register_range :
  logged <$> final (Eval nothing (set_data [179; 80; 176] sample_dump)) = Some [str "    pop {d5-d5}"; str "    finish"].
Proof. vm_compute. reflexivity. Qed.

Lemma dump_follows_execution_witness :
  exists d', Eval nothing sample_dump = Ok (Some (true, d')) /\ data d' = [] /\ regs d' = [] /\
    length (logged d') = (0 + 3)%nat.
Proof.
  destruct (final (Eval sample_memory sample_exec)) as [s'|] eqn:E; [|vm_compute in E; discriminate E].
  destruct (dump_follows_execution sample_memory nothing sample_exec sample_dump s') as (d' & H1 & H2 & H3 & H4);
    [reflexivity|reflexivity|reflexivity|reflexivity|vm_compute in E |- *; injection E as <-; reflexivity|].
  exists d'. split; [exact H1|]. split; [rewrite H2; vm_compute in E; injection E as <-; reflexivity|].
  split; [exact H3|]. exact H4.
Defined.
End ArmLogExamples.
