(* ===== verification/UwElfInterface.v ===== *)
(** * libunwindstack: reading ELF files

    Models external/libunwindstack-ndk/ElfInterface.{h,cpp}: the program headers and section
    headers of a file, the unwind sections they lead to, the soname, function names and one
    step of the unwinding.  The part of ElfInterfaceArm.{h,cpp} that extends it (the
    exception index of 32-bit arm) is the field [arm_]; UwElfArm has its operations.

    The layouts of [Elf32_*] and [Elf64_*] are the class [ElfTypes].  A structure read into is
    a block of bytes: the code reads section headers with [Read], which accepts a short read
    and leaves the rest of the structure as it was, so the block carries over; what it holds
    at first is an argument. *)

From S2P Require Import Prelude UwDwarfMemory UwMemory UwSymbols UwDwarfOp UwDwarfCfa.
From S2P Require Import UwDwarfEval UwDwarfSection UwDwarfFormat UwEhFrameHdr UwRegs.

(** ** Layouts *)

(** Sizes of the structures, and fields as (offset, size) pairs. *)
Class ElfTypes : Type := {
  et_sym : SymType;
  et_address : AddressType;
  sizeof_ehdr : Z;
  e_phoff : Z * Z; e_shoff : Z * Z; e_phentsize : Z * Z; e_phnum : Z * Z; e_shentsize : Z * Z; e_shnum : Z * Z;
  e_shstrndx : Z * Z;
  sizeof_phdr : Z;
  p_type : Z * Z; p_flags : Z * Z; p_offset : Z * Z; p_vaddr : Z * Z; p_memsz : Z * Z;
  sizeof_shdr : Z;
  sh_name : Z * Z; sh_type : Z * Z; sh_addr : Z * Z; sh_offset : Z * Z; sh_size : Z * Z; sh_link : Z * Z; sh_entsize : Z * Z;
  sizeof_dyn : Z;
  d_tag : Z * Z; d_un : Z * Z
}.

Definition Elf32 : ElfTypes := {|
  et_sym := Elf32_Sym; et_address := Addr32;
  sizeof_ehdr := 52; e_phoff := (28, 4); e_shoff := (32, 4); e_phentsize := (42, 2); e_phnum := (44, 2);
  e_shentsize := (46, 2); e_shnum := (48, 2); e_shstrndx := (50, 2);
  sizeof_phdr := 32; p_type := (0, 4); p_offset := (4, 4); p_vaddr := (8, 4); p_memsz := (20, 4); p_flags := (24, 4);
  sizeof_shdr := 40; sh_name := (0, 4); sh_type := (4, 4); sh_addr := (12, 4); sh_offset := (16, 4); sh_size := (20, 4);
  sh_link := (24, 4); sh_entsize := (36, 4);
  sizeof_dyn := 8; d_tag := (0, 4); d_un := (4, 4) |}.

Definition Elf64 : ElfTypes := {|
  et_sym := Elf64_Sym; et_address := Addr64;
  sizeof_ehdr := 64; e_phoff := (32, 8); e_shoff := (40, 8); e_phentsize := (54, 2); e_phnum := (56, 2);
  e_shentsize := (58, 2); e_shnum := (60, 2); e_shstrndx := (62, 2);
  sizeof_phdr := 56; p_type := (0, 4); p_flags := (4, 4); p_offset := (8, 8); p_vaddr := (16, 8); p_memsz := (40, 8);
  sizeof_shdr := 64; sh_name := (0, 4); sh_type := (4, 4); sh_addr := (16, 8); sh_offset := (24, 8); sh_size := (32, 8);
  sh_link := (40, 4); sh_entsize := (56, 8);
  sizeof_dyn := 16; d_tag := (0, 8); d_un := (8, 8) |}.

Definition PT_LOAD : Z := 1.
Definition PT_DYNAMIC : Z := 2.
Definition PT_GNU_EH_FRAME : Z := 0x6474e550.
Definition PT_ARM_EXIDX : Z := 0x70000001.
Definition PF_X : Z := 1.
Definition SHT_PROGBITS : Z := 1.
Definition SHT_SYMTAB : Z := 2.
Definition SHT_STRTAB : Z := 3.
Definition SHT_DYNSYM : Z := 11.
Definition DT_NULL : Z := 0.
Definition DT_STRTAB : Z := 5.
Definition DT_STRSZ : Z := 10.
Definition DT_SONAME : Z := 14.

(** ** Error.h *)

Inductive ErrorCode : Type :=
| ERROR_NONE | ERROR_MEMORY_INVALID | ERROR_UNWIND_INFO | ERROR_UNSUPPORTED | ERROR_INVALID_MAP
| ERROR_MAX_FRAMES_EXCEEDED | ERROR_REPEATED_FRAME.

#[global] Instance ErrorCode_eq_dec : EqDecision ErrorCode.
Proof. solve_decision. Defined.

Record ErrorData : Type := mkError { code : ErrorCode; address : Z }.

(** ** State *)

Record LoadInfo : Type := mkLoad { load_offset : Z; table_offset : Z; table_size : Z }.

Inductive SonameType : Type := SONAME_UNKNOWN | SONAME_VALID | SONAME_INVALID.

(** A [DwarfSection] object: a [DwarfEhFrameWithHdr] or a [DwarfEhFrame]. *)
Record Section_ : Type := mkSection { with_hdr : bool; section : DwarfSectionImpl.t }.

(** The members of [ElfInterfaceArm]. *)
Record ArmPart : Type := mkArm { start_offset_ : Z; total_entries_ : Z; addrs_ : gmap Z Z }.

Module ElfInterface.
(** A pair of members [x_offset_], [x_size_]. *)
Record Range : Type := mkRange { r_offset : Z; r_size : Z }.

Record t : Type := mk {
  memory_ : Memory;
  pt_loads_ : gmap Z LoadInfo;
  dynamic_ : Range;
  dynamic_vaddr_ : Z;
  eh_frame_hdr_ : Range;
  eh_frame_range_ : Range;
  debug_frame_range_ : Range;
  gnu_debugdata_ : Range;
  soname_type_ : SonameType;
  soname_ : list Z;
  last_error_ : ErrorData;
  eh_frame_ : option Section_;
  symbols_ : list Symbols.t;
  strtabs_ : list (Z * Z);
  arm_ : option ArmPart
}.

Definition none_range : Range := mkRange 0 0.

Definition new (m : Memory) (arm : bool) : t :=
  mk m ∅ none_range 0 none_range none_range none_range none_range SONAME_UNKNOWN [] (mkError ERROR_NONE 0) None [] []
    (if arm then Some (mkArm 0 0 ∅) else None).

Definition set_loads (l : gmap Z LoadInfo) (s : t) : t :=
  mk (memory_ s) l (dynamic_ s) (dynamic_vaddr_ s) (eh_frame_hdr_ s) (eh_frame_range_ s) (debug_frame_range_ s)
    (gnu_debugdata_ s) (soname_type_ s) (soname_ s) (last_error_ s) (eh_frame_ s) (symbols_ s) (strtabs_ s) (arm_ s).
Definition set_dynamic (r : Range) (v : Z) (s : t) : t :=
  mk (memory_ s) (pt_loads_ s) r v (eh_frame_hdr_ s) (eh_frame_range_ s) (debug_frame_range_ s)
    (gnu_debugdata_ s) (soname_type_ s) (soname_ s) (last_error_ s) (eh_frame_ s) (symbols_ s) (strtabs_ s) (arm_ s).
Definition set_hdr (r : Range) (s : t) : t :=
  mk (memory_ s) (pt_loads_ s) (dynamic_ s) (dynamic_vaddr_ s) r (eh_frame_range_ s) (debug_frame_range_ s)
    (gnu_debugdata_ s) (soname_type_ s) (soname_ s) (last_error_ s) (eh_frame_ s) (symbols_ s) (strtabs_ s) (arm_ s).
Definition set_eh_range (r : Range) (s : t) : t :=
  mk (memory_ s) (pt_loads_ s) (dynamic_ s) (dynamic_vaddr_ s) (eh_frame_hdr_ s) r (debug_frame_range_ s)
    (gnu_debugdata_ s) (soname_type_ s) (soname_ s) (last_error_ s) (eh_frame_ s) (symbols_ s) (strtabs_ s) (arm_ s).
Definition set_debug_range (r : Range) (s : t) : t :=
  mk (memory_ s) (pt_loads_ s) (dynamic_ s) (dynamic_vaddr_ s) (eh_frame_hdr_ s) (eh_frame_range_ s) r
    (gnu_debugdata_ s) (soname_type_ s) (soname_ s) (last_error_ s) (eh_frame_ s) (symbols_ s) (strtabs_ s) (arm_ s).
Definition set_debugdata (r : Range) (s : t) : t :=
  mk (memory_ s) (pt_loads_ s) (dynamic_ s) (dynamic_vaddr_ s) (eh_frame_hdr_ s) (eh_frame_range_ s) (debug_frame_range_ s)
    r (soname_type_ s) (soname_ s) (last_error_ s) (eh_frame_ s) (symbols_ s) (strtabs_ s) (arm_ s).
Definition set_soname (ty : SonameType) (n : list Z) (s : t) : t :=
  mk (memory_ s) (pt_loads_ s) (dynamic_ s) (dynamic_vaddr_ s) (eh_frame_hdr_ s) (eh_frame_range_ s) (debug_frame_range_ s)
    (gnu_debugdata_ s) ty n (last_error_ s) (eh_frame_ s) (symbols_ s) (strtabs_ s) (arm_ s).
Definition set_error (e : ErrorData) (s : t) : t :=
  mk (memory_ s) (pt_loads_ s) (dynamic_ s) (dynamic_vaddr_ s) (eh_frame_hdr_ s) (eh_frame_range_ s) (debug_frame_range_ s)
    (gnu_debugdata_ s) (soname_type_ s) (soname_ s) e (eh_frame_ s) (symbols_ s) (strtabs_ s) (arm_ s).
Definition set_eh_frame (e : option Section_) (s : t) : t :=
  mk (memory_ s) (pt_loads_ s) (dynamic_ s) (dynamic_vaddr_ s) (eh_frame_hdr_ s) (eh_frame_range_ s) (debug_frame_range_ s)
    (gnu_debugdata_ s) (soname_type_ s) (soname_ s) (last_error_ s) e (symbols_ s) (strtabs_ s) (arm_ s).
Definition set_symbols (l : list Symbols.t) (s : t) : t :=
  mk (memory_ s) (pt_loads_ s) (dynamic_ s) (dynamic_vaddr_ s) (eh_frame_hdr_ s) (eh_frame_range_ s) (debug_frame_range_ s)
    (gnu_debugdata_ s) (soname_type_ s) (soname_ s) (last_error_ s) (eh_frame_ s) l (strtabs_ s) (arm_ s).
Definition set_strtabs (l : list (Z * Z)) (s : t) : t :=
  mk (memory_ s) (pt_loads_ s) (dynamic_ s) (dynamic_vaddr_ s) (eh_frame_hdr_ s) (eh_frame_range_ s) (debug_frame_range_ s)
    (gnu_debugdata_ s) (soname_type_ s) (soname_ s) (last_error_ s) (eh_frame_ s) (symbols_ s) l (arm_ s).
Definition set_arm (a : option ArmPart) (s : t) : t :=
  mk (memory_ s) (pt_loads_ s) (dynamic_ s) (dynamic_vaddr_ s) (eh_frame_hdr_ s) (eh_frame_range_ s) (debug_frame_range_ s)
    (gnu_debugdata_ s) (soname_type_ s) (soname_ s) (last_error_ s) (eh_frame_ s) (symbols_ s) (strtabs_ s) a.

Definition fail_code (c : ErrorCode) (s : t) : t := set_error (mkError c (address (last_error_ s))) s.
Definition fail_at (a : Z) (s : t) : t := set_error (mkError ERROR_MEMORY_INVALID a) s.

(** ** Operations: [None] for false, and the object afterwards *)

Definition op (A : Type) : Type := t -> outcome (option A * t).

#[global] Instance op_ret : MRet op := fun A a s => Ok (Some a, s).
#[global] Instance op_bind : MBind op := fun A B f m s =>
  match m s with
  | Ok (Some a, s) => f a s
  | Ok (None, s) => Ok (None, s)
  | Fault e => Fault e
  end.

Definition none {A} : op A := fun s => Ok (None, s).
Definition gets {A} (f : t -> A) : op A := fun s => Ok (Some (f s), s).
Definition modify (f : t -> t) : op unit := fun s => Ok (Some (), f s).
Definition invalid {A} (a : Z) : op A := fun s => Ok (None, fail_at a s).
Definition lift {A} (o : outcome A) : op A := fun s => a ← o; Ok (Some a, s).

(** The result of [m] is not looked at. *)
Definition ignored {A} (m : op A) : op unit := fun s => r ← m s; Ok (Some (), r.2).

(** [int] multiplication of two 16-bit fields. *)
Definition mul_int (a b : Z) : outcome Z := if a * b <? 2 ^ 31 then Ok (a * b) else Fault SignedOverflow.

(** [Memory::ReadField] into a fresh structure *)
Definition ReadField (m : Memory) (addr : Z) (f : Z * Z) : option Z :=
  if 2 ^ 64 <=? addr + f.1 then None else le_val <$> ReadFully m (addr + f.1) f.2.

(** [Read(addr, block + pos, size)]: the number of bytes, and the block afterwards. *)
Definition read_into (m : Memory) (addr pos size : Z) (block : list Z) : Z * list Z :=
  let d := m addr size in (blen d, splice pos d block).

(** [ReadField] into a structure that is used again. *)
Definition read_field_into (m : Memory) (addr : Z) (f : Z * Z) (block : list Z) : bool * list Z :=
  if 2 ^ 64 <=? addr + f.1 then (false, block)
  else let r := read_into m (addr + f.1) f.1 f.2 block in (r.1 =? f.2, r.2).

Section Elf.
Context {A : Arch} {ET : ElfTypes}.
#[local] Instance elf_address : AddressType := et_address.
#[local] Instance elf_sym : SymType := et_sym.
Variable fuel : nat.

(** ** Program headers *)

Definition field_at (offset : Z) (f : Z * Z) : op Z := fun s =>
  match ReadField (memory_ s) offset f with
  | Some v => Ok (Some v, s)
  | None => Ok (None, fail_at (u64 (offset + f.1)) s)
  end.

(** The virtual [HandleType]; [ElfInterfaceArm] handles the exception index. *)
Definition HandleType (offset type load_bias : Z) : op bool := fun s =>
  match arm_ s with
  | None => Ok (Some false, s)
  | Some a =>
      if negb (type =? PT_ARM_EXIDX) then Ok (Some false, s)
      else
        match ReadField (memory_ s) offset p_vaddr, ReadField (memory_ s) offset p_memsz with
        | Some vaddr, Some memsz =>
            Ok (Some true, set_arm (Some (mkArm (u64 (vaddr - load_bias)) (szw (memsz / 8)) (addrs_ a))) s)
        | _, _ => Ok (Some true, s)
        end
  end.

(** One round of the loop of [ReadProgramHeaders]: the load bias afterwards. *)
Definition program_header (offset load_bias : Z) : op Z :=
  type ← field_at offset p_type;
  handled ← HandleType offset type load_bias;
  if handled : bool then mret load_bias
  else if type =? PT_LOAD then
    flags ← field_at offset p_flags;
    if Z.land flags PF_X =? 0 then mret load_bias
    else
      vaddr ← field_at offset p_vaddr;
      off ← field_at offset p_offset;
      memsz ← field_at offset p_memsz;
      _ ← modify (fun s => set_loads (<[off := mkLoad off vaddr (szw memsz)]> (pt_loads_ s)) s);
      mret (if off =? 0 then vaddr else load_bias)
  else if type =? PT_GNU_EH_FRAME then
    off ← field_at offset p_offset;
    _ ← modify (fun s => set_hdr (mkRange off (r_size (eh_frame_hdr_ s))) s);
    memsz ← field_at offset p_memsz;
    _ ← modify (fun s => set_hdr (mkRange (r_offset (eh_frame_hdr_ s)) memsz) s);
    mret load_bias
  else if type =? PT_DYNAMIC then
    off ← field_at offset p_offset;
    _ ← modify (fun s => set_dynamic (mkRange off (r_size (dynamic_ s))) (dynamic_vaddr_ s) s);
    vaddr ← field_at offset p_vaddr;
    _ ← modify (fun s => set_dynamic (dynamic_ s) vaddr s);
    memsz ← field_at offset p_memsz;
    _ ← modify (fun s => set_dynamic (mkRange (r_offset (dynamic_ s)) memsz) (dynamic_vaddr_ s) s);
    mret load_bias
  else mret load_bias.

Fixpoint program_headers (n : nat) (entsize offset load_bias : Z) : op Z :=
  match n with
  | O => mret load_bias
  | S n =>
      load_bias ← program_header offset load_bias;
      program_headers n entsize (u64 (offset + entsize)) load_bias
  end.

(** [ReadProgramHeaders]: the load bias, from 0. *)
Definition ReadProgramHeaders (ehdr : list Z) (load_bias : Z) : op Z :=
  program_headers (Z.to_nat (field e_phnum ehdr)) (field e_phentsize ehdr) (field e_phoff ehdr) load_bias.

(** [GetLoadBias(memory)]: a short read leaves what the structures held ([junk]). *)
Fixpoint load_bias_loop (m : Memory) (junk : nat -> list Z) (n : nat) (entsize offset : Z) : Z :=
  match n with
  | O => 0
  | S n' =>
      let r := read_into m offset 0 sizeof_phdr (junk n) in
      if r.1 =? 0 then 0
      else if (field p_type r.2 =? PT_LOAD) && (field p_offset r.2 =? 0) then field p_vaddr r.2
      else load_bias_loop m junk n' entsize (u64 (offset + entsize))
  end.

Definition GetLoadBias (m : Memory) (ehdr_junk : list Z) (junk : nat -> list Z) : Z :=
  let r := read_into m 0 0 sizeof_ehdr ehdr_junk in
  if r.1 =? 0 then 0
  else load_bias_loop m junk (Z.to_nat (field e_phnum r.2)) (field e_phentsize r.2) (field e_phoff r.2).

(** ** Section headers *)

(** Where the names of the sections are, and [shdr] afterwards; [sec_size] 0 for nowhere. *)
Definition section_names (ehdr shdr : list Z) (m : Memory) : outcome (Z * Z * list Z) :=
  if field e_shstrndx ehdr <? field e_shnum ehdr then
    d ← mul_int (field e_shstrndx ehdr) (field e_shentsize ehdr);
    let at_ := u64 (field e_shoff ehdr + d) in
    let '(ok1, shdr) := read_field_into m at_ sh_offset shdr in
    if ok1 : bool then
      let '(ok2, shdr) := read_field_into m at_ sh_size shdr in
      if ok2 : bool then Ok (field sh_offset shdr, field sh_size shdr, shdr) else Ok (0, 0, shdr)
    else Ok (0, 0, shdr)
  else Ok (0, 0, shdr).

(** A section header of type PROGBITS with the name [name]. *)
Definition named_section (name shdr : list Z) (s : t) : t :=
  let r := mkRange (field sh_offset shdr) (field sh_size shdr) in
  if bool_decide (name = str ".debug_frame") then set_debug_range r s
  else if bool_decide (name = str ".gnu_debugdata") then set_debugdata r s
  else if bool_decide (name = str ".eh_frame") then set_eh_range r s
  else if (r_offset (eh_frame_hdr_ s) =? 0) && bool_decide (name = str ".eh_frame_hdr") then set_hdr r s
  else s.

(** The header [shdr] has been read. *)
Definition section_header (ehdr junk : list Z) (sec_offset sec_size : Z) (shdr : list Z) : op unit := fun s =>
  let type := field sh_type shdr in
  if (type =? SHT_SYMTAB) || (type =? SHT_DYNSYM) then
    if field e_shnum ehdr <=? field sh_link shdr then Ok (None, fail_code ERROR_UNWIND_INFO s)
    else
      let str_offset := aw (field e_shoff ehdr + u32 (field sh_link shdr * field e_shentsize ehdr)) in
      let r := read_into (memory_ s) str_offset 0 sizeof_shdr junk in
      if r.1 =? 0 then Ok (None, fail_at str_offset s)
      else if negb (field sh_type r.2 =? SHT_STRTAB) then Ok (None, fail_code ERROR_UNWIND_INFO s)
      else
        let sym := Symbols.new (field sh_offset shdr) (field sh_size shdr) (field sh_entsize shdr)
                     (field sh_offset r.2) (field sh_size r.2) in
        Ok (Some (), set_symbols (symbols_ s ++ [sym]) s)
  else if (type =? SHT_PROGBITS) && negb (sec_size =? 0) then
    if field sh_name shdr <? sec_size then
      name ← Symbols.read_name (memory_ s) fuel (u64 (sec_offset + field sh_name shdr)) (2 ^ 64 - 1);
      match name with
      | Some name => Ok (Some (), named_section name shdr s)
      | None => Ok (Some (), s)
      end
    else Ok (Some (), s)
  else if type =? SHT_STRTAB then
    Ok (Some (), set_strtabs (strtabs_ s ++ [(field sh_addr shdr, field sh_offset shdr)]) s)
  else Ok (Some (), s).

Fixpoint section_headers (n : nat) (ehdr : list Z) (junk : nat -> list Z) (sec_offset sec_size offset : Z)
    (shdr : list Z) : op unit :=
  match n with
  | O => mret ()
  | S n' =>
      m ← gets memory_;
      let r := read_into m offset 0 sizeof_shdr shdr in
      if r.1 =? 0 then invalid offset
      else
        _ ← section_header ehdr (junk n) sec_offset sec_size r.2;
        section_headers n' ehdr junk sec_offset sec_size (u64 (offset + field e_shentsize ehdr)) r.2
  end.

(** [ReadSectionHeaders] *)
Definition ReadSectionHeaders (ehdr shdr : list Z) (junk : nat -> list Z) : op unit :=
  m ← gets memory_;
  names ← lift (section_names ehdr shdr m);
  let '(sec_offset, sec_size, shdr) := names in
  section_headers (Z.to_nat (field e_shnum ehdr - 1)) ehdr junk sec_offset sec_size
    (u64 (field e_shoff ehdr + field e_shentsize ehdr)) shdr.

(** [ReadAllHeaders], the [Init] of the derived classes: errors in the section headers are
    ignored. *)
Definition ReadAllHeaders (shdr : list Z) (junk : nat -> list Z) (load_bias : Z) : op Z :=
  m ← gets memory_;
  match ReadFully m 0 sizeof_ehdr with
  | None => invalid 0
  | Some ehdr =>
      load_bias ← ReadProgramHeaders ehdr load_bias;
      _ ← ignored (ReadSectionHeaders ehdr shdr junk);
      mret load_bias
  end.

(** [GetMaxSizeWithTemplate]: [*size] afterwards. *)
Definition GetMaxSize (m : Memory) (size : Z) : outcome Z :=
  match ReadFully m 0 sizeof_ehdr with
  | None => Ok size
  | Some ehdr =>
      if field e_shnum ehdr =? 0 then Ok size
      else d ← mul_int (field e_shentsize ehdr) (field e_shnum ehdr); Ok (aw (field e_shoff ehdr + d))
  end.

(** ** Unwind sections *)

(** [eh_frame_->Init(offset, size)] on a new object; null if it fails.  [junk] is what the two
    uninitialised variables of [CreateSortedFdeList] hold. *)
Definition make_section (m : Memory) (hdr : bool) (junk : Z * Z) (r : Range) : outcome (option Section_) :=
  o ← (if hdr then EhFrameHdr.Init (r_offset r) (r_size r) (DwarfSectionImpl.new m)
       else DwarfSectionImpl.Init fuel junk.1 junk.2 (r_offset r) (r_size r) (DwarfSectionImpl.new m));
  match o with
  | (Some _, d) => Ok (Some (mkSection hdr d))
  | (None, _) => Ok None
  end.

(** [InitHeadersWithTemplate] *)
Definition InitHeaders (junk : Z * Z) (s : t) : outcome t :=
  e ← (if negb (r_offset (eh_frame_hdr_ s) =? 0) then make_section (memory_ s) true junk (eh_frame_hdr_ s)
       else Ok (eh_frame_ s));
  e ← (match e with
       | None => if negb (r_offset (eh_frame_range_ s) =? 0) then make_section (memory_ s) false junk (eh_frame_range_ s)
                 else Ok None
       | Some _ => Ok e
       end);
  let s := set_eh_frame e s in
  match e with
  | None => let r := mkRange 0 (2 ^ 64 - 1) in Ok (set_eh_range r (set_hdr r s))
  | Some _ => Ok s
  end.

(** ** Names *)

(** The loop over the dynamic section: the offset of the name, the address and the size of the
    string table; [None] if an entry cannot be read. *)
Fixpoint dynamic_loop (n : nat) (offset max_offset soname_offset strtab_addr strtab_size : Z) : op (Z * Z * Z) :=
  match n with
  | O => lift (Fault OutOfFuel)
  | S n =>
      if offset <? max_offset then
        m ← gets memory_;
        match ReadFully m offset sizeof_dyn with
        | None => invalid offset
        | Some dyn =>
            let tag := field d_tag dyn in
            let v := field d_un dyn in
            let next := u64 (offset + sizeof_dyn) in
            if tag =? DT_STRTAB then dynamic_loop n next max_offset soname_offset v strtab_size
            else if tag =? DT_STRSZ then dynamic_loop n next max_offset soname_offset strtab_addr v
            else if tag =? DT_SONAME then dynamic_loop n next max_offset v strtab_addr strtab_size
            else if tag =? DT_NULL then mret (soname_offset, strtab_addr, strtab_size)
            else dynamic_loop n next max_offset soname_offset strtab_addr strtab_size
        end
      else mret (soname_offset, strtab_addr, strtab_size)
  end.

(** [GetSonameWithTemplate]; a failed read leaves what it has read in [soname_]. *)
Definition read_soname (soname_offset : Z) : op (list Z) := fun s =>
  match ReadString (memory_ s) fuel soname_offset (2 ^ 64 - 1) with
  | None => Fault OutOfFuel
  | Some (true, name) => Ok (Some name, set_soname SONAME_VALID name s)
  | Some (false, name) => Ok (None, set_soname (soname_type_ s) name s)
  end.

Definition GetSoname : op (list Z) :=
  ty ← gets soname_type_;
  match ty with
  | SONAME_INVALID => none
  | SONAME_VALID => gets soname_
  | SONAME_UNKNOWN =>
      _ ← modify (fun s => set_soname SONAME_INVALID (soname_ s) s);
      d ← gets dynamic_;
      r ← dynamic_loop fuel (r_offset d) (u64 (r_offset d + r_size d)) 0 0 0;
      let '(soname_offset, strtab_addr, strtab_size) := r in
      tabs ← gets strtabs_;
      match find (fun e => e.1 =? strtab_addr) tabs with
      | None => none
      | Some e =>
          let soname_offset := u64 (e.2 + soname_offset) in
          if u64 (e.2 + strtab_size) <=? soname_offset then none else read_soname soname_offset
      end
  end.

(** The loop of [GetFunctionNameWithTemplate]: every table keeps what it has read. *)
Fixpoint function_name (m : Memory) (addr load_bias : Z) (l : list Symbols.t)
    : outcome (option (list Z * Z) * list Symbols.t) :=
  match l with
  | [] => Ok (None, [])
  | sym :: l =>
      r ← Symbols.GetName m fuel addr load_bias sym;
      match r with
      | (Some name, sym) => Ok (Some name, sym :: l)
      | (None, sym) => r ← function_name m addr load_bias l; Ok (r.1, sym :: r.2)
      end
  end.

Definition GetFunctionName (addr load_bias : Z) : op (list Z * Z) := fun s =>
  r ← function_name (memory_ s) addr load_bias (symbols_ s); Ok (r.1, set_symbols r.2 s).

Fixpoint global_variable (m : Memory) (name : list Z) (l : list Symbols.t) : outcome (option Z) :=
  match l with
  | [] => Ok None
  | sym :: l =>
      r ← Symbols.GetGlobal m fuel name sym;
      match r with
      | Some a => Ok (Some a)
      | None => global_variable m name l
      end
  end.

Definition GetGlobalVariable (name : list Z) (s : t) : outcome (option Z) := global_variable (memory_ s) name (symbols_ s).

(** ** One step *)

Section Step.
Context {RA : RegsArch} {IO : IterationOrder}.
Variable process_memory : Memory.

(** [DwarfSection::Step], with the virtual [GetFdeOffsetFromPc]. *)
Definition section_step (pc : Z) (regs : DwarfSection.Regs) (e : Section_)
    : outcome (option bool * DwarfSection.Regs * Section_) :=
  r ← DwarfSectionImpl.Step fuel
        (if with_hdr e then EhFrameHdr.GetFdeOffsetFromPc fuel else DwarfSectionImpl.GetFdeOffsetFromPc)
        process_memory pc regs (section e);
  Ok (r.1, mkSection (with_hdr e) r.2).

(** The error of a section as an error of the file; the address only for a failed read. *)
Definition convert_error (c : DwarfErrorCode) (a : Z) (e : ErrorData) : ErrorData :=
  match c with
  | DWARF_ERROR_NONE => mkError ERROR_NONE (address e)
  | DWARF_ERROR_MEMORY_INVALID => mkError ERROR_MEMORY_INVALID a
  | DWARF_ERROR_ILLEGAL_VALUE | DWARF_ERROR_ILLEGAL_STATE | DWARF_ERROR_STACK_INDEX_NOT_VALID
  | DWARF_ERROR_TOO_MANY_ITERATIONS | DWARF_ERROR_CFA_NOT_DEFINED | DWARF_ERROR_NO_FDES =>
      mkError ERROR_UNWIND_INFO (address e)
  | DWARF_ERROR_NOT_IMPLEMENTED | DWARF_ERROR_UNSUPPORTED_VERSION => mkError ERROR_UNSUPPORTED (address e)
  end.

(** [ElfInterface::Step]; nothing assigns [debug_frame_] and [gnu_debugdata_interface_], so
    they are null. *)
Definition Step (pc load_bias : Z) (regs : DwarfSection.Regs) (s : t)
    : outcome (option bool * DwarfSection.Regs * t) :=
  let s := set_error (mkError ERROR_NONE 0) s in
  if pc <? load_bias then Ok (None, regs, fail_code ERROR_UNWIND_INFO s)
  else
    match eh_frame_ s with
    | None => Ok (None, regs, s)
    | Some e =>
        r ← section_step (pc - load_bias) regs e;
        let '(finished, regs, e) := r in
        let s := set_eh_frame (Some e) s in
        match finished with
        | Some f => Ok (Some f, regs, s)
        | None =>
            let c := DwarfSectionImpl.core (section e) in
            Ok (None, regs, set_error (convert_error (DwarfSection.err_code c) (DwarfSection.err_address c) (last_error_ s)) s)
        end
    end.
End Step.
End Elf.
End ElfInterface.

(** ** Program headers in memory *)

Module PhdrFacts.
Import ElfInterface.

Record Phdr : Type := mkPhdr { ph_type : Z; ph_flags : Z; ph_offset : Z; ph_vaddr : Z; ph_memsz : Z }.

Section Table.
Context {A : Arch} {ET : ElfTypes}.

(** The memory holds a program header at [o]. *)
Definition phdr_at (m : Memory) (o : Z) (ph : Phdr) : Prop :=
  ReadField m o p_type = Some (ph_type ph) /\ ReadField m o p_flags = Some (ph_flags ph) /\
  ReadField m o p_offset = Some (ph_offset ph) /\ ReadField m o p_vaddr = Some (ph_vaddr ph) /\
  ReadField m o p_memsz = Some (ph_memsz ph).

Record phdr_table (m : Memory) (offset entsize : Z) (phs : list Phdr) : Prop := {
  pt_at i ph : phs !! i = Some ph -> phdr_at m (offset + Z.of_nat i * entsize) ph;
  pt_offset : 0 <= offset;
  pt_entsize : 0 <= entsize;
  pt_end : offset + Z.of_nat (length phs) * entsize < 2 ^ 64
}.

(** Executable segments. *)
Definition exec (ph : Phdr) : bool := (ph_type ph =? PT_LOAD) && negb (Z.land (ph_flags ph) PF_X =? 0).
Definition is_hdr (ph : Phdr) : bool := ph_type ph =? PT_GNU_EH_FRAME.
Definition is_dynamic (ph : Phdr) : bool := ph_type ph =? PT_DYNAMIC.
Definition at_zero (ph : Phdr) : bool := ph_offset ph =? 0.
Definition range_of (ph : Phdr) : Range := mkRange (ph_offset ph) (ph_memsz ph).
Definition load_of (ph : Phdr) : LoadInfo := mkLoad (ph_offset ph) (ph_vaddr ph) (szw (ph_memsz ph)).

(** What one header changes. *)
Definition bias_step (lb : Z) (ph : Phdr) : Z := if exec ph && at_zero ph then ph_vaddr ph else lb.
Definition state_step (s : t) (ph : Phdr) : t :=
  if exec ph then set_loads (<[ph_offset ph := load_of ph]> (pt_loads_ s)) s
  else if is_hdr ph then set_hdr (range_of ph) s
  else if is_dynamic ph then set_dynamic (range_of ph) (ph_vaddr ph) s
  else s.

Lemma field_at_ok s o f v : ReadField (memory_ s) o f = Some v -> field_at o f s = Ok (Some v, s).
Proof. intros H. unfold field_at. by rewrite H. Qed.

Lemma elf_step {T U} (m : op T) (k : T -> op U) a s s' : m s = Ok (Some a, s') -> (m ≫= k) s = k a s'.
Proof. intros H. unfold mbind, op_bind. by rewrite H. Qed.

Lemma elf_modify {T} f (k : unit -> op T) s : (modify f ≫= k) s = k () (f s).
Proof. done. Qed.

Lemma program_header_step s o lb ph :
  phdr_at (memory_ s) o ph -> arm_ s = None ->
  program_header o lb s = Ok (Some (bias_step lb ph), state_step s ph).
Proof.
  intros (H1 & H2 & H3 & H4 & H5) Ha. unfold program_header, bias_step, state_step, exec, is_hdr, is_dynamic.
  rewrite (elf_step _ _ _ _ _ (field_at_ok s o _ _ H1)).
  rewrite (elf_step (HandleType o (ph_type ph) lb) _ false s s) by (unfold HandleType; by rewrite Ha).
  destruct (Z.eqb_spec (ph_type ph) PT_LOAD) as [E|]; cbn [andb].
  - rewrite (elf_step _ _ _ _ _ (field_at_ok s o _ _ H2)).
    destruct (Z.land (ph_flags ph) PF_X =? 0); cbn [negb andb].
    + rewrite E. done.
    + rewrite (elf_step _ _ _ _ _ (field_at_ok s o _ _ H4)), (elf_step _ _ _ _ _ (field_at_ok s o _ _ H3)),
        (elf_step _ _ _ _ _ (field_at_ok s o _ _ H5)), elf_modify. done.
  - destruct (Z.eqb_spec (ph_type ph) PT_GNU_EH_FRAME).
    + rewrite (elf_step _ _ _ _ _ (field_at_ok s o _ _ H3)), elf_modify.
      rewrite (elf_step _ _ _ _ _ (field_at_ok (set_hdr _ s) o _ _ H5)), elf_modify. done.
    + destruct (Z.eqb_spec (ph_type ph) PT_DYNAMIC); [|done].
      rewrite (elf_step _ _ _ _ _ (field_at_ok s o _ _ H3)), elf_modify.
      rewrite (elf_step _ _ _ _ _ (field_at_ok (set_dynamic _ _ s) o _ _ H4)), elf_modify.
      match goal with |- (_ ≫= _) ?x = _ => rewrite (elf_step _ _ _ _ _ (field_at_ok x o _ _ H5)) end. by rewrite elf_modify.
Qed.

Lemma state_step_kept s ph : memory_ (state_step s ph) = memory_ s /\ arm_ (state_step s ph) = arm_ s.
Proof. unfold state_step. destruct (exec ph), (is_hdr ph), (is_dynamic ph); done. Qed.

Lemma program_headers_fold s entsize offset lb phs :
  phdr_table (memory_ s) offset entsize phs -> arm_ s = None ->
  program_headers (length phs) entsize offset lb s =
    Ok (Some (foldl bias_step lb phs), foldl state_step s phs).
Proof.
  revert s offset lb. induction phs as [|ph phs IH]; intros s offset lb [H1 H2 H3 H4] Ha; [done|].
  cbn [length] in *. cbn [program_headers foldl]. pose proof (H1 0%nat ph eq_refl) as H0. rewrite Z.mul_0_l, Z.add_0_r in H0.
  rewrite (elf_step _ _ _ _ _ (program_header_step s offset lb ph H0 Ha)).
  destruct (state_step_kept s ph) as [K1 K2]. rewrite uwrap_small by (unfold in_u; nia).
  apply IH; [|by rewrite K2]. rewrite K1. split; [|lia|done|lia].
  intros i ph' Hi. replace (offset + entsize + Z.of_nat i * entsize) with (offset + Z.of_nat (S i) * entsize) by lia.
  by apply H1.
Qed.

(** What the fold leaves: the last header of each kind. *)
Lemma fold_last {T} (P : Phdr -> bool) (f : Phdr -> T) x phs :
  foldl (fun x ph => if P ph then f ph else x) x phs = from_option f x (last (filter P phs)).
Proof.
  revert x. induction phs as [|ph phs IH]; intros x; [done|]. cbn [foldl]. rewrite IH, filter_cons.
  destruct (P ph) eqn:E.
  - rewrite decide_True by done. by rewrite last_cons; destruct (last (filter P phs)).
  - by rewrite decide_False by (intros []).
Qed.

Lemma bias_last lb phs :
  foldl bias_step lb phs = from_option ph_vaddr lb (last (filter (fun ph => exec ph && at_zero ph) phs)).
Proof. apply (fold_last (fun ph => exec ph && at_zero ph)). Qed.

(** The kinds exclude each other. *)
Lemma exec_not_hdr ph : exec ph = true -> is_hdr ph = false /\ is_dynamic ph = false.
Proof. unfold exec, is_hdr, is_dynamic. intros [->%Z.eqb_eq _]%andb_prop. done. Qed.
Lemma hdr_not_dynamic ph : is_hdr ph = true -> is_dynamic ph = false.
Proof. unfold is_hdr, is_dynamic. by intros ->%Z.eqb_eq. Qed.

Lemma fold_hdr s phs :
  eh_frame_hdr_ (foldl state_step s phs) = from_option range_of (eh_frame_hdr_ s) (last (filter is_hdr phs)).
Proof.
  rewrite <- fold_last. revert s. induction phs as [|ph phs IH]; intros s; [done|]. cbn [foldl]. rewrite IH. f_equal.
  unfold state_step. destruct (exec ph) eqn:E; [by destruct (exec_not_hdr ph E) as [-> _]|].
  destruct (is_hdr ph), (is_dynamic ph); done.
Qed.

Lemma fold_dynamic s phs :
  (dynamic_ (foldl state_step s phs), dynamic_vaddr_ (foldl state_step s phs)) =
  from_option (fun ph => (range_of ph, ph_vaddr ph)) (dynamic_ s, dynamic_vaddr_ s) (last (filter is_dynamic phs)).
Proof.
  rewrite <- fold_last. revert s. induction phs as [|ph phs IH]; intros s; [done|]. cbn [foldl]. rewrite IH. f_equal.
  unfold state_step. destruct (exec ph) eqn:E; [by destruct (exec_not_hdr ph E) as [_ ->]|].
  destruct (is_hdr ph) eqn:EH; [by rewrite (hdr_not_dynamic ph EH)|]. by destruct (is_dynamic ph).
Qed.

Lemma fold_loads s phs k :
  pt_loads_ (foldl state_step s phs) !! k =
  match last (filter (fun ph => exec ph && (ph_offset ph =? k)) phs) with
  | Some ph => Some (load_of ph)
  | None => pt_loads_ s !! k
  end.
Proof.
  transitivity (foldl (fun x ph => if exec ph && (ph_offset ph =? k) then Some (load_of ph) else x) (pt_loads_ s !! k) phs).
  2: { rewrite (fold_last (fun ph => exec ph && (ph_offset ph =? k)) (fun ph => Some (load_of ph))). by destruct (last _). }
  revert s. induction phs as [|ph phs IH]; intros s; [done|]. cbn [foldl]. rewrite IH. f_equal.
  unfold state_step. destruct (exec ph); cbn [andb]; [|destruct (is_hdr ph), (is_dynamic ph); done].
  cbn [set_loads pt_loads_]. destruct (Z.eqb_spec (ph_offset ph) k) as [->|].
  - by rewrite lookup_insert_eq.
  - by rewrite lookup_insert_ne.
Qed.
End Table.
End PhdrFacts.

(** ** Section headers keep what the program headers gave *)

Module ShdrFacts.
Import ElfInterface PhdrFacts.

(** The members the search for unwind information uses. *)
Definition same_unwind (s s' : t) : Prop :=
  memory_ s' = memory_ s /\ eh_frame_hdr_ s' = eh_frame_hdr_ s /\ eh_frame_ s' = eh_frame_ s.

#[global] Instance same_unwind_preorder : PreOrder same_unwind.
Proof.
  split; [done|]. intros a b c (H1 & H2 & H3) (K1 & K2 & K3). split_and!; congruence.
Qed.

Section Kept.
Context {A : Arch} {ET : ElfTypes}.

Lemma named_section_same name shdr s : r_offset (eh_frame_hdr_ s) <> 0 -> same_unwind s (named_section name shdr s).
Proof.
  intros H. unfold named_section. rewrite (proj2 (Z.eqb_neq _ _) H). cbn [andb].
  repeat (case_bool_decide; [done|]). done.
Qed.

Lemma section_header_same fuel ehdr junk so ss shdr s r s' :
  r_offset (eh_frame_hdr_ s) <> 0 -> section_header fuel ehdr junk so ss shdr s = Ok (r, s') -> same_unwind s s'.
Proof.
  intros Hn H. unfold section_header in H. cbv zeta in H.
  destruct (_ || _); [destruct (_ <=? _); [|destruct (_ =? 0); [|destruct (negb _)]]|destruct (_ && _); [destruct (_ <? _)|destruct (_ =? _)]];
    try (injection H as <- <-; done).
  apply bind_Ok_inv in H as (name & _ & H). destruct name; injection H as <- <-; [by apply named_section_same|done].
Qed.

Lemma section_headers_same fuel n ehdr junk so ss offset shdr s r s' :
  r_offset (eh_frame_hdr_ s) <> 0 -> section_headers fuel n ehdr junk so ss offset shdr s = Ok (r, s') -> same_unwind s s'.
Proof.
  revert offset shdr s. induction n as [|n IH]; intros offset shdr s Hn H; cbn [section_headers] in H; [by injection H as <- <-|].
  unfold mbind at 1, op_bind at 1, gets at 1 in H. cbv zeta in H. destruct (_ =? 0); [by injection H as <- <-|].
  unfold mbind, op_bind in H. destruct (section_header _ _ _ _ _ _ s) as [[[u|] s1]|] eqn:E; [| |done].
  - pose proof (section_header_same _ _ _ _ _ _ _ _ _ Hn E) as Hs. transitivity s1; [done|].
    eapply IH; [|exact H]. destruct Hs as (_ & -> & _). done.
  - injection H as <- <-. by eapply section_header_same.
Qed.

Lemma ReadSectionHeaders_same fuel ehdr shdr junk s r s' :
  r_offset (eh_frame_hdr_ s) <> 0 -> ReadSectionHeaders fuel ehdr shdr junk s = Ok (r, s') -> same_unwind s s'.
Proof.
  intros Hn H. unfold ReadSectionHeaders, mbind at 1, op_bind at 1, gets at 1 in H.
  unfold mbind, op_bind, lift in H. destruct (section_names ehdr shdr (memory_ s)) as [[[so ss] sh]|] eqn:E; [|done].
  cbn [mbind outcome_bind] in H. by eapply section_headers_same.
Qed.
End Kept.
End ShdrFacts.

(** ** Theorems *)

Module ElfTheorems.
Import Format Pieces CieFormat SectionFormat ScanFacts FdeFacts SectionFdes SearchFacts FormatTheorems HdrFacts HdrSearch HdrTheorems.
Import ElfInterface PhdrFacts ShdrFacts.

Section Theorems.
Context {A : Arch} {ET : ElfTypes}.
#[local] Existing Instances elf_address elf_sym.

Definition headers_of (ehdr : list Z) (m : Memory) (phs : list Phdr) : Prop :=
  phdr_table m (field e_phoff ehdr) (field e_phentsize ehdr) phs /\ Z.to_nat (field e_phnum ehdr) = length phs.

Lemma ReadProgramHeaders_fold m ehdr phs :
  headers_of ehdr m phs ->
  ReadProgramHeaders ehdr 0 (new m false) = Ok (Some (foldl bias_step 0 phs), foldl state_step (new m false) phs).
Proof. intros [Ht Hn]. unfold ReadProgramHeaders. rewrite Hn. by apply program_headers_fold. Qed.

(** Reading the program headers of a file: the load bias is the address of the last
    executable segment at offset 0, the last exception header and the last dynamic section
    are found with their sizes, and every executable segment is known by its offset. *)
Theorem program_headers_spec m ehdr phs :
  headers_of ehdr m phs ->
  exists s, ReadProgramHeaders ehdr 0 (new m false) =
      Ok (Some (from_option ph_vaddr 0 (last (filter (fun ph => exec ph && at_zero ph) phs))), s) /\
    eh_frame_hdr_ s = from_option range_of none_range (last (filter is_hdr phs)) /\
    (dynamic_ s, dynamic_vaddr_ s) = from_option (fun ph => (range_of ph, ph_vaddr ph)) (none_range, 0) (last (filter is_dynamic phs)) /\
    (forall k, pt_loads_ s !! k = load_of <$> last (filter (fun ph => exec ph && (ph_offset ph =? k)) phs)).
Proof.
  intros H. rewrite (ReadProgramHeaders_fold m ehdr phs H), bias_last. eexists. split_and!; [done|apply fold_hdr|apply fold_dynamic|].
  intros k. rewrite fold_loads. by destruct (last _).
Qed.

Lemma fold_same s phs : memory_ (foldl state_step s phs) = memory_ s /\ eh_frame_ (foldl state_step s phs) = eh_frame_ s.
Proof.
  revert s. induction phs as [|ph phs IH]; intros s; [done|]. cbn [foldl]. destruct (IH (state_step s ph)) as [-> ->].
  unfold state_step. destruct (exec ph), (is_hdr ph), (is_dynamic ph); done.
Qed.

(** [GetFdeFromPc] of the section [InitHeaders] has chosen. *)
Definition find_fde (fuel : nat) (pc : Z) (e : Section_) : outcome (option DwarfFde * DwarfSectionImpl.t) :=
  DwarfSectionImpl.GetFdeFromPc fuel
    (if with_hdr e then EhFrameHdr.GetFdeOffsetFromPc fuel else DwarfSectionImpl.GetFdeOffsetFromPc) pc (section e).

(** A file whose exception header has a search table. *)
Record unwind_file (m : Memory) (ehdr : list Z) (phs : list Phdr) (ph : Phdr) (ptr : Z) (es : list DwarfSectionImpl.HdrInfo)
    : Prop := {
  uf_ehdr : ReadFully m 0 sizeof_ehdr = Some ehdr;
  uf_headers : headers_of ehdr m phs;
  uf_hdr : last (filter is_hdr phs) = Some ph;
  uf_offset : ph_offset ph <> 0;
  uf_stored : stored m (ph_offset ph) (hdr_bytes (ph_offset ph) ptr es);
  uf_ok : hdr_ok (ph_offset ph) ptr es
}.

(** Entry [i] of the table is the function of the FDE [p], and [pc] is in it. *)
Record function_at (fuel : nat) (m : Memory) (es : list DwarfSectionImpl.HdrInfo) (i : nat) (p : placed) (pc : Z) : Prop := {
  fa_placed : placed_ok m p;
  fa_lsda : no_lsda (p_cie p);
  fa_aug : has_z (p_cie p) = true -> uleb (fd_aug_length (p_fde p)) (fd_aug_length_bytes (p_fde p));
  fa_fuel : (length (aug_string (p_cie p)) < fuel)%nat;
  fa_entry : es !! i = Some (DwarfSectionImpl.mkHdrInfo (fd_start (p_fde p)) (p_at p));
  fa_next : forall e, es !! S i = Some e -> pc < DwarfSectionImpl.hdr_pc e;
  fa_pc : fd_start (p_fde p) <= pc < fd_start (p_fde p) + fd_length (p_fde p)
}.

(** The load bias of a file with these program headers. *)
Definition bias_of (phs : list Phdr) : Z := from_option ph_vaddr 0 (last (filter (fun ph => exec ph && at_zero ph) phs)).

(** Reading such a file and setting up its sections; the section headers may be anything that can
    be read. *)
Lemma unwind_file_setup m fuel ehdr phs ph shdr junk junk2 r s1 ptr es :
  unwind_file m ehdr phs ph ptr es ->
  ReadSectionHeaders fuel ehdr shdr junk (foldl state_step (new m false) phs) = Ok (r, s1) ->
  memory_ s1 = m /\ ReadAllHeaders fuel shdr junk 0 (new m false) = Ok (Some (bias_of phs), s1) /\
  forall d, EhFrameHdr.Init (ph_offset ph) (ph_memsz ph) (DwarfSectionImpl.new m) = Ok (Some (), d) ->
    InitHeaders fuel junk2 s1 = Ok (set_eh_frame (Some (mkSection true d)) s1).
Proof.
  intros [He Hph Hlast Hz Hst Hok] HS.
  pose proof (ReadProgramHeaders_fold m ehdr phs Hph) as HP. rewrite bias_last in HP.
  set (s0 := foldl state_step (new m false) phs) in *. destruct (fold_same (new m false) phs) as [M0 E0].
  assert (eh_frame_hdr_ s0 = range_of ph) as H0 by (unfold s0; rewrite fold_hdr, Hlast; done).
  pose proof (ReadSectionHeaders_same fuel ehdr shdr junk s0 r s1) as Hsame.
  destruct Hsame as (S1 & S2 & S3); [by rewrite H0|done|].
  assert (memory_ s1 = m) as Hm by (rewrite S1; exact M0). split_and!; [done| |].
  - unfold ReadAllHeaders. unfold mbind at 1, op_bind at 1, gets at 1. change (memory_ (new m false)) with m. rewrite He.
    rewrite (elf_step _ _ _ _ _ HP). unfold mbind, op_bind, ignored. by rewrite HS.
  - intros d HI. unfold InitHeaders. rewrite S2, H0. cbn [range_of r_offset]. rewrite (proj2 (Z.eqb_neq _ _) Hz). cbn [negb].
    unfold make_section. rewrite Hm. cbn [range_of r_offset r_size]. rewrite HI, !bind_Ok. done.
Qed.

Lemma unwind_file_read m fuel ehdr phs ph shdr junk junk2 r ptr es :
  unwind_file m ehdr phs ph ptr es ->
  ReadSectionHeaders fuel ehdr shdr junk (foldl state_step (new m false) phs) = Ok r ->
  exists s1 s2 e,
    ReadAllHeaders fuel shdr junk 0 (new m false) = Ok (Some (bias_of phs), s1) /\
    InitHeaders fuel junk2 s1 = Ok s2 /\ eh_frame_ s2 = Some e /\
    forall i p pc, function_at fuel m es i p pc ->
      exists d, find_fde fuel pc e = Ok (Some (fde_at (p_at p) (p_cie_at p) (p_cie p) (p_rest p) (p_fde p)), d).
Proof.
  intros Hu HS. destruct r as [r s1]. destruct (unwind_file_setup m fuel ehdr phs ph shdr junk junk2 r s1 ptr es Hu HS) as (Hm & HR & HI).
  destruct Hu as [He Hph Hlast Hz Hst Hok].
  destruct (init_table (ph_offset ph) (ph_memsz ph) ptr es (DwarfSectionImpl.new m) Hst Hok eq_refl) as (d & Hd & Ht).
  exists s1, (set_eh_frame (Some (mkSection true d)) s1), (mkSection true d). split_and!; [done|by apply HI|done|].
  intros i p pc [Hp Hl Hu Hfu Hi Hnext Hpc].
  destruct (hdr_get_fde (ph_offset ph) es (DwarfSectionImpl.new m) d fuel i p pc) as [d' HG]; try done;
    [apply (ho_sorted _ _ _ Hok)|apply (ho_some _ _ _ Hok)|]. exists d'. exact HG.
Qed.

(** From a file to the unwind information of a function: reading the headers of a file whose
    exception header has a search table, and setting up its sections, gives a section that
    finds for a pc of a function the FDE that is stored for it.  The section headers may be
    anything that can be read. *)
Theorem elf_find_fde m fuel ehdr phs ph shdr junk junk2 r ptr es i p pc :
  unwind_file m ehdr phs ph ptr es ->
  ReadSectionHeaders fuel ehdr shdr junk (foldl state_step (new m false) phs) = Ok r ->
  function_at fuel m es i p pc ->
  exists s1 s2 e d,
    ReadAllHeaders fuel shdr junk 0 (new m false) = Ok (Some (bias_of phs), s1) /\
    InitHeaders fuel junk2 s1 = Ok s2 /\ eh_frame_ s2 = Some e /\
    find_fde fuel pc e = Ok (Some (fde_at (p_at p) (p_cie_at p) (p_cie p) (p_rest p) (p_fde p)), d).
Proof.
  intros Hf HS Hp. destruct (unwind_file_read m fuel ehdr phs ph shdr junk junk2 r ptr es Hf HS) as (s1 & s2 & e & H1 & H2 & H3 & H4).
  destruct (H4 i p pc Hp) as [d Hd]. by exists s1, s2, e, d.
Qed.
End Theorems.
End ElfTheorems.

(** ** Witnesses and concrete files *)

Module ElfExamples.
Import Format Pieces CieFormat SectionFormat ScanFacts FdeFacts SectionFdes SearchFacts FormatTheorems FormatExamples
  HdrFacts HdrSearch HdrTheorems.
Import ElfInterface PhdrFacts ShdrFacts ElfTheorems.

#[local] Existing Instances LP64 Elf64.

(** An [Elf64_Ehdr] with [phnum] program headers at 64 and [shnum] section headers at [shoff]. *)
Definition ehdr64 (phnum shoff shnum shstrndx : Z) : list Z :=
  [127; 69; 76; 70; 2] ++ zeros 11 ++ le_bytes 2 3 ++ le_bytes 2 62 ++ zeros 12 ++ le_bytes 8 64 ++ le_bytes 8 shoff ++
  zeros 4 ++ le_bytes 2 64 ++ le_bytes 2 56 ++ le_bytes 2 phnum ++ le_bytes 2 64 ++ le_bytes 2 shnum ++ le_bytes 2 shstrndx.

Definition phdr64 (ph : Phdr) : list Z :=
  le_bytes 4 (ph_type ph) ++ le_bytes 4 (ph_flags ph) ++ le_bytes 8 (ph_offset ph) ++ le_bytes 8 (ph_vaddr ph) ++ zeros 16 ++
  le_bytes 8 (ph_memsz ph) ++ zeros 8.

(** A file with the three adjacent functions in .eh_frame at 192, and .eh_frame_hdr behind it. *)
Definition file_eh_frame : list Z :=
  eh_frame 192 sample_desc sample_rest
    [EFde (mkFdeDesc 4096 16 0 [0] [0; 0; 0]); EFde (mkFdeDesc 4112 16 0 [0] [0; 0; 0]);
     EFde (mkFdeDesc 4128 16 0 [0] [0; 0; 0])].
Definition file_hdr_at : Z := 192 + blen file_eh_frame.
Definition file_table : list DwarfSectionImpl.HdrInfo :=
  [DwarfSectionImpl.mkHdrInfo 4096 216; DwarfSectionImpl.mkHdrInfo 4112 236; DwarfSectionImpl.mkHdrInfo 4128 256].
Definition file_phdrs : list Phdr := [mkPhdr PT_LOAD 5 0 0 8192; mkPhdr PT_GNU_EH_FRAME 4 file_hdr_at file_hdr_at 36].
Definition file_ehdr : list Z := ehdr64 2 0 0 0.
Definition file_head : list Z := file_ehdr ++ concat (phdr64 <$> file_phdrs) ++ zeros 16.
Definition file_hdr : list Z := hdr_bytes file_hdr_at 192 file_table.
Definition file : Memory := DwarfMemory.buffer (file_head ++ file_eh_frame ++ file_hdr).

Lemma file_headers : headers_of file_ehdr file file_phdrs.
Proof.
  split; [|reflexivity]. split; [|vm_compute; congruence|vm_compute; congruence|vm_compute; reflexivity].
  intros i ph Hi. do 2 (destruct i as [|i]; [injection Hi as <-; repeat split; vm_compute; reflexivity|]). discriminate Hi.
Qed.

Lemma program_headers_spec_witness :
  exists s, ReadProgramHeaders file_ehdr 0 (new file false) = Ok (Some 0, s) /\
    eh_frame_hdr_ s = mkRange file_hdr_at 36 /\ (dynamic_ s, dynamic_vaddr_ s) = (none_range, 0) /\
    (forall k, pt_loads_ s !! k = load_of <$> last (filter (fun ph => exec ph && (ph_offset ph =? k)) file_phdrs)).
Proof. apply (program_headers_spec file file_ehdr file_phdrs). exact file_headers. Defined.

Lemma file_table_ok : hdr_ok (AT := Addr64) file_hdr_at 192 file_table.
Proof.
  split.
  - split; vm_compute; congruence.
  - split; vm_compute; congruence.
  - repeat constructor; vm_compute; congruence.
  - repeat constructor.
  - cbn. lia.
  - vm_compute. reflexivity.
Qed.

Lemma sample_cie_ok : cie_entry_ok sample_desc sample_rest.
Proof.
  split; [exact sample_ok| |done|vm_compute; reflexivity]. exists 27. split; [|done]. apply (enc_R []); constructor.
Qed.

Lemma elf_find_fde_witness :
  exists s1 s2 e d,
    ReadAllHeaders 30 [] (fun _ => []) 0 (new file false) = Ok (Some 0, s1) /\
    InitHeaders 30 (0, 0) s1 = Ok s2 /\ eh_frame_ s2 = Some e /\
    find_fde 30 4128 e =
      Ok (Some (fde_at 256 192 sample_desc sample_rest (mkFdeDesc 4128 16 0 [0] [0; 0; 0])), d).
Proof.
  apply (elf_find_fde file 30 file_ehdr file_phdrs (mkPhdr PT_GNU_EH_FRAME 4 file_hdr_at file_hdr_at 36) [] (fun _ => []) (0, 0)
    (Some (), foldl state_step (new file false) file_phdrs) 192 file_table 2
    (mkPlaced 256 192 sample_desc sample_rest (mkFdeDesc 4128 16 0 [0] [0; 0; 0])) 4128).
  - split; [vm_compute; reflexivity|exact file_headers|reflexivity|vm_compute; congruence| |].
    + pose proof (stored_buffer (file_head ++ file_eh_frame) file_hdr []) as H. rewrite app_nil_r, <- app_assoc in H.
      apply H. vm_compute. reflexivity.
    + exact file_table_ok.
  - reflexivity.
  - split; [|repeat constructor| |cbn; lia|reflexivity|intros e [=]|cbn; lia].
    + split; [| |exact sample_cie_ok|repeat split; vm_compute; congruence].
      * exists (drop 24 file_eh_frame). apply (stored_buffer file_head file_eh_frame file_hdr). vm_compute. reflexivity.
      * exists []. rewrite app_nil_r.
        apply (stored_buffer (file_head ++ take 64 file_eh_frame) (drop 64 file_eh_frame) file_hdr). vm_compute. reflexivity.
    + intros _. apply uleb_byte. cbn. lia.
Defined.

(** A file whose first segment, at offset 0, is not executable, as current linkers write it. *)
Definition split_phdrs : list Phdr := [mkPhdr PT_LOAD 4 0 65536 4096; mkPhdr PT_LOAD 5 4096 69632 4096].
Definition split_file : Memory := DwarfMemory.buffer (ehdr64 2 0 0 0 ++ concat (phdr64 <$> split_phdrs)).

(** The two ways to get the load bias of a file disagree: the static function takes any first
    segment at offset 0, the reader of the headers only an executable one. *)
Example load_bias_differs :
  GetLoadBias split_file (zeros 64) (fun _ => zeros 56) = 65536 /\
  (r ← ReadProgramHeaders (ehdr64 2 0 0 0) 0 (new split_file false); Ok r.1) = Ok (Some 0).
Proof. split; vm_compute; reflexivity. Qed.

(** A string table at index 1, and a section header at index 2 of which the file has one byte. *)
Definition strtab_shdr : list Z :=
  zeros 4 ++ le_bytes 4 SHT_STRTAB ++ zeros 8 ++ le_bytes 8 768 ++ le_bytes 8 512 ++ zeros 32.
Definition cut_file : Memory := MemoryBuffer.Read (ehdr64 0 64 3 0 ++ zeros 64 ++ strtab_shdr ++ [0]).

(** The short read of the last header is accepted: the rest of it is the header before. *)
Example cut_header_repeats :
  (r ← ReadSectionHeaders 10 (ehdr64 0 64 3 0) (zeros 64) (fun _ => zeros 64) (new cut_file false); Ok (r.1, strtabs_ r.2)) =
  Ok (Some (), [(768, 512); (768, 512)]).
Proof. vm_compute. reflexivity. Qed.
End ElfExamples.
