(* ===== verification/UwElfArm.v ===== *)
(** * libunwindstack: the exception index of 32-bit arm

    Models external/libunwindstack-ndk/ElfInterfaceArm.{h,cpp}: finding the entry of a pc in the
    exception index, with a cache of the addresses that were read, executing it with
    UwArmExidx, and the names of thumb functions.  The program header of the index is handled
    in UwElfInterface ([HandleType]).

    A cached address of 0 stands for one that was not read, and so does a missing entry of
    [addrs_] (the subscript of the code creates it with 0).  The search halves a range of at
    most 2^64 entries: 65 rounds are enough. *)

From S2P Require Import Prelude UwDwarfMemory UwMemory UwSymbols UwDwarfOp UwDwarfCfa UwDwarfEval.
From S2P Require Import UwDwarfSection UwDwarfFormat UwEhFrameHdr UwArmExidx UwRegs UwElfInterface.

Module ElfInterfaceArm.
Import ElfInterface.

Definition no_arm : ArmPart := mkArm 0 0 ∅.
Definition part (s : t) : ArmPart := default no_arm (arm_ s).

Section Arm.
Context {A : Arch}.

(** [GetPrel31Addr]: the offset is a [uint32_t]. *)
Definition GetPrel31Addr (offset : Z) : op Z := fun s =>
  let offset := u32 offset in
  match Read32 (memory_ s) offset with
  | None => Ok (None, fail_at offset s)
  | Some data =>
      let value := Z.shiftr (swrap 32 (Z.shiftl data 1)) 1 in
      Ok (Some (u32 (offset + value)), s)
  end.

(** [addrs_[current]], read if it is 0. *)
Definition entry_addr (current : Z) : op Z :=
  a ← gets part;
  let addr := default 0 (addrs_ a !! current) in
  if addr =? 0 then
    addr ← GetPrel31Addr (u64 (start_offset_ a + szw (current * 8)));
    _ ← modify (set_arm (Some (mkArm (start_offset_ a) (total_entries_ a) (<[current := addr]> (addrs_ a)))));
    mret addr
  else mret addr.

(** The loop of [FindEntry]: the entry of an exact match, or the final [last]. *)
Fixpoint find_loop (n : nat) (pc first last : Z) : op (Z + Z) :=
  match n with
  | O => lift (Fault OutOfFuel)
  | S n =>
      if last <=? first then mret (inr last)
      else
        let current := szw (first + last) / 2 in
        addr ← entry_addr current;
        if pc =? addr then mret (inl current)
        else if pc <? addr then find_loop n pc first current
        else find_loop n pc (current + 1) last
  end.

Definition no_info {T} : op T := fun s => Ok (None, fail_code ERROR_UNWIND_INFO s).

(** [FindEntry] *)
Definition FindEntry (pc : Z) : op Z :=
  a ← gets part;
  if (start_offset_ a =? 0) || (total_entries_ a =? 0) then no_info
  else
    r ← find_loop EhFrameHdr.kRounds pc 0 (total_entries_ a);
    match r with
    | inl current => mret (u64 (start_offset_ a + szw (current * 8)))
    | inr last =>
        if negb (last =? 0) then mret (u64 (start_offset_ a + szw ((last - 1) * 8)))
        else no_info
    end.

(** The error of an execution as an error of the file. *)
Definition status_error (st : ArmStatus) (a : Z) (e : ErrorData) : ErrorData :=
  match st with
  | ARM_STATUS_NONE | ARM_STATUS_NO_UNWIND | ARM_STATUS_FINISH => mkError ERROR_NONE (address e)
  | ARM_STATUS_RESERVED | ARM_STATUS_SPARE | ARM_STATUS_TRUNCATED | ARM_STATUS_MALFORMED
  | ARM_STATUS_INVALID_ALIGNMENT | ARM_STATUS_INVALID_PERSONALITY => mkError ERROR_UNWIND_INFO (address e)
  | ARM_STATUS_READ_FAILED => mkError ERROR_MEMORY_INVALID a
  end.

Section Step.
Variable process_memory : Memory.

(** [arm.ExtractEntryData(entry_offset) && arm.Eval()] *)
Definition run_entry (m : Memory) (entry_offset : Z) (rs : list Z) : outcome (bool * ArmExidx.t) :=
  let arm := ArmExidx.set_cfa (u32 (Arm.sp rs)) (ArmExidx.new rs) in
  r ← ArmExidx.ExtractEntryData m (u32 entry_offset) arm;
  if r.1 : bool then
    e ← ArmExidx.Eval process_memory r.2;
    match e with
    | Some e => Ok e
    | None => Fault OutOfFuel
    end
  else Ok (false, r.2).

(** The registers after a successful execution. *)
Definition apply_entry (arm : ArmExidx.t) : list Z :=
  let rs := ArmExidx.regs arm in
  let rs := if ArmExidx.pc_set arm then rs else set_reg Arm.REG_PC (reg rs Arm.REG_LR) rs in
  set_reg Arm.REG_SP (ArmExidx.cfa arm) rs.

(** [StepExidx]: [*finished], or [None] for false. *)
Definition StepExidx (pc load_bias : Z) (regs : DwarfSection.Regs) (s : t)
    : outcome (option bool * DwarfSection.Regs * t) :=
  if pc <? load_bias then Ok (None, regs, fail_code ERROR_UNWIND_INFO s)
  else
    r ← FindEntry (u32 (pc - load_bias)) s;
    match r with
    | (None, s) => Ok (None, regs, s)
    | (Some entry_offset, s) =>
        r ← run_entry (memory_ s) entry_offset (DwarfSection.regs_ regs);
        let '(ok, arm) := r in
        let rs := if ok : bool then apply_entry arm else ArmExidx.regs arm in
        let regs := DwarfSection.mkRegs rs (DwarfSection.dex_pc regs) in
        if bool_decide (ArmExidx.status arm = ARM_STATUS_NO_UNWIND) then Ok (Some true, regs, s)
        else if ok then Ok (Some (Arm.pc rs =? 0), regs, s)
        else Ok (None, regs, set_error (status_error (ArmExidx.status arm) (ArmExidx.status_address arm) (last_error_ s)) s)
    end.

Context {IO : IterationOrder}.

(** [ElfInterfaceArm::Step]: the DWARF sections first. *)
Definition Step (fuel : nat) (pc load_bias : Z) (regs : DwarfSection.Regs) (s : t)
    : outcome (option bool * DwarfSection.Regs * t) :=
  r ← ElfInterface.Step (ET := Elf32) fuel (RA := RegsArm) process_memory pc load_bias regs s;
  let '(finished, regs, s) := r in
  match finished with
  | Some f => Ok (Some f, regs, s)
  | None => StepExidx pc load_bias regs s
  end.
End Step.

(** [GetFunctionName]: symbols of thumb functions have bit 0 set. *)
Definition GetFunctionName (fuel : nat) (addr load_bias : Z) : op (list Z * Z) :=
  r ← ElfInterface.GetFunctionName (ET := Elf32) fuel (Z.lor addr 1) load_bias;
  mret (r.1, Z.land r.2 (2 ^ 64 - 2)).
End Arm.
End ElfInterfaceArm.

(** ** The index in memory *)

Module IndexFacts.
Import ElfInterface ElfInterfaceArm.
Import DwarfSectionImpl(HdrInfo, mkHdrInfo, hdr_pc, hdr_offset).
Import HdrFacts HdrSearch PhdrFacts.

(** A 31-bit offset, sign extended by the two shifts. *)
Lemma prel31 v : - 2 ^ 30 <= v < 2 ^ 30 -> Z.shiftr (swrap 32 (Z.shiftl (v mod 2 ^ 31) 1)) 1 = v.
Proof.
  intros Hv. rewrite Z.shiftl_mul_pow2, Z.shiftr_div_pow2 by lia.
  assert (v mod 2 ^ 31 * 2 ^ 1 = 2 * v + - (v / 2 ^ 31) * 2 ^ 32) as -> by (rewrite Zmod_eq_full by lia; lia).
  assert (swrap 32 (2 * v + - (v / 2 ^ 31) * 2 ^ 32) = swrap 32 (2 * v)) as ->.
  { unfold swrap. f_equal. replace (2 * v + - (v / 2 ^ 31) * 2 ^ 32 + 2 ^ (32 - 1)) with
      (2 * v + 2 ^ (32 - 1) + - (v / 2 ^ 31) * 2 ^ 32) by ring. apply Z.mod_add. lia. }
  rewrite swrap_small by lia. change (2 ^ 1) with 2. rewrite Z.mul_comm, Z.div_mul; lia.
Qed.

(** An entry of the index: the pc where a function begins and the offset of the entry. *)
Record index_entry_ok (m : Memory) (start : Z) (i : nat) (e : HdrInfo) : Prop := {
  ie_offset : hdr_offset e = start + 8 * Z.of_nat i;
  ie_pc : 0 < hdr_pc e < 2 ^ 32;
  ie_near : - 2 ^ 30 <= hdr_pc e - hdr_offset e < 2 ^ 30;
  ie_word : Read32 m (hdr_offset e) = Some ((hdr_pc e - hdr_offset e) mod 2 ^ 31)
}.

Section Index.
Context {A : Arch}.

(** The index of a file and the cache of its addresses. *)
Record index_ok (start : Z) (es : list HdrInfo) (s : t) : Prop := {
  ix_start : start_offset_ (part s) = start;
  ix_total : total_entries_ (part s) = Z.of_nat (length es);
  ix_range : 0 < start /\ start + 8 * Z.of_nat (length es) < 2 ^ 32;
  ix_entries : forall i e, es !! i = Some e -> index_entry_ok (memory_ s) start i e;
  ix_cache : forall i a, addrs_ (part s) !! Z.of_nat i = Some a -> hdr_pc <$> es !! i = Some a
}.

Lemma get_addr start es s i e :
  index_ok start es s -> es !! i = Some e ->
  exists s', entry_addr (Z.of_nat i) s = Ok (Some (hdr_pc e), s') /\ index_ok start es s'.
Proof.
  intros [H1 H2 [H3 H4] H5 H6] Hi. pose proof (lookup_lt_Some _ _ _ Hi). destruct (H5 i e Hi) as [E1 E2 E3 E4].
  pose proof size_bits_ge. unfold entry_addr. rewrite (elf_step (gets part) _ (part s) s s) by done. cbv zeta.
  destruct (addrs_ (part s) !! Z.of_nat i) as [a|] eqn:EC.
  { pose proof (H6 i a EC) as Ha. rewrite Hi in Ha. injection Ha as <-. cbn [from_option]. unfold id.
    destruct (Z.eqb_spec (hdr_pc e) 0); [lia|]. by exists s. }
  cbn [from_option Z.eqb]. unfold id. rewrite szw_small by (unfold in_size, in_u; lia).
  rewrite H1, uwrap_small by (unfold in_u; lia). replace (start + Z.of_nat i * 8) with (hdr_offset e) by lia.
  rewrite (elf_step (GetPrel31Addr (hdr_offset e)) _ (hdr_pc e) s s).
  2: { unfold GetPrel31Addr. rewrite uwrap_small by (unfold in_u; lia). rewrite E4, prel31 by done.
       rewrite uwrap_small by (unfold in_u; lia). do 3 f_equal. lia. }
  rewrite elf_modify. eexists. split; [done|]. split; try done.
  intros j a. cbn. destruct (decide (j = i)) as [->|].
  - rewrite lookup_insert_eq. intros [= <-]. by rewrite Hi.
  - rewrite lookup_insert_ne by lia. apply H6.
Qed.
End Index.
End IndexFacts.

(** ** Theorems *)

Module IndexTheorems.
Import ElfInterface ElfInterfaceArm.
Import DwarfSectionImpl(HdrInfo, mkHdrInfo, hdr_pc, hdr_offset).
Import HdrFacts HdrSearch PhdrFacts IndexFacts.

Section Search.
Context {A : Arch}.
Variables (start pc : Z) (es : list HdrInfo).
Hypothesis Hsorted : table_sorted es.

(** What the loop has found. *)
Definition located (r : Z + Z) : Prop :=
  match r with
  | inl current => exists j e, current = Z.of_nat j /\ es !! j = Some e /\ hdr_pc e = pc
  | inr k => exists k', k = Z.of_nat k' /\ splits pc es k'
  end.

Lemma find_loop_located n first last_ s :
  index_ok start es s -> narrowed pc es first last_ -> Z.of_nat (last_ - first) < 2 ^ Z.of_nat n ->
  exists r s', find_loop (S n) pc (Z.of_nat first) (Z.of_nat last_) s = Ok (Some r, s') /\ index_ok start es s' /\ located r.
Proof.
  revert first last_ s. induction n as [|n IH]; intros first last_ s H HN Hlt; cbn [find_loop];
    (destruct (Z.leb_spec (Z.of_nat last_) (Z.of_nat first));
     [assert (first = last_) as -> by (destruct HN; lia);
      by exists (inr (Z.of_nat last_)), s; split_and!; [| |apply narrowed_empty]|]).
  - destruct HN. lia.
  - pose proof (proj1 HN). pose proof (ix_range _ _ _ H). pose proof size_bits_ge.
    rewrite szw_small by (unfold in_size, in_u; lia).
    replace ((Z.of_nat first + Z.of_nat last_) / 2) with (Z.of_nat ((first + last_) / 2)) by (rewrite Nat2Z.inj_div; f_equal; lia).
    pose proof (Nat.div_mod_eq (first + last_) 2). pose proof (Nat.mod_upper_bound (first + last_) 2).
    set (m := ((first + last_) / 2)%nat) in *.
    destruct (lookup_lt_is_Some_2 es m) as [e He]; [lia|].
    destruct (get_addr start es s m e H He) as (s1 & HG & K1).
    rewrite (elf_step _ _ _ _ _ HG). rewrite Nat2Z.inj_succ, Z.pow_succ_r in Hlt by lia.
    destruct (Z.eqb_spec pc (hdr_pc e)) as [E|].
    { eexists (inl _), s1. split_and!; [done|done|]. by exists m, e. }
    destruct (Z.ltb_spec pc (hdr_pc e)).
    + apply (IH first m s1 K1); [|lia]. apply (narrow_left pc es Hsorted first last_ m e); try done; lia.
    + replace (Z.of_nat m + 1) with (Z.of_nat (S m)) by lia. apply (IH (S m) last_ s1 K1); [|lia].
      apply (narrow_right pc es Hsorted first last_ m e); try done; lia.
Qed.

#[local] Opaque EhFrameHdr.kRounds find_loop.

Lemma find_entry_covering s :
  index_ok start es s -> (0 < length es)%nat ->
  exists s', FindEntry pc s = Ok (hdr_offset <$> covering pc es, s') /\ index_ok start es s'.
Proof.
  intros H Hpos. pose proof (ix_range _ _ _ H). pose proof size_bits_ge.
  assert (exists r s', find_loop EhFrameHdr.kRounds pc 0 (Z.of_nat (length es)) s = Ok (Some r, s') /\ index_ok start es s' /\
    located r) as (r & s1 & HR & K1 & HL).
  { destruct rounds_enough as (n & -> & Hn). rewrite <- Nat2Z.inj_0. apply find_loop_located; [done| |rewrite Hn; lia].
    split; [lia|]. intros j e Hj. apply lookup_lt_Some in Hj. split; lia. }
  unfold FindEntry. rewrite (elf_step (gets part) _ (part s) s s) by done.
  rewrite (ix_start _ _ _ H), (ix_total _ _ _ H).
  destruct (Z.eqb_spec start 0); [lia|]. destruct (Z.eqb_spec (Z.of_nat (length es)) 0); [lia|]. cbn [orb].
  rewrite (elf_step _ _ _ _ _ HR). destruct r as [current|k]; cbn [located] in HL.
  - destruct HL as (j & e & -> & Hj & Hp). rewrite (exact_covering pc es Hsorted j e Hj Hp).
    pose proof (lookup_lt_Some _ _ _ Hj). destruct (ix_entries _ _ _ H j e Hj) as [E1 _ _ _].
    rewrite szw_small by (unfold in_size, in_u; lia). rewrite uwrap_small by (unfold in_u; lia).
    exists s1. split; [|done]. unfold mret, op_ret. cbn. rewrite E1. do 3 f_equal. lia.
  - destruct HL as (k' & -> & Hs). rewrite (splits_covering _ _ _ Hs). destruct k' as [|k].
    + exists (fail_code ERROR_UNWIND_INFO s1). split; [done|]. by destruct K1; split.
    + destruct (Z.eqb_spec (Z.of_nat (S k)) 0); [lia|]. cbn [negb].
      destruct (lookup_lt_is_Some_2 es k) as [e He]; [destruct Hs; lia|].
      pose proof (lookup_lt_Some _ _ _ He). destruct (ix_entries _ _ _ H k e He) as [E1 _ _ _].
      rewrite szw_small by (unfold in_size, in_u; lia). rewrite uwrap_small by (unfold in_u; lia). rewrite He.
      exists s1. split; [|done]. unfold mret, op_ret. cbn. rewrite E1. do 3 f_equal. lia.
Qed.
End Search.

(** Lookups one after the other, each with the cache the one before left. *)
Fixpoint find_entries {A : Arch} (pcs : list Z) (s : t) : outcome (list (option Z) * t) :=
  match pcs with
  | [] => Ok ([], s)
  | pc :: pcs =>
      r ← FindEntry pc s;
      rest ← find_entries pcs r.2;
      Ok (r.1 :: rest.1, rest.2)
  end.

(** C26. The exception index: any sequence of lookups, sharing the cache, returns for each pc
    the offset of the last entry whose function does not begin after it, and fails for a pc
    before the first function. *)
Theorem find_entry_refines_index {A : Arch} start es s pcs :
  index_ok start es s -> table_sorted es -> (0 < length es)%nat ->
  exists s', find_entries pcs s = Ok ((fun pc => hdr_offset <$> covering pc es) <$> pcs, s').
Proof.
  intros H Hs Hpos. revert s H. induction pcs as [|pc pcs IH]; intros s H; [by exists s|]. cbn [find_entries fmap list_fmap].
  destruct (find_entry_covering start pc es Hs s H Hpos) as (s1 & -> & H1). rewrite bind_Ok. cbn [fst snd].
  destruct (IH s1 H1) as [s2 ->]. rewrite bind_Ok. by exists s2.
Qed.
End IndexTheorems.

(** ** Witnesses and concrete files *)

Module IndexExamples.
Import ElfInterface ElfInterfaceArm.
Import DwarfSectionImpl(HdrInfo, mkHdrInfo, hdr_pc, hdr_offset).
Import HdrFacts HdrSearch PhdrFacts IndexFacts IndexTheorems.

#[local] Existing Instance ILP32.

(** An index at 64: functions at 4096, 4112 and 8192; the second one pops r4 and lr. *)
Definition sample_index : list HdrInfo := [mkHdrInfo 4096 64; mkHdrInfo 4112 72; mkHdrInfo 8192 80].
Definition index_word (e : HdrInfo) : list Z := le_bytes 4 ((hdr_pc e - hdr_offset e) mod 2 ^ 31).
Definition index_bytes : list Z :=
  zeros 64 ++ index_word (mkHdrInfo 4096 64) ++ le_bytes 4 1 ++ index_word (mkHdrInfo 4112 72) ++ le_bytes 4 0x80a8b0b0 ++
  index_word (mkHdrInfo 8192 80) ++ le_bytes 4 1.
Definition index_file : t := set_arm (Some (mkArm 64 3 ∅)) (new (DwarfMemory.buffer index_bytes) true).

Lemma find_entry_refines_index_witness :
  exists s', find_entries [4000; 4112; 4096; 8191; 9000] index_file = Ok ([None; Some 72; Some 64; Some 72; Some 80], s').
Proof.
  apply (find_entry_refines_index 64 sample_index index_file [4000; 4112; 4096; 8191; 9000]).
  - split; [reflexivity|reflexivity|cbn; lia| |].
    + intros i e Hi. do 3 (destruct i as [|i]; [injection Hi as <-; split; vm_compute; intuition congruence|]). discriminate Hi.
    + intros i a Ha. discriminate Ha.
  - repeat constructor.
  - cbn. lia.
Defined.

(** The stack of the second function: r4 and the return address. *)
Definition index_stack : Memory := DwarfMemory.buffer (zeros 16 ++ le_bytes 4 444 ++ le_bytes 4 5000).

(** A step from the second function: both registers are popped, the pc is the return address
    and the stack pointer is behind them. *)
Example step_second_function :
  let r := StepExidx index_stack 4116 0 (DwarfSection.mkRegs (set_reg Arm.REG_SP 16 (replicate 16 7)) 0) index_file in
  (r ← r; let '(finished, regs, _) := r in
   Ok (finished, reg (DwarfSection.regs_ regs) 4, Arm.pc (DwarfSection.regs_ regs), Arm.sp (DwarfSection.regs_ regs))) =
  Ok (Some false, 444, 5000, 24).
Proof. vm_compute. reflexivity. Qed.

(** The program headers of a file with load bias 4096, the index first. *)
Definition phdr32 (ph : Phdr) : list Z :=
  le_bytes 4 (ph_type ph) ++ le_bytes 4 (ph_offset ph) ++ le_bytes 4 (ph_vaddr ph) ++ zeros 8 ++ le_bytes 4 (ph_memsz ph) ++
  le_bytes 4 (ph_flags ph) ++ zeros 4.
Definition ehdr32 : list Z := zeros 28 ++ le_bytes 4 52 ++ zeros 10 ++ le_bytes 2 32 ++ le_bytes 2 2 ++ zeros 6.
Definition exidx_ph : Phdr := mkPhdr PT_ARM_EXIDX 4 64 4160 24.
Definition load_ph : Phdr := mkPhdr PT_LOAD 5 0 4096 65536.

Definition index_start (phs : list Phdr) : outcome Z :=
  r ← ReadProgramHeaders (ET := Elf32) ehdr32 0 (new (DwarfMemory.buffer (ehdr32 ++ concat (phdr32 <$> phs))) true);
  Ok (start_offset_ (part r.2)).

(** The place of the index depends on the order of the headers: the load bias it is corrected
    with is the one of the headers before it. *)
Example exidx_before_load : index_start [load_ph; exidx_ph] = Ok 64 /\ index_start [exidx_ph; load_ph] = Ok 4160.
Proof. split; vm_compute; reflexivity. Qed.
End IndexExamples.
