(* ===== verification/UwElf.v ===== *)
(** * libunwindstack: ELF objects and the maps they belong to

    Models external/libunwindstack-ndk/Elf.{h,cpp} and MapInfo.{h,cpp}: telling the kind of an ELF
    file, reading it, relative pcs, one step of the unwinding (over a signal frame or by the
    unwind information of the file), and for a map of the process which memory its file is read
    from, the shared [Elf] objects and the cache of them.

    A [shared_ptr<Elf>] is an index into the list of objects of a [World]; the cache maps names to
    such indices.  Nothing in the repository turns the cache on, so its static members are part of
    the state.  The locks are held throughout the operations and are not represented.  What files
    contain and whether they can be mapped is the record [Files]. *)

From S2P Require Import Prelude HawkPrivate HawkDumper UwDwarfMemory UwMemory UwMaps UwSymbols UwDwarfOp UwDwarfCfa.
From S2P Require Import UwDwarfEval UwDwarfSection UwDwarfFormat UwEhFrameHdr UwArmExidx UwRegs UwElfInterface UwElfArm.

Definition ELFMAG : list Z := [127; 69; 76; 70].
Definition SELFMAG : Z := 4.
Definition EI_CLASS : Z := 4.
Definition EI_NIDENT : Z := 16.
Definition ELFCLASS32 : Z := 1.
Definition ELFCLASS64 : Z := 2.
Definition EM_386 : Z := 3.
Definition EM_ARM : Z := 40.
Definition EM_X86_64 : Z := 62.
Definition EM_AARCH64 : Z := 183.

(** What uninitialised variables hold. *)
Record Junk : Type := mkJunk {
  j_shdr : list Z; j_str_shdr : nat -> list Z; j_fde : Z * Z; j_ehdr : list Z; j_phdr : nat -> list Z; j_max_size : Z
}.

Module Elf.

(** The class of an interface. *)
Inductive InterfaceKind : Type := Interface32 | InterfaceArm | Interface64.
Record Interface : Type := mkInterface { kind : InterfaceKind; object : ElfInterface.t }.

Definition types_of (k : InterfaceKind) : ElfTypes :=
  match k with
  | Interface64 => Elf64
  | Interface32 | InterfaceArm => Elf32
  end.

(** [None] for a member that is not initialised; [gnu_debugdata_interface_] is never assigned. *)
Record t : Type := mk {
  memory_ : option Memory;
  valid_ : bool;
  load_bias_ : Z;
  interface_ : option Interface;
  machine_type_ : option Z;
  class_type_ : option Z;
  arch_ : option ArchEnum
}.

Definition new (m : option Memory) : t := mk m false 0 None None None None.

Definition set_interface (i : option Interface) (e : t) : t :=
  mk (memory_ e) (valid_ e) (load_bias_ e) i (machine_type_ e) (class_type_ e) (arch_ e).
Definition set_object (o : ElfInterface.t) (i : Interface) (e : t) : t := set_interface (Some (mkInterface (kind i) o)) e.
Definition set_read (valid : bool) (load_bias : Z) (e : t) : t :=
  mk (memory_ e) valid load_bias (interface_ e) (machine_type_ e) (class_type_ e) (arch_ e).
Definition set_class (c : Z) (e : t) : t :=
  mk (memory_ e) (valid_ e) (load_bias_ e) (interface_ e) (machine_type_ e) (Some c) (arch_ e).
Definition set_machine (v : Z) (e : t) : t :=
  mk (memory_ e) (valid_ e) (load_bias_ e) (interface_ e) (Some v) (class_type_ e) (arch_ e).
Definition set_arch (a : ArchEnum) (e : t) : t :=
  mk (memory_ e) (valid_ e) (load_bias_ e) (interface_ e) (machine_type_ e) (class_type_ e) (Some a).

(** What the registers use of the object. *)
Definition view (e : t) : ElfView := mkElf (valid_ e) (load_bias_ e) (default (fun _ _ => []) (memory_ e)).

(** ** Telling files apart *)

Definition read_byte (m : Memory) (addr : Z) : option Z := le_val <$> ReadFully m addr 1.

Definition IsValidElf (memory : option Memory) : bool :=
  match memory with
  | None => false
  | Some m =>
      match ReadFully m 0 SELFMAG with
      | None => false
      | Some e_ident => bool_decide (e_ident = ELFMAG)
      end
  end.

Section Elf.
Context {A : Arch}.
Variable fuel : nat.
Variable junk : Junk.

(** [GetInfo]: [*valid] and [*size]. *)
Definition GetInfo (memory : option Memory) (size : Z) : outcome (bool * Z) :=
  if negb (IsValidElf memory) then Ok (false, size)
  else
    let m := default (fun _ _ => []) memory in
    match read_byte m EI_CLASS with
    | None => Ok (true, 0)
    | Some class_type =>
        if class_type =? ELFCLASS32 then size ← ElfInterface.GetMaxSize (ET := Elf32) m 0; Ok (true, size)
        else if class_type =? ELFCLASS64 then size ← ElfInterface.GetMaxSize (ET := Elf64) m 0; Ok (true, size)
        else Ok (false, 0)
    end.

Definition CreateInterfaceFromMemory (m : Memory) (e : t) : option Interface * t :=
  if negb (IsValidElf (Some m)) then (None, e)
  else
    match read_byte m EI_CLASS with
    | None => (None, e)
    | Some class_type =>
        let e := set_class class_type e in
        if class_type =? ELFCLASS32 then
          match le_val <$> ReadFully m (EI_NIDENT + 2) 2 with
          | None => (None, e)
          | Some e_machine =>
              let e := set_machine e_machine e in
              if e_machine =? EM_ARM then (Some (mkInterface InterfaceArm (ElfInterface.new m true)), set_arch ARCH_ARM e)
              else if e_machine =? EM_386 then (Some (mkInterface Interface32 (ElfInterface.new m false)), set_arch ARCH_X86 e)
              else (None, e)
          end
        else if class_type =? ELFCLASS64 then
          match le_val <$> ReadFully m (EI_NIDENT + 2) 2 with
          | None => (None, e)
          | Some e_machine =>
              let e := set_machine e_machine e in
              if e_machine =? EM_AARCH64 then (Some (mkInterface Interface64 (ElfInterface.new m false)), set_arch ARCH_ARM64 e)
              else if e_machine =? EM_X86_64 then
                (Some (mkInterface Interface64 (ElfInterface.new m false)), set_arch ARCH_X86_64 e)
              else (None, e)
          end
        else (None, e)
    end.

(** [Elf::GetLoadBias(memory)] *)
Definition GetLoadBias (memory : option Memory) : Z :=
  if negb (IsValidElf memory) then 0
  else
    let m := default (fun _ _ => []) memory in
    let r := m EI_CLASS 1 in
    if blen r =? 0 then 0
    else if le_val r =? ELFCLASS32 then ElfInterface.GetLoadBias (ET := Elf32) m (j_ehdr junk) (j_phdr junk)
    else if le_val r =? ELFCLASS64 then ElfInterface.GetLoadBias (ET := Elf64) m (j_ehdr junk) (j_phdr junk)
    else 0.

(** ** Reading a file *)

(** What [*load_bias] holds when the program headers cannot all be read: the value of the headers
    before. *)
Fixpoint bias_reached `{ET : ElfTypes} (n : nat) (entsize offset load_bias : Z) (s : ElfInterface.t) : Z :=
  match n with
  | O => load_bias
  | S n =>
      match ElfInterface.program_header offset load_bias s with
      | Ok (Some load_bias, s) => bias_reached n entsize (u64 (offset + entsize)) load_bias s
      | _ => load_bias
      end
  end.

Definition bias_left `{ET : ElfTypes} (m : Memory) (s : ElfInterface.t) : Z :=
  match ReadFully m 0 sizeof_ehdr with
  | None => 0
  | Some ehdr => bias_reached (Z.to_nat (field e_phnum ehdr)) (field e_phentsize ehdr) (field e_phoff ehdr) 0 s
  end.

(** [Init(init_gnu_debugdata)] *)
Definition Init (e : t) : outcome (bool * t) :=
  let e := set_read (valid_ e) 0 e in
  match memory_ e with
  | None => Ok (false, e)
  | Some m =>
      match CreateInterfaceFromMemory m e with
      | (None, e) => Ok (false, set_interface None e)
      | (Some i, e) =>
          r ← ElfInterface.ReadAllHeaders (ET := types_of (kind i)) fuel (j_shdr junk) (j_str_shdr junk) 0 (object i);
          match r with
          | (Some load_bias, o) =>
              o ← ElfInterface.InitHeaders (ET := types_of (kind i)) fuel (j_fde junk) o;
              Ok (true, set_object o i (set_read true load_bias e))
          | (None, _) =>
              Ok (false, set_interface None (set_read false (bias_left (ET := types_of (kind i)) m (object i)) e))
          end
      end
  end.

(** ** Using it *)

Definition GetRelPc (pc start elf_offset : Z) (e : t) : Z := u64 (pc - start + load_bias_ e + elf_offset).

Definition GetFunctionName (addr : Z) (e : t) : outcome (option (list Z * Z) * t) :=
  if negb (valid_ e) then Ok (None, e)
  else
    i ← of_option NullDeref (interface_ e);
    r ← match kind i with
        | InterfaceArm => ElfInterfaceArm.GetFunctionName fuel addr (load_bias_ e) (object i)
        | k => ElfInterface.GetFunctionName (ET := types_of k) fuel addr (load_bias_ e) (object i)
        end;
    Ok (r.1, set_object r.2 i e).

Section Step.
Context {IO : IterationOrder}.
Variable process_memory : Memory.

(** The step of an interface.  The registers are cast to the width of the file, and for the
    exception tables to those of arm: with registers of another architecture this is undefined,
    even where the step would fail before it reaches the cast. *)
Definition interface_step (arch : ArchEnum) (pc load_bias : Z) (regs : DwarfSection.Regs) (i : Interface)
    : outcome (option bool * DwarfSection.Regs * ElfInterface.t) :=
  match kind i, arch with
  | InterfaceArm, ARCH_ARM => ElfInterfaceArm.Step process_memory fuel pc load_bias regs (object i)
  | Interface32, ARCH_ARM =>
      ElfInterface.Step (ET := Elf32) fuel (RA := RegsArm) process_memory pc load_bias regs (object i)
  | Interface32, ARCH_X86 =>
      ElfInterface.Step (ET := Elf32) fuel (RA := RegsX86) process_memory pc load_bias regs (object i)
  | Interface64, ARCH_ARM64 =>
      ElfInterface.Step (ET := Elf64) fuel (RA := RegsArm64) process_memory pc load_bias regs (object i)
  | Interface64, ARCH_X86_64 =>
      ElfInterface.Step (ET := Elf64) fuel (RA := RegsX86_64) process_memory pc load_bias regs (object i)
  | _, _ => Fault BadCast
  end.

(** [Elf::Step]: [*finished], or [None] for false. *)
Definition Step (arch : ArchEnum) (rel_pc adjusted_rel_pc elf_offset : Z) (regs : DwarfSection.Regs) (e : t)
    : outcome (option bool * DwarfSection.Regs * t) :=
  if negb (valid_ e) then Ok (None, regs, e)
  else
    let '(signal, rs) :=
      Regs.StepIfSignalHandler arch (u64 (rel_pc + elf_offset)) (view e) process_memory (DwarfSection.regs_ regs) in
    let regs := DwarfSection.mkRegs rs (DwarfSection.dex_pc regs) in
    if signal : bool then Ok (Some false, regs, e)
    else
      i ← of_option NullDeref (interface_ e);
      r ← interface_step arch adjusted_rel_pc (load_bias_ e) regs i;
      let '(finished, regs, o) := r in
      Ok (finished, regs, set_object o i e).
End Step.
End Elf.
End Elf.

(** ** MapInfo *)

(** The files of the system: what one contains ([None]: it cannot be opened), and whether a part
    can be mapped, by name, offset and size. *)
Record Files : Type := mkFiles { content : list Z -> option (list Z); mmap_ok : list Z -> Z -> Z -> bool; page_size : Z }.

Definition UINT64_MAX : Z := 2 ^ 64 - 1.

(** The objects, and the static members of [Elf]. *)
Record World : Type := mkWorld {
  elfs : list Elf.t;
  cache_enabled_ : bool;
  cache_ : option (gmap (list Z) (nat * bool))
}.

(** No object yet and no cache, as the static members are initialised. *)
Definition no_objects : World := mkWorld [] false None.

Module MapInfo.

(** The members Maps.cpp fills in ([load_bias] among them), [elf] and [elf_offset]. *)
Record t : Type := mk { info : UwMaps.MapInfo; elf : option nat; elf_offset : Z }.
Definition new (i : UwMaps.MapInfo) : t := mk i None 0.

Definition set_elf (p : nat) (mi : t) : t := mk (info mi) (Some p) (elf_offset mi).
Definition set_elf_offset (o : Z) (mi : t) : t := mk (info mi) (elf mi) o.
Definition set_load_bias (b : Z) (mi : t) : t :=
  let i := info mi in
  mk (mkMapInfo (start i) (end_ i) (offset i) (flags i) (name i) b) (elf mi) (elf_offset mi).

(** ** The cache *)

(** [name + ':' + std::to_string(offset)] *)
Definition offset_key (i : UwMaps.MapInfo) : list Z := name i ++ [58] ++ dec (offset i).

Definition the_cache (w : World) : outcome (gmap (list Z) (nat * bool)) := of_option NullDeref (cache_ w).
Definition set_cache (c : gmap (list Z) (nat * bool)) (w : World) : World := mkWorld (elfs w) (cache_enabled_ w) (Some c).

(** [CacheAdd(info)]; [elf] is the object of the map. *)
Definition CacheAdd (mi : t) (p : nat) (w : World) : outcome World :=
  c ← the_cache w;
  let i := info mi in
  let c := if (offset i =? 0) || negb (elf_offset mi =? 0) then <[name i := (p, true)]> c else c in
  let c := if negb (offset i =? 0) then <[offset_key i := (p, negb (elf_offset mi =? 0))]> c else c in
  Ok (set_cache c w).

Definition CacheAfterCreateMemory (mi : t) (w : World) : outcome (option (nat * t * World)) :=
  let i := info mi in
  if bool_decide (name i = []) || (offset i =? 0) || (elf_offset mi =? 0) then Ok None
  else
    c ← the_cache w;
    match c !! name i with
    | None => Ok None
    | Some (p, _) => Ok (Some (p, set_elf p mi, set_cache (<[offset_key i := (p, true)]> c) w))
    end.

Definition CacheGet (mi : t) (w : World) : outcome (option (nat * t)) :=
  let i := info mi in
  let key := if negb (offset i =? 0) then offset_key i else name i in
  c ← the_cache w;
  match c !! key with
  | None => Ok None
  | Some (p, whole) => Ok (Some (p, set_elf p (if whole : bool then set_elf_offset (offset i) mi else mi)))
  end.

(** ** The memory of a map *)

Section Map.
Context {A : Arch}.
Variable fuel : nat.
Variable junk : Junk.
Variable fs : Files.

(** [memory->Init(name, offset, size)] *)
Definition file_init (name : list Z) (offset size : Z) (f : MemoryFileAtOffset.t) : bool * MemoryFileAtOffset.t :=
  MemoryFileAtOffset.Init (page_size fs) (mmap_ok fs name offset size) (content fs name) offset size f.

(** [memory.release()] if [Init] has succeeded. *)
Definition released (r : bool * MemoryFileAtOffset.t) : option Memory :=
  if r.1 then Some (MemoryFileAtOffset.memory r.2) else None.

Definition GetFileMemory (mi : t) : outcome (option Memory * t) :=
  let i := info mi in
  if offset i =? 0 then Ok (released (file_init (name i) 0 UINT64_MAX MemoryFileAtOffset.new), mi)
  else
    let map_size := u64 (end_ i - start i) in
    let r := file_init (name i) (offset i) map_size MemoryFileAtOffset.new in
    if negb r.1 then Ok (None, mi)
    else
      v ← Elf.GetInfo (Some (MemoryFileAtOffset.memory r.2)) (j_max_size junk);
      let '(valid, max_size) := v in
      if negb valid then
        let r := file_init (name i) 0 UINT64_MAX r.2 in
        Ok (released r, if r.1 then set_elf_offset (offset i) mi else mi)
      else if map_size <? max_size then
        let r := file_init (name i) (offset i) max_size r.2 in
        if r.1 then Ok (released r, mi)
        else Ok (released (file_init (name i) (offset i) map_size r.2), mi)
      else Ok (released r, mi).

Definition CreateMemory (process_memory : Memory) (mi : t) : outcome (option Memory * t) :=
  let i := info mi in
  if end_ i <=? start i then Ok (None, mi)
  else
    let mi := set_elf_offset 0 mi in
    if negb (Z.land (flags i) MAPS_FLAGS_DEVICE_MAP =? 0) then Ok (None, mi)
    else
      r ← (if bool_decide (name i = []) then Ok (None, mi) else GetFileMemory mi);
      match r with
      | (Some m, mi) => Ok (Some m, mi)
      | (None, mi) =>
          if Z.land (flags i) PROT_READ =? 0 then Ok (None, mi)
          else Ok (Some (MemoryRange.Read (MemoryRange.mk process_memory (start i) (end_ i - start i) 0)), mi)
      end.

(** ** [GetElf] *)

Definition add_elf (e : Elf.t) (w : World) : nat * World :=
  (length (elfs w), mkWorld (elfs w ++ [e]) (cache_enabled_ w) (cache_ w)).

(** [elf.reset(new Elf(memory)); elf->Init(...)], whose result is ignored. *)
Definition create (m : option Memory) (mi : t) (w : World) : outcome (nat * t * World) :=
  r ← Elf.Init fuel junk (Elf.new m);
  let '(p, w) := add_elf r.2 w in
  Ok (p, set_elf p mi, w).

Definition GetElf (process_memory : Memory) (mi : t) (w : World) : outcome (nat * t * World) :=
  match elf mi with
  | Some p => Ok (p, mi, w)
  | None =>
      if cache_enabled_ w && negb (bool_decide (name (info mi) = [])) then
        cached ← CacheGet mi w;
        match cached with
        | Some (p, mi) => Ok (p, mi, w)
        | None =>
            r ← CreateMemory process_memory mi;
            let '(m, mi) := r in
            cached ← CacheAfterCreateMemory mi w;
            match cached with
            | Some r => Ok r
            | None =>
                r ← create m mi w;
                let '(p, mi, w) := r in
                w ← CacheAdd mi p w;
                Ok (p, mi, w)
            end
        end
      else
        r ← CreateMemory process_memory mi;
        create r.1 r.2 w
  end.

(** [GetLoadBias(process_memory)] *)
Definition GetLoadBias (process_memory : Memory) (mi : t) (w : World) : outcome (Z * t) :=
  if negb (load_bias (info mi) =? UINT64_MAX) then Ok (load_bias (info mi), mi)
  else
    match elf mi with
    | Some p =>
        e ← of_option OutOfBounds (elfs w !! p);
        let b := if Elf.valid_ e then Elf.load_bias_ e else 0 in
        Ok (b, set_load_bias b mi)
    | None =>
        r ← CreateMemory process_memory mi;
        let b := Elf.GetLoadBias junk r.1 in
        Ok (b, set_load_bias b r.2)
    end.
End Map.
End MapInfo.

(** ** Files as memories *)

Module FileFacts.
Import MapInfo.

(** A file mapped from its start. *)
Definition whole (c : list Z) : Memory := MemoryFileAtOffset.memory (MemoryFileAtOffset.mk (blen c) 0 (Some c)).

Lemma whole_slice c a n : 0 <= a -> 0 <= n -> whole c a n = slice a n c.
Proof. intros Ha Hn. unfold whole. by rewrite file_read_spec. Qed.

Lemma stored_whole pre bs post : blen (pre ++ bs ++ post) < 2 ^ 64 -> Format.stored (whole (pre ++ bs ++ post)) (blen pre) bs.
Proof.
  intros Hl. destruct (Format.stored_buffer pre bs post Hl) as [H1 H2 H3]. split; [done|done|].
  intros i n Hi Hn Hle. rewrite whole_slice by lia. by apply H3.
Qed.

Section Facts.
Context {A : Arch}.

(** A file that can be read. *)
Record plain_file (fs : Files) (name c : list Z) : Prop := {
  pf_content : content fs name = Some c;
  pf_size : 0 < blen c < 2 ^ size_bits;
  pf_map : forall o s, mmap_ok fs name o s = true;
  pf_page : exists k, 0 <= k < size_bits /\ page_size fs = 2 ^ k
}.

Variables (fs : Files) (name c : list Z).
Hypothesis Hfile : plain_file fs name c.

Lemma init_whole f : exists off, file_init fs name 0 UINT64_MAX f = (true, MemoryFileAtOffset.mk (blen c) off (Some c)).
Proof.
  destruct Hfile as [H1 H2 H3 (k & H4 & H5)]. unfold file_init. rewrite H1, H3, H5.
  destruct (file_init_spec k H4 [] c f) as [off H]; [lia|change (blen []) with 0; lia|]. exists off. exact H.
Qed.

Lemma released_whole f : released (file_init fs name 0 UINT64_MAX f) = Some (whole c).
Proof. destruct (init_whole f) as [off ->]. done. Qed.

Lemma init_part o size f :
  0 <= o < blen c -> 0 < size < 2 ^ 64 ->
  exists off, file_init fs name o size f =
    (true, MemoryFileAtOffset.mk (Z.min size (blen c - o)) off (Some (slice o (Z.min size (blen c - o)) c))).
Proof.
  intros Ho Hs. destruct Hfile as [H1 H2 H3 (k & H4 & H5)]. unfold file_init, MemoryFileAtOffset.Init. rewrite H1, H3, H5.
  assert (2 ^ size_bits <= 2 ^ 64) as H64 by (apply Z.pow_le_mono_r; [lia|]; unfold size_bits; destruct szc_cases; lia).
  destruct (file_aligned k H4 o) as (E1 & E2 & E3); [lia|].
  set (off := Z.land o (2 ^ k - 1)) in *. set (al := Z.land o (u64 (Z.lnot (2 ^ k - 1)))) in *.
  assert (2 ^ k < 2 ^ size_bits) by (apply Z.pow_lt_mono_r; lia).
  destruct (Z.leb_spec (blen c) o); [lia|]. destruct (Z.ltb_spec (blen c) al), (Z.ltb_spec (blen c) o); try lia. cbn [orb].
  rewrite !(szw_small off) by (split; lia). rewrite (szw_small (_ - al)) by (split; lia). exists off.
  replace (al + off) with o by lia.
  assert ((if (size + off <? 2 ^ 64) && (size + off <? blen c - al) then szw (size + off) else blen c - al) - off =
    Z.min size (blen c - o)) as ->.
  { destruct (Z.ltb_spec (size + off) (2 ^ 64)), (Z.ltb_spec (size + off) (blen c - al)); cbn [andb];
      try rewrite (szw_small (size + off)) by (split; lia); lia. }
  by rewrite szw_small by (split; lia).
Qed.

(** The part of a file at [o] is not an ELF file. *)
Lemma part_not_elf o n off :
  0 <= o -> 0 <= n -> slice o 4 c <> ELFMAG -> blen (slice o n c) = n ->
  Elf.IsValidElf (Some (MemoryFileAtOffset.memory (MemoryFileAtOffset.mk n off (Some (slice o n c))))) = false.
Proof.
  intros Ho Hn Hmag Hl. unfold Elf.IsValidElf, ReadFully.
  assert (MemoryFileAtOffset.memory (MemoryFileAtOffset.mk n off (Some (slice o n c))) 0 SELFMAG = take 4 (slice o n c)) as ->.
  { rewrite <- Hl at 1. by rewrite file_read_spec. }
  destruct (Z.eqb_spec (blen (take 4 (slice o n c))) SELFMAG) as [E|]; [|done].
  apply bool_decide_eq_false. intros E2. apply Hmag. rewrite <- E2. unfold slice at 1 2. rewrite take_take. f_equal.
  unfold blen, SELFMAG in *. rewrite length_take in E. lia.
Qed.
End Facts.
End FileFacts.

(** ** From a map to the unwind information *)

Module MapFacts.
Import FileFacts MapInfo ElfTheorems PhdrFacts ShdrFacts.

(** The class and the machine of the files without an exception index. *)
Inductive ident : Z -> Z -> Elf.InterfaceKind -> Prop :=
| ident_386 : ident ELFCLASS32 EM_386 Elf.Interface32
| ident_x86_64 : ident ELFCLASS64 EM_X86_64 Elf.Interface64
| ident_aarch64 : ident ELFCLASS64 EM_AARCH64 Elf.Interface64.

Definition elf_file (c : list Z) (k : Elf.InterfaceKind) : Prop :=
  exists class machine, slice 0 4 c = ELFMAG /\ slice 4 1 c = [class] /\ slice 18 2 c = le_bytes 2 machine /\ ident class machine k.

Lemma create_interface c k e :
  elf_file c k ->
  exists e', Elf.CreateInterfaceFromMemory (whole c) e = (Some (Elf.mkInterface k (ElfInterface.new (whole c) false)), e').
Proof.
  intros (class & machine & H1 & H2 & H3 & H4). unfold Elf.CreateInterfaceFromMemory, Elf.IsValidElf, Elf.read_byte, ReadFully.
  rewrite !whole_slice by (unfold SELFMAG, EI_CLASS, EI_NIDENT; lia).
  change (slice 0 SELFMAG c) with (slice 0 4 c). change (slice EI_CLASS 1 c) with (slice 4 1 c).
  change (slice (EI_NIDENT + 2) 2 c) with (slice 18 2 c). rewrite H1, H2, H3. destruct H4; eexists; reflexivity.
Qed.

(** A map of a file that can be read: of its start, or of a part that is not an ELF file. *)
Record file_map (c : list Z) (mi : t) : Prop := {
  fm_name : name (info mi) <> [];
  fm_range : 0 <= start (info mi) < end_ (info mi) /\ end_ (info mi) < 2 ^ 64;
  fm_device : Z.land (flags (info mi)) MAPS_FLAGS_DEVICE_MAP = 0;
  fm_offset : offset (info mi) = 0 \/ (0 < offset (info mi) < blen c /\ slice (offset (info mi)) 4 c <> ELFMAG)
}.

Section Facts.
Context {A : Arch}.
Variables (fuel : nat) (junk : Junk) (fs : Files) (process_memory : Memory).

Lemma file_memory_whole c mi :
  plain_file fs (name (info mi)) c -> file_map c mi -> elf_offset mi = 0 ->
  GetFileMemory junk fs mi = Ok (Some (whole c), set_elf_offset (offset (info mi)) mi).
Proof.
  intros Hf [Hn Hr Hd Ho] Hz. unfold GetFileMemory.
  destruct Ho as [E|[Ho Hmag]].
  { rewrite E. cbn [Z.eqb]. rewrite (released_whole fs _ c Hf). destruct mi. cbn in *. by subst. }
  destruct (Z.eqb_spec (offset (info mi)) 0); [lia|]. rewrite uwrap_small by (unfold in_u; lia).
  set (size := end_ (info mi) - start (info mi)) in *.
  destruct (init_part fs _ c Hf (offset (info mi)) size MemoryFileAtOffset.new) as [off ->]; [lia|lia|]. cbn [fst snd negb].
  unfold Elf.GetInfo. rewrite part_not_elf; [|lia|lia|done|apply blen_slice; lia]. cbn [negb]. rewrite bind_Ok. cbn [negb].
  destruct (init_whole fs _ c Hf (MemoryFileAtOffset.mk (Z.min size (blen c - offset (info mi))) off
    (Some (slice (offset (info mi)) (Z.min size (blen c - offset (info mi))) c)))) as [off' ->]. done.
Qed.

Lemma create_memory_whole c mi :
  plain_file fs (name (info mi)) c -> file_map c mi ->
  CreateMemory junk fs process_memory mi = Ok (Some (whole c), set_elf_offset (offset (info mi)) mi).
Proof.
  intros Hf Hm. destruct (Hm) as [Hn Hr Hd Ho]. unfold CreateMemory.
  destruct (Z.leb_spec (end_ (info mi)) (start (info mi))); [lia|]. rewrite Hd. cbn [Z.eqb negb].
  rewrite bool_decide_eq_false_2 by done. rewrite (file_memory_whole c (set_elf_offset 0 mi)); [done|done|by split|done].
Qed.
End Facts.
End MapFacts.

(** ** Theorems *)

Module MapTheorems.
Import Format Pieces CieFormat SectionFormat ScanFacts FdeFacts SectionFdes SearchFacts FormatTheorems HdrFacts HdrSearch HdrTheorems.
Import FileFacts MapFacts MapInfo ElfTheorems PhdrFacts ShdrFacts.

Section Theorems.
Context {A : Arch}.
Variables (fuel : nat) (junk : Junk) (fs : Files) (process_memory : Memory).

(** An object that finds the unwind information of the functions of a file. *)
Definition finds_functions (c : list Z) (k : Elf.InterfaceKind) (phs : list Phdr) (es : list DwarfSectionImpl.HdrInfo) (e : Elf.t)
    : Prop :=
  Elf.valid_ e = true /\ Elf.load_bias_ e = bias_of phs /\
  exists s sec, Elf.interface_ e = Some (Elf.mkInterface k s) /\ ElfInterface.eh_frame_ s = Some sec /\
    forall i p pc, function_at (ET := Elf.types_of k) fuel (whole c) es i p pc ->
      exists d, find_fde (ET := Elf.types_of k) fuel pc sec =
        Ok (Some (fde_at (p_at p) (p_cie_at p) (p_cie p) (p_rest p) (p_fde p)), d).

(** The section headers can be read, whatever they are. *)
Definition sections_readable (c : list Z) (k : Elf.InterfaceKind) (ehdr : list Z) (phs : list Phdr) : Prop :=
  exists r, ElfInterface.ReadSectionHeaders (ET := Elf.types_of k) fuel ehdr (j_shdr junk) (j_str_shdr junk)
    (foldl state_step (ElfInterface.new (whole c) false) phs) = Ok r.

Lemma init_finds c k ehdr phs ph ptr es :
  elf_file c k -> unwind_file (ET := Elf.types_of k) (whole c) ehdr phs ph ptr es -> sections_readable c k ehdr phs ->
  exists e, Elf.Init fuel junk (Elf.new (Some (whole c))) = Ok (true, e) /\ finds_functions c k phs es e.
Proof.
  intros Hk Hu [r Hr].
  destruct (unwind_file_read (ET := Elf.types_of k) _ fuel ehdr phs ph _ _ (j_fde junk) r ptr es Hu Hr)
    as (s1 & s2 & sec & H1 & H2 & H3 & H4).
  destruct (create_interface c k (Elf.new (Some (whole c))) Hk) as [e' HC].
  unfold Elf.Init. change (Elf.set_read _ 0 (Elf.new _)) with (Elf.new (Some (whole c))). cbn [Elf.memory_ Elf.new].
  change (Elf.mk (Some (whole c)) false 0 None None None None) with (Elf.new (Some (whole c))).
  rewrite HC. cbn [Elf.kind Elf.object]. rewrite H1, bind_Ok. rewrite H2, bind_Ok. eexists. split; [done|].
  split_and!; [done|done|]. exists s2, sec. done.
Qed.

(** From a program counter to its unwind information: for a map of a library that can be read,
    of its start or of a later segment, [GetElf] reads the whole file, and the pc relative to the
    file, as the unwinding computes it from the start, the offset and the load bias, leads to the
    FDE of the function that holds the pc. *)
Theorem map_pc_finds_fde c k ehdr phs ph ptr es mi w pc i p :
  plain_file fs (name (info mi)) c -> file_map c mi -> elf mi = None -> cache_enabled_ w = false ->
  elf_file c k -> unwind_file (ET := Elf.types_of k) (whole c) ehdr phs ph ptr es -> sections_readable c k ehdr phs ->
  start (info mi) <= pc < end_ (info mi) -> 0 <= bias_of phs -> pc - start (info mi) + bias_of phs + offset (info mi) < 2 ^ 64 ->
  function_at (ET := Elf.types_of k) fuel (whole c) es i p (pc - start (info mi) + offset (info mi)) ->
  exists q mi' w' e s sec d,
    GetElf fuel junk fs process_memory mi w = Ok (q, mi', w') /\ elfs w' !! q = Some e /\ Elf.valid_ e = true /\
    Elf.interface_ e = Some (Elf.mkInterface k s) /\ ElfInterface.eh_frame_ s = Some sec /\
    let rel_pc := Elf.GetRelPc pc (start (info mi')) (elf_offset mi') e in
    Elf.load_bias_ e <= rel_pc /\
    find_fde (ET := Elf.types_of k) fuel (rel_pc - Elf.load_bias_ e) sec =
      Ok (Some (fde_at (p_at p) (p_cie_at p) (p_cie p) (p_rest p) (p_fde p)), d).
Proof.
  intros Hf Hm He Hc Hk Hu Hs Hpc Hb Hw Hfn.
  destruct (init_finds c k ehdr phs ph ptr es Hk Hu Hs) as (e & HI & V & B & s & sec & H1 & H2 & H3).
  destruct (H3 i p _ Hfn) as [d Hd].
  exists (length (elfs w)), (set_elf (length (elfs w)) (set_elf_offset (offset (info mi)) mi)),
    (mkWorld (elfs w ++ [e]) (cache_enabled_ w) (cache_ w)), e, s, sec, d.
  assert (Elf.GetRelPc pc (start (info mi)) (offset (info mi)) e - Elf.load_bias_ e = pc - start (info mi) + offset (info mi) /\
    Elf.load_bias_ e <= Elf.GetRelPc pc (start (info mi)) (offset (info mi)) e) as [R1 R2].
  { assert (0 <= offset (info mi)) by (destruct (fm_offset _ _ Hm); lia). unfold Elf.GetRelPc. rewrite B.
    rewrite uwrap_small by (unfold in_u; lia). lia. }
  split_and!; try done.
  - unfold GetElf. rewrite He, Hc. cbn [andb]. rewrite (create_memory_whole junk fs process_memory c mi Hf Hm), bind_Ok. cbn [fst snd].
    unfold create. rewrite HI, bind_Ok. unfold add_elf. by rewrite Hc.
  - cbn [elfs]. by apply list_lookup_middle.
  - cbn [set_elf set_elf_offset info elf_offset]. rewrite R1. done.
Qed.
End Theorems.
End MapTheorems.

(** ** Witnesses and concrete maps *)

Module MapExamples.
Import Format Pieces CieFormat SectionFormat ScanFacts FdeFacts SectionFdes SearchFacts FormatTheorems FormatExamples
  HdrFacts HdrSearch HdrTheorems.
Import FileFacts MapFacts MapInfo ElfTheorems PhdrFacts ShdrFacts MapTheorems ElfExamples.

#[local] Existing Instances LP64 Elf64.

(** The file of the examples for ElfInterface, with its code behind the headers, and a map of the
    page the code is in. *)
Definition padding : list Z := zeros 4000.
Definition lib : list Z := file_head ++ file_eh_frame ++ file_hdr ++ padding.
Definition lib_name : list Z := str "/lib.so".
Definition lib_files : Files := mkFiles (fun n => if bool_decide (n = lib_name) then Some lib else None) (fun _ _ _ => true) 4096.
Definition lib_map : t := new (new_MapInfo 0x70000000 0x70001000 4096 5 lib_name).
Definition lib_junk : Junk := mkJunk [] (fun _ => []) (0, 0) (zeros 64) (fun _ => zeros 56) 0.
Definition no_memory : Memory := fun _ _ => [].

Lemma lib_plain : plain_file lib_files lib_name lib.
Proof. split; [reflexivity|vm_compute; intuition congruence|done|]. exists 12. split; [vm_compute; intuition congruence|done]. Qed.

Lemma lib_headers : headers_of file_ehdr (whole lib) file_phdrs.
Proof.
  split; [|reflexivity]. split; [|vm_compute; congruence|vm_compute; congruence|vm_compute; reflexivity].
  intros i ph Hi. do 2 (destruct i as [|i]; [injection Hi as <-; repeat split; vm_compute; reflexivity|]). discriminate Hi.
Qed.

Lemma lib_unwind : unwind_file (whole lib) file_ehdr file_phdrs (mkPhdr PT_GNU_EH_FRAME 4 file_hdr_at file_hdr_at 36) 192 file_table.
Proof.
  split; [vm_compute; reflexivity|exact lib_headers|reflexivity|vm_compute; congruence| |exact file_table_ok].
  pose proof (stored_whole (file_head ++ file_eh_frame) file_hdr padding) as H. rewrite <- app_assoc in H.
  apply H. vm_compute. reflexivity.
Qed.

Definition third : placed := mkPlaced 256 192 sample_desc sample_rest (mkFdeDesc 4128 16 0 [0] [0; 0; 0]).

Lemma lib_function : function_at 30 (whole lib) file_table 2 third 4130.
Proof.
  split; [|repeat constructor| |cbn; lia|reflexivity|intros e [=]|cbn; lia].
  - split; [| |exact sample_cie_ok|repeat split; vm_compute; congruence].
    + exists (drop 24 file_eh_frame). apply (stored_whole file_head file_eh_frame (file_hdr ++ padding)). vm_compute. reflexivity.
    + exists []. rewrite app_nil_r.
      apply (stored_whole (file_head ++ take 64 file_eh_frame) (drop 64 file_eh_frame) (file_hdr ++ padding)).
      vm_compute. reflexivity.
  - intros _. apply uleb_byte. cbn. lia.
Qed.

Lemma map_pc_finds_fde_witness :
  exists q mi' w' e s sec d,
    GetElf 30 lib_junk lib_files no_memory lib_map no_objects = Ok (q, mi', w') /\ elfs w' !! q = Some e /\ Elf.valid_ e = true /\
    Elf.interface_ e = Some (Elf.mkInterface Elf.Interface64 s) /\ ElfInterface.eh_frame_ s = Some sec /\
    let rel_pc := Elf.GetRelPc 0x70000022 (start (info mi')) (elf_offset mi') e in
    Elf.load_bias_ e <= rel_pc /\
    find_fde 30 (rel_pc - Elf.load_bias_ e) sec =
      Ok (Some (fde_at 256 192 sample_desc sample_rest (mkFdeDesc 4128 16 0 [0] [0; 0; 0])), d).
Proof.
  apply (map_pc_finds_fde 30 lib_junk lib_files no_memory lib Elf.Interface64 file_ehdr file_phdrs
    (mkPhdr PT_GNU_EH_FRAME 4 file_hdr_at file_hdr_at 36) 192 file_table lib_map no_objects 0x70000022 2 third).
  - exact lib_plain.
  - split; [discriminate|vm_compute; intuition congruence|reflexivity|]. right. vm_compute. intuition congruence.
  - reflexivity.
  - reflexivity.
  - exists ELFCLASS64, EM_X86_64. split_and!; [vm_compute; reflexivity..|constructor].
  - exact lib_unwind.
  - exists (Some (), foldl state_step (ElfInterface.new (whole lib) false) file_phdrs). reflexivity.
  - vm_compute. intuition congruence.
  - vm_compute. congruence.
  - vm_compute. reflexivity.
  - exact lib_function.
Defined.
End MapExamples.

(** ** The cache *)

Module CacheFacts.
Import MapInfo.

Lemma no_colon_inj (n1 n2 d1 d2 : list Z) :
  58 ∉ n1 -> 58 ∉ n2 -> n1 ++ 58 :: d1 = n2 ++ 58 :: d2 -> n1 = n2 /\ d1 = d2.
Proof.
  revert n2. induction n1 as [|c n1 IH]; intros [|c2 n2] H1 H2 E; cbn in E.
  - by injection E.
  - injection E as <- _. exfalso. apply H2. left.
  - injection E as -> _. exfalso. apply H1. left.
  - injection E as <- E. destruct (IH n2) as [-> ->]; [set_solver..|done|done].
Qed.

(** What a map is cached by. *)
Record same_part (mi1 mi2 : t) : Prop := {
  sp_name : name (info mi1) = name (info mi2);
  sp_offset : offset (info mi1) = offset (info mi2);
  sp_size : end_ (info mi1) - start (info mi1) = end_ (info mi2) - start (info mi2)
}.

Section Facts.
Context {A : Arch}.
Variables (fuel : nat) (junk : Junk) (fs : Files) (process_memory : Memory).

(** A mapped file does not depend on what the object held before. *)
Lemma file_init_fresh n o s f g : (file_init fs n o s f).1 = true -> file_init fs n o s g = file_init fs n o s f.
Proof. unfold file_init, MemoryFileAtOffset.Init. repeat case_match; done. Qed.

Lemma file_memory_same mi1 mi2 m o :
  same_part mi1 mi2 ->
  GetFileMemory junk fs mi1 = Ok (m, set_elf_offset o mi1) -> elf_offset mi1 = elf_offset mi2 ->
  GetFileMemory junk fs mi2 = Ok (m, set_elf_offset o mi2).
Proof.
  destruct mi1 as [i1 e1 o1], mi2 as [i2 e2 o2]. intros [E1 E2 E3]. cbn in E1, E2, E3.
  unfold GetFileMemory, set_elf_offset. cbn [info elf elf_offset]. rewrite E1, E2, E3. intros H ->. revert H.
  destruct (offset i2 =? 0). { intros [= -> ->]. done. }
  destruct (negb _). { intros [= -> ->]. done. }
  destruct (Elf.GetInfo _ _) as [[v s]|]; [|discriminate]. rewrite !bind_Ok. destruct (negb v).
  { intros [= <- Heq]. repeat case_match; congruence. }
  repeat case_match; intros [= <- Heq]; congruence.
Qed.

Lemma file_memory_offset mi m mi' :
  GetFileMemory junk fs mi = Ok (Some m, mi') -> elf_offset mi = 0 ->
  exists o, mi' = set_elf_offset o mi /\ (o = 0 \/ (o = offset (info mi) /\ o <> 0 /\
    released (file_init fs (name (info mi)) 0 UINT64_MAX MemoryFileAtOffset.new) = Some m)) /\
    (offset (info mi) = 0 -> released (file_init fs (name (info mi)) 0 UINT64_MAX MemoryFileAtOffset.new) = Some m).
Proof.
  destruct mi as [i e eo]. intros H Ez. cbn in Ez. subst eo. unfold GetFileMemory, set_elf_offset in *.
  cbn [info elf elf_offset] in *. revert H. destruct (Z.eqb_spec (offset i) 0) as [Eo|Eo].
  { intros [= E <-]. exists 0. split_and!; [done|by left|done]. }
  destruct (negb _) eqn:E1. { intros [= ? ?]. }
  destruct (Elf.GetInfo _ _) as [[v s]|]; [|discriminate]. rewrite !bind_Ok. destruct (negb v).
  { intros [= E <-]. unfold released in E. destruct (file_init fs (name i) 0 UINT64_MAX _) as [b g] eqn:Ef.
    cbn [fst snd] in E. destruct b; [|discriminate]. cbn [fst]. exists (offset i). split_and!; [done| |done]. right.
    split_and!; [done|done|].
    match type of Ef with file_init _ _ _ _ ?f = _ => rewrite (file_init_fresh _ _ _ f) end; rewrite Ef; [exact E|done]. }
  repeat case_match; intros [= E <-]; exists 0; split_and!; try done; by left.
Qed.
End Facts.
End CacheFacts.

Module CacheTheorems.
Import MapInfo CacheFacts.

Lemma dec_inj a b : dec a = dec b -> a = b.
Proof.
  intros E. pose proof (dec_numeral a) as Ha. pose proof (dec_numeral b) as Hb. rewrite E in Ha. revert Ha Hb. generalize (dec b).
  intros l [ds _ Hd|ds _ Hd] Hb; inversion Hb; subst; try done;
    exfalso; match goal with H : Forall _ (45 :: _) |- _ => apply Forall_inv in H; discriminate H end.
Qed.

Section Theorems.
Context {A : Arch}.
Variables (fuel : nat) (junk : Junk) (fs : Files) (process_memory : Memory).

(** What [GetElf] does for a map without a cache: the object and [elf_offset]. *)
Definition fresh (mi : t) : outcome (Elf.t * Z) :=
  r ← CreateMemory junk fs process_memory mi;
  e ← Elf.Init fuel junk (Elf.new r.1);
  Ok (e.2, elf_offset r.2).

(** [GetElf] for one map after the other. *)
Fixpoint get_elfs (mis : list t) (w : World) : outcome (list (nat * t) * World) :=
  match mis with
  | [] => Ok ([], w)
  | mi :: mis =>
      r ← GetElf fuel junk fs process_memory mi w;
      let '(p, mi, w) := r in
      rest ← get_elfs mis w;
      Ok ((p, mi) :: rest.1, rest.2)
  end.

(** A map of a part of a file that can be read. *)
Record file_backed (mi : t) : Prop := {
  fb_elf : elf mi = None;
  fb_offset : elf_offset mi = 0;
  fb_name : name (info mi) <> [] /\ 58 ∉ name (info mi);
  fb_range : start (info mi) < end_ (info mi);
  fb_device : Z.land (flags (info mi)) MAPS_FLAGS_DEVICE_MAP = 0;
  fb_file : exists m mi', GetFileMemory junk fs mi = Ok (Some m, mi');
  fb_init : exists r, fresh mi = Ok r
}.

(** The object for a whole file. *)
Definition whole_object (n : list Z) (e : Elf.t) : Prop :=
  exists m v, released (file_init fs n 0 UINT64_MAX MemoryFileAtOffset.new) = Some m /\ Elf.Init fuel junk (Elf.new (Some m)) = Ok (v, e).

Lemma whole_object_det n e1 e2 : whole_object n e1 -> whole_object n e2 -> e1 = e2.
Proof. intros (m1 & v1 & H1 & H2) (m2 & v2 & H3 & H4). congruence. Qed.

Lemma file_backed_memory mi :
  file_backed mi ->
  exists m o v e, GetFileMemory junk fs mi = Ok (Some m, set_elf_offset o mi) /\
    CreateMemory junk fs process_memory mi = Ok (Some m, set_elf_offset o mi) /\
    Elf.Init fuel junk (Elf.new (Some m)) = Ok (v, e) /\ fresh mi = Ok (e, o) /\
    (o = 0 \/ (o = offset (info mi) /\ o <> 0)) /\ (offset (info mi) = 0 \/ o <> 0 -> whole_object (name (info mi)) e).
Proof.
  intros [H1 H2 [H3 _] H4 H5 (m & mi' & H6) [[e0 o0] H7]].
  destruct (file_memory_offset junk fs mi m mi' H6 H2) as (o & -> & Ho & Hw).
  assert (CreateMemory junk fs process_memory mi = Ok (Some m, set_elf_offset o mi)) as HC.
  { unfold CreateMemory. destruct (Z.leb_spec (end_ (info mi)) (start (info mi))); [lia|]. rewrite H5. cbn [Z.eqb negb].
    rewrite bool_decide_eq_false_2 by done. replace (set_elf_offset 0 mi) with mi by (destruct mi; cbn in *; by subst).
    by rewrite H6, bind_Ok. }
  unfold fresh in H7. rewrite HC, bind_Ok in H7. cbn [fst snd] in H7.
  destruct (Elf.Init fuel junk (Elf.new (Some m))) as [[v e]|] eqn:HI; [|discriminate].
  exists m, o, v, e. split_and!; [done|done|done| | |].
  - unfold fresh. rewrite HC, bind_Ok. cbn [fst snd]. by rewrite HI, bind_Ok.
  - destruct Ho as [?|(? & ? & _)]; [by left|by right].
  - intros Hc. exists m, v. split; [|done]. destruct Hc as [?|?]; [by apply Hw|]. destruct Ho as [?|(_ & _ & ?)]; [done|done].
Qed.

(** The maps of a process: maps of the same part of a file have the same size. *)
Variable maps : t -> Prop.
Hypothesis Hbacked : forall mi, maps mi -> file_backed mi.
Hypothesis Hsizes : forall mi1 mi2, maps mi1 -> maps mi2 ->
  name (info mi1) = name (info mi2) -> offset (info mi1) = offset (info mi2) -> same_part mi1 mi2.

Lemma fresh_same mi1 mi2 :
  maps mi1 -> maps mi2 -> name (info mi1) = name (info mi2) -> offset (info mi1) = offset (info mi2) -> fresh mi1 = fresh mi2.
Proof.
  intros H1 H2 En Eo. pose proof (Hsizes _ _ H1 H2 En Eo) as Hs.
  destruct (file_backed_memory _ (Hbacked _ H1)) as (m1 & o1 & v1 & e1 & F1 & _ & I1 & -> & _).
  destruct (file_backed_memory _ (Hbacked _ H2)) as (m2 & o2 & v2 & e2 & F2 & _ & I2 & -> & _).
  assert (elf_offset mi1 = elf_offset mi2) as EO by (by rewrite (fb_offset _ (Hbacked _ H1)), (fb_offset _ (Hbacked _ H2))).
  pose proof (file_memory_same junk fs _ _ _ _ Hs F1 EO) as F3. rewrite F2 in F3. injection F3 as -> ->. congruence.
Qed.

(** An entry of the cache: a whole file by its name, or a part of a file by name and offset. *)
Definition entry_ok (objects : list Elf.t) (key : list Z) (v : nat * bool) : Prop :=
  exists e, objects !! v.1 = Some e /\
    ((58 ∉ key /\ v.2 = true /\ whole_object key e) \/
     exists mi o, maps mi /\ key = offset_key (info mi) /\ offset (info mi) <> 0 /\ fresh mi = Ok (e, o) /\ v.2 = negb (o =? 0)).

Definition cache_ok (w : World) : Prop :=
  cache_enabled_ w = true /\ exists c, cache_ w = Some c /\ map_Forall (entry_ok (elfs w)) c.

Lemma entry_ok_app l l' key v : entry_ok l key v -> entry_ok (l ++ l') key v.
Proof. intros (e & H & H'). exists e. split; [by apply lookup_app_l_Some|done]. Qed.

Lemma offset_key_inj mi1 mi2 :
  maps mi1 -> maps mi2 -> offset_key (info mi1) = offset_key (info mi2) ->
  name (info mi1) = name (info mi2) /\ offset (info mi1) = offset (info mi2).
Proof.
  intros H1 H2 E. destruct (fb_name _ (Hbacked _ H1)) as [_ N1]. destruct (fb_name _ (Hbacked _ H2)) as [_ N2].
  destruct (no_colon_inj _ _ _ _ N1 N2 E) as [? D]. split; [done|by apply dec_inj].
Qed.

Lemma key_colon mi : 58 ∈ offset_key (info mi).
Proof. unfold offset_key. set_solver. Qed.

(** What a hit of the cache returns. *)
Lemma cache_get_ok mi w p mi' :
  maps mi -> cache_ok w -> CacheGet mi w = Ok (Some (p, mi')) ->
  exists e o, fresh mi = Ok (e, o) /\ elfs w !! p = Some e /\ elf_offset mi' = o.
Proof.
  intros Hm (_ & c & Hc & Hall) H. pose proof (Hbacked _ Hm) as HB. unfold CacheGet, the_cache in H. rewrite Hc in H.
  cbn [of_option] in H. rewrite bind_Ok in H. destruct (c !! _) as [[q b]|] eqn:EL; [|discriminate]. injection H as <- <-.
  destruct (file_backed_memory _ HB) as (m & o & v & e & _ & _ & _ & HF & Ho & HW). exists e, o. rewrite HF. split; [done|].
  destruct (Hall _ _ EL) as (e' & Hq & [(Hk & Hb & Hw)|(mi2 & o2 & M2 & Hk & Z2 & F2 & Hb)]); cbn [fst snd] in Hq, Hb; subst b.
  - destruct (Z.eqb_spec (offset (info mi)) 0) as [E|E]; cbn [negb] in *; [|by pose proof (key_colon mi)].
    rewrite (whole_object_det _ _ _ (HW (or_introl E)) Hw). split; [done|]. cbn. destruct Ho as [->|[-> ?]]; done.
  - destruct (Z.eqb_spec (offset (info mi)) 0) as [E|E]; cbn [negb] in *.
    { destruct (fb_name _ HB) as [_ N]. rewrite Hk in N. by pose proof (key_colon mi2). }
    destruct (offset_key_inj mi mi2 Hm M2 Hk) as [E1 E2]. rewrite <- (fresh_same mi mi2 Hm M2 E1 E2), HF in F2.
    injection F2 as -> ->. split; [done|]. destruct (Z.eqb_spec o2 0); cbn; [by rewrite (fb_offset _ HB)|].
    destruct Ho as [?|[? _]]; [done|by subst].
Qed.

Lemma part_entry objects mi p e o :
  maps mi -> offset (info mi) <> 0 -> fresh mi = Ok (e, o) -> objects !! p = Some e ->
  entry_ok objects (offset_key (info mi)) (p, negb (o =? 0)).
Proof. intros. exists e. split; [done|]. right. by exists mi, o. Qed.

Lemma whole_entry objects mi p e :
  maps mi -> whole_object (name (info mi)) e -> objects !! p = Some e -> entry_ok objects (name (info mi)) (p, true).
Proof. intros Hm HW He. exists e. split; [done|]. left. split_and!; [apply (fb_name _ (Hbacked _ Hm))|done|done]. Qed.

(** A new object keeps the cache right. *)
Lemma cache_add_ok mi w e o :
  maps mi -> cache_ok w -> fresh mi = Ok (e, o) -> (offset (info mi) = 0 \/ o <> 0 -> whole_object (name (info mi)) e) ->
  exists w', CacheAdd (set_elf_offset o mi) (length (elfs w)) (mkWorld (elfs w ++ [e]) (cache_enabled_ w) (cache_ w)) = Ok w' /\
    cache_ok w' /\ elfs w' = elfs w ++ [e].
Proof.
  intros Hm (Hon & c & Hc & Hall) HF HW. unfold CacheAdd, the_cache. cbn [cache_]. rewrite Hc. cbn [of_option]. rewrite bind_Ok.
  cbn [info elf_offset set_elf_offset]. eexists. split; [done|]. split; [|done]. split; [exact Hon|]. eexists. split; [done|].
  cbn [set_cache elfs]. assert ((elfs w ++ [e]) !! length (elfs w) = Some e) as Hp by (by apply list_lookup_middle).
  assert (map_Forall (entry_ok (elfs w ++ [e])) c) as Hall' by (intros k v Hk; by apply entry_ok_app, Hall).
  destruct (Z.eqb_spec (offset (info mi)) 0) as [E|E]; cbn [orb negb].
  - apply map_Forall_insert_2; [|done]. apply (whole_entry _ mi _ e Hm); [apply HW; by left|done].
  - destruct (Z.eqb_spec o 0) as [Ez|Ez]; cbn [negb].
    + apply map_Forall_insert_2; [|done]. pose proof (part_entry _ mi _ e o Hm E HF Hp) as HE. by subst o.
    + apply map_Forall_insert_2; [|apply map_Forall_insert_2; [|done]].
      * pose proof (part_entry _ mi _ e o Hm E HF Hp) as HE. by rewrite (proj2 (Z.eqb_neq _ _) Ez) in HE.
      * apply (whole_entry _ mi _ e Hm); [apply HW; by right|done].
Qed.

Lemma get_elf_cached mi w :
  maps mi -> cache_ok w ->
  exists p mi' w' e o l, GetElf fuel junk fs process_memory mi w = Ok (p, mi', w') /\ fresh mi = Ok (e, o) /\
    elfs w' !! p = Some e /\ elf_offset mi' = o /\ cache_ok w' /\ elfs w' = elfs w ++ l.
Proof.
  intros Hm HC. pose proof (Hbacked _ Hm) as HB. unfold GetElf. rewrite (fb_elf _ HB), (proj1 HC).
  destruct (fb_name _ HB) as [N1 _]. rewrite bool_decide_eq_false_2 by done. cbn [andb negb].
  destruct (CacheGet mi w) as [[[p mi']|]|] eqn:EG; rewrite ?bind_Ok.
  { destruct (cache_get_ok mi w p mi' Hm HC EG) as (e & o & H1 & H2 & H3).
    exists p, mi', w, e, o, []. split_and!; try done. by rewrite app_nil_r. }
  2: { unfold CacheGet, the_cache in EG. destruct HC as (_ & c & Hc & _). rewrite Hc in EG. cbn [of_option] in EG.
       rewrite bind_Ok in EG. repeat case_match; discriminate. }
  destruct (file_backed_memory _ HB) as (m & o & v & e & _ & HCM & HI & HF & Ho & HW). rewrite HCM, bind_Ok.
  destruct (CacheAfterCreateMemory (set_elf_offset o mi) w) as [[[[p mi'] w']|]|] eqn:EA; rewrite ?bind_Ok.
  - destruct HC as (Hon & c & Hc & Hall). unfold CacheAfterCreateMemory, the_cache in EA. rewrite Hc in EA.
    cbn [info elf_offset set_elf_offset of_option] in EA. rewrite bind_Ok in EA.
    destruct (bool_decide _); [discriminate|]. destruct (Z.eqb_spec (offset (info mi)) 0) as [|E]; [discriminate|].
    destruct (Z.eqb_spec o 0) as [|Ez]; [discriminate|]. cbn [orb] in EA.
    destruct (c !! name (info mi)) as [[q b]|] eqn:EL; [|discriminate]. injection EA as <- <- <-.
    assert (elfs w !! q = Some e) as Hq.
    { destruct (Hall _ _ EL) as (e' & Hq & [(_ & _ & Hw)|(mi2 & _ & _ & Hk & _)]); cbn [fst snd] in *.
      - by rewrite (whole_object_det _ _ _ (HW (or_intror Ez)) Hw).
      - destruct (fb_name _ HB) as [_ N]. rewrite Hk in N. by pose proof (key_colon mi2). }
    eexists q, _, _, e, o, []. split_and!; [done|done|done|done| |by rewrite app_nil_r].
    split; [exact Hon|]. eexists. split; [done|]. apply map_Forall_insert_2; [|done].
    pose proof (part_entry _ mi q e o Hm E HF Hq) as HE. by rewrite (proj2 (Z.eqb_neq _ _) Ez) in HE.
  - unfold create. rewrite HI, bind_Ok. cbn [snd add_elf]. rewrite bind_Ok.
    destruct (cache_add_ok mi w e o Hm HC HF HW) as (w' & HA & HK & HE).
    exists (length (elfs w)), (set_elf (length (elfs w)) (set_elf_offset o mi)), w', e, o, [e].
    split_and!; try done; [|by rewrite HE; apply list_lookup_middle].
    match goal with |- (?x ≫= _) = _ => replace x with (Ok w') end. by rewrite bind_Ok.
  - exfalso. unfold CacheAfterCreateMemory, the_cache in EA. destruct HC as (_ & c & Hc & _). rewrite Hc in EA.
    cbn [of_option] in EA. rewrite bind_Ok in EA. repeat case_match; discriminate.
Qed.
End Theorems.

(** C27. The cache of ELF objects is transparent: for maps of files that can be read, with names that
    have no colon and one size per part of a file, asking for the object of one map after the other
    with the cache on gives each map an object with the contents, and the offset, that it would get
    without a cache. *)
Theorem cache_transparent {A : Arch} fuel junk fs process_memory (mis : list t) w :
  Forall (file_backed fuel junk fs process_memory) mis ->
  (forall mi1 mi2, mi1 ∈ mis -> mi2 ∈ mis -> name (info mi1) = name (info mi2) -> offset (info mi1) = offset (info mi2) ->
    same_part mi1 mi2) ->
  cache_enabled_ w = true -> cache_ w = Some ∅ ->
  exists rs w', get_elfs fuel junk fs process_memory mis w = Ok (rs, w') /\
    Forall2 (fun mi r => exists e, fresh fuel junk fs process_memory mi = Ok (e, elf_offset r.2) /\ elfs w' !! r.1 = Some e) mis rs.
Proof.
  intros HB HS Hon Hc. rewrite Forall_forall in HB.
  assert (cache_ok fuel junk fs process_memory (fun mi => mi ∈ mis) w) as HK.
  { split; [done|]. exists ∅. split; [done|]. apply map_Forall_empty. }
  assert (forall ms, (forall mi, mi ∈ ms -> mi ∈ mis) -> forall w, cache_ok fuel junk fs process_memory (fun mi => mi ∈ mis) w ->
    exists rs w' l, get_elfs fuel junk fs process_memory ms w = Ok (rs, w') /\ elfs w' = elfs w ++ l /\
      Forall2 (fun mi r => exists e, fresh fuel junk fs process_memory mi = Ok (e, elf_offset r.2) /\ elfs w' !! r.1 = Some e) ms rs)
    as HL; [|destruct (HL mis (fun _ H => H) w HK) as (rs & w' & l & H1 & _ & H2); by exists rs, w'].
  clear w Hon Hc HK. induction ms as [|mi ms IH]; intros Hsub w HK.
  { exists [], w, []. split_and!; [done|by rewrite app_nil_r|constructor]. }
  destruct (get_elf_cached fuel junk fs process_memory (fun mi => mi ∈ mis) HB HS mi w) as (p & mi' & w1 & e & o & l & H1 & H2 & H3 & H4 & H5 & H6);
    [apply Hsub; left|done|].
  destruct (IH ltac:(intros; apply Hsub; by right) w1 H5) as (rs & w2 & l2 & G1 & G2 & G3).
  exists ((p, mi') :: rs), w2, (l ++ l2). cbn [get_elfs]. rewrite H1, bind_Ok, G1, bind_Ok. split_and!; [done|by rewrite G2, H6, app_assoc|].
  constructor; [|done]. exists e. cbn [fst snd]. rewrite H2, H4. split; [done|]. rewrite G2. by apply lookup_app_l_Some.
Qed.
End CacheTheorems.

Module CacheExamples.
Import MapInfo CacheFacts CacheTheorems MapExamples.

#[local] Existing Instance LP64.

(** A library with its cache on, and three maps of it: its start, the page of its code, and the
    same page mapped again. *)
Definition caching : World := mkWorld [] true (Some ∅).
Definition lib_maps : list t :=
  [new (new_MapInfo 0x60000000 0x60001000 0 5 lib_name); lib_map; new (new_MapInfo 0x71000000 0x71001000 4096 5 lib_name)].

Lemma no_colon (l : list Z) : forallb (fun c => negb (c =? 58)) l = true -> 58 ∉ l.
Proof. intros H Hin. apply list_elem_of_In in Hin. rewrite forallb_forall in H. by specialize (H _ Hin). Qed.

Lemma is_ok {T} (x : outcome T) : (match x with Ok _ => true | Fault _ => false end) = true -> exists r, x = Ok r.
Proof. destruct x; [by eexists|done]. Qed.
Lemma is_file {T} (x : outcome (option Memory * T)) :
  (match x with Ok (Some _, _) => true | _ => false end) = true -> exists m r, x = Ok (Some m, r).
Proof. destruct x as [[[m|] r]|]; [by do 2 eexists|done..]. Qed.

Lemma lib_backed mi : mi ∈ lib_maps -> file_backed 30 lib_junk lib_files no_memory mi.
Proof.
  intros H. apply list_elem_of_In in H.
  destruct H as [<-|[<-|[<-|[]]]];
    (split; [reflexivity|reflexivity|split; [discriminate|apply no_colon; reflexivity]|reflexivity|reflexivity| |]);
    first [apply is_file; vm_compute; reflexivity|apply is_ok; vm_compute; reflexivity].
Qed.

Lemma cache_transparent_witness :
  exists rs w', get_elfs 30 lib_junk lib_files no_memory lib_maps caching = Ok (rs, w') /\
    Forall2 (fun mi r => exists e, fresh 30 lib_junk lib_files no_memory mi = Ok (e, elf_offset r.2) /\ elfs w' !! r.1 = Some e)
      lib_maps rs.
Proof.
  apply (cache_transparent 30 lib_junk lib_files no_memory lib_maps caching).
  - apply Forall_forall. exact lib_backed.
  - intros mi1 mi2 H1 H2 E1 E2. split; [exact E1|exact E2|]. apply list_elem_of_In in H1, H2.
    destruct H1 as [<-|[<-|[<-|[]]]], H2 as [<-|[<-|[<-|[]]]]; reflexivity.
  - reflexivity.
  - reflexivity.
Defined.

(** All three maps share one object. *)
Example lib_shared :
  (r ← get_elfs 30 lib_junk lib_files no_memory lib_maps caching; Ok (r.1.*1, elf_offset <$> r.1.*2, length (elfs r.2))) =
  Ok ([0%nat; 0%nat; 0%nat], [0; 4096; 4096], 1%nat).
Proof. vm_compute. reflexivity. Qed.

(** Two anonymous maps with the same name: the second one, which holds an ELF file, is given the
    object of the first, which does not. *)
Definition anon_name : list Z := str "[anon:jit]".
Definition two_maps : Memory := fun a n =>
  if a <? 0x2000 then slice (a - 0x1000) n (zeros 4096) else slice (a - 0x2000) n lib.
Definition anon_maps : list t :=
  [new (new_MapInfo 0x1000 0x2000 0 5 anon_name); new (new_MapInfo 0x2000 0x3000 0 5 anon_name)].

Example anonymous_maps_share :
  (r ← get_elfs 30 lib_junk lib_files two_maps anon_maps caching; Ok (r.1.*1, Elf.valid_ <$> elfs r.2)) =
    Ok ([0%nat; 0%nat], [false]) /\
  (r ← get_elfs 30 lib_junk lib_files two_maps anon_maps no_objects; Ok (r.1.*1, Elf.valid_ <$> elfs r.2)) =
    Ok ([0%nat; 1%nat], [false; true]).
Proof. split; vm_compute; reflexivity. Qed.
End CacheExamples.
