(* ===== verification/UwBacktrace.v ===== *)
(** * Hawkeye on libunwindstack: the unwinding of the crash daemon

    The class [Unwindstack] of HawkUnwinder is what hawkeye_unwinder.cpp needs of libunwindstack; this
    file builds it from the models of the library: the maps of the process (UwMaps), the objects
    behind them (UwElf) and the registers (UwRegs).  The state of the library is the list of maps of a
    [RemoteMaps], with the objects they point to.

    What the system answers is the record [Machine]: the maps file of a thread, its memory as
    [MemoryRemote] reads it, the register blocks of the two ptrace requests and the files.  Results of
    [Find] and pointers to [Elf] objects are indices. *)

From S2P Require Import Prelude HawkGuard HawkPrivate HawkDumper HawkUnwinder UwDwarfMemory UwMemory UwMaps UwDwarfOp.
From S2P Require Import UwDwarfCfa UwDwarfEval UwDwarfSection UwDwarfFormat UwEhFrameHdr UwRegs UwElfInterface UwElfArm UwElf.

Record Machine : Type := mkMachine {
  current : ArchEnum;                               (* Regs::CurrentArch *)
  maps_file : Z -> option proc_file;                (* /proc/TID/maps *)
  process_memory : Z -> Memory;
  getregset : Z -> option (list Z);
  getregs : Z -> option (list Z);
  files : Files
}.

Module Library.

(** [RemoteMaps], and the objects its maps point to. *)
Record state : Type := mkState { maps : list MapInfo.t; world : World }.

Section Library.
Context {A : Arch} {IO : IterationOrder}.
Variable fuel : nat.
Variable junk : Junk.
Variable buffer : list Z.        (* the uninitialised buffer of [Maps::Parse] *)
Variable mach : Machine.

(** [new RemoteMaps(pid)] and [Parse], whose result is only logged. *)
Definition remote_maps (pid : Z) : outcome state :=
  r ← Maps.Parse buffer (maps_file mach pid) [];
  Ok (mkState (MapInfo.new <$> r.2) no_objects).

(** [maps.Find(pc)]: the index of the map. *)
Definition Find (pc : Z) (st : state) : option nat :=
  match maps st with
  | [] => None
  | _ =>
      let l := imap pair (maps st) in
      fst <$> bsearch (fun p => Maps.find_cmp pc (MapInfo.info p.2)) l (S (length l)) 0 (length l)
  end.

Definition map_name_of (i : nat) (st : state) : list Z := from_option (fun mi => name (MapInfo.info mi)) [] (maps st !! i).
Definition elf_offset_of (i : nat) (st : state) : Z := from_option MapInfo.elf_offset 0 (maps st !! i).

(** [map_info->GetElf(memory, true)] *)
Definition GetElf (tid : Z) (i : nat) (st : state) : outcome (option nat * state) :=
  mi ← of_option OutOfBounds (maps st !! i);
  r ← MapInfo.GetElf fuel junk (files mach) (process_memory mach tid) mi (world st);
  let '(p, mi, w) := r in
  Ok (Some p, mkState (<[i := mi]> (maps st)) w).

Definition object (p : nat) (st : state) : outcome Elf.t := of_option OutOfBounds (elfs (world st) !! p).
Definition set_object (p : nat) (e : Elf.t) (st : state) : state :=
  let w := world st in mkState (maps st) (mkWorld (<[p := e]> (elfs w)) (cache_enabled_ w) (cache_ w)).

Definition GetRelPc (p : nat) (pc : Z) (i : nat) (st : state) : Z :=
  match elfs (world st) !! p, maps st !! i with
  | Some e, Some mi => Elf.GetRelPc pc (start (MapInfo.info mi)) (MapInfo.elf_offset mi) e
  | _, _ => 0
  end.

Definition GetPcAdjustment (regs : DwarfSection.Regs) (rel_pc : Z) (p : nat) (st : state) : Z :=
  match elfs (world st) !! p with
  | Some e => Regs.GetPcAdjustment (current mach) rel_pc (Elf.view e)
  | None => 0
  end.

Definition GetFunctionName (p : nat) (addr : Z) (st : state) : outcome (option (list Z * Z) * state) :=
  e ← object p st;
  r ← Elf.GetFunctionName fuel addr e;
  Ok (r.1, set_object p r.2 st).

Definition Step (tid : Z) (p : nat) (rel_pc adjusted_rel_pc elf_offset : Z) (regs : DwarfSection.Regs) (st : state)
    : outcome (option (DwarfSection.Regs * bool) * state) :=
  e ← object p st;
  r ← Elf.Step fuel (process_memory mach tid) (current mach) rel_pc adjusted_rel_pc elf_offset regs e;
  let '(finished, regs, e) := r in
  Ok (option_map (fun f => (regs, f)) finished, set_object p e st).

Definition new_regs (rs : list Z) : DwarfSection.Regs := DwarfSection.mkRegs rs 0.

Definition libunwindstack : Unwindstack := {|
  ustate := state;
  uregs := DwarfSection.Regs;
  umap := nat;
  uelf := nat;
  HawkUnwinder.remote_maps := remote_maps;
  pc_of := fun regs => Regs.pc (current mach) (DwarfSection.regs_ regs);
  HawkUnwinder.Find := Find;
  HawkUnwinder.map_name_of := map_name_of;
  HawkUnwinder.elf_offset_of := elf_offset_of;
  HawkUnwinder.GetElf := GetElf;
  HawkUnwinder.GetRelPc := GetRelPc;
  HawkUnwinder.GetPcAdjustment := GetPcAdjustment;
  HawkUnwinder.GetFunctionName := GetFunctionName;
  HawkUnwinder.Step := Step;
  CreateFromUcontext := fun context => r ← Regs.CreateFromUcontext (current mach) context; Ok (option_map new_regs r);
  RemoteGet := fun tid => r ← Regs.RemoteGet (getregset mach tid) (getregs mach tid) (current mach); Ok (option_map new_regs r)
|}.
End Library.
End Library.

(** ** What unwinding leaves alone *)

(** A relation that every call into the library respects holds across a backtrace. *)
Section Frames.
Context {A : Arch} {U : Unwindstack}.
Variable R : ustate -> ustate -> Prop.
Context `{!PreOrder R}.
Hypothesis HGetElf : forall tid m st o st', GetElf tid m st = Ok (o, st') -> R st st'.
Hypothesis HGetFunctionName : forall e a st o st', GetFunctionName e a st = Ok (o, st') -> R st st'.
Hypothesis HStep : forall tid e r a o regs st f st', Step tid e r a o regs st = Ok (f, st') -> R st st'.

Lemma frame_preserves tid n regs st l c st' : Unwinder.frame tid n regs st = Ok (l, c, st') -> R st st'.
Proof.
  unfold Unwinder.frame. destruct (Find _ _) as [m|]; [|by intros [= _ _ <-]]. intros H.
  apply bind_Ok_inv in H as ([[e|] st1] & H1 & H); apply HGetElf in H1; [|by injection H as _ _ <-].
  apply bind_Ok_inv in H as ([fn st2] & H2 & H). apply HGetFunctionName in H2.
  apply bind_Ok_inv in H as ([f st3] & H3 & H). apply HStep in H3. injection H as _ _ <-.
  cbn. by transitivity st2; [transitivity st1|].
Qed.

Lemma frames_preserve tid todo n regs st ls st' : Unwinder.frames tid todo n regs st = Ok (ls, st') -> R st st'.
Proof.
  revert n regs st ls. induction todo as [|todo IH]; intros n regs st ls; cbn [Unwinder.frames]; [by intros [= _ <-]|].
  intros H. apply bind_Ok_inv in H as ([[l [r|]] st1] & H1 & H); apply frame_preserves in H1; [|by injection H as _ <-].
  apply bind_Ok_inv in H as ([ls2 st2] & H2 & H). injection H as _ <-. apply IH in H2. by transitivity st1.
Qed.
End Frames.

Module LibraryFacts.
Import Library.

(** What never changes in an object once it was read. *)
Record frozen (e e' : Elf.t) : Prop := {
  fr_memory : Elf.memory_ e' = Elf.memory_ e;
  fr_valid : Elf.valid_ e' = Elf.valid_ e;
  fr_bias : Elf.load_bias_ e' = Elf.load_bias_ e;
  fr_interface : is_Some (Elf.interface_ e) -> is_Some (Elf.interface_ e')
}.

#[global] Instance frozen_preorder : PreOrder frozen.
Proof.
  split; [by intros e|]. intros e1 e2 e3 [H1 H2 H3 H4] [G1 G2 G3 G4]. split; [congruence..|tauto].
Qed.

(** A map keeps its place; once it has an object it keeps the object. *)
Record settled (mi mi' : MapInfo.t) : Prop := {
  se_info : MapInfo.info mi' = MapInfo.info mi;
  se_elf : forall p, MapInfo.elf mi = Some p -> mi' = mi
}.

#[global] Instance settled_preorder : PreOrder settled.
Proof.
  split; [by intros mi|]. intros m1 m2 m3 [H1 H2] [G1 G2]. split; [congruence|].
  intros p Hp. pose proof (H2 p Hp). subst m2. by apply (G2 p).
Qed.

(** Objects are only added, and maps only settle. *)
Record grows (st st' : state) : Prop := {
  gr_maps : Forall2 settled (maps st) (maps st');
  gr_objects : forall p e, elfs (world st) !! p = Some e -> exists e', elfs (world st') !! p = Some e' /\ frozen e e'
}.

#[global] Instance grows_preorder : PreOrder grows.
Proof.
  split.
  - intros st. split; [reflexivity|]. intros p e H. by exists e.
  - intros s1 s2 s3 [H1 H2] [G1 G2]. split; [by transitivity (maps s2)|]. intros p e H.
    destruct (H2 p e H) as (e2 & K1 & K2). destruct (G2 p e2 K1) as (e3 & K3 & K4). exists e3. split; [done|by transitivity e2].
Qed.

(** Pointers point to objects, and a valid object has its interface. *)
Record state_ok (st : state) : Prop := {
  so_maps : forall i mi p, maps st !! i = Some mi -> MapInfo.elf mi = Some p -> is_Some (elfs (world st) !! p);
  so_cache : forall c k v, cache_ (world st) = Some c -> c !! k = Some v -> is_Some (elfs (world st) !! v.1);
  so_valid : forall p e, elfs (world st) !! p = Some e -> Elf.valid_ e = true -> is_Some (Elf.interface_ e)
}.

(** One relation for both. *)
Definition keeps (st st' : state) : Prop := state_ok st -> state_ok st' /\ grows st st'.

#[global] Instance keeps_preorder : PreOrder keeps.
Proof.
  split; [intros st H; by split|]. intros s1 s2 s3 H G K. destruct (H K) as [K1 K2]. destruct (G K1) as [K3 K4].
  split; [done|by transitivity s2].
Qed.

Definition world_ok (w : World) : Prop :=
  (forall c k v, cache_ w = Some c -> c !! k = Some v -> is_Some (elfs w !! v.1)) /\
  (forall p e, elfs w !! p = Some e -> Elf.valid_ e = true -> is_Some (Elf.interface_ e)).

Section Objects.
Context {A : Arch} {IO : IterationOrder}.
Variables (fuel : nat) (junk : Junk) (fs : Files) (m : Memory).

Lemma create_interface_valid mem e : Elf.valid_ (Elf.CreateInterfaceFromMemory mem e).2 = Elf.valid_ e.
Proof. unfold Elf.CreateInterfaceFromMemory. repeat case_match; done. Qed.

Lemma init_interface mem b e : Elf.Init fuel junk (Elf.new mem) = Ok (b, e) -> Elf.valid_ e = true -> is_Some (Elf.interface_ e).
Proof.
  unfold Elf.Init. destruct mem as [mem|]; cbn [Elf.memory_ Elf.set_read Elf.new]; [|by intros [= _ <-] [=]].
  match goal with |- context [Elf.CreateInterfaceFromMemory mem ?x] => pose proof (create_interface_valid mem x) as HV end.
  destruct (Elf.CreateInterfaceFromMemory mem _) as [[i|] e1]; cbn [snd] in HV.
  2: { intros [= _ <-]. cbn in HV |- *. rewrite HV. done. }
  intros H. apply bind_Ok_inv in H as ([[b'|] o] & _ & H); [|by injection H as _ <-].
  apply bind_Ok_inv in H as (o' & _ & H). injection H as _ <-. by eexists.
Qed.

Lemma file_memory_info mi mem mi' : MapInfo.GetFileMemory junk fs mi = Ok (mem, mi') ->
  MapInfo.info mi' = MapInfo.info mi /\ MapInfo.elf mi' = MapInfo.elf mi.
Proof.
  unfold MapInfo.GetFileMemory. case_match; [by intros [= _ <-]|]. case_match; [by intros [= _ <-]|].
  intros H1. apply bind_Ok_inv in H1 as ([v s] & _ & H1). repeat case_match; by simplify_eq.
Qed.

Lemma create_memory_info mi mem mi' : MapInfo.CreateMemory junk fs m mi = Ok (mem, mi') ->
  MapInfo.info mi' = MapInfo.info mi /\ MapInfo.elf mi' = MapInfo.elf mi.
Proof.
  unfold MapInfo.CreateMemory. case_match; [by intros [= _ <-]|]. case_match; [by intros [= _ <-]|].
  intros H1. apply bind_Ok_inv in H1 as ([mem' mi1] & H1 & H2).
  assert (MapInfo.info mi1 = MapInfo.info mi /\ MapInfo.elf mi1 = MapInfo.elf mi).
  { destruct (bool_decide _); [injection H1 as _ <-; by split|]. by apply file_memory_info in H1. }
  repeat case_match; by simplify_eq.
Qed.

(** A new object at the end of the list. *)
Lemma create_ok mem mi w p mi' w' :
  MapInfo.create fuel junk mem mi w = Ok (p, mi', w') -> world_ok w ->
  mi' = MapInfo.set_elf p mi /\ is_Some (elfs w' !! p) /\ world_ok w' /\ exists l, elfs w' = elfs w ++ l.
Proof.
  unfold MapInfo.create. intros H [W1 W2]. apply bind_Ok_inv in H as ([b e] & HI & H). cbn [snd MapInfo.add_elf] in H.
  injection H as <- <- <-. cbn [elfs]. split; [done|]. split; [by rewrite list_lookup_middle|]. split; [|by eexists]. split; cbn [elfs cache_].
  - intros c k v Hc Hk. destruct (W1 c k v Hc Hk) as [e' He]. exists e'. by apply lookup_app_l_Some.
  - intros q e' Hq Hv. apply lookup_app_Some in Hq as [Hq|[_ Hq]]; [by apply (W2 q)|].
    apply list_lookup_singleton_Some in Hq as [_ <-]. by eapply init_interface.
Qed.

Lemma insert_entry_ok (w : World) (c : gmap (list Z) (nat * bool)) (key : list Z) (p : nat) (b : bool) :
  is_Some (elfs w !! p) -> (forall k v, c !! k = Some v -> is_Some (elfs w !! v.1)) ->
  forall k v, <[key := (p, b)]> c !! k = Some v -> is_Some (elfs w !! v.1).
Proof. intros Hp Hc k v Hk. apply lookup_insert_Some in Hk as [[_ <-]|[_ Hk]]; [done|by eapply Hc]. Qed.

Lemma cache_add_world mi p w w' :
  MapInfo.CacheAdd mi p w = Ok w' -> world_ok w -> is_Some (elfs w !! p) -> world_ok w' /\ elfs w' = elfs w.
Proof.
  unfold MapInfo.CacheAdd, MapInfo.the_cache. intros H [W1 W2] Hp. destruct (cache_ w) as [c|] eqn:Ec; [|done].
  cbn [of_option] in H. rewrite bind_Ok in H. injection H as <-. split; [|done]. split; [|exact W2].
  cbn [MapInfo.set_cache cache_ elfs]. intros c' k v [= <-]. revert k v.
  assert (forall k v, c !! k = Some v -> is_Some (elfs w !! v.1)) as Hc by (intros; by eapply W1).
  repeat case_match; repeat (apply insert_entry_ok; [done|]); exact Hc.
Qed.

(** [MapInfo::GetElf] *)
Lemma get_elf_ok mi w p mi' w' :
  MapInfo.GetElf fuel junk fs m mi w = Ok (p, mi', w') -> world_ok w ->
  (forall q, MapInfo.elf mi = Some q -> is_Some (elfs w !! q)) ->
  settled mi mi' /\ MapInfo.elf mi' = Some p /\ is_Some (elfs w' !! p) /\ world_ok w' /\ exists l, elfs w' = elfs w ++ l.
Proof.
  intros H HW Hq. unfold MapInfo.GetElf in H. destruct (MapInfo.elf mi) as [q|] eqn:Ee.
  { injection H as <- <- <-. split_and!; [done|done|by apply Hq|done|]. exists []. by rewrite app_nil_r. }
  assert (forall mi1, MapInfo.info mi1 = MapInfo.info mi -> settled mi mi1) as Hse
    by (intros mi1 E; split; [done|]; intros q; by rewrite Ee).
  destruct (cache_enabled_ w && _).
  - apply bind_Ok_inv in H as ([[q mi1]|] & HG & H).
    + injection H as <- <- <-. unfold MapInfo.CacheGet, MapInfo.the_cache in HG.
      destruct (cache_ w) as [c|] eqn:Ec; [|done]. cbn [of_option] in HG. rewrite bind_Ok in HG.
      destruct (c !! _) as [[q' b]|] eqn:EL; [|done]. injection HG as <- <-.
      split_and!; [apply Hse; by destruct b|by destruct b|by apply (proj1 HW c _ _ Ec EL)|done|]. exists []. by rewrite app_nil_r.
    + apply bind_Ok_inv in H as ([mem mi1] & HC & H). apply create_memory_info in HC as [I1 I2].
      apply bind_Ok_inv in H as ([[[q mi2] w2]|] & HA & H).
      * injection H as <- <- <-. unfold MapInfo.CacheAfterCreateMemory, MapInfo.the_cache in HA.
        destruct (_ || _); [done|]. destruct (cache_ w) as [c|] eqn:Ec; [|done]. cbn [of_option] in HA. rewrite bind_Ok in HA.
        destruct (c !! _) as [[q' b]|] eqn:EL; [|done]. injection HA as <- <- <-.
        pose proof (proj1 HW c _ _ Ec EL) as Hq'. cbn [fst] in Hq'. cbn [MapInfo.set_cache elfs].
        split_and!; [by apply Hse|done|done| |exists []; by rewrite app_nil_r]. split; [|exact (proj2 HW)].
        cbn [MapInfo.set_cache cache_ elfs]. intros c' k v [= <-]. revert k v.
        apply insert_entry_ok; [done|]. intros. by eapply (proj1 HW).
      * apply bind_Ok_inv in H as ([[q mi2] w2] & HN & H). apply create_ok in HN as (-> & P1 & P2 & l & P3); [|done].
        apply bind_Ok_inv in H as (w3 & HA' & H). injection H as <- <- <-. apply cache_add_world in HA' as [Q1 Q2]; [|done|done].
        rewrite Q2. split_and!; [by apply Hse|done|done|done|by exists l].
  - apply bind_Ok_inv in H as ([mem mi1] & HC & H). apply create_memory_info in HC as [I1 I2]. cbn [fst snd] in H.
    apply create_ok in H as (-> & P1 & P2 & P3); [|done]. split_and!; [by apply Hse|done|done|done|done].
Qed.

(** [Elf::GetFunctionName] and [Elf::Step] *)
Lemma function_name_frozen addr e r e' : Elf.GetFunctionName fuel addr e = Ok (r, e') -> frozen e e'.
Proof.
  unfold Elf.GetFunctionName. case_match; [by intros [= _ <-]|]. intros H1. apply bind_Ok_inv in H1 as (i & _ & H1).
  apply bind_Ok_inv in H1 as (r' & _ & H1). injection H1 as _ <-. by split; [| | |eexists].
Qed.

Lemma step_frozen arch rel adj off regs e r e' : Elf.Step fuel m arch rel adj off regs e = Ok (r, e') -> frozen e e'.
Proof.
  unfold Elf.Step. case_match; [by intros [= _ <-]|]. destruct (Regs.StepIfSignalHandler _ _ _ _ _) as [[] rs]; [by intros [= _ <-]|].
  intros H1. apply bind_Ok_inv in H1 as (i & _ & H1). apply bind_Ok_inv in H1 as ([[f regs'] o] & _ & H1). injection H1 as _ <-.
  by split; [| | |eexists].
Qed.
End Objects.
End LibraryFacts.

Module LibraryTheorems.
Import Library LibraryFacts.

Section Theorems.
Context {A : Arch} {IO : IterationOrder}.
Variables (fuel : nat) (junk : Junk) (buffer : list Z) (mach : Machine).
#[local] Instance lib : Unwindstack := libunwindstack fuel junk buffer mach.

Lemma set_object_keeps p e e' st : elfs (world st) !! p = Some e -> frozen e e' -> keeps st (Library.set_object p e' st).
Proof.
  intros He Hf [H1 H2 H3]. pose proof (lookup_lt_Some _ _ _ He) as Hl.
  assert (forall q, is_Some (elfs (world st) !! q) -> is_Some (<[p := e']> (elfs (world st)) !! q)) as Hs.
  { intros q [x Hx]. apply lookup_lt_is_Some. rewrite length_insert. by eapply lookup_lt_Some. }
  split; split; cbn [Library.set_object world elfs cache_ maps].
  - intros. apply Hs. by eapply H1.
  - intros. apply Hs. by eapply H2.
  - intros q x Hx Hv. apply list_lookup_insert_Some in Hx as [(<- & <- & _)|[_ Hx]]; [|by eapply H3].
    apply (fr_interface _ _ Hf), (H3 p e He). by rewrite <- (fr_valid _ _ Hf).
  - reflexivity.
  - intros q x Hx. destruct (decide (p = q)) as [<-|].
    + exists e'. rewrite list_lookup_insert_eq by done. split; [done|]. congruence.
    + exists x. by rewrite list_lookup_insert_ne.
Qed.

Lemma get_elf_keeps tid i st o st' : Library.GetElf fuel junk mach tid i st = Ok (o, st') -> keeps st st'.
Proof.
  unfold Library.GetElf. intros H [H1 H2 H3]. apply bind_Ok_inv in H as (mi & Hi & H).
  destruct (maps st !! i) as [mi0|] eqn:Em; [|done]. injection Hi as <-.
  apply bind_Ok_inv in H as ([[p mi'] w'] & HG & H). injection H as _ <-.
  apply get_elf_ok in HG as (S1 & S2 & S3 & [W1 W2] & l & S4); [|by split|intros q Hq; by eapply H1].
  assert (forall q, is_Some (elfs (world st) !! q) -> is_Some (elfs w' !! q)) as Hs.
  { intros q [x Hx]. exists x. rewrite S4. by apply lookup_app_l_Some. }
  split; split; cbn [world maps]; [|done|done| |].
  - intros j mj q Hj Hq. apply list_lookup_insert_Some in Hj as [(<- & <- & _)|[_ Hj]].
    + rewrite S2 in Hq. by injection Hq as <-.
    + apply Hs. by eapply H1.
  - rewrite <- (list_insert_id (maps st) i mi0 Em) at 1. by apply Forall2_insert.
  - intros q x Hx. exists x. rewrite S4. split; [by apply lookup_app_l_Some|done].
Qed.

Lemma function_name_keeps p a st o st' : Library.GetFunctionName fuel p a st = Ok (o, st') -> keeps st st'.
Proof.
  unfold Library.GetFunctionName, Library.object. intros H. apply bind_Ok_inv in H as (e & He & H).
  apply bind_Ok_inv in H as ([r e'] & Hn & H). injection H as _ <-. destruct (elfs (world st) !! p) as [e0|] eqn:E; [|done].
  injection He as <-. cbn. apply (set_object_keeps p e0); [done|]. by eapply function_name_frozen.
Qed.

Lemma step_keeps tid p r a o regs st f st' : Library.Step fuel mach tid p r a o regs st = Ok (f, st') -> keeps st st'.
Proof.
  unfold Library.Step, Library.object. intros H. apply bind_Ok_inv in H as (e & He & H).
  apply bind_Ok_inv in H as ([[r' regs'] e'] & Hn & H). injection H as _ <-. destruct (elfs (world st) !! p) as [e0|] eqn:E; [|done].
  injection He as <-. apply (set_object_keeps p e0); [done|]. by eapply step_frozen.
Qed.

Lemma bsearch_rel {T U V} (cmp : T -> comparison) (cmp' : U -> comparison) (f : T -> V) (f' : U -> V) l l' n a b :
  Forall2 (fun x y => cmp x = cmp' y /\ f x = f' y) l l' -> f <$> bsearch cmp l n a b = f' <$> bsearch cmp' l' n a b.
Proof.
  intros H. revert a b. induction n as [|n IH]; intros a b; [done|]. cbn [bsearch]. destruct (a <? b)%nat; [|done].
  destruct (l !! ((a + b) / 2)%nat) as [x|] eqn:E.
  - destruct (Forall2_lookup_l _ _ _ _ _ H E) as (y & -> & Hc & Hf). rewrite Hc. destruct (cmp' y); [cbn; by rewrite Hf|apply IH..].
  - destruct (l' !! _) as [y|] eqn:E'; [|done]. destruct (Forall2_lookup_r _ _ _ _ _ H E') as (x & Hx & _). congruence.
Qed.

Lemma find_settled pc st st' : Forall2 settled (maps st) (maps st') -> Library.Find pc st' = Library.Find pc st.
Proof.
  intros H. unfold Library.Find. pose proof (Forall2_length _ _ _ H) as HL.
  assert (fst <$> bsearch (fun p => Maps.find_cmp pc (MapInfo.info p.2)) (imap pair (maps st')) (S (length (imap pair (maps st'))))
      0 (length (imap pair (maps st'))) =
    fst <$> bsearch (fun p => Maps.find_cmp pc (MapInfo.info p.2)) (imap pair (maps st)) (S (length (imap pair (maps st))))
      0 (length (imap pair (maps st)))) as HB.
  { rewrite !length_imap, <- HL. symmetry. apply bsearch_rel. apply Forall2_same_length_lookup_2; [by rewrite !length_imap|].
    intros i x y Hx Hy. apply list_lookup_imap_Some in Hx as (m1 & H1 & ->). apply list_lookup_imap_Some in Hy as (m2 & H2 & ->).
    destruct (Forall2_lookup_lr _ _ _ _ _ _ H H1 H2) as [Hi _]. cbn. by rewrite Hi. }
  destruct (maps st), (maps st'); try discriminate HL; [done|exact HB].
Qed.

(** The state the daemon starts from. *)
Lemma remote_maps_ok pid st : Library.remote_maps buffer mach pid = Ok st -> state_ok st.
Proof.
  unfold Library.remote_maps. intros H. apply bind_Ok_inv in H as (r & _ & H). injection H as <-. split; cbn [world maps no_objects elfs cache_].
  - intros i mi p Hi Hp. apply list_lookup_fmap_Some in Hi as (x & -> & _). discriminate Hp.
  - done.
  - done.
Qed.

Lemma frames_keep tid todo n regs (st : state) ls (st' : state) :
  Unwinder.frames tid todo n regs st = Ok (ls, st') -> keeps st st'.
Proof. intros HF. exact (frames_preserve (U := lib) keeps get_elf_keeps function_name_keeps step_keeps _ _ _ _ _ _ _ HF). Qed.

(** C25. A backtrace does not disturb what was found before: the pointers of the library stay valid and
    a valid file keeps its reader; every pc is found in the same map as before; and a map that has a
    file keeps it, so that asking again returns the same object and a pc of the map is reported
    relative to the file by the same number. *)
Theorem unwinding_stable tid todo n regs (st : state) ls (st' : state) :
  state_ok st -> Unwinder.frames tid todo n regs st = Ok (ls, st') ->
  state_ok st' /\ (forall pc, Find pc st' = Find pc st) /\
  forall i mi p pc tid', maps st !! i = Some mi -> MapInfo.elf mi = Some p ->
    GetElf fuel junk mach tid' i st' = Ok (Some p, st') /\ GetRelPc p pc i st' = GetRelPc p pc i st.
Proof.
  intros Hok HF. destruct (frames_keep _ _ _ _ _ _ _ HF Hok) as [Hok' [G1 G2]]. split; [done|]. split; [intros pc; by apply find_settled|].
  intros i mi p pc tid' Hi Hp. destruct (Forall2_lookup_l _ _ _ _ _ G1 Hi) as (mi' & Hi' & _ & Hse). pose proof (Hse p Hp). subst mi'.
  destruct (so_maps _ Hok i mi p Hi Hp) as [e He]. destruct (G2 p e He) as (e' & He' & Hf). split.
  - unfold Library.GetElf. rewrite Hi'. cbn [of_option]. rewrite bind_Ok. unfold MapInfo.GetElf. rewrite Hp, bind_Ok.
    rewrite list_insert_id by done. by destruct st'.
  - unfold Library.GetRelPc. rewrite He, He', Hi, Hi'. unfold Elf.GetRelPc. by rewrite (fr_bias _ _ Hf).
Qed.
End Theorems.
End LibraryTheorems.

(** ** A backtrace from the bytes of a process *)

Module BacktraceExamples.
Import Library LibraryFacts LibraryTheorems MapExamples.

#[local] Existing Instance LP64.

Definition any_order : IterationOrder := {| in_order := map_to_list; in_order_perm := fun m => reflexivity (map_to_list m) |}.
#[local] Existing Instance any_order.

(** A thread in the third function of the library of UwElf; its stack has the return addresses into
    the second and the first function, and 0. *)
Definition stack : Memory := DwarfMemory.buffer (zeros 64 ++ le_bytes 8 0x70000013 ++ le_bytes 8 0x70000004 ++ le_bytes 8 0).
Definition maps_text : list Z := str "70000000-70001000 r-xp 00001000 fe:00 12 /lib.so" ++ [10].
Definition machine : Machine :=
  mkMachine ARCH_X86_64 (fun _ => Some (mkFile maps_text [ReadUpTo 4095])) (fun _ => stack) (fun _ => None) (fun _ => None) lib_files.
Definition thread_regs : DwarfSection.Regs :=
  new_regs (set_reg X86_64.REG_SP 64 (set_reg X86_64.REG_PC 0x70000022 (replicate 17 0))).
Definition machine_lib : Unwindstack := libunwindstack 30 lib_junk (zeros 2048) machine.

(** The lines of a backtrace, and the library after it. *)
Definition trace (st : state) : outcome (list (list Z) * state) := Unwinder.frames (U := machine_lib) 1 HAWKEYE_MAX_FRAMES 0 thread_regs st.
Definition traced : outcome (list (list Z) * state) := st ← Unwinder.InitUnwinder (U := machine_lib) 1; trace st.

(** From the maps file, the bytes of the library, the registers and the stack to the lines of the
    report: three functions, each with its pc relative to the file, and the frame of the pc 0, which
    is reported because the result [finished] is ignored. *)
Example backtrace_lines :
  (r ← traced; Ok r.1) =
  Ok [str "    #00 pc 0000000000001022  /lib.so"; str "    #01 pc 0000000000001013  /lib.so";
      str "    #02 pc 0000000000001004  /lib.so"; str "    #03 pc 0000000000000000  <unknown>"].
Proof. vm_compute. reflexivity. Qed.

Lemma traced_twice : exists ls st ls' st', traced = Ok (ls, st) /\ trace st = Ok (ls', st').
Proof.
  assert ((match r ← traced; trace r.2 with Ok _ => true | Fault _ => false end) = true) as H by (vm_compute; reflexivity).
  destruct traced as [[ls st]|]; [|discriminate H]. rewrite bind_Ok in H. cbn [snd] in H.
  destruct (trace st) as [[ls' st']|] eqn:E; [|discriminate H]. by exists ls, st, ls', st'.
Qed.

Lemma traced_objects ls st : traced = Ok (ls, st) -> MapInfo.elf <$> maps st = [Some 0%nat].
Proof.
  assert ((r ← traced; Ok (MapInfo.elf <$> maps r.2)) = Ok [Some 0%nat]) as H by (vm_compute; reflexivity).
  intros E. rewrite E, bind_Ok in H. by injection H.
Qed.

Lemma traced_ok ls st : traced = Ok (ls, st) -> state_ok st.
Proof.
  unfold traced, trace. intros H. apply bind_Ok_inv in H as (st0 & H0 & H).
  pose proof (frames_keep 30 lib_junk (zeros 2048) machine 1 HAWKEYE_MAX_FRAMES 0 thread_regs st0 ls st H) as HK.
  apply HK. exact (remote_maps_ok (zeros 2048) machine 1 st0 H0).
Qed.

(** A second backtrace of the thread. *)
Lemma unwinding_stable_witness :
  exists st ls st', trace st = Ok (ls, st') /\ MapInfo.elf <$> maps st = [Some 0%nat] /\ state_ok st' /\
    GetElf 30 lib_junk machine 1 0 st' = Ok (Some 0%nat, st').
Proof.
  destruct traced_twice as (ls & st & ls' & st' & H1 & H2). exists st, ls', st'.
  pose proof (traced_objects ls st H1) as HE. pose proof (traced_ok ls st H1) as Hok.
  split; [exact H2|]. split; [exact HE|]. unfold trace in H2.
  pose proof (unwinding_stable 30 lib_junk (zeros 2048) machine 1 HAWKEYE_MAX_FRAMES 0 thread_regs st ls' st' Hok H2) as (K1 & _ & K3).
  split; [exact K1|]. destruct (maps st) as [|mi [|]] eqn:EM; try discriminate HE. injection HE as HE.
  exact (proj1 (K3 0%nat mi 0%nat 0 1 eq_refl HE)).
Defined.
End BacktraceExamples.
