(* ===== verification/UwStackWalk.v ===== *)
(** * From the memory of a process to the backtrace of the report

    The backtrace of a crash as a specification, and the theorem that hawkeye_unwinder.cpp, on the
    models of libunwindstack, writes it.

    A [library] says what a mapped ELF file holds: its headers, its search table, its functions with
    their call frame instructions, and its symbol tables.  [walk] is the stack walk of a thread by these
    descriptions: the map of the pc, the name of its function, and the caller as the DWARF table of the
    function defines it (UwCfaStep) or as a signal frame holds it (UwRegs).  It knows nothing of
    searching, caching, lazy reading or error states.

    The rest of the file relates the two: an object that was read from a library ([ready]) names
    functions and steps as the library says and stays [ready]; the state of the unwinder ([tracks]) has
    a ready object for every map that was used. *)

From S2P Require Import Prelude HawkGuard HawkPrivate HawkDumper HawkUnwinder UwDwarfMemory UwMemory UwMaps UwSymbols UwDwarfOp.
From S2P Require Import UwDwarfCfa UwDwarfEval UwDwarfSection UwDwarfFormat UwCfaTable UwCfaSection UwCfaStep UwEhFrameHdr UwCfaHdr.
From S2P Require Import UwRegs UwElfInterface UwElfArm UwElf UwBacktrace.

(** ** Libraries *)

(** A symbol table of a file and its string table. *)
Record symbol_table : Type := mkSymbolTable {
  sy_offset : Z; sy_entry_size : Z; sy_strtab : Z; sy_str_size : Z; sy_syms : list Sym
}.

Record library : Type := mkLibrary {
  lb_content : list Z;
  lb_kind : Elf.InterfaceKind;
  lb_ehdr : list Z;
  lb_phdrs : list PhdrFacts.Phdr;
  lb_hdr : PhdrFacts.Phdr;                              (* of the search table *)
  lb_ptr : Z;
  lb_entries : list DwarfSectionImpl.HdrInfo;
  lb_functions : list SectionFdes.placed;
  lb_ci : Z -> list CfaTable.insn;                      (* the instructions of the CIE at an address *)
  lb_fi : Z -> list CfaTable.insn;                      (* and of the FDE *)
  lb_symbols : list symbol_table
}.

(** The registers of the files of a kind. *)
Definition regs_of (k : Elf.InterfaceKind) (a : ArchEnum) : option RegsArch :=
  match k, a with
  | Elf.Interface32, ARCH_X86 => Some RegsX86
  | Elf.Interface64, ARCH_ARM64 => Some RegsArm64
  | Elf.Interface64, ARCH_X86_64 => Some RegsX86_64
  | _, _ => None
  end.

Module Libraries.
Import FileFacts MapFacts ElfTheorems PhdrFacts CfaTable CfaRows EhFrameRows HdrRows Frame Steps.

Section Library.
Context {A : Arch} {IO : IterationOrder}.
Variable fuel : nat.
Variable junk : Junk.
Variable L : library.

#[local] Instance lib_types : ElfTypes := Elf.types_of (lb_kind L).
#[local] Instance lib_address : AddressType := et_address.
#[local] Instance lib_sym : SymType := et_sym.

Definition lb_memory : Memory := whole (lb_content L).
Definition lb_bias : Z := bias_of (lb_phdrs L).
Definition lb_tables : list table := table_of (lb_ci L) (lb_fi L) <$> lb_functions L.

(** The first symbol table that has a function at an address. *)
Definition table_symbol (addr : Z) (d : symbol_table) : option (list Z * Z) :=
  SymbolFacts.function_at lb_memory fuel lb_bias (sy_strtab d) (sy_strtab d + sy_str_size d) (sy_syms d) addr.
Fixpoint first_symbol (addr : Z) (ds : list symbol_table) : option (list Z * Z) :=
  match ds with
  | [] => None
  | d :: ds => match table_symbol addr d with Some r => Some r | None => first_symbol addr ds end
  end.
Definition symbol_at (addr : Z) : option (list Z * Z) := first_symbol addr (lb_symbols L).

Definition new_symbols (d : symbol_table) : Symbols.t :=
  Symbols.new (sy_offset d) (Z.of_nat (length (sy_syms d)) * sy_entry_size d) (sy_entry_size d) (sy_strtab d) (sy_str_size d).

Record symbol_table_ok (d : symbol_table) : Prop := mkSymbolTableOk {
  sk_stored : SymbolFacts.stored_table lb_memory (sy_offset d) (sy_entry_size d) (sy_syms d);
  sk_apart : SymbolFacts.functions_apart (SymbolFacts.funcs lb_bias (sy_strtab d) (sy_syms d));
  sk_names : Forall (SymbolFacts.names_ok (sy_strtab d + sy_str_size d)) (SymbolFacts.funcs lb_bias (sy_strtab d) (sy_syms d));
  sk_fuel : (length (sy_syms d) < fuel)%nat /\ (Z.to_nat (sy_strtab d + sy_str_size d) < fuel)%nat;
  sk_range : 0 <= sy_strtab d + sy_str_size d < 2 ^ 64
}.

(** The file holds what the description says. *)
Record library_ok : Prop := mkLibraryOk {
  lo_elf : elf_file (lb_content L) (lb_kind L);
  lo_headers : unwind_file lb_memory (lb_ehdr L) (lb_phdrs L) (lb_hdr L) (lb_ptr L) (lb_entries L);
  lo_sections : exists r s, ElfInterface.ReadSectionHeaders fuel (lb_ehdr L) (j_shdr junk) (j_str_shdr junk)
    (foldl state_step (ElfInterface.new lb_memory false) (lb_phdrs L)) = Ok (r, s) /\ ElfInterface.symbols_ s = new_symbols <$> lb_symbols L;
  lo_functions : hdr_functions fuel lb_memory (lb_entries L) (lb_functions L) (lb_ci L) (lb_fi L);
  lo_symbols : Forall symbol_table_ok (lb_symbols L);
  lo_bias : 0 <= lb_bias
}.

(** ** The object of a library *)

Definition symbols_read (d : symbol_table) (y : Symbols.t) : Prop :=
  exists k, SymbolTheorems.cached lb_bias (sy_offset d) (sy_entry_size d) (sy_strtab d) (sy_strtab d + sy_str_size d) (sy_syms d) k y.

(** The reader of a file, whatever has been looked up with it. *)
Record reads (s : ElfInterface.t) : Prop := mkReads {
  rd_memory : ElfInterface.memory_ s = lb_memory;
  rd_symbols : Forall2 symbols_read (lb_symbols L) (ElfInterface.symbols_ s);
  rd_section : exists sec, ElfInterface.eh_frame_ s = Some (mkSection true sec) /\
    hdr_initialised lb_memory (ph_offset (lb_hdr L)) (lb_entries L) (lb_functions L) sec /\ caches_ok lb_tables sec
}.

Record ready (e : Elf.t) : Prop := mkReady {
  ry_valid : Elf.valid_ e = true;
  ry_bias : Elf.load_bias_ e = lb_bias;
  ry_memory : Elf.memory_ e = Some lb_memory;
  ry_reader : exists s, Elf.interface_ e = Some (Elf.mkInterface (lb_kind L) s) /\ reads s
}.

Lemma set_object_ready e s s' :
  ready e -> Elf.interface_ e = Some (Elf.mkInterface (lb_kind L) s) -> reads s' ->
  ready (Elf.set_object s' (Elf.mkInterface (lb_kind L) s) e).
Proof. intros [H1 H2 H3 _] _ Hr. split; [done|done|done|]. by exists s'. Qed.

Hypothesis HL : library_ok.

(** Symbols, from the first lookup on. *)
Lemma new_symbols_read d : symbol_table_ok d -> symbols_read d (new_symbols d).
Proof.
  intros [[_ E1 E2 E3] _ _ _ E4]. exists 0%nat. unfold SymbolTheorems.cached, SymbolFacts.at_entry, new_symbols, Symbols.new. cbn [Symbols.symbols_].
  rewrite !uwrap_small by (unfold in_u; nia). rewrite Z.mul_0_l, Z.add_0_r. split_and!; [lia|constructor|done|done].
Qed.

Lemma function_name_tables addr ds ys :
  Forall symbol_table_ok ds -> Forall2 symbols_read ds ys ->
  exists ys', ElfInterface.function_name fuel lb_memory addr lb_bias ys = Ok (first_symbol addr ds, ys') /\ Forall2 symbols_read ds ys'.
Proof.
  intros Hok HF. revert Hok. induction HF as [|d y ds ys [k Hk] HF IH]; intros Hok; [by exists []|].
  apply Forall_cons in Hok as [[S1 S2 S3 S4 S5] Hok]. cbn [ElfInterface.function_name first_symbol].
  assert (sy_strtab d + sy_str_size d < 2 ^ 64) as S6 by lia.
  destruct (SymbolTheorems.get_name_cached lb_memory fuel lb_bias (sy_offset d) (sy_entry_size d) (sy_strtab d) (sy_strtab d + sy_str_size d)
    (sy_syms d) S1 S2 S3 S4 S6 addr k y Hk) as (k' & y' & HG & Hk').
  change (SymbolFacts.function_at _ _ _ _ _ _ _) with (table_symbol addr d) in HG.
  unfold lib_sym in HG. unfold ElfInterface.elf_sym at 1. rewrite HG, bind_Ok. destruct (table_symbol addr d) as [r|].
  - eexists. split; [done|]. constructor; [by exists k'|done].
  - destruct (IH Hok) as (ys' & -> & HF'). rewrite bind_Ok. eexists. split; [done|]. constructor; [by exists k'|done].
Qed.

Lemma function_name_ready addr e :
  ready e -> exists e', Elf.GetFunctionName fuel addr e = Ok (symbol_at addr, e') /\ ready e'.
Proof.
  intros He. destruct (ry_reader _ He) as (s & Hi & Hr). destruct (function_name_tables addr _ _ (lo_symbols HL) (rd_symbols _ Hr)) as (ys & HN & HF).
  exists (Elf.set_object (ElfInterface.set_symbols ys s) (Elf.mkInterface (lb_kind L) s) e). split.
  - unfold Elf.GetFunctionName. rewrite (ry_valid _ He), Hi. cbn [negb of_option]. rewrite bind_Ok. cbn [Elf.kind Elf.object].
    assert (ElfInterface.GetFunctionName fuel addr (Elf.load_bias_ e) s = Ok (symbol_at addr, ElfInterface.set_symbols ys s)) as HG.
    { unfold ElfInterface.GetFunctionName. by rewrite (rd_memory _ Hr), (ry_bias _ He), HN, bind_Ok. }
    destruct (lo_elf HL) as (class & machine & _ & _ & _ & HI). revert HG. unfold lib_types. by destruct HI; intros ->; rewrite bind_Ok.
  - apply set_object_ready; [done|done|]. destruct Hr as [H1 _ H3]. by split.
Qed.

Lemma create_interface_memory m e : Elf.memory_ (Elf.CreateInterfaceFromMemory m e).2 = Elf.memory_ e.
Proof. unfold Elf.CreateInterfaceFromMemory. repeat case_match; done. Qed.

Lemma object_ready : exists e, Elf.Init fuel junk (Elf.new (Some lb_memory)) = Ok (true, e) /\ ready e.
Proof.
  destruct (lo_sections HL) as (r & s1 & HS & HY). pose proof (lo_headers HL) as Hu.
  destruct (unwind_file_setup lb_memory fuel _ _ _ _ _ (j_fde junk) r s1 _ _ Hu HS) as (Hm & HR & HI).
  destruct (hdr_ready lb_memory (ph_offset (lb_hdr L)) (lb_entries L) (lb_functions L) (lb_ci L) (lb_fi L) (ph_memsz (lb_hdr L)) (lb_ptr L)
    (uf_stored _ _ _ _ _ _ Hu) (uf_ok _ _ _ _ _ _ Hu)) as (d & Hd & HD & HC).
  destruct (create_interface (lb_content L) (lb_kind L) (Elf.new (Some lb_memory)) (lo_elf HL)) as [e' HE].
  change (whole (lb_content L)) with lb_memory in HE.
  pose proof (create_interface_memory lb_memory (Elf.new (Some lb_memory))) as HM. rewrite HE in HM. cbn in HM.
  unfold Elf.Init. change (Elf.set_read _ 0 (Elf.new _)) with (Elf.new (Some lb_memory)). cbn [Elf.memory_ Elf.new].
  change (Elf.mk (Some lb_memory) false 0 None None None None) with (Elf.new (Some lb_memory)).
  rewrite HE. cbn [Elf.kind Elf.object]. unfold lib_types in HR, HI. rewrite HR, bind_Ok. rewrite (HI d Hd), bind_Ok. eexists. split; [done|].
  split; [done|done|exact HM|]. eexists. split; [done|]. split; [exact Hm| |by exists d].
  cbn. rewrite HY. clear HY. induction (lo_symbols HL) as [|x l Hx _ IH]; constructor; [by apply new_symbols_read|exact IH].
Qed.

(** ** Stepping *)

Lemma interface_step_kind {RA : RegsArch} arch m pc s regs :
  regs_of (lb_kind L) arch = Some RA ->
  Elf.interface_step fuel m arch pc lb_bias regs (Elf.mkInterface (lb_kind L) s) = ElfInterface.Step fuel m pc lb_bias regs s.
Proof.
  unfold regs_of, Elf.interface_step, lib_types. cbn [Elf.kind Elf.object]. destruct (lb_kind L), arch; try discriminate; by intros [= <-].
Qed.

Lemma table_step_ready {RA : RegsArch} arch m rel adjusted off rs rs' d r e :
  ready e -> regs_of (lb_kind L) arch = Some RA ->
  Regs.StepIfSignalHandler arch (u64 (rel + off)) (mkElf true lb_bias lb_memory) m rs = (false, rs') ->
  lb_bias <= adjusted ->
  has_caller lb_tables (mkRequest m (adjusted - lb_bias) (DwarfSection.mkRegs rs' d)) r ->
  exists d' e', Elf.Step fuel m arch rel adjusted off (DwarfSection.mkRegs rs d) e = Ok (Some r.1, DwarfSection.mkRegs r.2 d', e') /\ ready e'.
Proof.
  intros He HA HS Hb Hc. destruct (ry_reader _ He) as (s & Hi & Hr). pose proof (rd_section _ Hr) as (sec & Hs & HD & HC).
  pose proof (hdr_finder fuel lb_memory (ph_offset (lb_hdr L)) (lb_entries L) (lb_functions L) (lb_ci L) (lb_fi L) (lo_functions HL)) as HF.
  pose proof (placed_tables_ok fuel lb_memory (lb_ci L) (lb_fi L) (lb_functions L) (hdr_placed _ _ _ _ _ _ (lo_functions HL))) as HT.
  destruct (step_table fuel lb_memory lb_tables (EhFrameHdr.GetFdeOffsetFromPc fuel) _ HT _ r sec HD HC Hc) as (d' & sec' & HSt & HD' & HC').
  cbn [q_memory q_pc q_regs] in HSt. eexists d', _. split.
  - unfold Elf.Step. rewrite (ry_valid _ He). cbn [negb DwarfSection.regs_ DwarfSection.dex_pc].
    replace (Elf.view e) with (mkElf true lb_bias lb_memory) by (unfold Elf.view; by rewrite (ry_valid _ He), (ry_bias _ He), (ry_memory _ He)).
    rewrite HS, Hi. cbn [of_option]. rewrite bind_Ok, (ry_bias _ He), (interface_step_kind _ _ _ _ _ HA). unfold ElfInterface.Step.
    destruct (Z.ltb_spec adjusted lb_bias); [lia|]. cbn [ElfInterface.eh_frame_ ElfInterface.set_error]. rewrite Hs.
    unfold ElfInterface.section_step. cbn [with_hdr section]. unfold lib_address in HSt. unfold ElfInterface.elf_address. rewrite HSt, !bind_Ok. cbn [fst snd]. rewrite bind_Ok. reflexivity.
  - apply set_object_ready; [done|done|]. destruct Hr as [H1 H2 _]. split; [done|done|]. by exists sec'.
Qed.

Lemma signal_step_ready arch m rel adjusted off rs rs' d e :
  ready e -> Regs.StepIfSignalHandler arch (u64 (rel + off)) (mkElf true lb_bias lb_memory) m rs = (true, rs') ->
  Elf.Step fuel m arch rel adjusted off (DwarfSection.mkRegs rs d) e = Ok (Some false, DwarfSection.mkRegs rs' d, e).
Proof.
  intros He HS. unfold Elf.Step. rewrite (ry_valid _ He). cbn [negb DwarfSection.regs_ DwarfSection.dex_pc].
  replace (Elf.view e) with (mkElf true lb_bias lb_memory) by (unfold Elf.view; by rewrite (ry_valid _ He), (ry_bias _ He), (ry_memory _ He)).
  by rewrite HS.
Qed.
End Library.
End Libraries.

(** ** The walk *)

Module StackWalk.
Import FileFacts MapFacts CfaTable CfaRows Frame Steps Libraries.

(** The length of what is before a return address: an instruction of arm64, one byte of x86. *)
Definition call_size (arch : ArchEnum) : Z := match arch with ARCH_ARM64 => 4 | _ => 1 end.

Section Walk.
Context {A : Arch}.
Variable fuel : nat.
Variable arch : ArchEnum.
Variable infos : list UwMaps.MapInfo.                  (* the maps of the process *)
Variable libs : list Z -> option library.              (* the files, by name *)
Variable process_memory : Memory.

Definition map_at (pc : Z) : option UwMaps.MapInfo := find (fun i => (start i <=? pc) && (pc <? end_ i)) infos.

(** The table of the function at an address of a file. *)
Definition table_at (L : library) (pc : Z) : option table :=
  find (fun tb => (fde_pc_start (tb_fde tb) <=? pc) && (pc <? fde_pc_end (tb_fde tb))) (lb_tables L).

(** The registers of the caller by this table. *)
Definition table_caller {RA : RegsArch} (L : library) (pc : Z) (rs : list Z) : option (list Z) :=
  tb ← table_at L pc;
  st ← table_state (AT := lib_address L) tb pc;
  let ra := return_address_register (fde_cie (tb_fde tb)) in
  if row_small_check (CfaTable.current st) && (Z.of_nat (length rs) =? total_regs) && (0 <=? ra) && (ra <? total_regs)
  then snd <$> caller (AT := lib_address L) process_memory (CfaTable.current st) ra rs
  else None.

(** The registers of the caller of frame [n] at [rel] of the map [i]: from a signal frame, or by the
    table for the address of the call. *)
Definition caller_of (L : library) (i : UwMaps.MapInfo) (n rel : Z) (rs : list Z) : option (list Z) :=
  match Regs.StepIfSignalHandler arch (u64 (rel + offset i)) (mkElf true (lb_bias L) (lb_memory L)) process_memory rs with
  | (true, rs') => Some rs'
  | (false, rs') =>
      RA ← regs_of (lb_kind L) arch;
      let at_call := if n =? 0 then rel else rel - call_size arch in
      if lb_bias L <=? at_call then table_caller (RA := RA) L (at_call - lb_bias L) rs' else None
  end.

(** The lines of the backtrace from frame [n] on, at most [todo]; [None] if the descriptions do not say
    how it goes on. *)
Fixpoint walk (todo : nat) (n : Z) (rs : list Z) : option (list (list Z)) :=
  match todo with
  | O => Some []
  | S todo =>
      let pc := Regs.pc arch rs in
      match map_at pc with
      | None => Some [DumperUtils.backtrace_text n pc None None 0]
      | Some i =>
          if bool_decide (name i = []) then Some [DumperUtils.backtrace_text n (pc - start i) (Some []) None 0]
          else
            L ← libs (name i);
            let rel := pc - start i + lb_bias L + offset i in
            let fn := symbol_at fuel L rel in
            rs' ← caller_of L i n rel rs;
            rest ← walk todo (n + 1) rs';
            Some (DumperUtils.backtrace_text n rel (Some (name i)) (fst <$> fn) (default 0 (snd <$> fn)) :: rest)
      end
  end.
End Walk.
End StackWalk.

(** ** The unwinder follows it *)

Module WalkFacts.
Import FileFacts MapFacts CfaTable CfaRows Frame Steps Libraries StackWalk.

Section Facts.
Context {A : Arch} {IO : IterationOrder}.
Variable fuel : nat.
Variable junk : Junk.
Variable buffer : list Z.
Variable mach : Machine.
Variable infos : list UwMaps.MapInfo.
Variable libs : list Z -> option library.

#[local] Notation arch := (UwBacktrace.current mach).
#[local] Instance lib : Unwindstack := Library.libunwindstack fuel junk buffer mach.

(** Memory without a file does not begin as an ELF file. *)
Definition no_elf (i : UwMaps.MapInfo) : Prop :=
  forall tid, Elf.IsValidElf (Some (MemoryRange.Read (MemoryRange.mk (process_memory mach tid) (start i) (end_ i - start i) 0))) = false.

(** The maps of the process are apart, and its files are mapped and described. *)
Record process_ok : Prop := mkProcessOk {
  po_apart : apart infos;
  po_range i : i ∈ infos -> 0 <= start i < end_ i /\ end_ i < 2 ^ 64;
  po_anonymous i : i ∈ infos -> name i = [] -> no_elf i;
  po_file i L : i ∈ infos -> libs (name i) = Some L ->
    plain_file (files mach) (name i) (lb_content L) /\ file_map (lb_content L) (MapInfo.new i) /\
    end_ i - start i + lb_bias L + offset i < 2 ^ 64;
  po_library i L : i ∈ infos -> libs (name i) = Some L -> library_ok fuel junk L
}.
Hypothesis HP : process_ok.

(** An object, and the library it was read from; [None] if it was read from memory without a file. *)
Definition object_of (o : option library) (e : Elf.t) : Prop :=
  match o with
  | Some L => ready L e
  | None => Elf.valid_ e = false /\ Elf.load_bias_ e = 0
  end.

Definition owner_of (i : UwMaps.MapInfo) : option (option library) :=
  if bool_decide (name i = []) then Some None else Some <$> libs (name i).

(** A map that was not used yet, or has the object of its library. *)
Definition map_state (owners : list (option library)) (i : UwMaps.MapInfo) (mi : MapInfo.t) : Prop :=
  mi = MapInfo.new i \/
  exists p o, owners !! p = Some o /\ owner_of i = Some o /\ mi = MapInfo.mk i (Some p) (if o then offset i else 0).

Record tracks (st : Library.state) : Prop := mkTracks {
  tk_cache : cache_enabled_ (Library.world st) = false;
  tk_owners : exists owners, Forall2 object_of owners (elfs (Library.world st)) /\ Forall2 (map_state owners) infos (Library.maps st)
}.

Lemma map_at_elem pc i : map_at infos pc = Some i -> i ∈ infos /\ start i <= pc < end_ i.
Proof. intros H. apply find_some in H as [Hin Hr]. apply list_elem_of_In in Hin. split; [done|]. lia. Qed.

(** [Find] is the linear search. *)
Lemma find_map_at pc : Maps.Find infos pc = map_at infos pc.
Proof.
  pose proof (find_spec infos pc) as HS. specialize (fun m => HS m (po_apart HP)). destruct (map_at infos pc) as [i|] eqn:E.
  - apply HS. by apply map_at_elem.
  - destruct (Maps.Find infos pc) as [i|] eqn:EF; [|done]. destruct (proj1 (HS i) eq_refl) as [Hin Hr].
    pose proof (find_none _ _ E i ltac:(by apply list_elem_of_In)) as Hn. cbn in Hn. lia.
Qed.

Lemma maps_infos owners st : Forall2 (map_state owners) infos (Library.maps st) -> MapInfo.info <$> Library.maps st = infos.
Proof.
  clear HP. generalize (Library.maps st). induction 1 as [|i mi l mis Hi _ IH]; [done|]. rewrite fmap_cons, IH. f_equal. by destruct Hi as [-> | (p & o & _ & _ & ->)].
Qed.

Lemma library_find pc st :
  MapInfo.info <$> Library.maps st = infos ->
  match map_at infos pc with
  | None => Library.Find pc st = None
  | Some i => exists j, Library.Find pc st = Some j /\ infos !! j = Some i
  end.
Proof.
  intros HM. rewrite <- find_map_at. unfold Library.Find, Maps.Find. set (l := imap pair (Library.maps st)).
  assert ((fun p => MapInfo.info p.2) <$> bsearch (fun p => Maps.find_cmp pc (MapInfo.info p.2)) l (S (length l)) 0 (length l) =
    bsearch (Maps.find_cmp pc) infos (S (length infos)) 0 (length infos)) as HB.
  { rewrite <- HM at 1 2 3. rewrite length_fmap. unfold l. rewrite length_imap. fold l.
    rewrite (LibraryTheorems.bsearch_rel _ (Maps.find_cmp pc) _ id l (MapInfo.info <$> Library.maps st)); [apply option_fmap_id|].
    apply Forall2_same_length_lookup_2; [unfold l; by rewrite length_imap, length_fmap|]. intros j x y Hx Hy.
    apply list_lookup_imap_Some in Hx as (m1 & H1 & ->). apply list_lookup_fmap_Some in Hy as (m2 & -> & H2). cbn. rewrite H1 in H2. by injection H2 as <-. }
  assert (Library.maps st <> [] \/ Library.maps st = []) as [Hn|Hn] by (destruct (Library.maps st); [by right|by left]); [|by rewrite Hn, <- HM, Hn].
  assert (forall T (x y : T), match infos with [] => x | _ :: _ => y end = y) as Hne1 by (intros; rewrite <- HM; by destruct (Library.maps st)).
  assert (forall T (x y : T), match Library.maps st with [] => x | _ :: _ => y end = y) as Hne2 by (intros; by destruct (Library.maps st)).
  rewrite Hne1, Hne2.
  destruct (bsearch _ l _ _ _) as [[j mi]|] eqn:E; cbn [fmap option_fmap option_map] in HB; rewrite <- HB; [|done].
  exists j. split; [done|]. apply bsearch_sound in E as [Hin _]. cbn. apply list_elem_of_lookup in Hin as [k Hk].
  apply list_lookup_imap_Some in Hk as (m1 & H1 & Heq). injection Heq as -> ->. rewrite <- HM, list_lookup_fmap, H1. done.
Qed.

(** ** Objects *)

Definition offset_of (o : option library) (i : UwMaps.MapInfo) : Z := if o then offset i else 0.

Lemma fresh_object tid i o :
  i ∈ infos -> owner_of i = Some o ->
  exists m b e, MapInfo.CreateMemory junk (files mach) (process_memory mach tid) (MapInfo.new i) = Ok (m, MapInfo.mk i None (offset_of o i)) /\
    Elf.Init fuel junk (Elf.new m) = Ok (b, e) /\ object_of o e.
Proof.
  intros Hi. unfold owner_of. case_bool_decide as En.
  - intros [= <-]. pose proof (po_anonymous HP i Hi En tid) as Hv. destruct (po_range HP i Hi) as [Hr _].
    unfold MapInfo.CreateMemory. cbn [MapInfo.info MapInfo.new MapInfo.set_elf_offset]. destruct (Z.leb_spec (end_ i) (start i)); [lia|].
    assert (exists e, Elf.Init fuel junk (Elf.new None) = Ok (false, e) /\ object_of None e) as (e0 & HI0 & HO0) by (by eexists).
    destruct (negb _); [by exists None, false, e0|]. rewrite (bool_decide_eq_true_2 _ En), bind_Ok. destruct (_ =? 0); [by exists None, false, e0|].
    eexists _, false, _. split; [done|]. unfold Elf.Init. cbn [Elf.memory_ Elf.new Elf.set_read Elf.valid_].
    unfold Elf.CreateInterfaceFromMemory. rewrite Hv. cbn [negb]. by split.
  - destruct (libs (name i)) as [L|] eqn:EL; [|done]. intros [= <-]. destruct (po_file HP i L Hi EL) as (Hf & Hm & _).
    destruct (object_ready fuel junk L (po_library HP i L Hi EL)) as (e & HI & HR). exists (Some (lb_memory L)), true, e.
    split; [|done]. by rewrite (create_memory_whole junk (files mach) (process_memory mach tid) (lb_content L) (MapInfo.new i) Hf Hm).
Qed.

(** The map [j] of the process has the object [p], which [o] describes. *)
Record has_object (st : Library.state) (j p : nat) (i : UwMaps.MapInfo) (o : option library) : Prop := mkHasObject {
  ho_cache : cache_enabled_ (Library.world st) = false;
  ho_map : Library.maps st !! j = Some (MapInfo.mk i (Some p) (offset_of o i));
  ho_owners : exists owners, Forall2 object_of owners (elfs (Library.world st)) /\ Forall2 (map_state owners) infos (Library.maps st) /\
    owners !! p = Some o
}.

Lemma has_object_tracks st j p i o : has_object st j p i o -> tracks st.
Proof. intros [H1 _ (ow & H2 & H3 & _)]. split; [done|by exists ow]. Qed.

Lemma has_object_lookup st j p i o : has_object st j p i o -> exists e, elfs (Library.world st) !! p = Some e /\ object_of o e.
Proof. intros [_ _ (ow & H2 & _ & H3)]. destruct (Forall2_lookup_l _ _ _ _ _ H2 H3) as (e & He & Ho). by exists e. Qed.

Lemma set_object_kept st j p i o e : has_object st j p i o -> object_of o e -> has_object (Library.set_object p e st) j p i o.
Proof.
  intros [H1 H2 (ow & H3 & H4 & H5)] He. split; [done|done|]. exists ow. split_and!; [|done|done]. cbn.
  rewrite <- (list_insert_id ow p o H5). by apply Forall2_insert.
Qed.

Lemma map_state_app owners l i mi : map_state owners i mi -> map_state (owners ++ l) i mi.
Proof. intros [->|(p & o & H1 & H2)]; [by left|]. right. exists p, o. split; [by apply lookup_app_l_Some|done]. Qed.

Lemma get_elf_object tid j i o st :
  tracks st -> infos !! j = Some i -> owner_of i = Some o ->
  exists p st', Library.GetElf fuel junk mach tid j st = Ok (Some p, st') /\ has_object st' j p i o.
Proof.
  intros [HC (ow & HO & HM)] Hj Ho. destruct (Forall2_lookup_l _ _ _ _ _ HM Hj) as (mi & Hmi & Hst).
  unfold Library.GetElf. rewrite Hmi. cbn [of_option]. rewrite bind_Ok. unfold MapInfo.GetElf. destruct Hst as [-> | (p & o' & Hp & Ho' & ->)].
  - cbn [MapInfo.elf MapInfo.new]. rewrite HC. cbn [andb]. destruct (fresh_object tid i o) as (m & b & e & HCM & HI & He); [by eapply list_elem_of_lookup_2|done|].
    change (MapInfo.mk i None 0) with (MapInfo.new i). rewrite HCM, bind_Ok. cbn [fst snd]. unfold MapInfo.create. rewrite HI, bind_Ok. cbn [snd MapInfo.add_elf].
    rewrite bind_Ok. do 2 eexists. split; [done|]. pose proof (Forall2_length _ _ _ HO) as HLen. split; cbn [Library.world Library.maps cache_enabled_].
    + done.
    + rewrite list_lookup_insert_eq by (by eapply lookup_lt_Some). done.
    + exists (ow ++ [o]). cbn [elfs]. split_and!.
      * apply Forall2_app; [done|]. by repeat constructor.
      * rewrite <- (list_insert_id infos j i Hj). apply Forall2_insert; [|].
        -- eapply Forall2_impl; [exact HM|]. intros. by apply map_state_app.
        -- right. exists (length (elfs (Library.world st))), o. split; [|done]. rewrite <- HLen. by apply list_lookup_middle.
      * rewrite <- HLen. by apply list_lookup_middle.
  - rewrite Ho in Ho'. injection Ho' as <-. cbn [MapInfo.elf]. rewrite bind_Ok. do 2 eexists. split; [done|]. cbn [Library.world Library.maps].
    rewrite list_insert_id by done. split; [done|done|by exists ow].
Qed.

(** ** Frames *)

Lemma table_caller_tables {RA : RegsArch} m L pc rs d vals :
  table_caller m L pc rs = Some vals -> exists f, has_caller (AT := lib_address L) (lb_tables L) (mkRequest m pc (DwarfSection.mkRegs rs d)) (f, vals).
Proof.
  unfold table_caller. destruct (table_at L pc) as [tb|] eqn:ET; [|done]. cbn [mbind option_bind].
  destruct (table_state tb pc) as [st|] eqn:ES; [|done]. cbn [mbind option_bind]. cbv zeta. destruct (_ && _) eqn:EC; [|done].
  rewrite !andb_true_iff in EC. destruct EC as [[[C1 C2] C3] C4]. destruct (caller m _ _ rs) as [[f vs]|] eqn:ER; [|done]. intros [= <-].
  unfold table_at in ET. apply find_some in ET as [Hin Hr]. apply list_elem_of_In in Hin. exists f, tb, st. cbn [q_pc q_regs q_memory DwarfSection.regs_].
  split_and!; [done|unfold covers; lia|done|by apply row_small_checked|lia|lia|lia|done].
Qed.

Lemma adjustment_is_call k a RA rel v :
  regs_of k a = Some RA -> call_size a <= rel -> Regs.GetPcAdjustment a rel v = call_size a.
Proof.
  destruct k, a; try discriminate; intros _; cbn [call_size Regs.GetPcAdjustment]; unfold Arm64.GetPcAdjustment, X86.GetPcAdjustment, X86_64.GetPcAdjustment; intros.
  all: destruct (Z.eqb_spec rel 0), (Z.ltb_spec rel 4); lia.
Qed.

Lemma step_library tid L i n rel v rs rs' d e :
  library_ok fuel junk L -> ready L e -> 0 <= rel < 2 ^ 64 -> caller_of arch (process_memory mach tid) L i n rel rs = Some rs' ->
  exists f d' e', Elf.Step fuel (process_memory mach tid) arch rel
      (if n =? 0 then rel else u64 (rel - Regs.GetPcAdjustment arch rel v)) (offset i) (DwarfSection.mkRegs rs d) e =
    Ok (Some f, DwarfSection.mkRegs rs' d', e') /\ ready L e'.
Proof.
  intros HL He Hrel HC. unfold caller_of in HC. destruct (Regs.StepIfSignalHandler _ _ _ _ _) as [[] rs1] eqn:ES.
  { injection HC as <-. exists false, d, e. split; [|done]. by apply (signal_step_ready fuel L). }
  destruct (regs_of (lb_kind L) arch) as [RA|] eqn:EA; [|done]. cbn [mbind option_bind] in HC. pose proof (lo_bias _ _ _ HL) as Hb.
  assert (0 < call_size arch) as Hcs by (destruct arch; cbn; lia).
  set (adj := if n =? 0 then rel else rel - call_size arch) in HC. cbv zeta in HC. fold adj in HC.
  destruct (Z.leb_spec (lb_bias L) adj) as [Hle|]; [|done]. destruct (table_caller_tables _ L _ rs1 d rs' HC) as [f Hc].
  assert ((if n =? 0 then rel else u64 (rel - Regs.GetPcAdjustment arch rel v)) = adj) as ->.
  { unfold adj in *. destruct (n =? 0); [done|]. rewrite (adjustment_is_call _ _ _ _ _ EA) by lia. rewrite uwrap_small; [done|]. unfold in_u. lia. }
  destruct (table_step_ready fuel junk L HL arch (process_memory mach tid) rel adj (offset i) rs rs1 d (f, rs') e He EA ES Hle Hc) as (d' & e' & HS & He').
  by exists f, d', e'.
Qed.

Lemma frame_library tid n rs d st i L rs' :
  tracks st -> map_at infos (Regs.pc arch rs) = Some i -> name i <> [] -> libs (name i) = Some L ->
  let rel := Regs.pc arch rs - start i + lb_bias L + offset i in
  caller_of arch (process_memory mach tid) L i n rel rs = Some rs' ->
  exists d' st', Unwinder.frame tid n (DwarfSection.mkRegs rs d) st =
      Ok (DumperUtils.backtrace_text n rel (Some (name i)) (fst <$> symbol_at fuel L rel) (default 0 (snd <$> symbol_at fuel L rel)),
        Some (DwarfSection.mkRegs rs' d'), st') /\ tracks st'.
Proof.
  intros HT HM Hn HL rel HC. pose proof (map_at_elem _ _ HM) as [Hi Hr]. pose proof (po_library HP i L Hi HL) as Hok.
  assert (0 <= rel < 2 ^ 64) as Hrel.
  { destruct (po_file HP i L Hi HL) as (_ & Hm & Hb). pose proof (lo_bias _ _ _ Hok). pose proof (fm_offset _ _ Hm) as Ho. cbn in Ho. unfold rel. lia. }
  unfold Unwinder.frame. cbn [lib Library.libunwindstack pc_of HawkUnwinder.Find HawkUnwinder.GetElf HawkUnwinder.GetFunctionName HawkUnwinder.Step].
  cbn [DwarfSection.regs_]. destruct (tk_owners _ HT) as (ow & _ & HMs). pose proof (library_find (Regs.pc arch rs) st (maps_infos _ _ HMs)) as HF.
  rewrite HM in HF. destruct HF as (j & -> & Hj).
  destruct (get_elf_object tid j i (Some L) st HT Hj) as (p & st1 & -> & H1); [unfold owner_of; by rewrite bool_decide_eq_false_2, HL|].
  rewrite bind_Ok. cbv beta iota. destruct (has_object_lookup _ _ _ _ _ H1) as (e & He & Hre). pose proof (ho_map _ _ _ _ _ H1) as Hmap.
  assert (Library.GetRelPc p (Regs.pc arch rs) j st1 = rel) as Hrp.
  { unfold Library.GetRelPc. rewrite He, Hmap. unfold Elf.GetRelPc. cbn [MapInfo.info MapInfo.elf_offset offset_of]. rewrite (ry_bias _ _ Hre).
    apply uwrap_small. unfold in_u. fold rel. lia. }
  cbn [lib Library.libunwindstack HawkUnwinder.GetRelPc HawkUnwinder.GetPcAdjustment HawkUnwinder.map_name_of HawkUnwinder.elf_offset_of]. rewrite Hrp.
  destruct (function_name_ready fuel junk L Hok rel e Hre) as (e1 & HN & Hre1). unfold Library.GetFunctionName, Library.object. rewrite He. cbn [of_option].
  rewrite !bind_Ok, HN, !bind_Ok. cbn [fst snd]. set (st2 := Library.set_object p e1 st1).
  pose proof (set_object_kept _ _ _ _ _ e1 H1 Hre1) as H2. fold st2 in H2. destruct (has_object_lookup _ _ _ _ _ H2) as (e2 & He2 & Hre2).
  unfold Library.GetPcAdjustment. rewrite He. destruct (step_library tid L i n rel (Elf.view e) rs rs' d e2 Hok Hre2 Hrel HC) as (f & d' & e3 & HS & Hre3).
  unfold Library.Step, Library.object. rewrite He2. cbn [of_option]. rewrite bind_Ok. unfold Library.elf_offset_of, Library.map_name_of.
  rewrite (ho_map _ _ _ _ _ H2). cbn [from_option MapInfo.elf_offset offset_of MapInfo.info]. rewrite HS, !bind_Ok. cbn [fst snd option_map].
  exists d', (Library.set_object p e3 st2). split; [done|]. eapply has_object_tracks, set_object_kept; [exact H2|exact Hre3].
Qed.

Lemma frame_anonymous tid n rs d st i :
  tracks st -> map_at infos (Regs.pc arch rs) = Some i -> name i = [] ->
  exists st', Unwinder.frame tid n (DwarfSection.mkRegs rs d) st =
      Ok (DumperUtils.backtrace_text n (Regs.pc arch rs - start i) (Some []) None 0, None, st') /\ tracks st'.
Proof.
  intros HT HM Hn. pose proof (map_at_elem _ _ HM) as [Hi Hr]. destruct (po_range HP i Hi) as [Hs He64].
  unfold Unwinder.frame. cbn [lib Library.libunwindstack pc_of HawkUnwinder.Find HawkUnwinder.GetElf HawkUnwinder.GetFunctionName HawkUnwinder.Step].
  cbn [DwarfSection.regs_]. destruct (tk_owners _ HT) as (ow & _ & HMs). pose proof (library_find (Regs.pc arch rs) st (maps_infos _ _ HMs)) as HF.
  rewrite HM in HF. destruct HF as (j & -> & Hj).
  destruct (get_elf_object tid j i None st HT Hj) as (p & st1 & -> & H1); [unfold owner_of; by rewrite bool_decide_eq_true_2|].
  rewrite bind_Ok. cbv beta iota. destruct (has_object_lookup _ _ _ _ _ H1) as (e & He & Hv & Hb). pose proof (ho_map _ _ _ _ _ H1) as Hmap.
  cbn [lib Library.libunwindstack HawkUnwinder.GetRelPc HawkUnwinder.GetPcAdjustment HawkUnwinder.map_name_of HawkUnwinder.elf_offset_of].
  unfold Library.GetFunctionName, Library.object. rewrite He. cbn [of_option]. rewrite !bind_Ok. unfold Elf.GetFunctionName. rewrite Hv. cbn [negb]. rewrite !bind_Ok.
  cbn [fst snd]. pose proof (set_object_kept _ _ _ _ _ e H1 (conj Hv Hb)) as H2. destruct (has_object_lookup _ _ _ _ _ H2) as (e2 & He2 & Hv2 & _).
  unfold Library.Step, Library.object. rewrite He2. cbn [of_option]. rewrite bind_Ok. unfold Elf.Step. rewrite Hv2. cbn [negb]. rewrite !bind_Ok.
  unfold Library.map_name_of, Library.GetRelPc. rewrite He, Hmap, (ho_map _ _ _ _ _ H2). cbn [from_option MapInfo.info MapInfo.elf_offset offset_of fst snd option_map].
  unfold Elf.GetRelPc. rewrite Hb, !Z.add_0_r, uwrap_small, Hn by (unfold in_u; lia). eexists. split; [done|].
  eapply has_object_tracks, set_object_kept; [exact H2|]. cbn [Library.set_object Library.world elfs] in He2.
  rewrite list_lookup_insert_eq in He2 by (by eapply lookup_lt_Some). by injection He2 as <-.
Qed.

(** The backtrace is the walk. *)
Lemma frames_walk tid todo n rs d st ls :
  tracks st -> walk fuel arch infos libs (process_memory mach tid) todo n rs = Some ls ->
  exists st', Unwinder.frames tid todo n (DwarfSection.mkRegs rs d) st = Ok (ls, st') /\ tracks st'.
Proof.
  revert n rs d st ls. induction todo as [|todo IH]; intros n rs d st ls HT; cbn [walk Unwinder.frames]; [intros [= <-]; by exists st|].
  cbv zeta. destruct (map_at infos (Regs.pc arch rs)) as [i|] eqn:EM.
  2: { intros [= <-]. exists st. split; [|done]. unfold Unwinder.frame. cbn [lib Library.libunwindstack pc_of HawkUnwinder.Find DwarfSection.regs_].
       destruct (tk_owners _ HT) as (ow & _ & HMs). pose proof (library_find (Regs.pc arch rs) st (maps_infos _ _ HMs)) as HF. rewrite EM in HF. by rewrite HF, bind_Ok. }
  case_bool_decide as En.
  { intros [= <-]. destruct (frame_anonymous tid n rs d st i HT EM En) as (st' & -> & HT'). rewrite bind_Ok. by exists st'. }
  destruct (libs (name i)) as [L|] eqn:EL; [|done]. cbn [mbind option_bind].
  destruct (caller_of _ _ L i n _ rs) as [rs'|] eqn:EC; [|done]. cbn [mbind option_bind].
  destruct (walk _ _ _ _ _ todo (n + 1) rs') as [rest|] eqn:EW; [|done]. cbn [mbind option_bind]. intros [= <-].
  destruct (frame_library tid n rs d st i L rs' HT EM En EL EC) as (d' & st1 & -> & HT1). rewrite bind_Ok.
  destruct (IH (n + 1) rs' d' st1 rest HT1 EW) as (st2 & -> & HT2). rewrite bind_Ok. by exists st2.
Qed.

(** ** Threads *)

(** A thread: its id, and the context of the signal for the one that crashed. *)
Abbreviation thread := (Z * option (list Z))%type (only parsing).

Definition thread_regs (t : thread) : outcome (option (list Z)) :=
  match t.2 with
  | Some c => Regs.CreateFromUcontext arch c
  | None => Regs.RemoteGet (getregset mach t.1) (getregs mach t.1) arch
  end.

(** The backtrace of a thread by the descriptions. *)
Definition backtrace_of (t : thread) (ls : list (list Z)) : Prop :=
  exists rs, thread_regs t = Ok (Some rs) /\ walk fuel arch infos libs (process_memory mach t.1) HAWKEYE_MAX_FRAMES 0 rs = Some ls.

Variable J : MmapGuard.t -> list Z -> list Z.       (* the uninitialised buffers of the report *)
Hypothesis HJ : forall g t, exists body, J g t = body ++ [0] /\ blen body = HAWKEYE_LOG_BUFFER_SIZE - 1.

(** Threads that are unwound one after the other, by one unwinder. *)
Fixpoint unwind_threads (ts : list thread) (st : Library.state) (g : option MmapGuard.t) : outcome (option MmapGuard.t * Library.state) :=
  match ts with
  | [] => Ok (g, st)
  | t :: ts => r ← Unwinder.DoUnwind J t.1 t.2 st g; unwind_threads ts r.2 r.1
  end.

Lemma do_unwind_thread t st g cap s ls :
  tracks st -> backtrace_of t ls -> MmapGuard.text g cap s -> Forall short_line ls -> blen s + blen (doc ls) < cap ->
  exists g' st', Unwinder.DoUnwind J t.1 t.2 st (Some g) = Ok (Some g', st') /\ MmapGuard.text g' cap (s ++ doc ls) /\ tracks st'.
Proof.
  intros HT (rs & HR & HW) Hg Hs Hc. destruct (frames_walk t.1 _ 0 rs 0 st ls HT HW) as (st' & HF & HT').
  destruct (newlines_short J HJ _ g cap s Hg Hs Hc) as (g' & HN & Hg').
  assert (Unwinder.Unwind (U := lib) J t.1 (Library.new_regs rs) st (Some g) = Ok (Some g', st')) as HU.
  { unfold Unwinder.Unwind. rewrite (Unwinder.unwind_loop_frames (U := lib) J t.1 _ 0 (Library.new_regs rs) st (Some g) ls st' HF). by rewrite HN, bind_Ok. }
  exists g', st'. split; [|done]. unfold Unwinder.DoUnwind, thread_regs in *. cbn [lib Library.libunwindstack CreateFromUcontext RemoteGet].
  destruct t.2; rewrite HR, !bind_Ok; cbn [option_map of_option]; [rewrite bind_Ok|]; exact HU.
Qed.

Lemma unwind_threads_walks ts lss st g cap s :
  tracks st -> Forall2 backtrace_of ts lss -> MmapGuard.text g cap s -> Forall (Forall short_line) lss -> blen s + blen (doc (concat lss)) < cap ->
  exists g' st', unwind_threads ts st (Some g) = Ok (Some g', st') /\ MmapGuard.text g' cap (s ++ doc (concat lss)) /\ tracks st'.
Proof.
  intros HT HB. revert st g s HT. induction HB as [|t ls ts lss Ht HB IH]; intros st g s HT Hg Hs Hc; cbn [concat unwind_threads] in *.
  { exists g, st. by rewrite app_nil_r. }
  apply Forall_cons in Hs as [Hs1 Hs2]. rewrite doc_app, blen_app in Hc. pose proof (blen_nonneg (doc (concat lss))).
  destruct (do_unwind_thread t st g cap s ls HT Ht Hg Hs1) as (g1 & st1 & -> & Hg1 & HT1); [lia|]. rewrite bind_Ok. cbn [fst snd].
  destruct (IH st1 g1 (s ++ doc ls) HT1 Hg1 Hs2) as (g2 & st2 & -> & Hg2 & HT2); [rewrite blen_app; lia|].
  exists g2, st2. by rewrite doc_app, app_assoc.
Qed.

Lemma init_tracks pid f lines :
  maps_file mach pid = Some f -> DumperUtils.error_free f -> blen buffer = 2048 -> Forall2 line_of lines infos -> HawkDumper.content f = flat lines ->
  exists st, Unwinder.InitUnwinder pid = Ok st /\ tracks st.
Proof.
  clear HP HJ J. intros Hf He Hb Hl Hc. exists (Library.mkState (MapInfo.new <$> infos) no_objects). split.
  - unfold Unwinder.InitUnwinder. cbn [lib Library.libunwindstack remote_maps]. unfold Library.remote_maps, Maps.Parse. rewrite Hf.
    rewrite (parse_file_spec _ f buffer [] buffer lines infos [] []), bind_Ok; try done.
    + set_solver.
    + cbn [app]. by rewrite app_nil_r.
    + rewrite take_nil. set_solver.
    + lia.
  - split; [done|]. exists []. split; [constructor|]. cbn. clear. induction infos; constructor; [by left|done].
Qed.
End Facts.
End WalkFacts.

Module WalkTheorems.
Import WalkFacts.

End WalkTheorems.

(** ** Two threads of a process *)

Module WalkExamples.
Import Format Pieces CieFormat SectionFormat FdeFacts SectionFdes FormatTheorems FormatExamples HdrFacts HdrSearch HdrTheorems FileFacts MapFacts ElfTheorems PhdrFacts.
Import CfaTable CfaRows EhFrameRows CfaExamples HdrRows Frame Steps ElfExamples Libraries StackWalk WalkFacts WalkTheorems.

#[local] Existing Instances LP64 BacktraceExamples.any_order.

(** A library with two adjacent functions: f, which saves the frame pointer and has it as its CFA, and g,
    which does neither.  Behind the unwind information are the symbols, their names and the headers of
    these sections. *)
Definition plain : fde_desc := mkFdeDesc 4128 16 0 [0] [0; 0; 0].
Definition ex_eh_frame : list Z := eh_frame 192 sample_desc sample_rest [EFde framed; EFde plain].
Definition ex_hdr_at : Z := 192 + blen ex_eh_frame.
Definition ex_entries : list DwarfSectionImpl.HdrInfo := [DwarfSectionImpl.mkHdrInfo 4096 216; DwarfSectionImpl.mkHdrInfo 4128 242].
Definition ex_hdr : list Z := hdr_bytes ex_hdr_at 192 ex_entries.
Definition ex_sym_at : Z := ex_hdr_at + blen ex_hdr.
Definition ex_syms : list Z := SymbolExamples.func64 3 4128 16 ++ SymbolExamples.func64 1 4096 32.
Definition ex_str_at : Z := ex_sym_at + 48.
Definition ex_strs : list Z := [0; 102; 0; 103; 0].
Definition ex_shdr_at : Z := ex_str_at + 5.
Definition shdr64 (type offset size link entsize : Z) : list Z :=
  zeros 4 ++ le_bytes 4 type ++ zeros 16 ++ le_bytes 8 offset ++ le_bytes 8 size ++ le_bytes 4 link ++ zeros 12 ++ le_bytes 8 entsize.
Definition ex_shdrs : list Z := zeros 64 ++ shdr64 SHT_SYMTAB ex_sym_at 48 2 24 ++ shdr64 SHT_STRTAB ex_str_at 5 0 0.
Definition ex_phdr : Phdr := mkPhdr PT_GNU_EH_FRAME 4 ex_hdr_at ex_hdr_at 28.
Definition ex_phdrs : list Phdr := [mkPhdr PT_LOAD 5 0 0 8192; ex_phdr].
Definition ex_ehdr : list Z := ehdr64 2 ex_shdr_at 3 0.
Definition ex_head : list Z := ex_ehdr ++ concat (phdr64 <$> ex_phdrs) ++ zeros 16.
Definition ex_tail : list Z := ex_syms ++ ex_strs ++ ex_shdrs ++ zeros 4000.

Definition ex_placed (a : Z) (f : fde_desc) : placed := mkPlaced a 192 sample_desc sample_rest f.
Definition ex_table : symbol_table := mkSymbolTable ex_sym_at 24 ex_str_at 5 [mkSym 3 18 1 4128 16; mkSym 1 18 1 4096 32].
Definition ex_fi (a : Z) : list insn := if a =? 216 then framed_code else [INop; INop; INop].
Definition ex_lib : library :=
  mkLibrary (ex_head ++ ex_eh_frame ++ ex_hdr ++ ex_tail) Elf.Interface64 ex_ehdr ex_phdrs ex_phdr 192 ex_entries
    [ex_placed 216 framed; ex_placed 242 plain] ci_at ex_fi [ex_table].

Definition ex_name : list Z := str "/lib.so".
Definition ex_libs (n : list Z) : option library := if bool_decide (n = ex_name) then Some ex_lib else None.
Definition ex_files : Files := mkFiles (fun n => lb_content <$> ex_libs n) (fun _ _ _ => true) 4096.

(** The code of the library, and memory without a file. *)
Definition ex_lines : list (list Z) :=
  [str "70000000-70001000 r-xp 00001000 fe:00 12 /lib.so"; str "80000000-80001000 rwxp 00000000 00:00 0 "].
Definition ex_infos : list UwMaps.MapInfo := [new_MapInfo 0x70000000 0x70001000 4096 5 ex_name; new_MapInfo 0x80000000 0x80001000 0 7 []].

(** The thread 1 crashed in g, which f called; the thread 2 is in the memory without a file. *)
Definition ex_stack : Memory := fun a n => if a <? 96 then slice a n (zeros 64 ++ le_bytes 8 0x70000008 ++ zeros 24) else [].
Definition ex_context : list Z := zeros 0x28 ++ of_words 8 [8; 9; 10; 11; 12; 13; 14; 15; 5; 4; 80; 3; 1; 0; 2; 64; 0x70000022; 0; 0; 0; 0; 0; 0].
Definition ex_user : list Z := of_words 8 (<[16%nat := 0x80000010]> (replicate 27 0)).
Definition ex_machine : Machine :=
  mkMachine ARCH_X86_64 (fun _ => Some (mkFile (flat ex_lines) [ReadUpTo 50; ReadUpTo 4095])) (fun _ => ex_stack)
    (fun tid => if tid =? 2 then Some ex_user else None) (fun _ => None) ex_files.
Definition ex_fuel : nat := 700.
Definition ex_threads : list (Z * option (list Z)) := [(1, Some ex_context); (2, None)].
Definition ex_backtraces : list (list (list Z)) :=
  [[str "    #00 pc 0000000000001022  /lib.so (g+2)"; str "    #01 pc 0000000000001008  /lib.so (f+8)"; str "    #02 pc 0000000000000000  <unknown>"];
   [str "    #00 pc 0000000000000010  <anonymous>"]].

Lemma plain_program : program (AT := Addr64) [INop; INop; INop] (fd_rest plain).
Proof. do 3 (apply (p_cons _ _ [0]); [constructor|]). constructor. Qed.

Lemma ex_placed_ok a f pre post :
  ex_head ++ ex_eh_frame ++ ex_hdr ++ ex_tail = pre ++ fde_entry a 192 sample_desc f ++ post -> blen pre = a ->
  fde_entry_ok (AT := Addr64) a 192 sample_desc f -> placed_ok (AT := Addr64) (lb_memory ex_lib) (ex_placed a f).
Proof.
  intros E Ea Hf. split; [| |exact sample_cie_ok|exact Hf].
  - exists (drop 24 ex_eh_frame). apply (stored_whole ex_head ex_eh_frame (ex_hdr ++ ex_tail)). vm_compute. reflexivity.
  - exists []. rewrite app_nil_r. unfold lb_memory. cbn [lb_content ex_lib]. rewrite E, <- Ea. cbn [p_at p_cie_at p_cie p_fde ex_placed]. apply stored_whole.
    rewrite Ea, <- E. vm_compute. reflexivity.
Qed.

Lemma ex_placed_table a start len bs :
  let f := mkFdeDesc start len 0 [0] bs in
  program (AT := Addr64) (ex_fi a) bs -> CfaTable.in_order (ex_fi a) -> (length (ex_fi a) < 20)%nat ->
  forallb (fun pc => match table_state (AT := Addr64) (table_of ci_at ex_fi (ex_placed a f)) pc with Some st => loc st <=? start + len | None => false end)
    (seqZ start len) = true ->
  placed_table (AT := Addr64) ex_fuel ci_at ex_fi (ex_placed a f).
Proof.
  intros f HP HO HL HC. split.
  - repeat constructor.
  - cbn. lia.
  - exact cie_program.
  - repeat constructor.
  - by intros items [= <-].
  - intros _. by apply uleb_byte.
  - by exists [], bs.
  - done.
  - by apply (rows_by_check (table_of ci_at ex_fi (ex_placed a f)) start len).
  - unfold ex_fuel. split_and!; [cbn; lia|cbn [p_at ex_placed]; lia|cbn; lia].
Qed.

Lemma ex_cases p : p ∈ lb_functions ex_lib -> p = ex_placed 216 framed \/ p = ex_placed 242 plain.
Proof. intros Hp. apply elem_of_cons in Hp as [->|Hp]; [by left|]. apply elem_of_cons in Hp as [->|Hp]; [by right|]. by apply elem_of_nil in Hp. Qed.

Lemma ex_functions : hdr_functions (AT := Addr64) ex_fuel (lb_memory ex_lib) ex_entries (lb_functions ex_lib) ci_at ex_fi.
Proof.
  split.
  - repeat constructor.
  - intros p [->| ->]%ex_cases.
    + apply (ex_placed_ok 216 framed (ex_head ++ take 24 ex_eh_frame) (drop 50 ex_eh_frame ++ ex_hdr ++ ex_tail)); [reflexivity|reflexivity|repeat split; vm_compute; congruence].
    + apply (ex_placed_ok 242 plain (ex_head ++ take 50 ex_eh_frame) (ex_hdr ++ ex_tail)); [reflexivity|reflexivity|repeat split; vm_compute; congruence].
  - intros p [->| ->]%ex_cases.
    + apply ex_placed_table; [exact framed_program|by repeat constructor|cbn; lia|vm_compute; reflexivity].
    + apply ex_placed_table; [exact plain_program|by repeat constructor|cbn; lia|vm_compute; reflexivity].
  - intros p [->| ->]%ex_cases.
    + exists 0%nat. split; [done|]. intros e [= <-]. cbn. lia.
    + exists 1%nat. split; [done|]. intros e [=].
  - by intros p1 p2 [->| ->]%ex_cases [->| ->]%ex_cases.
  - by intros p1 p2 [->| ->]%ex_cases [->| ->]%ex_cases.
Qed.

Lemma ex_headers : unwind_file (ET := Elf64) (lb_memory ex_lib) ex_ehdr ex_phdrs ex_phdr 192 ex_entries.
Proof.
  split; [vm_compute; reflexivity| |reflexivity|vm_compute; congruence| |].
  - split; [|reflexivity]. split; [|vm_compute; congruence|vm_compute; congruence|vm_compute; reflexivity].
    intros i ph Hi. do 2 (destruct i as [|i]; [injection Hi as <-; repeat split; vm_compute; reflexivity|]). discriminate Hi.
  - pose proof (stored_whole (ex_head ++ ex_eh_frame) ex_hdr ex_tail) as H. rewrite <- app_assoc in H. apply H. vm_compute. reflexivity.
  - split; [split; vm_compute; congruence|split; vm_compute; congruence|repeat constructor; vm_compute; congruence|repeat constructor|cbn; lia|vm_compute; reflexivity].
Qed.

Lemma ex_symbols : symbol_table_ok ex_fuel ex_lib ex_table.
Proof.
  split.
  - split; [|cbn; lia|vm_compute; congruence|vm_compute; congruence]. intros i e Hi.
    do 2 (destruct i as [|i]; [injection Hi as <-; vm_compute; reflexivity|]). discriminate Hi.
  - split; [|split].
    + refine (bool_decide_unpack (NoDup (Symbols.start_offset <$> SymbolFacts.funcs 0 ex_str_at (sy_syms ex_table))) _). vm_compute. exact I.
    + repeat constructor; vm_compute; congruence.
    + intros a b Ha Hb. vm_compute in Ha, Hb.
      repeat (apply elem_of_cons in Ha as [Ha|Ha]); try (by apply elem_of_nil in Ha);
        repeat (apply elem_of_cons in Hb as [Hb|Hb]); try (by apply elem_of_nil in Hb); subst; intros Hn;
        first [cbn; lia | exfalso; by apply Hn].
  - repeat constructor; vm_compute; congruence.
  - unfold ex_fuel. split; [cbn; lia|vm_compute; lia].
  - vm_compute. split; congruence.
Qed.

Lemma ex_library_ok : library_ok ex_fuel MapExamples.lib_junk ex_lib.
Proof.
  split.
  - exists ELFCLASS64, EM_X86_64. split_and!; [vm_compute; reflexivity..|constructor].
  - exact ex_headers.
  - match goal with |- exists r s, ?x = Ok (r, s) /\ _ => destruct x as [[r s]|] eqn:E end.
    + exists r, s. split; [done|].
      match type of E with ?x = _ => assert ((match x with Ok (_, s) => ElfInterface.symbols_ s | Fault _ => [] end) = new_symbols <$> lb_symbols ex_lib) as H
        by (vm_compute; reflexivity) end. by rewrite E in H.
    + exfalso. match type of E with ?x = _ => assert ((match x with Ok _ => true | Fault _ => false end) = true) as H by (vm_compute; reflexivity) end. by rewrite E in H.
  - exact ex_functions.
  - constructor; [exact ex_symbols|constructor].
  - vm_compute. congruence.
Qed.

Lemma ex_process_ok : process_ok ex_fuel MapExamples.lib_junk ex_machine ex_infos ex_libs.
Proof.
  assert (forall i, i ∈ ex_infos -> i = new_MapInfo 0x70000000 0x70001000 4096 5 ex_name \/ i = new_MapInfo 0x80000000 0x80001000 0 7 []) as HC.
  { intros i Hi. apply elem_of_cons in Hi as [->|Hi]; [by left|]. apply elem_of_cons in Hi as [->|Hi]; [by right|]. by apply elem_of_nil in Hi. }
  split.
  - split; repeat constructor; cbn; lia.
  - intros i [->| ->]%HC; cbn; lia.
  - intros i [->| ->]%HC Hn; [discriminate Hn|]. intros tid. vm_compute. reflexivity.
  - intros i L [->| ->]%HC HL; cbn [name new_MapInfo] in HL; unfold ex_libs in HL; (case_bool_decide as E; [|discriminate HL]); [|discriminate E].
    injection HL as <-. split_and!.
    + split; [reflexivity|vm_compute; intuition congruence|done|]. exists 12. split; [vm_compute; intuition congruence|done].
    + split; [discriminate|vm_compute; intuition congruence|reflexivity|]. right. vm_compute. intuition congruence.
    + vm_compute. reflexivity.
  - intros i L _ HL. unfold ex_libs in HL. case_bool_decide; [|discriminate HL]. injection HL as <-. exact ex_library_ok.
Qed.

Lemma ex_lines_ok : Forall2 line_of ex_lines ex_infos.
Proof.
  repeat constructor; first [refine (bool_decide_unpack (10 ∉ _) _); vm_compute; exact I | refine (bool_decide_unpack (Forall (fun b => b <> 0) _) _); vm_compute; exact I | vm_compute; congruence].
Qed.

Lemma ex_backtraces_ok : Forall2 (backtrace_of ex_fuel ex_machine ex_infos ex_libs) ex_threads ex_backtraces.
Proof. repeat constructor; (eexists; split; [vm_compute; reflexivity|vm_compute; reflexivity]). Qed.

End WalkExamples.
