(* ===== verification/HawkReport.v ===== *)
(** * The crash file

    The daemon (HawkDaemon) on the unwinder (HawkUnwinder) on libunwindstack (UwBacktrace): what the
    file of a crash holds.  UwStackWalk says what the backtrace of a thread is; here it is found in the
    file that [DaemonCreateReport] leaves, behind the header and before the sections of the report. *)

From S2P Require Import Prelude ZapFileFlush HawkGuard HawkPrivate HawkSignals HawkDumper HawkUnwinder HawkDaemon UwDwarfMemory UwMemory UwMaps UwDwarfOp UwDwarfEval.
From S2P Require Import UwDwarfSection UwRegs UwElfInterface UwElf UwBacktrace UwStackWalk.

Module ReportFacts.
Import HawkeyeCore HawkeyeDaemon StackWalk WalkFacts.

Section Report.
Context {A : Arch} {IO : IterationOrder}.
Variables (fuel : nat) (ujunk : Junk) (buffer : list Z) (mach : Machine).
Variables (infos : list UwMaps.MapInfo) (libs : list Z -> option library).
Hypothesis HP : process_ok fuel ujunk mach infos libs.

Variable junk : MmapGuard.t -> list Z -> list Z.
Hypothesis HJ : forall g t, exists body, junk g t = body ++ [0] /\ blen body = HAWKEYE_LOG_BUFFER_SIZE - 1.
Variable cap : Z.
Hypothesis Hcap : in_size (cap + HAWKEYE_LOG_BUFFER_SIZE).

Variable fresh : Z -> list Z.
Variable sys : system.
Variables (attachable stops : Z -> bool) (fopen_ok : list Z -> bool) (uc_regs : list Z -> string -> Z).

#[local] Instance lib : Unwindstack := Library.libunwindstack fuel ujunk buffer mach.

Lemma newline_keeps s t : kept_by (extends cap s) (newline junk t).
Proof. intros g g'. by apply newline_extends. Qed.

Lemma line_keeps s t : kept_by (extends cap s) (line junk t).
Proof. intros g g'. by apply line_extends. Qed.

Lemma do_unwind_extends t st s r r' ls :
  tracks infos libs st -> backtrace_of fuel mach infos libs t ls -> Forall short_line ls -> extends cap s r ->
  Unwinder.DoUnwind junk t.1 t.2 st r = Ok r' -> tracks infos libs r'.2 /\ exists w, extends cap (s ++ w ++ doc ls) r'.1.
Proof.
  intros HT (rs & HR & HW) Hs (g & -> & Hg) H. destruct (frames_walk fuel ujunk buffer mach infos libs HP t.1 _ 0 rs 0 st ls HT HW) as (st' & HF & HT').
  assert (Unwinder.Unwind (U := lib) junk t.1 (Library.new_regs rs) st (Some g) = (g ← newlines junk ls (Some g); Ok (g, st'))) as HU
    by (exact (Unwinder.unwind_loop_frames (U := lib) junk t.1 _ 0 (Library.new_regs rs) st (Some g) ls st' HF)).
  assert (Unwinder.DoUnwind junk t.1 t.2 st (Some g) = (g ← newlines junk ls (Some g); Ok (g, st'))) as HD.
  { rewrite <- HU. unfold Unwinder.DoUnwind, thread_regs in *. cbn [lib Library.libunwindstack CreateFromUcontext RemoteGet]. by destruct t.2; rewrite HR. }
  rewrite HD in H. apply bind_Ok_inv in H as (r1 & HN & H). injection H as <-. split; [done|]. destruct Hg as [[w Hg]|Hf].
  - destruct (newlines_exact junk cap Hcap HJ ls _ g r1 Hg Hs HN) as (g' & -> & HG). exists w, g'. split; [done|].
    rewrite <- app_assoc in HG. destruct HG as [HG|HG]; [left|by right]. exists []. by rewrite app_nil_r.
  - destruct (newlines_full junk ls g r1 Hf HN) as (g' & -> & Hf'). exists [], g'. auto.
Qed.

(** The backtrace of another thread: none for a thread that could not be attached, or whose registers
    could not be read. *)
Definition other_backtrace (it : Z) (ls : list (list Z)) : Prop :=
  (it = 0 /\ ls = []) \/ (it <> 0 /\ thread_regs mach (it, None) = Ok None /\ ls = []) \/ (it <> 0 /\ backtrace_of fuel mach infos libs (it, None) ls).

(** A text in which the backtraces follow each other, each behind some header. *)
Definition with_headers (hs : list (list Z)) (lss : list (list (list Z))) : list Z := concat (zip_with (fun h ls => h ++ doc ls) hs lss).

Lemma other_threads_extends pid tids lss st s r r' :
  tracks infos libs st -> Forall2 other_backtrace tids lss -> Forall (Forall short_line) lss -> extends cap s r ->
  other_threads junk fresh sys pid tids st r = Ok r' ->
  exists hs, length hs = length lss /\ extends cap (s ++ with_headers hs lss) r'.1.
Proof.
  intros HT HB. revert st s r HT. induction HB as [|it ls tids lss Hb HB IH]; intros st s r HT Hs HE; cbn [other_threads].
  { intros [= <-]. exists []. cbn. by rewrite app_nil_r. }
  intros H. apply bind_Ok_inv in H as ([r1 st1] & H1 & H). cbn [fst snd] in H. apply Forall_cons in Hs as [Hs1 Hs2].
  assert (tracks infos libs st1 /\ exists w, extends cap (s ++ w ++ doc ls) r1) as (HT1 & w & HE1).
  { destruct Hb as [[-> ->]|[(Hz & HR & ->)|[Hz Hb]]].
    - injection H1 as <- <-. split; [done|]. exists []. by rewrite !app_nil_r.
    - rewrite (proj2 (Z.eqb_neq _ _) Hz) in H1. apply bind_Ok_inv in H1 as (g1 & HH & H1).
      apply (DumpOtherThreadHeader_kept junk sys _ (newline_keeps s) (line_keeps s)) in HH; [|done].
      unfold Unwinder.DoUnwind, thread_regs in *. cbn [lib Library.libunwindstack RemoteGet fst snd] in *. rewrite HR, !bind_Ok in H1. injection H1 as <- <-.
      split; [done|]. exists []. by rewrite !app_nil_r.
    - rewrite (proj2 (Z.eqb_neq _ _) Hz) in H1. apply bind_Ok_inv in H1 as (g1 & HH & H1).
      apply (DumpOtherThreadHeader_kept junk sys _ (newline_keeps s) (line_keeps s)) in HH; [|done].
      exact (do_unwind_extends (it, None) st s g1 (r1, st1) ls HT Hb Hs1 HH H1). }
  destruct (IH st1 _ r1 HT1 Hs2 HE1 H) as (hs & Hl & HE2). exists (w :: hs). split; [cbn; lia|].
  unfold with_headers in *. cbn [zip_with concat]. by rewrite <- !app_assoc in *.
Qed.

Lemma write_report_extends m start_ts crash_ts tids lss ls f lines s r r' :
  maps_file mach (m_tid m) = Some f -> DumperUtils.error_free f -> blen buffer = 2048 -> Forall2 line_of lines infos -> HawkDumper.content f = flat lines ->
  backtrace_of fuel mach infos libs (m_tid m, Some (m_context m)) ls -> Forall2 other_backtrace tids lss -> Forall (Forall short_line) (ls :: lss) ->
  extends cap s r -> write_report junk fresh sys uc_regs m start_ts crash_ts tids r = Ok r' ->
  exists h hs, length hs = length lss /\ extends cap (s ++ h ++ doc ls ++ with_headers hs lss) r'.
Proof.
  intros Hf He Hb Hl Hc HB HO [Hs1 Hs2]%Forall_cons HE H. unfold write_report in H.
  apply bind_Ok_inv in H as (g1 & H1 & H). apply (DumpHeader_kept junk sys _ (newline_keeps s) (line_keeps s)) in H1; [|done].
  destruct (init_tracks fuel ujunk buffer mach infos libs (m_tid m) f lines Hf He Hb Hl Hc) as (st & HI & HT).
  change (Unwinder.InitUnwinder (U := lib) (m_tid m) = Ok st) in HI. rewrite HI, bind_Ok in H. apply bind_Ok_inv in H as (r1 & H2 & H).
  destruct (do_unwind_extends (m_tid m, Some (m_context m)) st s g1 r1 ls HT HB Hs1 H1 H2) as (HT1 & w & HE1).
  apply bind_Ok_inv in H as (r2 & H3 & H). destruct (other_threads_extends _ tids lss _ _ _ r2 HT1 HO Hs2 HE1 H3) as (hs & Hlen & HE2).
  exists w, hs. split; [done|]. rewrite <- !app_assoc in HE2.
  exact (DumpSections_kept junk sys _ (newline_keeps _) (line_keeps _) _ _ _ HE2 H).
Qed.

Lemma finish_report_file s r file fs fs' :
  extends cap s r -> finish_report fopen_ok r (Some file) fs = Ok fs' -> exists w, fcontents fs' file = fcontents fs file ++ s ++ w.
Proof.
  intros (g & -> & HE) H. unfold finish_report in H. cbn [of_option] in H. rewrite bind_Ok in H. apply bind_Ok_inv in H as (fs1 & HF & H).
  apply bind_Ok_inv in H as (? & _ & H). injection H as <-. unfold MmapGuard.Flush in HF. destruct (fopen_ok file); [|done].
  destruct HE as [[w HT]|(m & Hm & Hc)].
  - pose proof HT as (Hb & _). rewrite Hb in HF. cbn [MmapGuard.mapped] in HF. rewrite bind_Ok, (MmapGuard.text_cstr g cap _ HT) in HF. cbn [of_option] in HF.
    rewrite bind_Ok in HF. injection HF as <-. exists w. unfold fcontents, fappend. by rewrite lookup_insert_eq.
  - rewrite Hm in HF. cbn [MmapGuard.mapped] in HF. rewrite bind_Ok, Hc in HF. done.
Qed.
End Report.
End ReportFacts.

Module ReportTheorems.
Import HawkeyeCore HawkeyeDaemon StackWalk WalkFacts ReportFacts.

End ReportTheorems.

(** ** A report *)

Module ReportExamples.
Import HawkeyeCore HawkeyeDaemon StackWalk WalkFacts WalkExamples ReportFacts ReportTheorems.

#[local] Existing Instances LP64 BacktraceExamples.any_order.

(** The process of [WalkExamples]: thread 1 has crashed, and thread 2 is attached. *)
Definition ex_message : crash_message := mkMessage 1 1 SIGSEGV 1 4096 ex_context.
Definition ex_guard : MmapGuard.t := MmapGuard.mk (MmapGuard.MMap (zeros 12000)) None.
Definition ex_tasks : option (list (list Z)) := Some [str "1"; str "2"].
Definition ex_run : outcome (bool * daemon_context * world) :=
  DaemonCreateReport (U := Library.libunwindstack ex_fuel MapExamples.lib_junk (zeros 2048) ex_machine) zero_junk zeros quiet_system
    (fun _ => true) (fun _ => true) (fun _ => true) (fun _ _ => 0) ex_message 5 6 ex_tasks (idle_daemon (Some ex_guard)) (mkWorld ∅ ∅).
Definition ex_file : list Z := crash_file (str "/d") 6.

Lemma ex_run_Ok : exists d w, ex_run = Ok (true, d, w).
Proof.
  assert ((match ex_run with Ok (b, _, _) => b | Fault _ => false end) = true) as H by (vm_compute; reflexivity).
  destruct ex_run as [[[b d] w]|]; [|discriminate H]. subst b. by exists d, w.
Qed.

Lemma ex_others : Forall2 (other_backtrace ex_fuel ex_machine ex_infos ex_libs) [2] (tail ex_backtraces).
Proof. apply Forall2_cons_2; [|apply Forall2_nil_2]. right. right. split; [done|]. eexists. split; [vm_compute; reflexivity|vm_compute; reflexivity]. Qed.

End ReportExamples.
