(* ===== verification/UwUnwinder.v ===== *)
(** * libunwindstack: its own driver

    Models external/libunwindstack-ndk/Unwinder.{h,cpp}: walking a stack with a limit on the frames, a
    list of maps to skip at the top and of suffixes to stop at, the speculative step through the return
    address, the virtual frames of dex code, and the text of a frame.  The crash daemon does not use
    it (HawkUnwinder is its own loop), the tools of the library do.

    What the driver needs of the library is the class [Stepping]; [library_stepping] builds it from the
    models.  Three things the source calls are not in the repository and stay members of the class: the
    error of an [Elf] ([GetLastError]), the files of a just-in-time compiler ([JitDebug::GetElf]) and
    the names of dex methods ([DexFiles::GetMethodInformation]).

    The loop has one round of fuel per round of the code; [unwind_bounded] says how many are enough,
    and [skipped_maps_loop] that with a list of maps to skip there may be no such number. *)

From S2P Require Import Prelude HawkGuard HawkPrivate HawkDumper HawkUnwinder UwDwarfMemory UwMemory UwMaps UwDwarfOp.
From S2P Require Import UwDwarfCfa UwDwarfEval UwDwarfSection UwDwarfFormat UwEhFrameHdr UwRegs UwElfInterface UwElfArm UwElf UwBacktrace.

Definition MAPS_FLAGS_JIT_SYMFILE_MAP : Z := 16384.

(** What [Unwinder] needs. *)
Class Stepping : Type := {
  lstate : Type;                                  (* the maps and the objects behind them *)
  lregs : Type;
  lmap : Type;
  lelf : Type;
  l_pc : lregs -> Z;
  l_sp : lregs -> Z;
  l_dex_pc : lregs -> Z;
  l_set_dex_pc : Z -> lregs -> lregs;
  l_SetPcFromReturnAddress : lregs -> option lregs;
  l_Find : Z -> lstate -> option lmap;
  l_info : lmap -> lstate -> UwMaps.MapInfo;
  l_elf_offset : lmap -> lstate -> Z;
  l_GetElf : lmap -> lstate -> outcome (lelf * lstate);
  l_valid : lelf -> lstate -> bool;
  l_GetLoadBias : lelf -> lstate -> Z;
  l_GetRelPc : lelf -> Z -> lmap -> lstate -> Z;
  l_GetPcAdjustment : lregs -> Z -> lelf -> lstate -> Z;
  l_GetFunctionName : lelf -> Z -> lstate -> outcome (option (list Z * Z) * lstate);
  (** [*finished], or [None] for false; the registers may have changed in either case. *)
  l_Step : lelf -> Z -> Z -> Z -> lregs -> lstate -> outcome (option bool * lregs * lstate);
  l_GetLastError : lelf -> lstate -> ErrorData -> ErrorData;
  l_jit : option (Z -> lstate -> outcome (option lelf * lstate));
  l_dex : option (lmap -> Z -> lstate -> list Z * Z)
}.

(** [FrameData] *)
Record FrameData : Type := mkFrame {
  num : Z; rel_pc : Z; pc : Z; sp : Z;
  function_name : list Z; function_offset : Z;
  map_name : list Z; map_offset : Z; map_start : Z; map_end : Z; map_load_bias : Z; map_flags : Z
}.

Module StackUnwinder.

(** [basename], the one of string.h: what follows the last slash. *)
Fixpoint basename_from (s best : list Z) : list Z :=
  match s with
  | [] => best
  | c :: s => basename_from s (if c =? 47 then s else best)
  end.
Definition basename (s : list Z) : list Z := basename_from s s.

(** What follows the last dot; [None] without one. *)
Fixpoint suffix_from (s : list Z) (best : option (list Z)) : option (list Z) :=
  match s with
  | [] => best
  | c :: s => suffix_from s (if c =? 46 then Some s else best)
  end.

Definition ShouldStop (map_suffixes_to_ignore : option (list (list Z))) (name : list Z) : bool :=
  match map_suffixes_to_ignore with
  | None => false
  | Some suffixes =>
      match suffix_from name None with
      | None => false
      | Some s => bool_decide (s ∈ suffixes)
      end
  end.

Section WithLib.
Context {L : Stepping}.
Variable max_frames_ : Z.
Variable resolve_names_ : bool.

(** The members that change, and the library. *)
Record t : Type := mk { regs_ : lregs; frames_ : list FrameData; last_error_ : ErrorData; lib : lstate }.

Definition set_regs (r : lregs) (u : t) : t := mk r (frames_ u) (last_error_ u) (lib u).
Definition set_frames (f : list FrameData) (u : t) : t := mk (regs_ u) f (last_error_ u) (lib u).
Definition set_error (e : ErrorData) (u : t) : t := mk (regs_ u) (frames_ u) e (lib u).
Definition set_lib (l : lstate) (u : t) : t := mk (regs_ u) (frames_ u) (last_error_ u) l.
Definition set_code (c : ErrorCode) (u : t) : t := set_error (mkError c (address (last_error_ u))) u.
Definition size (u : t) : Z := Z.of_nat (length (frames_ u)).
Definition push (f : FrameData) (u : t) : t := set_frames (frames_ u ++ [f]) u.

Definition FillInDexFrame (u : t) : t :=
  let dex_pc := l_dex_pc (regs_ u) in
  let sp := l_sp (regs_ u) in
  match l_Find dex_pc (lib u) with
  | None => push (mkFrame (size u) dex_pc dex_pc sp [] 0 [] 0 0 0 0 0) u
  | Some m =>
      let i := l_info m (lib u) in
      let name := if resolve_names_ then name i else [] in
      let '(fn, off) :=
        if resolve_names_ then match l_dex with None => ([], 0) | Some get => get m dex_pc (lib u) end else ([], 0) in
      push (mkFrame (size u) (u64 (dex_pc - start i)) dex_pc sp fn off name (offset i) (start i) (end_ i) (load_bias i) (flags i)) u
  end.

(** [FillInFrame]: without a map the [Elf] pointer is not used. *)
Definition FillInFrame (map_info : option (lmap * lelf)) (rel func_pc pc_adjustment : Z) (u : t) : outcome t :=
  let f fn off name moff mstart mend bias mflags :=
    mkFrame (size u) (u64 (rel - pc_adjustment)) (u64 (l_pc (regs_ u) - pc_adjustment)) (l_sp (regs_ u))
      fn off name moff mstart mend bias mflags in
  match map_info with
  | None => Ok (push (f [] 0 [] 0 0 0 0 0) u)
  | Some (m, elf) =>
      let i := l_info m (lib u) in
      let name := if resolve_names_ then name i else [] in
      r ← (if resolve_names_ then l_GetFunctionName elf func_pc (lib u) else Ok (None, lib u));
      let '(fn, off) := default ([], 0) r.1 in
      Ok (push (f fn off name (offset i) (start i) (end_ i) (l_GetLoadBias elf (lib u)) (flags i)) (set_lib r.2 u))
  end.

(** The pcs of a round: [rel_pc], [step_pc], [pc_adjustment] and the object to step with. *)
Definition place (m : lmap) (adjust_pc : bool) (u : t) : outcome (Z * Z * Z * lelf * lstate) :=
  r ← l_GetElf m (lib u);
  let '(elf, l) := r in
  let pc := l_pc (regs_ u) in
  let rel := l_GetRelPc elf pc m l in
  let step_pc := if Z.land (flags (l_info m l)) MAPS_FLAGS_JIT_SYMFILE_MAP =? 0 then rel else pc in
  let adjustment := if adjust_pc then l_GetPcAdjustment (regs_ u) rel elf l else 0 in
  let step_pc := u64 (step_pc - adjustment) in
  match (if l_valid elf l then None else l_jit) with
  | None => Ok (rel, step_pc, adjustment, elf, l)
  | Some jit =>
      let adjusted := u64 (pc - adjustment) in
      r ← jit adjusted l;
      match r with
      | (Some jit_elf, l) => Ok (rel, adjusted, adjustment, jit_elf, l)
      | (None, l) => Ok (rel, step_pc, adjustment, elf, l)
      end
  end.

(** Whether the map is one of those to skip. *)
Definition skipped (to_skip : option (list (list Z))) (m : option lmap) (l : lstate) : bool :=
  match m, to_skip with
  | Some m, Some names => bool_decide (basename (name (l_info m l)) ∈ names)
  | _, _ => false
  end.

(** [Step] of the object unless the pc or the stack is in a device map: whether it stepped, whether
    there is a device map, whether the unwinding is over. *)
Definition step_elf (m : lmap) (elf : lelf) (rel step_pc : Z) (u : t) : outcome (bool * bool * bool * t) :=
  let device m := negb (Z.land (flags (l_info m (lib u))) MAPS_FLAGS_DEVICE_MAP =? 0) in
  if device m then Ok (false, true, false, u)
  else if from_option device false (l_Find (l_sp (regs_ u)) (lib u)) then Ok (false, true, false, u)
  else
    r ← l_Step elf rel step_pc (l_elf_offset m (lib u)) (regs_ u) (lib u);
    let '(finished, regs, l) := r in
    let u := set_error (l_GetLastError elf l (last_error_ u)) (set_lib l (set_regs regs u)) in
    Ok (bool_decide (is_Some finished), false, default false finished, u).

(** What the rounds carry along. *)
Record control : Type := mkControl { return_address_attempt : bool; adjust_pc : bool; to_skip : option (list (list Z)) }.

(** The end of a round: the unwinding stops when neither the pc nor the stack has moved. *)
Definition next_round (cur_pc cur_sp : Z) (attempt : bool) (to_skip : option (list (list Z))) (u : t) : t + control * t :=
  if (cur_pc =? l_pc (regs_ u)) && (cur_sp =? l_sp (regs_ u)) then inl (set_code ERROR_REPEATED_FRAME u)
  else inr (mkControl attempt true to_skip, u).

(** What follows the step: [inl] ends the loop.  [pop_back] of an empty vector is undefined. *)
Definition after_step (cur_pc cur_sp : Z) (stepped in_device_map : bool) (c : control) (u : t) : outcome (t + control * t) :=
  if stepped then
    let u := if max_frames_ =? size u then set_code ERROR_MAX_FRAMES_EXCEEDED u else u in
    Ok (next_round cur_pc cur_sp false (to_skip c) u)
  else if return_address_attempt c then
    match frames_ u with
    | [] => Fault OutOfBounds
    | _ => Ok (inl (set_frames (removelast (frames_ u)) u))
    end
  else if in_device_map then Ok (inl u)
  else
    match l_SetPcFromReturnAddress (regs_ u) with
    | None => Ok (inl u)
    | Some regs => Ok (next_round cur_pc cur_sp true (to_skip c) (set_regs regs u))
    end.

(** The frame of dex code, then the frame itself. *)
Definition fill (map_info : option (lmap * lelf)) (rel func_pc pc_adjustment : Z) (u : t) : outcome t :=
  let u := if l_dex_pc (regs_ u) =? 0 then u
           else let u := FillInDexFrame u in set_regs (l_set_dex_pc 0 (regs_ u)) u in
  FillInFrame map_info rel func_pc pc_adjustment u.

(** One round of the loop of [Unwind]. *)
Definition round (suffixes : option (list (list Z))) (c : control) (u : t) : outcome (t + control * t) :=
  let cur_pc := l_pc (regs_ u) in
  let cur_sp := l_sp (regs_ u) in
  match l_Find cur_pc (lib u) with
  | None =>
      let u := set_code ERROR_INVALID_MAP u in
      u ← fill None cur_pc cur_pc 0 u;
      after_step cur_pc cur_sp false false (mkControl (return_address_attempt c) true None) u
  | Some m =>
      if ShouldStop suffixes (name (l_info m (lib u))) then Ok (inl u)
      else
        r ← place m (adjust_pc c) u;
        let '(rel, step_pc, adjustment, elf, l) := r in
        let u := set_lib l u in
        let skip := skipped (to_skip c) (Some m) l in
        u ← (if skip then Ok u else fill (Some (m, elf)) rel step_pc adjustment u);
        let c := mkControl (return_address_attempt c) true (if skip then to_skip c else None) in
        r ← step_elf m elf rel step_pc u;
        let '(stepped, in_device_map, finished, u) := r in
        if stepped && finished then Ok (inl u) else after_step cur_pc cur_sp stepped in_device_map c u
  end.

Fixpoint unwind_loop (fuel : nat) (suffixes : option (list (list Z))) (c : control) (u : t) : outcome t :=
  if size u <? max_frames_ then
    match fuel with
    | O => Fault OutOfFuel
    | S fuel =>
        r ← round suffixes c u;
        match r with
        | inl u => Ok u
        | inr (c, u) => unwind_loop fuel suffixes c u
        end
    end
  else Ok u.

(** [Unwind(initial_map_names_to_skip, map_suffixes_to_ignore)] *)
Definition Unwind (fuel : nat) (names suffixes : option (list (list Z))) (u : t) : outcome t :=
  unwind_loop fuel suffixes (mkControl false false names) (set_error (mkError ERROR_NONE 0) (set_frames [] u)).
End WithLib.

(** ** The text of a frame *)

(** [FormatFrame(frame, is32bit)] *)
Definition FormatFrame (frame : FrameData) (is32bit : bool) : list Z :=
  str "  #" ++ pad_left 2 48 (dec (num frame)) ++ str " pc " ++ hex0 (if is32bit then 8 else 16) (rel_pc frame) ++
  (if map_offset frame =? 0 then [] else str " (offset 0x" ++ hex (map_offset frame) ++ str ")") ++
  (if map_start frame =? map_end frame then str "  <unknown>"
   else if bool_decide (map_name frame = []) then str "  <anonymous:" ++ hex (map_start frame) ++ str ">"
   else str "  " ++ map_name frame) ++
  (if bool_decide (function_name frame = []) then []
   else str " (" ++ function_name frame ++
        (if function_offset frame =? 0 then [] else str "+" ++ dec (swrap 64 (function_offset frame))) ++ str ")").

(** [FormatFrame(frame_num)] *)
Definition FormatFrameAt (frames : list FrameData) (frame_num : nat) (is32bit : bool) : list Z :=
  from_option (fun f => FormatFrame f is32bit) [] (frames !! frame_num).
End StackUnwinder.

(** ** The driver on the library *)

Section Library.
Context {A : Arch} {IO : IterationOrder}.
Variable fuel : nat.
Variable junk : Junk.
Variable mach : Machine.
Variable tid : Z.
Variable GetLastError : Elf.t -> ErrorData -> ErrorData.
Variable jit : option (Z -> Library.state -> outcome (option nat * Library.state)).
Variable dex : option (nat -> Z -> Library.state -> list Z * Z).

Definition no_map : UwMaps.MapInfo := mkMapInfo 0 0 0 0 [] 0.

Definition library_stepping : Stepping := {|
  lstate := Library.state;
  lregs := DwarfSection.Regs;
  lmap := nat;
  lelf := nat;
  l_pc := fun r => Regs.pc (current mach) (DwarfSection.regs_ r);
  l_sp := fun r => Regs.sp (current mach) (DwarfSection.regs_ r);
  l_dex_pc := DwarfSection.dex_pc;
  l_set_dex_pc := fun v r => DwarfSection.mkRegs (DwarfSection.regs_ r) v;
  l_SetPcFromReturnAddress := fun r =>
    option_map (fun rs => DwarfSection.mkRegs rs (DwarfSection.dex_pc r))
      (Regs.SetPcFromReturnAddress (current mach) (process_memory mach tid) (DwarfSection.regs_ r));
  l_Find := Library.Find;
  l_info := fun i st => from_option MapInfo.info no_map (Library.maps st !! i);
  l_elf_offset := Library.elf_offset_of;
  l_GetElf := fun i st =>
    mi ← of_option OutOfBounds (Library.maps st !! i);
    r ← MapInfo.GetElf fuel junk (files mach) (process_memory mach tid) mi (Library.world st);
    let '(p, mi, w) := r in
    Ok (p, Library.mkState (<[i := mi]> (Library.maps st)) w);
  l_valid := fun p st => from_option Elf.valid_ false (elfs (Library.world st) !! p);
  l_GetLoadBias := fun p st => from_option Elf.load_bias_ 0 (elfs (Library.world st) !! p);
  l_GetRelPc := Library.GetRelPc;
  l_GetPcAdjustment := fun r rel p st => Library.GetPcAdjustment mach r rel p st;
  l_GetFunctionName := Library.GetFunctionName fuel;
  l_Step := fun p rel adjusted off r st =>
    e ← Library.object p st;
    x ← Elf.Step fuel (process_memory mach tid) (current mach) rel adjusted off r e;
    let '(finished, r, e) := x in
    Ok (finished, r, Library.set_object p e st);
  l_GetLastError := fun p st d => from_option (fun e => GetLastError e d) d (elfs (Library.world st) !! p);
  l_jit := jit;
  l_dex := dex
|}.
End Library.

(** ** Bounds *)

Module UnwinderTheorems.
Import StackUnwinder.

(** Frames are numbered from 0. *)
Definition numbered (fs : list FrameData) : Prop := forall i f, fs !! i = Some f -> num f = Z.of_nat i.

Lemma numbered_snoc fs f : numbered fs -> num f = Z.of_nat (length fs) -> numbered (fs ++ [f]).
Proof.
  intros H Hf i x Hx. apply lookup_app_Some in Hx as [Hx|[Hl Hx]]; [by apply H|].
  apply list_lookup_singleton_Some in Hx as [Hi <-]. rewrite Hf. f_equal. lia.
Qed.

Lemma numbered_removelast fs : numbered fs -> numbered (removelast fs).
Proof.
  destruct fs as [|f fs] using rev_ind; [done|]. rewrite removelast_last. intros H i x Hx. apply H. by apply lookup_app_l_Some.
Qed.

Section Bounds.
Context {L : Stepping}.
Variables (max_frames_ : Z) (resolve_names_ : bool).

(** States of the library from which its operations are defined. *)
Variable safe : lstate -> Prop.
Record safe_library : Prop := {
  sl_elf m l : safe l -> exists e l', l_GetElf m l = Ok (e, l') /\ safe l';
  sl_name e a l : safe l -> exists r l', l_GetFunctionName e a l = Ok (r, l') /\ safe l';
  sl_step e r s o regs l : safe l -> exists f regs' l', l_Step e r s o regs l = Ok (f, regs', l') /\ safe l';
  sl_jit jit a l : l_jit = Some jit -> safe l -> exists e l', jit a l = Ok (e, l') /\ safe l'
}.
Hypothesis Hsafe : safe_library.

Definition fine (u : t) : Prop := safe (lib u) /\ numbered (frames_ u).

Lemma place_defined m adj u : safe (lib u) -> exists r s a e l, place m adj u = Ok (r, s, a, e, l) /\ safe l.
Proof.
  intros H. unfold place. destruct (sl_elf Hsafe m _ H) as (e & l & -> & Hl). rewrite bind_Ok.
  destruct (if l_valid e l then None else l_jit) as [jit|] eqn:E; [|by do 5 eexists].
  destruct (l_valid e l); [done|].
  match goal with |- context [jit ?a l] => destruct (sl_jit Hsafe jit a l E Hl) as ([j|] & l' & -> & Hl') end;
    rewrite bind_Ok; by do 5 eexists.
Qed.

Lemma dex_frame_pushed u : exists f, FillInDexFrame resolve_names_ u = push f u /\ num f = size u.
Proof. unfold FillInDexFrame. destruct (l_Find _ _) as [m|]; [|by eexists]. repeat case_match; by eexists. Qed.

Lemma frame_pushed mi r fp a u : fine u -> exists u', FillInFrame resolve_names_ mi r fp a u = Ok u' /\ fine u' /\ size u' = size u + 1.
Proof.
  intros [H1 H2]. unfold FillInFrame. destruct mi as [[m e]|].
  2: { eexists. split; [done|]. split; [split; [done|by apply numbered_snoc]|]. unfold size, push. cbn. rewrite length_app. cbn. lia. }
  assert (exists x l, (if resolve_names_ then l_GetFunctionName e fp (lib u) else Ok (None, lib u)) = Ok (x, l) /\ safe l)
    as (x & l & -> & Hl) by (destruct resolve_names_; [by apply (sl_name Hsafe)|by do 2 eexists]).
  rewrite bind_Ok. cbn [fst snd]. destruct (default ([], 0) x) as [fn off]. eexists. split; [done|].
  split; [split; [done|by apply numbered_snoc]|]. unfold size, push. cbn. rewrite length_app. cbn. lia.
Qed.

Lemma fill_grows mi r fp a u :
  fine u -> exists u', fill resolve_names_ mi r fp a u = Ok u' /\ fine u' /\ size u + 1 <= size u' <= size u + 2.
Proof.
  intros H. unfold fill. destruct (l_dex_pc (regs_ u) =? 0).
  - destruct (frame_pushed mi r fp a u H) as (u' & H1 & H2 & H3). exists u'. split_and!; [done|apply H2..|lia|lia].
  - destruct (dex_frame_pushed u) as (f & -> & Hf). set (v := set_regs _ _).
    assert (fine v) as Hv by (destruct H; split; [done|by apply numbered_snoc]).
    assert (size v = size u + 1) by (unfold v, size, push; cbn; rewrite length_app; cbn; lia).
    destruct (frame_pushed mi r fp a v Hv) as (u' & H1 & H2 & H3). exists u'. split_and!; [done|apply H2..|lia|lia].
Qed.

(** How a round may end: with at most [hi] frames, and at least [lo] when it goes on; one frame may be
    taken back when it ends the loop. *)
Definition ends (back : bool) (lo hi : Z) (r : t + control * t) : Prop :=
  match r with
  | inl u => fine u /\ lo - (if back then 1 else 0) <= size u <= hi
  | inr (c, u) => fine u /\ lo <= size u <= hi /\ to_skip c = None
  end.

Lemma next_round_ends pc sp att u : fine u -> ends false (size u) (size u) (next_round pc sp att None u).
Proof.
  intros H. unfold next_round. destruct (_ && _); cbn; [change (size (set_code ERROR_REPEATED_FRAME u)) with (size u)|];
    split_and!; try apply H; done || lia.
Qed.

Lemma ends_mono b b' lo lo' hi hi' (r : t + control * t) :
  ends b lo hi r -> lo' <= lo -> hi <= hi' -> (b = true -> b' = true) -> ends b' lo' hi' r.
Proof.
  destruct r as [u|[c u]]; cbn; intros H Hl Hh Hb; destruct H as (H1 & H2); (split; [done|]).
  - destruct b, b'; try lia; discriminate (Hb eq_refl).
  - split; [lia|apply H2].
Qed.

Lemma after_step_ends pc sp stepped dev att adj u :
  fine u -> 1 <= size u ->
  exists r, after_step max_frames_ pc sp stepped dev (mkControl att adj None) u = Ok r /\ ends att (size u) (size u) r.
Proof.
  intros H Hs. unfold after_step. cbn [to_skip return_address_attempt]. destruct stepped; [|destruct att; [|destruct dev]].
  - eexists. split; [done|]. set (v := if max_frames_ =? size u then set_code ERROR_MAX_FRAMES_EXCEEDED u else u).
    assert (fine v /\ size v = size u) as [Hv <-] by (unfold v; by destruct (max_frames_ =? size u)).
    eapply ends_mono; [by apply next_round_ends|lia|lia|done].
  - destruct (frames_ u) as [|f fs] eqn:E; [unfold size in Hs; rewrite E in Hs; cbn in Hs; lia|]. rewrite <- E.
    eexists. split; [done|]. destruct H as [H1 H2]. split; [split; [done|by apply numbered_removelast]|]. unfold size. cbn.
    rewrite E. clear. induction fs as [|g fs IH] in f |- *; [cbn; lia|]. cbn [removelast]. specialize (IH g). cbn in *. lia.
  - eexists. split; [done|]. split; [done|lia].
  - destruct (l_SetPcFromReturnAddress _) as [r|]; eexists; (split; [done|]); [|split; [done|lia]].
    by apply (next_round_ends _ _ _ (set_regs r u)).
Qed.

Lemma round_ends suffixes att adj u :
  fine u -> exists r, round max_frames_ resolve_names_ suffixes (mkControl att adj None) u = Ok r /\
    ends (att || bool_decide (is_Some suffixes)) (size u + 1) (size u + 2) r.
Proof.
  intros H. unfold round. cbn [to_skip return_address_attempt adjust_pc].
  assert (0 <= size u) as Hpos by (unfold size; lia).
  destruct (l_Find _ _) as [m|].
  2: { destruct (fill_grows None (l_pc (regs_ u)) (l_pc (regs_ u)) 0 (set_code ERROR_INVALID_MAP u)) as (u1 & -> & F1 & G1); [done|].
       rewrite bind_Ok. change (size (set_code _ u)) with (size u) in G1.
       destruct (after_step_ends (l_pc (regs_ u)) (l_sp (regs_ u)) false false att true u1 F1) as (r & -> & Hr); [lia|].
       exists r. split; [done|]. eapply ends_mono; [done|lia|lia|by destruct att]. }
  destruct (ShouldStop suffixes _) eqn:EQ.
  { destruct suffixes; [|done]. eexists. split; [done|]. rewrite orb_comm. split; [done|cbn; lia]. }
  destruct (place_defined m adj u) as (rel & sp & a & e & l & -> & Hl); [apply H|]. rewrite bind_Ok. cbn [skipped].
  destruct (fill_grows (Some (m, e)) rel sp a (set_lib l u)) as (u1 & -> & F1 & G1); [by destruct H|]. rewrite bind_Ok.
  change (size (set_lib l u)) with (size u) in G1.
  assert (exists st dev fin u2, step_elf m e rel sp u1 = Ok (st, dev, fin, u2) /\ fine u2 /\ size u2 = size u1)
    as (st & dev & fin & u2 & -> & F2 & G2).
  { unfold step_elf. destruct (negb _); [by do 4 eexists|]. destruct (from_option _ _ _); [by do 4 eexists|].
    match goal with |- context [l_Step e rel sp ?o ?r ?l] =>
      destruct (sl_step Hsafe e rel sp o r l (proj1 F1)) as (f & r' & l' & -> & Hl') end.
    rewrite bind_Ok. do 4 eexists. split; [done|]. split; [|done]. by destruct F1. }
  rewrite bind_Ok. destruct (st && fin); [eexists; split; [done|]; split; [done|destruct (_ || _); lia]|].
  destruct (after_step_ends (l_pc (regs_ u)) (l_sp (regs_ u)) st dev att true u2 F2) as (r & -> & Hr); [lia|].
  exists r. split; [done|]. eapply ends_mono; [done|lia|lia|by destruct att].
Qed.

Lemma loop_bounded fuel suffixes att adj u :
  fine u -> size u <= max_frames_ + 1 -> max_frames_ - size u <= Z.of_nat fuel ->
  exists u', unwind_loop max_frames_ resolve_names_ fuel suffixes (mkControl att adj None) u = Ok u' /\ fine u' /\
    size u' <= max_frames_ + 1 /\ (suffixes = None -> 0 < max_frames_ -> (att = true -> 1 <= size u) -> 1 <= size u').
Proof.
  revert att adj u. induction fuel as [|fuel IH]; intros att adj u H Hs Hf; cbn [unwind_loop];
    (destruct (Z.ltb_spec (size u) max_frames_); [|exists u; split_and!; [done|apply H..|lia|lia]]); [lia|].
  destruct (round_ends suffixes att adj u H) as ([u1|[[att' adj' sk] u1]] & -> & Hr); rewrite bind_Ok; cbn [ends to_skip] in Hr.
  - destruct Hr as [F1 G1]. exists u1. split_and!; [done|apply F1..|lia|]. intros -> Hm Ha.
    assert (0 <= size u) by (unfold size; lia). destruct att; cbn in G1; [specialize (Ha eq_refl)|]; lia.
  - destruct Hr as (F1 & G1 & ->). assert (0 <= size u) by (unfold size; lia).
    destruct (IH att' adj' u1) as (u' & E1 & E2 & E3 & E4); [done|lia|lia|]. exists u'. split_and!; [done|apply E2..|lia|].
    intros Hn Hm _. apply E4; [done|done|lia].
Qed.
End Bounds.

End UnwinderTheorems.

(** ** Witnesses and concrete runs *)

Module UnwinderExamples.
Import StackUnwinder UnwinderTheorems.

(** A library whose registers are a pc and a stack pointer, moved by [next], in one map. *)
Definition toy (dex_pc : Z) (next : Z * Z -> option bool * (Z * Z)) : Stepping := {|
  lstate := unit; lregs := Z * Z; lmap := unit; lelf := unit;
  l_pc := fst; l_sp := snd; l_dex_pc := fun r => if r.1 =? 16 then dex_pc else 0; l_set_dex_pc := fun _ r => r;
  l_SetPcFromReturnAddress := fun r => Some (r.1 + 1, r.2);
  l_Find := fun _ _ => Some tt; l_info := fun _ _ => mkMapInfo 0 4096 0 5 (str "/lib/a.so") 0; l_elf_offset := fun _ _ => 0;
  l_GetElf := fun _ _ => Ok (tt, tt); l_valid := fun _ _ => true; l_GetLoadBias := fun _ _ => 0;
  l_GetRelPc := fun _ pc _ _ => pc; l_GetPcAdjustment := fun _ _ _ _ => 1; l_GetFunctionName := fun _ _ _ => Ok (None, tt);
  l_Step := fun _ _ _ _ r _ => Ok ((next r).1, (next r).2, tt); l_GetLastError := fun _ _ e => e;
  l_jit := None; l_dex := None |}.

Lemma toy_safe d next : safe_library (L := toy d next) (fun _ => True).
Proof. split; [by do 2 eexists..|by do 3 eexists|done]. Qed.

(** Steps to the next sixteen bytes. *)
Definition walk (r : Z * Z) : option bool * (Z * Z) := (Some false, (r.1 + 16, r.2 + 8)).
Definition begin (d : Z) next : t (L := toy d next) := mk (L := toy d next) (16, 0) [] (mkError ERROR_NONE 0) tt.


(** With a frame of dex code the limit is passed by one, and the error that it was reached is not
    reported. *)
Example dex_frame_exceeds :
  (u ← Unwind (L := toy 7 walk) 1 true 1 None None (begin 7 walk); Ok (length (frames_ u), code (last_error_ u))) =
    Ok (2%nat, ERROR_NONE) /\
  (u ← Unwind (L := toy 0 walk) 1 true 1 None None (begin 0 walk); Ok (length (frames_ u), code (last_error_ u))) =
    Ok (1%nat, ERROR_MAX_FRAMES_EXCEEDED).
Proof. split; vm_compute; reflexivity. Qed.

(** Two steps that fail in a map to skip: the frame that is removed was never added. *)
Example skipped_pop_empty :
  Unwind (L := toy 0 (fun r => (None, r))) 8 true 8 (Some [str "a.so"]) None (begin 0 (fun r => (None, r))) = Fault OutOfBounds.
Proof. vm_compute. reflexivity. Qed.

(** Two places of a map to skip that lead to each other. *)
Definition turn (r : Z * Z) : option bool * (Z * Z) := (Some false, if r.1 =? 16 then (32, 8) else (16, 0)).

Lemma skipped_maps_loop fuel :
  Unwind (L := toy 0 turn) 64 true fuel (Some [str "a.so"]) None (begin 0 turn) = Fault OutOfFuel.
Proof.
  unfold Unwind.
  assert (forall adj r, r = (16, 0) \/ r = (32, 8) -> unwind_loop (L := toy 0 turn) 64 true fuel None (mkControl false adj (Some [str "a.so"]))
    (mk (L := toy 0 turn) r [] (mkError ERROR_NONE 0) tt) = Fault OutOfFuel) as H; [|apply (H false (16, 0)); by left].
  induction fuel as [|fuel IH]; intros adj r Hr; [done|]. destruct Hr as [-> | ->], adj.
  all: cbn -[unwind_loop]; cbn [unwind_loop]; apply IH; auto.
Qed.
End UnwinderExamples.
