(* ===== verification/UwOffline.v ===== *)
(** * libunwindstack: saving a process for unwinding offline

    Models external/libunwindstack-ndk/tools/unwind_for_offline.cpp: the tool attaches to a process,
    unwinds it with the library's driver (UwUnwinder), and writes what another machine needs to unwind
    it again: regs.txt, stack.data, maps.txt, and a copy of every object a frame is in.

    The file system is a map from paths to contents; a relative name is in the working directory, so
    that a copy may be the file it is copied from.  [room] says which files can be created and how
    many bytes of each can be stored.  [ptrace] is what the system calls answer.

    [saved_state_roundtrip] composes the tool with the readers of the other side ([BufferMaps::Parse]
    and [MemoryOffline]). *)

From S2P Require Import Prelude HawkPrivate HawkDumper UwDwarfMemory UwMemory UwMaps UwDwarfSection UwRegs UwElfInterface UwElf.
From S2P Require Import UwBacktrace UwUnwinder.

Module OfflineTool.
Import StackUnwinder.

(** [map_info_t] *)
Record map_info_t : Type := mkInfo { start : Z; end_ : Z; offset : Z; name : list Z }.
Definition set_name (n : list Z) (i : map_info_t) : map_info_t := mkInfo (start i) (end_ i) (offset i) n.

(** Whether a file can be created, and how much of it can be stored. *)
Inductive Room : Type := NoFile | UpTo (n : Z) | Unlimited.

(** What the tool changes: the files, its standard output and whether it traces the process. *)
Record state : Type := mk { files : gmap (list Z) (list Z); out : list Z; attached : bool }.

(** The answers of ptrace: [PTRACE_ATTACH], and [PTRACE_GETSIGINFO] at each attempt. *)
Record Ptrace : Type := mkPtrace { attach : Z -> bool; getsiginfo : Z -> nat -> bool; strerror : list Z }.

(** The process, seen through the library. *)
Record Target {L : Stepping} : Type := mkTarget {
  RemoteGet : option lregs;                       (* [Regs::RemoteGet(pid)] *)
  remote_maps : option lstate;                    (* [RemoteMaps], when [Parse] returns true *)
  process_memory : Memory;                        (* [Memory::CreateProcessMemory(pid)] *)
  IterateRegisters : lregs -> list (list Z * Z);
  Is32Bit : lregs -> bool
}.

Section Tool.
Context {A : Arch}.
Variable cwd : list Z.
Variable room : list Z -> Room.

(** ** Files *)

Definition path (n : list Z) : list Z := if hd0 n =? 47 then n else cwd ++ [47] ++ n.
Definition content (p : list Z) (st : state) : list Z := default [] (files st !! p).
Definition set_content (p d : list Z) (st : state) : state := mk (<[p := d]> (files st)) (out st) (attached st).
Definition printf (s : list Z) (st : state) : state := mk (files st) (out st ++ s) (attached st).

(** [fopen(n, "r")]: the path of the file. *)
Definition fopen_r (n : list Z) (st : state) : option (list Z) :=
  if bool_decide (n = []) then None else option_map (fun _ => path n) (files st !! path n).

(** [fopen(n, "w+")] empties the file. *)
Definition fopen_w (n : list Z) (st : state) : option (list Z * state) :=
  if bool_decide (n = []) then None
  else match room (path n) with NoFile => None | _ => Some (path n, set_content (path n) [] st) end.

(** [fwrite(d, 1, size, f)]: how many bytes are stored, behind those already there. *)
Definition fwrite (p d : list Z) (st : state) : Z * state :=
  let n := match room p with
           | NoFile => 0
           | UpTo m => Z.min (blen d) (Z.max 0 (m - blen (content p st)))
           | Unlimited => blen d
           end in
  (n, set_content p (content p st ++ take (Z.to_nat n) d) st).

(** [fprintf], whose result is not looked at. *)
Definition fprintf (p d : list Z) (st : state) : state := (fwrite p d st).2.

(** [std::vector<uint8_t>(n)] throws beyond [max_size]. *)
Definition vector_ok (n : Z) : outcome unit := if n <? 2 ^ (size_bits - 1) then Ok () else Fault BadAlloc.

(** ** Attaching *)

Fixpoint wait_stopped (P : Ptrace) (pid : Z) (tries : nat) (i : nat) : bool :=
  match tries with
  | O => false
  | S tries => getsiginfo P pid i || wait_stopped P pid tries (S i)
  end.

Definition Attach (P : Ptrace) (pid : Z) (st : state) : bool * state :=
  if attach P pid then
    let st := mk (files st) (out st) true in
    if wait_stopped P pid 1000 0 then (true, st) else (false, printf (dec pid ++ str ": Failed to stop." ++ [10]) st)
  else (false, st).

(** ** The parts of the saved state *)

Definition reg_line (r : list Z * Z) : list Z := r.1 ++ str ": " ++ hex r.2 ++ [10].

Definition SaveRegs (regs : list (list Z * Z)) (st : state) : bool * state :=
  match fopen_w (str "regs.txt") st with
  | None => (false, printf (str "Failed to create file regs.txt." ++ [10]) st)
  | Some (fp, st) => (true, fold_left (fun st r => fprintf fp (reg_line r) st) regs st)
  end.

Definition SaveStack (memory : Memory) (sp_start sp_end : Z) (st : state) : outcome (bool * state) :=
  match fopen_w (str "stack.data") st with
  | None => Ok (false, printf (str "Failed to create stack.data." ++ [10]) st)
  | Some (fp, st) =>
      let '(bytes, st) := fwrite fp (le_bytes 8 sp_start) st in
      if negb (bytes =? 8) then Ok (false, st)
      else
        let size := szw (sp_end - sp_start) in
        _ ← vector_ok size;
        let d := memory sp_start size in
        if blen d =? 0 then Ok (false, printf (str "Unable to read stack data." ++ [10]) st)
        else
          let '(bytes, st) := fwrite fp (d ++ zeros (size - blen d)) st in
          if negb (bytes =? size) then
            Ok (true, printf (str "Failed to write all stack data: stack size " ++ dec size ++ str ", written " ++ dec bytes ++ [10]) st)
          else Ok (true, st)
  end.

Definition memory_name (info : map_info_t) : list Z :=
  (if bool_decide (name info = []) then str "anonymous" else basename (name info)) ++ str ":" ++ hex (start info).

Definition CreateElfFromMemory (memory : Memory) (info : map_info_t) (st : state) : outcome (bool * map_info_t * state) :=
  let cur_name := memory_name info in
  match fopen_w cur_name st with
  | None => Ok (false, info, printf (str "Cannot create " ++ cur_name ++ [10]) st)
  | Some (output, st) =>
      let size := szw (end_ info - start info) in
      _ ← vector_ok size;
      let d := memory (start info) size in
      if blen d =? 0 then
        Ok (false, info, printf (str "Cannot read data from address " ++ hex (start info) ++ str " length " ++ dec size ++ [10]) st)
      else
        let '(bytes_written, st) := fwrite output d st in
        if negb (bytes_written =? blen d) then
          Ok (false, info, printf (str "Failed to write all data to file: bytes read " ++ dec (blen d) ++ str ", written " ++ dec bytes_written ++ [10]) st)
        else Ok (true, set_name cur_name info, st)
  end.

(** The loop that copies 10000 bytes at a time; the source is read anew in every round. *)
Fixpoint copy_loop (fuel : nat) (fp : list Z) (pos : nat) (output : list Z) (st : state) : outcome (bool * state) :=
  match fuel with
  | O => Fault OutOfFuel
  | S fuel =>
      let d := take 10000 (drop pos (content fp st)) in
      if blen d =? 0 then Ok (true, st)
      else
        let '(bytes_written, st) := fwrite output d st in
        if negb (bytes_written =? blen d) then
          Ok (false, printf (str "Bytes written doesn't match bytes read: read " ++ dec (blen d) ++ str ", written " ++ dec bytes_written ++ [10]) st)
        else copy_loop fuel fp (pos + length d) output st
  end.

Definition CopyElfFromFile (info : map_info_t) (st : state) : outcome (bool * map_info_t * state) :=
  match fopen_r (name info) st with
  | None => Ok (false, info, st)
  | Some fp =>
      let cur_name := basename (name info) in
      match fopen_w cur_name st with
      | None => Ok (false, info, printf (str "Cannot create file " ++ cur_name ++ [10]) st)
      | Some (output, st) =>
          r ← copy_loop (S (length (content fp st))) fp 0 output st;
          let '(copied, st) := r in
          Ok (copied, if copied : bool then set_name cur_name info else info, st)
      end
  end.

(** ** [SaveData] *)

Definition info_of (f : FrameData) : map_info_t := mkInfo (map_start f) (map_end f) (map_offset f) (map_name f).

(** An object is copied from its file, or else from memory. *)
Definition save_map (memory : Memory) (info : map_info_t) (st : state) : outcome (bool * map_info_t * state) :=
  r ← CopyElfFromFile info st;
  let '(copied, info, st) := r in
  if copied : bool then Ok (true, info, st) else CreateElfFromMemory memory info st.

(** The loop over the frames; [None] is the early [return 1]. *)
Fixpoint save_maps (memory : Memory) (fs : list FrameData) (maps_by_start : gmap Z map_info_t) (last_sp : Z) (st : state)
    : outcome (option (gmap Z map_info_t * Z) * state) :=
  match fs with
  | [] => Ok (Some (maps_by_start, last_sp), st)
  | f :: fs =>
      match maps_by_start !! map_start f with
      | Some _ => save_maps memory fs maps_by_start (UwUnwinder.sp f) st
      | None =>
          r ← save_map memory (info_of f) st;
          let '(saved, info, st) := r in
          if saved : bool then save_maps memory fs (<[map_start f := info]> maps_by_start) (UwUnwinder.sp f) st else Ok (None, st)
      end
  end.

Definition by_first (a b : Z * map_info_t) : Prop := a.1 <= b.1.
#[global] Instance by_first_dec : RelDecision by_first.
Proof. intros a b. unfold by_first. apply _. Defined.

Definition sorted_maps (m : gmap Z map_info_t) : list (Z * map_info_t) := merge_sort by_first (map_to_list m).

(** A line of maps.txt, without its newline. *)
Definition map_line (i : map_info_t) : list Z :=
  hex (start i) ++ str "-" ++ hex (end_ i) ++ str " r-xp " ++ hex (offset i) ++ str " 00:00 0" ++
  (if bool_decide (name i = []) then [] else str "   " ++ name i).

(** The file maps.txt, by which [SaveData] ends.  [return false] is the exit code 0. *)
Definition save_maps_txt (maps : list map_info_t) (st : state) : Z * state :=
  match fopen_w (str "maps.txt") st with
  | None => (0, printf (str "Failed to create maps.txt." ++ [10]) st)
  | Some (fp, st) => (0, fold_left (fun st i => fprintf fp (map_line i ++ [10]) st) maps st)
  end.

Section WithTarget.
Context {L : Stepping}.
Variable T : Target.
Variable last_sp : Z.            (* the uninitialised variable *)

(** What [SaveData] does with the frames. *)
Definition save_frames (sp : Z) (u : t) (st : state) : outcome (Z * state) :=
  r ← save_maps (process_memory T) (frames_ u) ∅ last_sp st;
  match r with
  | (None, st) => Ok (1, st)
  | (Some (maps_by_start, last_sp), st) =>
      let st := fold_left (fun st f => printf (FormatFrame f (Is32Bit T (regs_ u)) ++ [10]) st) (frames_ u) st in
      r ← SaveStack (process_memory T) sp last_sp st;
      let '(saved, st) := r in
      if saved : bool then Ok (save_maps_txt (snd <$> sorted_maps maps_by_start) st) else Ok (1, st)
  end.

Definition SaveData (fuel : nat) (st : state) : outcome (Z * state) :=
  match RemoteGet T with
  | None => Ok (1, printf (str "Unable to get remote reg data." ++ [10]) st)
  | Some regs =>
      match remote_maps T with
      | None => Ok (1, printf (str "Unable to parse maps." ++ [10]) st)
      | Some maps =>
          let '(saved, st) := SaveRegs (IterateRegisters T regs) st in
          if negb saved then Ok (1, st)
          else
            u ← Unwind 1024 true fuel None None (StackUnwinder.mk regs [] (mkError ERROR_NONE 0) maps);
            save_frames (l_sp regs) u st
      end
  end.
End WithTarget.

Definition main {L : Stepping} (targets : Z -> Target) (last_sp : Z) (P : Ptrace) (fuel : nat) (argv : list (list Z)) (st : state)
    : outcome (Z * state) :=
  match argv with
  | [_; arg] =>
      let pid := atoi arg in
      let '(ok, st) := Attach P pid st in
      if negb ok then Ok (1, printf (str "Failed to attach to pid " ++ dec pid ++ str ": " ++ strerror P ++ [10]) st)
      else
        r ← SaveData (targets pid) last_sp fuel st;
        let '(return_code, st) := r in
        Ok (return_code, mk (files st) (out st) false)
  | _ => Ok (1, printf (str "Usage: unwind_for_offline <PID>" ++ [10]) st)
  end.
End Tool.
End OfflineTool.

(** ** Files *)

Module OfflineFacts.
Import StackUnwinder OfflineTool.

Lemma set_content_same p d st : content p (set_content p d st) = d.
Proof. unfold content, set_content. cbn. by rewrite lookup_insert_eq. Qed.

Lemma set_content_other p q d st : p <> q -> content q (set_content p d st) = content q st.
Proof. intros H. unfold content, set_content. cbn. by rewrite lookup_insert_ne. Qed.

Section Facts.
Context {A : Arch}.
Variable cwd : list Z.
Variable room : list Z -> Room.

Lemma fwrite_all p d st :
  room p = Unlimited -> fwrite room p d st = (blen d, set_content p (content p st ++ d) st).
Proof. intros H. unfold fwrite. rewrite H, take_ge; [done|]. unfold blen. lia. Qed.

Lemma fopen_w_all n st :
  n <> [] -> room (path cwd n) = Unlimited -> fopen_w cwd room n st = Some (path cwd n, set_content (path cwd n) [] st).
Proof. intros Hn H. unfold fopen_w. by rewrite bool_decide_eq_false_2, H by done. Qed.

Lemma copy_loop_spec fuel fp pos output st :
  fp <> output -> room output = Unlimited -> (pos <= length (content fp st) < pos + fuel)%nat ->
  exists st', copy_loop room fuel fp pos output st = Ok (true, st') /\
    content output st' = content output st ++ drop pos (content fp st) /\
    forall p, p <> output -> content p st' = content p st.
Proof.
  intros Hne Hr. revert pos st. induction fuel as [|fuel IH]; intros pos st Hf; [lia|]. cbn [copy_loop].
  remember (drop pos (content fp st)) as rest eqn:ER. destruct rest as [|c rest].
  { exists st. split; [done|]. by rewrite app_nil_r. }
  rewrite ER, fwrite_all by done. rewrite Z.eqb_refl. cbn [negb].
  set (d := take 10000 (drop pos (content fp st))).
  assert (d = c :: take 9999 rest) as Hd by (unfold d; by rewrite <- ER).
  destruct (Z.eqb_spec (blen d) 0) as [E|_]; [rewrite Hd, blen_cons in E; pose proof (blen_nonneg (take 9999 rest)); lia|].
  set (st1 := set_content _ _ _).
  assert (content fp st1 = content fp st) as Hfp by (by apply set_content_other).
  assert (0 < length d)%nat by (rewrite Hd; cbn; lia).
  assert (pos + length d <= length (content fp st))%nat
    by (unfold d; rewrite length_take, length_drop; lia).
  destruct (IH (pos + length d)%nat st1) as (st' & -> & H1 & H2); [rewrite Hfp; lia|].
  exists st'. split; [done|]. split.
  - rewrite H1, Hfp. unfold st1. rewrite set_content_same, <- app_assoc. f_equal.
    rewrite <- (take_drop 10000 (drop pos (content fp st))). fold d. f_equal. rewrite drop_drop.
    unfold d. rewrite length_take, length_drop. destruct (Nat.le_gt_cases 10000 (length (content fp st) - pos)).
    + f_equal. lia.
    + rewrite !drop_ge by lia. done.
  - intros p Hp. rewrite H2 by done. unfold st1. by rewrite set_content_other by done.
Qed.

(** A file is copied, unless the copy is the file itself: then it is emptied. *)
Lemma copy_elf_spec info st d :
  name info <> [] -> basename (name info) <> [] -> files st !! path cwd (name info) = Some d ->
  room (path cwd (basename (name info))) = Unlimited ->
  exists st', CopyElfFromFile cwd room info st = Ok (true, set_name (basename (name info)) info, st') /\
    content (path cwd (basename (name info))) st' =
      (if bool_decide (path cwd (name info) = path cwd (basename (name info))) then [] else d) /\
    forall p, p <> path cwd (basename (name info)) -> content p st' = content p st.
Proof.
  intros Hn Hb Hd Hr. unfold CopyElfFromFile, fopen_r. rewrite bool_decide_eq_false_2, Hd by done. cbn [option_map].
  rewrite fopen_w_all by done. set (to := path cwd (basename (name info))) in *. set (fp := path cwd (name info)) in *.
  set (st0 := set_content to [] st). destruct (decide (fp = to)) as [E|E].
  - rewrite (bool_decide_eq_true_2 _ E). assert (content fp st0 = []) as H0 by (unfold st0; rewrite E; apply set_content_same).
    rewrite H0. cbn [length copy_loop]. rewrite H0. cbn [drop take]. change (blen [] =? 0) with true.
    exists st0. split; [done|]. split; [by unfold st0; rewrite set_content_same|].
    intros p Hp. unfold st0. by rewrite set_content_other by done.
  - rewrite (bool_decide_eq_false_2 _ E). destruct (copy_loop_spec (S (length (content fp st0))) fp 0 to st0) as (st' & -> & H1 & H2);
      [done|done|lia|]. rewrite bind_Ok. exists st'. split; [done|]. split.
    + rewrite H1. unfold st0. rewrite set_content_same, set_content_other by done. cbn [app drop]. unfold content. by rewrite Hd.
    + intros p Hp. rewrite H2 by done. unfold st0. by rewrite set_content_other by done.
Qed.

(** ** The maps *)

(** A name that maps.txt can hold. *)
Definition name_ok (n : list Z) : Prop := n <> [] /\ 10 ∉ n /\ isspace (hd0 n) = false.

Definition info_ok (i : map_info_t) : Prop :=
  in_u 64 (start i) /\ in_u 64 (end_ i) /\ in_u 64 (offset i) /\ name_ok (name i).

(** A frame whose map can be saved, from memory at least. *)
Record saveable (memory : Memory) (g : FrameData) : Prop := {
  s_start : in_u 64 (map_start g);
  s_end : in_u 64 (map_end g);
  s_offset : in_u 64 (map_offset g);
  s_size : map_start g < map_end g < map_start g + 2 ^ (size_bits - 1);
  s_memory : memory (map_start g) (map_end g - map_start g) <> [];
  s_newline : 10 ∉ map_name g;
  s_space : isspace (hd0 (basename (map_name g))) = false
}.

(** The entry of a frame's map: the name is that of the copy. *)
Definition entry_of (g : FrameData) (i : map_info_t) : Prop :=
  start i = map_start g /\ end_ i = map_end g /\ offset i = map_offset g /\
  (name i = basename (map_name g) \/ name i = memory_name (info_of g)).

Lemma basename_incl s best c : c ∈ basename_from s best -> c ∈ s \/ c ∈ best.
Proof.
  revert best. induction s as [|x s IH]; intros best Hc; [by right|]. cbn [basename_from] in Hc.
  apply IH in Hc. destruct (x =? 47), Hc; set_solver.
Qed.

Lemma basename_newline s : 10 ∉ s -> 10 ∉ basename s.
Proof. intros H Hc. apply basename_incl in Hc. tauto. Qed.

Lemma digits_newline ds : digits 16 ds -> 10 ∉ ds.
Proof. intros [_ Hd] H. rewrite Forall_forall in Hd. by specialize (Hd 10 H). Qed.

Lemma hex_digits_ok z : in_u 64 z -> digits 16 (hex z).
Proof. intros H. apply (hex0_spec 0 z H). Qed.

Lemma szw_size a b : a < b < a + 2 ^ (size_bits - 1) -> szw (b - a) = b - a /\ b - a < 2 ^ (size_bits - 1).
Proof.
  intros H. pose proof szc_cases as HS. assert (0 < size_bits) by (unfold size_bits; lia).
  assert (2 ^ (size_bits - 1) < 2 ^ size_bits) by (apply Z.pow_lt_mono_r; lia).
  split; [|lia]. apply szw_small. split; lia.
Qed.

Lemma memory_name_ok g memory : saveable memory g -> name_ok (memory_name (info_of g)).
Proof.
  intros H. unfold memory_name. cbn [info_of name start].
  pose proof (digits_newline _ (hex_digits_ok _ (s_start _ _ H))) as Hx. destruct (bool_decide_reflect (map_name g = [])).
  - split_and!; [done| |done]. rewrite !not_elem_of_app. split_and!; [|vm_compute; set_solver|done].
    refine (bool_decide_unpack (10 ∉ str "anonymous") _). vm_compute. exact I.
  - pose proof (s_space _ _ H) as Hs. pose proof (basename_newline _ (s_newline _ _ H)) as Hn.
    split_and!; [by destruct (basename (map_name g))| |by destruct (basename (map_name g))].
    rewrite !not_elem_of_app. split_and!; [done|vm_compute; set_solver|done].
Qed.

Hypothesis Hroom : forall p, room p = Unlimited.

Lemma save_map_ok memory g st :
  saveable memory g -> exists i st', save_map cwd room memory (info_of g) st = Ok (true, i, st') /\ entry_of g i /\ info_ok i.
Proof.
  intros H. unfold save_map.
  assert ((exists st', CopyElfFromFile cwd room (info_of g) st = Ok (true, set_name (basename (map_name g)) (info_of g), st') /\
            name_ok (basename (map_name g))) \/
          exists st', CopyElfFromFile cwd room (info_of g) st = Ok (false, info_of g, st')) as [(st' & -> & Hn)|(st' & ->)].
  { destruct (fopen_r cwd (map_name g) st) as [p|] eqn:EF; [|right; unfold CopyElfFromFile; cbn [info_of name]; rewrite EF; by eexists].
    unfold fopen_r in EF. destruct (bool_decide_reflect (map_name g = [])); [done|].
    destruct (files st !! path cwd (map_name g)) as [d|] eqn:ED; [|done].
    destruct (decide (basename (map_name g) = [])) as [E|E].
    - right. unfold CopyElfFromFile, fopen_r. cbn [info_of name]. rewrite bool_decide_eq_false_2, ED by done.
      cbn [option_map]. unfold fopen_w. rewrite E. by eexists.
    - left. destruct (copy_elf_spec (info_of g) st d) as (st' & H1 & _); [done..|]. exists st'. split; [done|].
      split_and!; [done|apply basename_newline, H|apply H]. }
  - rewrite bind_Ok. do 2 eexists. split; [done|]. split; [split_and!; try done; by left|]. split_and!; try apply H; apply Hn.
  - rewrite bind_Ok. unfold CreateElfFromMemory. pose proof (memory_name_ok g memory H) as Hn. rewrite fopen_w_all by (apply Hn || done).
    cbn [info_of start end_]. destruct (szw_size _ _ (s_size _ _ H)) as [-> Hs]. unfold vector_ok.
    destruct (Z.ltb_spec (map_end g - map_start g) (2 ^ (size_bits - 1))); [|lia]. rewrite bind_Ok.
    pose proof (s_memory _ _ H) as Hm. destruct (memory _ _) as [|c d] eqn:EM; [done|]. rewrite <- EM.
    destruct (Z.eqb_spec (blen (memory (map_start g) (map_end g - map_start g))) 0) as [E|_];
      [rewrite EM, blen_cons in E; pose proof (blen_nonneg d); lia|].
    rewrite fwrite_all, Z.eqb_refl by done. cbn [negb]. do 2 eexists. split; [done|].
    split; [split_and!; try done; by right|]. split_and!; try apply H; apply Hn.
Qed.

(** What has been saved: for every entry there is a frame, and for every frame an entry. *)
Definition saved (fs : list FrameData) (m : gmap Z map_info_t) : Prop :=
  (forall s i, m !! s = Some i -> start i = s /\ info_ok i /\ exists g, g ∈ fs /\ entry_of g i) /\
  forall g, g ∈ fs -> is_Some (m !! map_start g).

Lemma save_maps_ok memory fs : forall seen m lsp st,
  Forall (saveable memory) fs -> saved seen m ->
  exists m' st', save_maps cwd room memory fs m lsp st = Ok (Some (m', from_option UwUnwinder.sp lsp (last fs)), st') /\
    saved (seen ++ fs) m'.
Proof.
  induction fs as [|g fs IH]; intros seen m lsp st Hf Hm; cbn [save_maps]; [exists m, st; by rewrite app_nil_r|].
  apply Forall_cons in Hf as [Hg Hf]. destruct Hm as [Hm1 Hm2].
  assert (forall m st, saved (seen ++ [g]) m ->
    exists m' st', save_maps cwd room memory fs m (UwUnwinder.sp g) st = Ok (Some (m', from_option UwUnwinder.sp lsp (last (g :: fs))), st') /\
      saved (seen ++ g :: fs) m') as Next.
  { intros m0 st0 H0. destruct (IH (seen ++ [g]) m0 (UwUnwinder.sp g) st0 Hf H0) as (m' & st' & H1 & H2).
    rewrite <- app_assoc in H2. exists m', st'. split; [|done]. rewrite H1. by destruct fs as [|g' fs]; [|rewrite last_cons_cons; destruct (last (g' :: fs)) eqn:E; [|apply last_None in E]]. }
  destruct (m !! map_start g) as [i|] eqn:E.
  - apply Next. split.
    + intros s j Hj. destruct (Hm1 s j Hj) as (H1 & H2 & g' & H3 & H4). split_and!; [done|apply H2..|]. exists g'. set_solver.
    + intros g' [H'|H']%elem_of_app; [by apply Hm2|]. apply list_elem_of_singleton in H' as ->. by rewrite E.
  - destruct (save_map_ok memory g st Hg) as (i & st' & -> & He & Hi). rewrite bind_Ok. apply Next. split.
    + intros s j Hj. apply lookup_insert_Some in Hj as [[<- <-]|[_ Hj]].
      * split_and!; [apply He|apply Hi..|]. exists g. set_solver.
      * destruct (Hm1 s j Hj) as (H1 & H2 & g' & H3 & H4). split_and!; [done|apply H2..|]. exists g'. set_solver.
    + intros g' [H'|H']%elem_of_app; [rewrite lookup_insert_is_Some'; right; by apply Hm2|].
      apply list_elem_of_singleton in H' as ->. by rewrite lookup_insert_eq.
Qed.

Lemma sorted_maps_perm (m : gmap Z map_info_t) : sorted_maps m ≡ₚ map_to_list m.
Proof. apply merge_sort_Permutation. Qed.

#[local] Instance by_first_total : Total by_first.
Proof. intros a b. unfold by_first. lia. Qed.
#[local] Instance by_first_trans : Transitive by_first.
Proof. intros a b c. unfold by_first. lia. Qed.

(** The entries in the order of their starts, each start once. *)
Lemma sorted_maps_spec fs (m : gmap Z map_info_t) :
  saved fs m ->
  let infos := snd <$> sorted_maps m in
  StronglySorted (fun a b => start a < start b) infos /\ Forall info_ok infos /\
  (forall i, i ∈ infos -> exists g, g ∈ fs /\ entry_of g i) /\
  (forall g, g ∈ fs -> exists i, i ∈ infos /\ start i = map_start g).
Proof.
  intros [H1 H2] infos.
  assert (forall s i, (s, i) ∈ sorted_maps m <-> m !! s = Some i) as Hin
    by (intros s i; by rewrite sorted_maps_perm, elem_of_map_to_list).
  assert (forall i, i ∈ infos -> m !! start i = Some i) as Hi.
  { intros i [[s j] [-> Hj]]%list_elem_of_fmap. apply Hin in Hj. by destruct (H1 s j Hj) as (<- & _). }
  assert (NoDup (sorted_maps m).*1) as Hnd by (rewrite sorted_maps_perm; apply NoDup_fst_map_to_list).
  split_and!.
  - assert (forall p, p ∈ sorted_maps m -> start p.2 = p.1) as Hk by (intros [s i] Hp%Hin; by apply H1).
    pose proof (StronglySorted_merge_sort by_first (map_to_list m)) as Hs. fold (sorted_maps m) in Hs. unfold infos.
    clear -Hs Hnd Hk. induction Hs as [|[s i] l Hs IH Hle]; [constructor|].
    cbn [fmap list_fmap fst] in Hnd. apply NoDup_cons in Hnd as [Hn Hnd]. constructor.
    + apply IH; [done|]. intros p Hp. apply Hk. by right.
    + apply Forall_fmap, Forall_forall. intros [s' i'] Hp.
      pose proof (Hk (s, i) ltac:(by left)). pose proof (Hk (s', i') ltac:(by right)).
      rewrite Forall_forall in Hle. specialize (Hle _ Hp). unfold by_first in Hle. cbn in *.
      assert (s <> s') by (intros ->; apply Hn, list_elem_of_fmap; by exists (s', i')). lia.
  - apply Forall_forall. intros i Hp. by destruct (H1 _ _ (Hi i Hp)) as (_ & ? & _).
  - intros i Hp. by destruct (H1 _ _ (Hi i Hp)) as (_ & _ & ?).
  - intros g Hg. destruct (H2 g Hg) as [i Hm]. exists i. split; [|by apply H1].
    apply list_elem_of_fmap. exists (map_start g, i). split; [done|]. by apply Hin.
Qed.

(** ** The lines of maps.txt *)

(** The map a line describes. *)
Definition read_back (i : map_info_t) : UwMaps.MapInfo :=
  new_MapInfo (start i) (end_ i) (offset i)
    (Z.lor (protection true false true) (if is_device (name i) then MAPS_FLAGS_DEVICE_MAP else 0)) (name i).

Lemma map_line_text i : info_ok i -> text_line (map_line i) (read_back i).
Proof.
  intros (Hs & He & Ho & Hn & Hnl & Hsp). split.
  - pose proof (digits_newline _ (hex_digits_ok _ Hs)). pose proof (digits_newline _ (hex_digits_ok _ He)).
    pose proof (digits_newline _ (hex_digits_ok _ Ho)).
    unfold map_line. rewrite bool_decide_eq_false_2 by done. rewrite !not_elem_of_app. split_and!; try done.
    all: match goal with |- ?c ∉ str ?t => refine (bool_decide_unpack (c ∉ str t) _); vm_compute; exact I end.
  - unfold map_line. rewrite bool_decide_eq_false_2 by done.
    apply (parse_fields (hex (start i)) (start i) (hex (end_ i)) (end_ i) (hex (offset i)) (offset i) [48; 48] 0 [48; 48] 0
      true false true false [48] [32; 32; 32] (name i)); try done; try by apply (hex0_numeral 0).
    1-2: split; [split; [done|by repeat constructor]|done|lia].
    + split; [done|by repeat constructor].
    + by repeat constructor.
Qed.

Lemma write_lines p ls : forall st,
  content p (fold_left (fun st i => fprintf room p (map_line i ++ [10]) st) ls st) = content p st ++ flat (map_line <$> ls) /\
  forall q, q <> p -> content q (fold_left (fun st i => fprintf room p (map_line i ++ [10]) st) ls st) = content q st.
Proof.
  induction ls as [|i ls IH]; intros st; cbn [fold_left]; [split; [by rewrite app_nil_r|done]|].
  destruct (IH (fprintf room p (map_line i ++ [10]) st)) as [H1 H2]. unfold fprintf in *. rewrite fwrite_all in * by done. cbn [snd] in *.
  split.
  - rewrite H1, set_content_same, <- app_assoc. done.
  - intros q Hq. rewrite H2, set_content_other by done. done.
Qed.

(** ** The stack *)

Lemma save_stack_ok memory a data st :
  data <> [] -> memory a (blen data) = data -> blen data < 2 ^ (size_bits - 1) ->
  exists st', SaveStack cwd room memory a (a + blen data) st = Ok (true, st') /\
    content (path cwd (str "stack.data")) st' = le_bytes 8 a ++ data.
Proof.
  intros Hd Hm Hs. assert (0 < blen data) by (destruct data; [done|]; rewrite blen_cons; pose proof (blen_nonneg data); lia).
  unfold SaveStack. rewrite fopen_w_all by done. rewrite fwrite_all, blen_le_bytes by done.
  change (Z.of_nat 8 =? 8) with true. cbn [negb]. destruct (szw_size a (a + blen data)) as [-> _]; [lia|].
  replace (a + blen data - a) with (blen data) by lia. unfold vector_ok.
  destruct (Z.ltb_spec (blen data) (2 ^ (size_bits - 1))); [|lia]. rewrite bind_Ok, Hm.
  destruct (Z.eqb_spec (blen data) 0); [lia|]. rewrite Z.sub_diag. change (zeros 0) with (@nil Z). rewrite app_nil_r.
  rewrite fwrite_all, Z.eqb_refl by done. cbn [negb]. eexists. split; [done|]. by rewrite !set_content_same.
Qed.

Lemma print_frames_content p b fs : forall st,
  content p (fold_left (fun st f => printf (FormatFrame f b ++ [10]) st) fs st) = content p st.
Proof. induction fs as [|f fs IH]; intros st; cbn [fold_left]; [done|]. by rewrite IH. Qed.

Lemma path_ne a b : hd0 a <> 47 -> hd0 b <> 47 -> a <> b -> path cwd a <> path cwd b.
Proof.
  intros Ha Hb Hne. unfold path. destruct (Z.eqb_spec (hd0 a) 47), (Z.eqb_spec (hd0 b) 47); try done.
  intros H%app_inv_head. by injection H.
Qed.

Lemma save_frames_ok {L : Stepping} (T : Target) lsp a u g data st :
  Forall (saveable (process_memory T)) (frames_ u) -> last (frames_ u) = Some g ->
  data <> [] -> process_memory T a (blen data) = data -> blen data < 2 ^ (size_bits - 1) -> UwUnwinder.sp g = a + blen data ->
  exists m st', save_frames cwd room T lsp a u st = Ok (0, st') /\ saved (frames_ u) m /\
    content (path cwd (str "maps.txt")) st' = flat (map_line <$> (snd <$> sorted_maps m)) /\
    content (path cwd (str "stack.data")) st' = le_bytes 8 a ++ data.
Proof.
  intros Hf Hg Hd Hm Hs Hsp. unfold save_frames.
  destruct (save_maps_ok (process_memory T) (frames_ u) [] ∅ lsp st Hf) as (m & st1 & -> & Hsaved).
  { split; [|set_solver]. intros s i. by rewrite lookup_empty. }
  rewrite bind_Ok, Hg. cbn [from_option]. rewrite Hsp.
  destruct (save_stack_ok (process_memory T) a data
    (fold_left (fun st f => printf (FormatFrame f (Is32Bit T (regs_ u)) ++ [10]) st) (frames_ u) st1) Hd Hm Hs) as (st2 & -> & H2).
  rewrite bind_Ok. unfold save_maps_txt. rewrite fopen_w_all by done.
  set (st3 := set_content (path cwd (str "maps.txt")) [] st2).
  destruct (write_lines (path cwd (str "maps.txt")) (snd <$> sorted_maps m) st3) as [H3 H4].
  exists m. eexists. split; [done|]. split_and!; [apply Hsaved..| |].
  - rewrite H3. unfold st3. by rewrite set_content_same.
  - assert (path cwd (str "stack.data") <> path cwd (str "maps.txt")) by (by apply path_ne).
    rewrite H4 by done. unfold st3. by rewrite set_content_other by done.
Qed.
End Facts.

End OfflineFacts.

(** ** Witness and concrete runs *)

Module OfflineExamples.
Import StackUnwinder OfflineTool OfflineFacts UnwinderExamples.

(** Two steps, and the end. *)
Definition steps (r : Z * Z) : option bool * (Z * Z) := if r.1 =? 48 then (Some true, r) else (Some false, (r.1 + 16, r.2 + 8)).
#[local] Instance toy_L : Stepping := toy 0 steps.
Definition image (a n : Z) : list Z := (fun x => x mod 251) <$> seqZ a n.
Definition target (regs : Z * Z) : Target (L := toy_L) := mkTarget toy_L (Some regs) (Some tt) image (fun r => [(str "pc", r.1); (str "sp", r.2)]) (fun _ => false).
Definition roomy (p : list Z) : Room := Unlimited.
Definition cwd : list Z := str "/data/out".
Definition disk : state := mk {[ str "/lib/a.so" := str "ELF" ]} [] false.

Definition unwound : t := match Unwind 1024 true 1024 None None (StackUnwinder.mk (16, 0) [] (mkError ERROR_NONE 0) tt) with Ok u => u | Fault _ => begin 0 steps end.


(** The files of that run. *)
Definition file_of (n : string) (r : outcome (Z * state)) : option (list Z) :=
  match r with Ok (_, st) => files st !! path cwd (str n) | Fault _ => None end.

Example files_written :
  let r := main (A := LP64) cwd roomy (fun _ => target (16, 0)) 0 (mkPtrace (fun _ => true) (fun _ i => Nat.leb 3 i) []) 1024 [str "tool"; str "77"] disk in
  file_of "regs.txt" r = Some (str "pc: 10" ++ [10] ++ str "sp: 0" ++ [10]) /\
  file_of "maps.txt" r = Some (str "0-1000 r-xp 0 00:00 0   a.so" ++ [10]) /\
  file_of "stack.data" r = Some (zeros 8 ++ image 0 16) /\
  file_of "a.so" r = Some (str "ELF").
Proof. split_and!; vm_compute; reflexivity. Qed.

(** One frame: the stack to save is empty, which is taken for a failed read, and nothing is saved. *)
Example one_frame_fails :
  (r ← SaveData (A := LP64) cwd roomy (target (48, 0)) 0 1024 disk; Ok (r.1, out r.2)) =
    Ok (1, str "  #00 pc 0000000000000030  /lib/a.so" ++ [10] ++ str "Unable to read stack data." ++ [10]).
Proof. vm_compute. reflexivity. Qed.

(** A stack that can only be read in part is filled up with zeros; one that cannot be written counts
    as saved. *)
Example stack_not_saved :
  (r ← SaveStack (A := LP64) cwd roomy (fun _ _ => [1; 2]) 64 69 disk; Ok (r.1, content (path cwd (str "stack.data")) r.2)) =
    Ok (true, le_bytes 8 64 ++ [1; 2; 0; 0; 0]) /\
  (r ← SaveStack (A := LP64) cwd (fun _ => UpTo 9) (fun _ _ => [1; 2]) 64 66 disk; Ok (r.1, content (path cwd (str "stack.data")) r.2)) =
    Ok (true, le_bytes 8 64 ++ [1]).
Proof. split; vm_compute; reflexivity. Qed.

(** Without maps.txt the exit code is that of success. *)
Example no_maps_txt :
  (r ← SaveData (A := LP64) cwd (fun p => if bool_decide (p = str "/data/out/maps.txt") then NoFile else Unlimited) (target (16, 0)) 0 1024 disk; Ok r.1) = Ok 0.
Proof. vm_compute. reflexivity. Qed.

(** Run where the object is, the tool empties it. *)
Example copy_onto_itself :
  (r ← SaveData (A := LP64) (str "/lib") roomy (target (16, 0)) 0 1024 disk; Ok (r.1, content (str "/lib/a.so") r.2)) = Ok (0, []).
Proof. vm_compute. reflexivity. Qed.

(** A frame without a map cannot be saved, nor then anything else. *)
Example frame_without_map :
  (r ← save_maps (A := LP64) cwd roomy image [mkFrame 0 0 0 0 [] 0 [] 0 0 0 0 0] ∅ 0 disk; Ok (bool_decide (is_Some r.1))) = Ok false.
Proof. vm_compute. reflexivity. Qed.
End OfflineExamples.
