(* ===== verification/UwTools.v ===== *)
(** * libunwindstack: the other tools

    Models tools/unwind.cpp (the backtrace of a process), tools/unwind_reg_info.cpp (the rules for the
    registers at a pc of a file), tools/unwind_info.cpp (the unwind information of a file) and
    tools/unwind_symbols.cpp (the functions of a file).  A tool gives its exit code and its standard
    output.

    The tools use members of [Elf] and [ElfInterface] through accessors the headers of the repository
    do not declare ([class_type], [machine_type], [pt_loads], [gnu_debugdata_interface]); they stand
    for the members.  [Elf::GetSoname], which is not in the repository, is a parameter, and so is the
    order in which an unordered map is iterated.  The members [debug_frame_] and
    [gnu_debugdata_interface_] are null: nothing assigns them. *)

From S2P Require Import Prelude HawkPrivate HawkDumper UwDwarfMemory UwMemory UwMaps UwSymbols UwDwarfOp UwDwarfCfa UwDwarfEval.
From S2P Require Import UwDwarfSection UwDwarfLog UwDwarfFormat UwEhFrameHdr UwArmExidx UwArmLog UwRegs UwElfInterface UwElfArm UwElf UwBacktrace UwUnwinder UwOffline.

Definition line (s : string) : list Z := str s ++ [10].

(** ** tools/unwind.cpp *)

Module UnwindTool.
Import StackUnwinder OfflineTool.

Definition abi_name (a : ArchEnum) : option string :=
  match a with
  | ARCH_ARM => Some "arm"%string
  | ARCH_X86 => Some "x86"%string
  | ARCH_ARM64 => Some "arm64"%string
  | ARCH_X86_64 => Some "x86_64"%string
  | ARCH_UNKNOWN => None
  end.

Section WithTarget.
Context {L : Stepping}.
Variable T : Target.
Variable Arch_ : lregs -> ArchEnum.

(** [DoUnwind(pid)]: what it prints. *)
Definition DoUnwind (fuel : nat) : outcome (list Z) :=
  match remote_maps T with
  | None => Ok (line "Failed to parse map data.")
  | Some maps =>
      match RemoteGet T with
      | None => Ok (line "Unable to get remote reg data")
      | Some regs =>
          match abi_name (Arch_ regs) with
          | None => Ok (str "ABI: " ++ line "unknown")
          | Some abi =>
              u ← Unwind 128 true fuel None None (StackUnwinder.mk regs [] (mkError ERROR_NONE 0) maps);
              Ok (str "ABI: " ++ line abi ++ concat ((fun f => FormatFrame f (Is32Bit T (regs_ u)) ++ [10]) <$> frames_ u))
          end
      end
  end.
End WithTarget.

(** [Attach] is the function of the same name of unwind_for_offline.cpp. *)
Definition main {A : Arch} {L : Stepping} (targets : Z -> Target) (Arch_ : lregs -> ArchEnum) (P : Ptrace) (fuel : nat) (argv : list (list Z)) (st : state)
    : outcome (Z * state) :=
  match argv with
  | [_; arg] =>
      let pid := atoi arg in
      let '(ok, st) := Attach P pid st in
      if negb ok then Ok (1, printf (str "Failed to attach to pid " ++ dec pid ++ str ": " ++ strerror P ++ [10]) st)
      else
        text ← DoUnwind (targets pid) Arch_ fuel;
        let st := printf text st in
        Ok (0, OfflineTool.mk (files st) (out st) false)
  | _ => Ok (1, printf (line "Usage: unwind <PID>") st)
  end.
End UnwindTool.

(** ** tools/unwind_reg_info.cpp *)

Module RegInfo.

(** [PrintSignedValue]; the negation of the least value overflows. *)
Definition PrintSignedValue (value : Z) : outcome (list Z) :=
  if value <? 0 then if value =? - 2 ^ 63 then Fault SignedOverflow else Ok (str "- " ++ dec (- value))
  else if 0 <? value then Ok (str "+ " ++ dec value)
  else Ok [].

Section Tool.
Context {A : Arch}.
Variable fuel : nat.

Definition PrintExpression (memory : Memory) (class_type e length : Z) : outcome (list Z) :=
  r ← DwarfLog.GetLogInfo (AT := if class_type =? ELFCLASS32 then Addr32 else Addr64) fuel (u64 (e - length)) e (DwarfMemory.new memory);
  Ok (concat ((fun l => str "    " ++ l ++ [10]) <$> r.1)).

(** The comparison given to [std::sort]. *)
Definition before (a b : Z * DwarfLocation) : bool :=
  if a.1 =? CFA_REG then true else if b.1 =? CFA_REG then false else a.1 <? b.1.

(** The order it means: the CFA, then the registers. *)
Definition reg_order (a b : Z * DwarfLocation) : Prop := a.1 = CFA_REG \/ (b.1 <> CFA_REG /\ a.1 <= b.1).
#[global] Instance reg_order_dec : RelDecision reg_order.
Proof. intros a b. unfold reg_order. apply _. Defined.

Definition print_location (memory : Memory) (class_type : Z) (entry : Z * DwarfLocation) : outcome (list Z) :=
  let loc := entry.2 in
  let s64 := swrap 64 in
  let head := if entry.1 =? CFA_REG then str "  cfa = " else str "  r" ++ dec (swrap 32 entry.1) ++ str " = " in
  rest ← match loc_type loc with
         | DWARF_LOCATION_OFFSET => v ← PrintSignedValue (s64 (value0 loc)); Ok (str "[cfa " ++ v ++ line "]")
         | DWARF_LOCATION_VAL_OFFSET => v ← PrintSignedValue (s64 (value0 loc)); Ok (str "cfa " ++ v ++ [10])
         | DWARF_LOCATION_REGISTER =>
             v ← PrintSignedValue (s64 (value1 loc)); Ok (str "r" ++ dec (s64 (value0 loc)) ++ str " " ++ v ++ [10])
         | DWARF_LOCATION_EXPRESSION =>
             e ← PrintExpression memory class_type (value1 loc) (value0 loc); Ok (line "EXPRESSION" ++ e)
         | DWARF_LOCATION_VAL_EXPRESSION =>
             e ← PrintExpression memory class_type (value1 loc) (value0 loc); Ok (line "VAL EXPRESSION" ++ e)
         | DWARF_LOCATION_UNDEFINED => Ok (line "undefine")
         | DWARF_LOCATION_INVALID => Ok (line "INVALID")
         end;
  Ok (head ++ rest).

Fixpoint print_all (memory : Memory) (class_type : Z) (entries : list (Z * DwarfLocation)) : outcome (list Z) :=
  match entries with
  | [] => Ok []
  | x :: entries => a ← print_location memory class_type x; b ← print_all memory class_type entries; Ok (a ++ b)
  end.

Definition sorted_rules (regs : gmap Z DwarfLocation) : list (Z * DwarfLocation) := merge_sort reg_order (map_to_list regs).

(** [section->GetFdeFromPc(pc)], which is virtual. *)
Definition fde_from_pc {AT : AddressType} (e : Section_) (pc : Z) : DwarfSectionImpl.op DwarfFde :=
  DwarfSectionImpl.GetFdeFromPc fuel
    (if with_hdr e then EhFrameHdr.GetFdeOffsetFromPc fuel else DwarfSectionImpl.GetFdeOffsetFromPc) pc.

Definition PrintRegInformation {AT : AddressType} (e : Section_) (memory : Memory) (pc class_type : Z) : outcome (list Z * Section_) :=
  r ← fde_from_pc e pc (section e);
  match r with
  | (None, s) => Ok (line "  No fde found.", mkSection (with_hdr e) s)
  | (Some fde, s) =>
      r ← DwarfSectionImpl.GetCfaLocationInfo fuel pc fde s;
      match r with
      | (None, s) => Ok (line "  Cannot get location information.", mkSection (with_hdr e) s)
      | (Some locs, s) =>
          text ← print_all memory class_type (sorted_rules (rules locs));
          Ok (text, mkSection (with_hdr e) s)
      end
  end.

Variable junk : Junk.
Variable GetSoname : Elf.t -> option (list Z).

Definition print_soname (e : Elf.t) (more : list Z) : list Z :=
  match GetSoname e with None => [] | Some n => str "Soname: " ++ n ++ [10] ++ more end.

(** The file mapped from [offset] on, read and checked; [inl] is what is printed when it is not valid. *)
Definition open_elf (page_size : Z) (mmap_ok : bool) (content : option (list Z)) (file : list Z) (offset : Z) : outcome (list Z + Elf.t * Memory) :=
  match MemoryFileAtOffset.Init page_size mmap_ok content offset (2 ^ 64 - 1) MemoryFileAtOffset.new with
  | (false, _) => Ok (inl (line "Failed to init"))
  | (true, f) =>
      let memory := MemoryFileAtOffset.memory f in
      r ← Elf.Init fuel junk (Elf.new (Some memory));
      let '(ok, e) := r in
      if negb ok || negb (Elf.valid_ e) then Ok (inl (file ++ line " is not a valid elf file."))
      else Ok (inr (e, memory))
  end.

(** [GetInfo(file, pc)]: the exit code and the output. *)
Definition GetInfo (page_size : Z) (mmap_ok : bool) (content : option (list Z)) (file : list Z) (pc : Z) : outcome (Z * list Z) :=
  r ← open_elf page_size mmap_ok content file 0;
  match r with
  | inl text => Ok (1, text)
  | inr (e, memory) =>
      let load_bias := Elf.load_bias_ e in
      if pc <? load_bias then Ok (1, line "PC is less than load bias.")
      else
        let head := print_soname e [10] ++ str "PC 0x" ++ hex pc ++ line ":" in
        let class_type := default 0 (Elf.class_type_ e) in
        i ← of_option NullDeref (Elf.interface_ e);
        text ← match ElfInterface.eh_frame_ (Elf.object i) with
               | None => Ok ([10] ++ line "no eh_frame information")
               | Some s =>
                   r ← PrintRegInformation (AT := @et_address (Elf.types_of (Elf.kind i))) s memory (u64 (pc - load_bias)) class_type;
                   Ok ([10] ++ line "eh_frame:" ++ r.1)
               end;
        Ok (0, head ++ text ++ [10] ++ line "no debug_frame information" ++ [10] ++ line "no valid gnu_debugdata information")
  end.

(** The arguments the tools share: [stat], whether the file is regular, and a hexadecimal number. *)
Record Stat : Type := mkStat { stat_ok : bool; is_regular : bool; strerror : list Z }.

Definition hex_argument (arg : list Z) : option Z :=
  match strtoull 16 arg with
  | None => if bool_decide (arg = []) then Some 0 else None
  | Some (v, rest) => if bool_decide (rest = []) then Some v else None
  end.

Definition usage : list Z :=
  line "Usage: unwind_reg_info ELF_FILE PC" ++ line "  ELF_FILE" ++ line "    The path to an elf file." ++ line "  PC" ++
  line "    The pc for which the register information should be obtained.".

Definition check_file (st : Stat) (file : list Z) : option (list Z) :=
  if negb (stat_ok st) then Some (str "Cannot stat " ++ file ++ str ": " ++ strerror st ++ [10])
  else if negb (is_regular st) then Some (file ++ line " is not a regular file.")
  else None.

Definition main (page_size : Z) (mmap_ok : bool) (st : Stat) (content : option (list Z)) (argv : list (list Z)) : outcome (Z * list Z) :=
  match argv with
  | [_; file; arg] =>
      match check_file st file with
      | Some text => Ok (1, text)
      | None =>
          match hex_argument arg with
          | None => Ok (1, str "Malformed OFFSET value: " ++ arg ++ [10])
          | Some pc => GetInfo page_size mmap_ok content file pc
          end
      end
  | _ => Ok (1, usage)
  end.
End Tool.
End RegInfo.

(** ** tools/unwind_info.cpp *)

Module UnwindInfo.
Import RegInfo.

Section Tool.
Context {A : Arch}.
Variable fuel : nat.
Variable last_error : DwarfErrorCode * Z.        (* of a [DwarfCfa] that has computed nothing *)

(** [interface->GetFunctionName(addr, load_bias, &name, &offset)], which is virtual. *)
Definition interface_function_name (k : Elf.InterfaceKind) (addr load_bias : Z) (o : ElfInterface.t)
    : outcome (option (list Z * Z) * ElfInterface.t) :=
  match k with
  | Elf.InterfaceArm => ElfInterfaceArm.GetFunctionName fuel addr load_bias o
  | k => ElfInterface.GetFunctionName (ET := Elf.types_of k) fuel addr load_bias o
  end.

(** [*it] of the section's iterator: [section_->GetFdeFromIndex(index_)]. *)
Definition fde_at {AT : AddressType} (e : Section_) (index : nat) : DwarfSectionImpl.op DwarfFde :=
  if with_hdr e then EhFrameHdr.GetFdeFromIndex fuel (Z.of_nat index) else DwarfSectionImpl.GetFdeFromIndex fuel index.

(** " <name>", or nothing when there is no name. *)
Definition name_text (f : option (list Z * Z)) : list Z :=
  match f with
  | Some (n, _) => if bool_decide (n = []) then [] else str " <" ++ n ++ str ">"
  | None => []
  end.

(** One entry: nothing for an entry that cannot be read or is empty. *)
Definition dump_fde {AT : AddressType} (k : Elf.InterfaceKind) (load_bias : Z) (index : nat) (o : ElfInterface.t) (e : Section_)
    : outcome (list Z * ElfInterface.t * Section_) :=
  r ← fde_at e index (section e);
  match r with
  | (None, s) => Ok ([], o, mkSection (with_hdr e) s)
  | (Some fde, s) =>
      if fde_pc_start fde =? fde_pc_end fde then Ok ([], o, mkSection (with_hdr e) s)
      else
        r ← interface_function_name k (fde_pc_start fde) load_bias o;
        let '(f, o) := r in
        let head := [10] ++ str "  PC 0x" ++ hex (u64 (fde_pc_start fde + load_bias)) ++ name_text f ++ [10] in
        r ← DwarfLog.section_Log last_error fuel 2 (2 ^ 64 - 1) load_bias fde s;
        let '(ok, lines, s) := r in
        let failed := if ok : bool then [] else str "Failed to process cfa information for entry at 0x" ++ hex (fde_pc_start fde) ++ [10] in
        Ok (head ++ concat (DwarfLog.vlog true <$> lines) ++ failed, o, mkSection (with_hdr e) s)
  end.

Fixpoint dump_fdes {AT : AddressType} (k : Elf.InterfaceKind) (load_bias : Z) (n index : nat) (o : ElfInterface.t) (e : Section_)
    : outcome (list Z * ElfInterface.t * Section_) :=
  match n with
  | O => Ok ([], o, e)
  | S n =>
      r ← dump_fde k load_bias index o e;
      let '(a, o, e) := r in
      r ← dump_fdes k load_bias n (S index) o e;
      let '(b, o, e) := r in
      Ok (a ++ b, o, e)
  end.

(** [DumpDwarfSection(interface, section, load_bias)] *)
Definition DumpDwarfSection {AT : AddressType} (k : Elf.InterfaceKind) (load_bias : Z) (o : ElfInterface.t) (e : Section_)
    : outcome (list Z * ElfInterface.t * Section_) :=
  dump_fdes k load_bias (Z.to_nat (DwarfSectionImpl.fde_count (section e))) 0 o e.

(** *** The exception index of arm *)

(** [*it] of the iterator of [ElfInterfaceArm]: 0 for an entry that cannot be read. *)
Definition exidx_at (index : nat) (o : ElfInterface.t) : outcome (Z * ElfInterface.t) :=
  r ← ElfInterfaceArm.entry_addr (Z.of_nat index) o;
  Ok (default 0 r.1, r.2).

(** [ArmExidx arm(nullptr, interface->memory(), nullptr)], set to print with an indentation of 2. *)
Definition printing_arm : ArmExidx.t :=
  ArmExidx.set_log_indent 2 (ArmExidx.set_log_skip_execution true (ArmExidx.set_log true (ArmExidx.new []))).

Definition arm_lines (s : ArmExidx.t) : list Z := concat (DwarfLog.vlog true <$> ArmExidx.logged s).

(** The instructions of the entry at [entry]; [process_memory] stands for the null pointer, through which
    nothing is read ([dump_entry_defined]). *)
Definition dump_entry (process_memory m : Memory) (entry : Z) : outcome (list Z) :=
  r ← ArmExidx.ExtractEntryData m (u32 entry) printing_arm;
  let '(ok, arm) := r in
  if negb ok then
    Ok (arm_lines arm ++ (if bool_decide (ArmExidx.status arm = ARM_STATUS_NO_UNWIND) then [] else line "    Error trying to extract data."))
  else if bool_decide (ArmExidx.data arm = []) then Ok (arm_lines arm)
  else
    r ← ArmExidx.Eval process_memory arm;
    match r with
    | None => Fault OutOfFuel
    | Some (ok, arm) =>
        Ok (arm_lines arm ++
            if negb ok && negb (bool_decide (ArmExidx.status arm = ARM_STATUS_NO_UNWIND))
            then line "      Error trying to evaluate dwarf data." else [])
    end.

(** The functions of the index from [index] on. *)
Fixpoint dump_index (load_bias : Z) (n index : nat) (o : ElfInterface.t) : outcome (list Z * ElfInterface.t) :=
  match n with
  | O => Ok ([], o)
  | S n =>
      r ← exidx_at index o;
      let '(addr, o) := r in
      let pc := u64 (addr + load_bias) in
      r ← ElfInterfaceArm.GetFunctionName fuel pc load_bias o;
      let '(f, o) := r in
      let head := str "  PC 0x" ++ hex pc ++ name_text f ++ [10] in
      r ← ElfInterfaceArm.FindEntry (u32 pc) o;
      let '(entry, o) := r in
      text ← match entry with
             | None => Ok (line "    Cannot find entry for address.")
             | Some entry => dump_entry ArmLog.nothing (ElfInterface.memory_ o) entry
             end;
      r ← dump_index load_bias n (S index) o;
      Ok (head ++ text ++ r.1, r.2)
  end.

Fixpoint dump_segments (loads : list LoadInfo) (o : ElfInterface.t) : outcome (list Z * ElfInterface.t) :=
  match loads with
  | [] => Ok ([], o)
  | l :: loads =>
      let load_bias := table_offset l in
      let head := str " PC Range 0x" ++ hex (u64 (load_offset l + load_bias)) ++ str " - 0x" ++ hex (u64 (table_size l + load_bias)) ++ [10] in
      r ← dump_index load_bias (Z.to_nat (total_entries_ (ElfInterfaceArm.part o))) 0 o;
      let '(a, o) := r in
      r ← dump_segments loads o;
      Ok (head ++ a ++ r.1, r.2)
  end.

Variable load_order : gmap Z LoadInfo -> list LoadInfo.    (* how [pt_loads()] is iterated *)

(** [DumpArm(interface)] of an interface that is not null. *)
Definition DumpArm (o : ElfInterface.t) : outcome (list Z * ElfInterface.t) :=
  r ← dump_segments (load_order (ElfInterface.pt_loads_ o)) o;
  Ok (line "ARM Unwind Information:" ++ r.1 ++ [10], r.2).

Variable junk : Junk.
Variable GetSoname : Elf.t -> option (list Z).

(** [GetElfInfo(file, offset)] *)
Definition GetElfInfo (page_size : Z) (mmap_ok : bool) (content : option (list Z)) (file : list Z) (offset : Z) : outcome (Z * list Z) :=
  r ← open_elf fuel junk page_size mmap_ok content file offset;
  match r with
  | inl text => Ok (1, text)
  | inr (e, _) =>
      i ← of_option NullDeref (Elf.interface_ e);
      r ← (if bool_decide (Elf.machine_type_ e = Some EM_ARM) then r ← DumpArm (Elf.object i); Ok (r.1 ++ [10], r.2)
           else Ok ([], Elf.object i));
      let '(arm, o) := r in
      text ← match ElfInterface.eh_frame_ o with
             | None => Ok ([10] ++ line "no eh_frame information")
             | Some s =>
                 r ← DumpDwarfSection (AT := @et_address (Elf.types_of (Elf.kind i))) (Elf.kind i) (Elf.load_bias_ e) o s;
                 Ok (line "eh_frame information:" ++ r.1.1 ++ [10])
             end;
      Ok (0, print_soname GetSoname e [] ++ arm ++ text ++ [10] ++ line "no debug_frame information" ++
             [10] ++ line "no valid gnu_debugdata information")
  end.

Definition usage : list Z :=
  line "Usage: unwind_info ELF_FILE [OFFSET]" ++ line "  ELF_FILE" ++ line "    The path to an elf file." ++
  line "  OFFSET" ++ line "    Use the offset into the ELF file as the beginning of the elf.".

Definition main (page_size : Z) (mmap_ok : bool) (st : Stat) (content : option (list Z)) (argv : list (list Z)) : outcome (Z * list Z) :=
  match argv with
  | [_; file] =>
      match check_file st file with
      | Some text => Ok (1, text)
      | None => GetElfInfo page_size mmap_ok content file 0
      end
  | [_; file; arg] =>
      match check_file st file with
      | Some text => Ok (1, text)
      | None =>
          match hex_argument arg with
          | None => Ok (1, str "Malformed OFFSET value: " ++ arg ++ [10])
          | Some offset => GetElfInfo page_size mmap_ok content file offset
          end
      end
  | _ => Ok (1, usage)
  end.
End Tool.
End UnwindInfo.

(** ** tools/unwind_symbols.cpp *)

Module UnwindSymbols.
Import RegInfo.

Section Tool.
Context {A : Arch}.
Variable fuel : nat.
Variable junk : Junk.
Variable GetSoname : Elf.t -> option (list Z).
Variable load_order : gmap Z LoadInfo -> list LoadInfo.    (* how [pt_loads()] is iterated *)

Definition abi_line (machine_type : option Z) : option string :=
  match machine_type with
  | None => None
  | Some m =>
      if m =? EM_ARM then Some "ABI: arm"%string
      else if m =? EM_AARCH64 then Some "ABI: arm64"%string
      else if m =? EM_386 then Some "ABI: x86"%string
      else if m =? EM_X86_64 then Some "ABI: x86_64"%string
      else None
  end.

(** The functions of a segment, every fourth address; a function is printed when its name differs from
    the one before. *)
Fixpoint segment (n : nat) (addr e : Z) (name : list Z) (elf : Elf.t) : outcome (list Z * list Z * Elf.t) :=
  if addr <? e then
    match n with
    | O => Fault OutOfFuel
    | S n =>
        r ← Elf.GetFunctionName fuel addr elf;
        let '(f, elf) := r in
        match f with
        | None => segment n (u64 (addr + 4)) e name elf
        | Some (cur_name, func_offset) =>
            r ← segment n (u64 (addr + 4)) e cur_name elf;
            let '(rest, name', elf) := r in
            let text := if bool_decide (cur_name = name) then []
                        else str "<0x" ++ hex (u64 (addr - func_offset)) ++ str "> Function: " ++ cur_name ++ [10] in
            Ok (text ++ rest, name', elf)
        end
    end
  else Ok ([], name, elf).

Fixpoint segments (n : nat) (loads : list LoadInfo) (name : list Z) (elf : Elf.t) : outcome (list Z) :=
  match loads with
  | [] => Ok []
  | l :: loads =>
      let load_bias := Elf.load_bias_ elf in
      r ← segment n (u64 (load_offset l + load_bias)) (u64 (table_size l + load_bias)) name elf;
      let '(a, name, elf) := r in
      b ← segments n loads name elf;
      Ok (a ++ b)
  end.

(** The function at an address. *)
Definition function_at (func_addr : Z) (elf : Elf.t) : outcome (Z * list Z) :=
  r ← Elf.GetFunctionName fuel func_addr elf;
  match r.1 with
  | None => Ok (1, str "No known function at 0x" ++ hex func_addr ++ [10])
  | Some (cur_name, func_offset) =>
      Ok (0, str "<0x" ++ hex (u64 (func_addr - func_offset)) ++ str ">" ++
             (if func_offset =? 0 then [] else str "+" ++ dec (swrap 64 func_offset)) ++ str ": " ++ cur_name ++ [10])
  end.

Definition run (n : nat) (page_size : Z) (mmap_ok : bool) (content : option (list Z)) (file : list Z) (func_addr : option Z) : outcome (Z * list Z) :=
  r ← open_elf fuel junk page_size mmap_ok content file 0;
  match r with
  | inl text => Ok (1, text)
  | inr (e, _) =>
      let head := print_soname GetSoname e [10] in
      match abi_line (Elf.machine_type_ e) with
      | None => Ok (1, head ++ line "ABI: unknown")
      | Some abi =>
          match func_addr with
          | Some a => r ← function_at a e; Ok (r.1, head ++ line abi ++ r.2)
          | None =>
              i ← of_option NullDeref (Elf.interface_ e);
              text ← segments n (load_order (ElfInterface.pt_loads_ (Elf.object i))) [] e;
              Ok (0, head ++ line abi ++ text)
          end
      end
  end.

Definition usage : list Z :=
  line "Usage: unwind_symbols <ELF_FILE> [<FUNC_ADDRESS>]" ++ line "  Dump all function symbols in ELF_FILE. If FUNC_ADDRESS is" ++
  line "  specified, then get the function at that address." ++ line "  FUNC_ADDRESS must be a hex number.".

Definition main (n : nat) (page_size : Z) (mmap_ok : bool) (st : Stat) (content : option (list Z)) (argv : list (list Z)) : outcome (Z * list Z) :=
  match argv with
  | [_; file] =>
      match check_file st file with
      | Some text => Ok (1, text)
      | None => run n page_size mmap_ok content file None
      end
  | [_; file; arg] =>
      match check_file st file with
      | Some text => Ok (1, text)
      | None =>
          match hex_argument arg with
          | None => Ok (1, arg ++ line " is not a hex number.")
          | Some a => run n page_size mmap_ok content file (Some a)
          end
      end
  | _ => Ok (1, usage)
  end.
End Tool.
End UnwindSymbols.

(** ** Facts and concrete runs *)

Module ToolFacts.
Import RegInfo UnwindSymbols.

#[local] Instance reg_order_total : Total reg_order.
Proof. intros a b. unfold reg_order. lia. Qed.
#[local] Instance reg_order_trans : Transitive reg_order.
Proof. intros a b c. unfold reg_order. lia. Qed.

(** Every rule is printed once: that of the CFA first, then the registers by their number. *)
Theorem reg_info_lists_rules (m : gmap Z DwarfLocation) :
  sorted_rules m ≡ₚ map_to_list m /\
  (forall i j a b, (i < j)%nat -> sorted_rules m !! i = Some a -> sorted_rules m !! j = Some b ->
     b.1 <> CFA_REG /\ (a.1 = CFA_REG \/ a.1 < b.1)).
Proof.
  assert (sorted_rules m ≡ₚ map_to_list m) as HP by apply merge_sort_Permutation. split; [done|].
  intros i j a b Hij Ha Hb. pose proof (StronglySorted_merge_sort reg_order (map_to_list m)) as Hs. fold (sorted_rules m) in Hs.
  pose proof (sorted_lookup _ _ i j a b Hs Hij Ha Hb) as HO.
  assert (NoDup (sorted_rules m).*1) as Hn by (rewrite HP; apply NoDup_fst_map_to_list).
  assert (a.1 <> b.1) as Hne.
  { intros E. enough (i = j) by lia. eapply NoDup_lookup; [done|rewrite list_lookup_fmap, Ha; done|rewrite list_lookup_fmap, Hb; cbn; by rewrite E]. }
  unfold reg_order in HO. lia.
Qed.

(** The comparison given to [std::sort] holds between the CFA and itself: it is not the strict order
    the algorithm requires. *)
Example comparison_not_strict loc : before (CFA_REG, loc) (CFA_REG, loc) = true.
Proof. reflexivity. Qed.

(** C22. unwind_info prints every entry of an exception index, whatever the file holds: extracting and
    printing an entry with null registers returns a text, the same one whatever the process memory is,
    so that the null pointer passed for it is never used; the only undefined behaviour left is an
    over-long operand. *)
Theorem dump_entry_defined m entry :
  (exists text, forall process_memory, UnwindInfo.dump_entry process_memory m entry = Ok text) \/
  (forall process_memory, UnwindInfo.dump_entry process_memory m entry = Fault BadShift) \/
  (forall process_memory, UnwindInfo.dump_entry process_memory m entry = Fault SignedOverflow).
Proof.
  unfold UnwindInfo.dump_entry. pose proof (ArmExidx.extract_entry_ok m (u32 entry) UnwindInfo.printing_arm) as HE.
  pose proof (ArmLog.keeps_extract m (u32 entry) UnwindInfo.printing_arm) as HK.
  destruct (ArmExidx.ExtractEntryData m (u32 entry) UnwindInfo.printing_arm) as [[[] arm]|]; [| |done].
  2: { left. by eexists. }
  destruct HE as (Hb & _), HK as [K1 K2]. setoid_rewrite bind_Ok. cbn [negb]. destruct (bool_decide _); [left; by eexists|].
  destruct (ArmLog.dump_touches_nothing arm) as [(b & o & st & _ & HD)|[HD|HD]]; [done..| | |].
  - left. eexists. intros pm. destruct (HD pm) as (d & -> & _ & HL & HS). rewrite bind_Ok. unfold UnwindInfo.arm_lines.
    rewrite HL, HS. reflexivity.
  - right. left. intros pm. by rewrite HD.
  - right. right. intros pm. by rewrite HD.
Qed.

(** [DumpArm] looks up the address with the load bias, which the index does not contain: of the index
    of UwElfArm in a file loaded at 16, the first function (at 4096, cannot be unwound) is printed with
    the instructions of the second one, and the second one with its own. *)
Example dump_looks_up_biased :
  (r ← UnwindInfo.dump_index (A := ILP32) 8 16 2 0 IndexExamples.index_file; Ok r.1) =
  Ok (line "  PC 0x1010" ++ line "    Raw Data: 0xa8 0xb0 0xb0" ++ line "    pop {r4, r14}" ++ line "    finish" ++
      line "  PC 0x1020" ++ line "    Raw Data: 0xa8 0xb0 0xb0" ++ line "    pop {r4, r14}" ++ line "    finish").
Proof. vm_compute. reflexivity. Qed.

(** The end of a segment is its size, not its offset and its size: of a segment behind its own size
    nothing is printed. *)
Example later_segment_skipped fuel e :
  Elf.load_bias_ e = 0 -> segments fuel 8 [mkLoad 4096 4096 256] [] e = Ok [].
Proof. intros H. cbn [segments]. rewrite H. reflexivity. Qed.

(** The rules of a function that saves two registers. *)
Definition some_rules : gmap Z DwarfLocation :=
  {[ 16 := mkLoc DWARF_LOCATION_OFFSET (2 ^ 64 - 8) 0; CFA_REG := mkLoc DWARF_LOCATION_REGISTER 7 16; 3 := mkLoc DWARF_LOCATION_UNDEFINED 0 0 ]}.

Example rules_text :
  print_all 20 (fun _ _ => []) ELFCLASS64 (sorted_rules some_rules) =
    Ok (line "  cfa = r7 + 16" ++ line "  r3 = undefine" ++ line "  r16 = [cfa - 8]").
Proof. vm_compute. reflexivity. Qed.

Example expression_text :
  print_location 20 (DwarfMemory.buffer [0; 8; 5; 6]) ELFCLASS64 (4, mkLoc DWARF_LOCATION_EXPRESSION 3 4) =
    Ok (line "  r4 = EXPRESSION" ++ line "    DW_OP_const1u 5" ++ line "    Raw Data: 0x08 0x05" ++ line "    DW_OP_deref" ++ line "    Raw Data: 0x06").
Proof. vm_compute. reflexivity. Qed.
End ToolFacts.
